(** * Password_Manager: the cryptographic and vault engine, embedded in Rocq

    A shallow embedding of the TypeScript sources
    - [packages/shared/src/crypto/aes.ts]   (AES-256 block cipher),
    - [packages/shared/src/crypto/ghash.ts] (GF(2^128) and GHASH),
    - [packages/shared/src/crypto/gcm.ts]   (AES-256-GCM),
    - [packages/shared/src/srp.ts]          (SRP-6a client and server),
    - [packages/client/src/client_backend/vault.ts] (the vault engine),
    - [packages/client/src/client_backend/accountOperations.ts] (CSV export
      and import),
    followed by the properties of the specification checked against them.

    Conventions.  A [Uint8Array] is a [list Z] whose elements are bytes; a
    store into it goes through [u8] (ToUint8, i.e. reduction modulo 256) and
    a store outside the array is dropped, as JavaScript does.  A [bigint] is
    a [Z]; [/] and [%] on bigints are [Z.quot] and [Z.rem].  A number that
    counts (an identifier, a version) is a [Z] as well: a theorem that
    states the result of [x + 1] on it takes [x] below 2^53 in absolute
    value ([safe_integer]), where the addition of numbers is exact.  A text
    is held as the bytes of its UTF-8 encoding.  A thrown
    exception is the [Err] branch of [result]; an instance whose fields were
    assigned before the throw keeps those assignments. *)

From Stdlib Require Import ZArith Lia List String Ascii HexString DecimalString.
From Stdlib Require Import Znumtheory Sorted Btauto.
From stdpp Require Import base list strings gmap.

Local Open Scope Z_scope.

(** ** Exceptions *)

Inductive error : Type :=
  | InvalidKeySize (got : nat)        (* aes.ts: "Invalid key size: expected 32 bytes" *)
  | InvalidBlockSize (got : nat)      (* aes.ts: "Invalid block size: expected 16 bytes" *)
  | Expected16Bytes (got : nat)       (* ghash.ts: "Expected 16 bytes" *)
  | InvalidHLength (got : nat)        (* ghash.ts: "Invalid H length: expected 16 bytes" *)
  | UnpaddedData (got : nat)          (* ghash.ts: "Data must be padded to multiple of 16 bytes" *)
  | InvalidTagSize (got : nat)        (* gcm.ts: "Invalid tag size" *)
  | AuthenticationFailed              (* gcm.ts: "Authentication failed: invalid tag" *)
  | RangeError                        (* TypedArray.prototype.set: source does not fit *)
  | SyntaxError                       (* BigInt(...) / JSON.parse on malformed text *)
  | InvalidCharacterError             (* atob on malformed base64 *)
  | SafetyCheckB                      (* srp.ts: "Safety check failed: B is zero" *)
  | SafetyCheckA                      (* srp.ts: "Safety check failed: A is zero" *)
  | InvalidProof                      (* srp.ts: "Invalid proof" *)
  | PasswordVerificationFailed        (* vault.ts: "Password verification failed" *)
  | RemoteImportVerificationFailed    (* vault.ts: "Remote import verification failed" *)
  | CannotRetrieveSecretKey           (* vault.ts: "Cannot retrieve secret key" *)
  | CurrentPasswordIncorrect          (* vault.ts: "Current password is incorrect" *)
  | ServerUpdateFailed                (* vault.ts: "Failed to update password on server" *)
  | NoDataRows                        (* accountOperations.ts: "CSV file is empty or has no data rows" *)
  | FetchFailed.                      (* fetch rejects: the server cannot be reached *)

Inductive result (A : Type) : Type :=
  | Ok (a : A)
  | Err (e : error).
Arguments Ok {A} a.
Arguments Err {A} e.

Definition bind {A B} (r : result A) (k : A -> result B) : result B :=
  match r with
  | Ok a => k a
  | Err e => Err e
  end.

Notation "'let*' x ':=' r 'in' k" := (bind r (fun x => k))
  (at level 10, x pattern, r at level 200, k at level 200,
   format "'[v' 'let*'  x  :=  r  'in' '/' k ']'").

Definition is_ok {A} (r : result A) : bool :=
  match r with Ok _ => true | Err _ => false end.

(** A [for] loop whose body may throw. *)
Fixpoint forM {S} (body : S -> nat -> result S) (idx : list nat) (s : S) : result S :=
  match idx with
  | [] => Ok s
  | i :: rest => let* s' := body s i in forM body rest s'
  end.

(** ** Typed arrays *)

Abbreviation bytes := (list Z).

Definition u8 (z : Z) : Z := Z.land z 255.

(** [a[i]] as an operand of [^], [&], [|]: an absent element reads as 0. *)
Definition get (a : list Z) (i : nat) : Z := nth i a 0.

(** [a[i] = v] on a [Uint8Array]. *)
Definition put (a : bytes) (i : nat) (v : Z) : bytes := <[i := u8 v]> a.

(** [new Uint8Array(n)]. *)
Definition alloc (n : nat) : bytes := replicate n 0.

(** [a.slice(s, e)]. *)
Definition slice (a : bytes) (s e : nat) : bytes := take (e - s) (drop s a).

(** [dst.set(src, off)]. *)
Definition set_at (dst src : bytes) (off : nat) : result bytes :=
  if (off + length src <=? length dst)%nat
  then Ok (take off dst ++ src ++ drop (off + length src) dst)
  else Err RangeError.

Definition is_byte (z : Z) : Prop := 0 <= z < 256.
Definition is_bytes (a : bytes) : Prop := Forall is_byte a.

(** ** aes.ts *)

Module AES.

Definition S_BOX : list Z := [
    99; 124; 119; 123; 242; 107; 111; 197; 48; 1; 103; 43; 254; 215; 171; 118;
    202; 130; 201; 125; 250; 89; 71; 240; 173; 212; 162; 175; 156; 164; 114; 192;
    183; 253; 147; 38; 54; 63; 247; 204; 52; 165; 229; 241; 113; 216; 49; 21;
    4; 199; 35; 195; 24; 150; 5; 154; 7; 18; 128; 226; 235; 39; 178; 117;
    9; 131; 44; 26; 27; 110; 90; 160; 82; 59; 214; 179; 41; 227; 47; 132;
    83; 209; 0; 237; 32; 252; 177; 91; 106; 203; 190; 57; 74; 76; 88; 207;
    208; 239; 170; 251; 67; 77; 51; 133; 69; 249; 2; 127; 80; 60; 159; 168;
    81; 163; 64; 143; 146; 157; 56; 245; 188; 182; 218; 33; 16; 255; 243; 210;
    205; 12; 19; 236; 95; 151; 68; 23; 196; 167; 126; 61; 100; 93; 25; 115;
    96; 129; 79; 220; 34; 42; 144; 136; 70; 238; 184; 20; 222; 94; 11; 219;
    224; 50; 58; 10; 73; 6; 36; 92; 194; 211; 172; 98; 145; 149; 228; 121;
    231; 200; 55; 109; 141; 213; 78; 169; 108; 86; 244; 234; 101; 122; 174; 8;
    186; 120; 37; 46; 28; 166; 180; 198; 232; 221; 116; 31; 75; 189; 139; 138;
    112; 62; 181; 102; 72; 3; 246; 14; 97; 53; 87; 185; 134; 193; 29; 158;
    225; 248; 152; 17; 105; 217; 142; 148; 155; 30; 135; 233; 206; 85; 40; 223;
    140; 161; 137; 13; 191; 230; 66; 104; 65; 153; 45; 15; 176; 84; 187; 22 ].

Definition RCON : list Z := [ 0x01; 0x02; 0x04; 0x08; 0x10; 0x20; 0x40; 0x80; 0x1b; 0x36 ].

Definition BLOCK_SIZE : nat := 16.
Definition KEY_SIZE : nat := 32.
Definition NUM_ROUNDS : nat := 14.
Definition NK : nat := 8.
Definition NB : nat := 4.

(** One turn of the loop of [gmul]; the state is [(result, a, b)]. *)
Definition gmul_step (s : Z * Z * Z) : Z * Z * Z :=
  let '(result, a, b) := s in
  let result := if Z.land b 1 =? 0 then result else Z.lxor result a in
  let highBit := Z.land a 0x80 in
  let a := Z.land (Z.shiftl a 1) 0xff in
  let a := if highBit =? 0 then a else Z.lxor a 0x1b in
  (result, a, Z.shiftr b 1).

Definition gmul (a b : Z) : Z :=
  let '(result, _, _) := Nat.iter 8 gmul_step (0, a, b) in result.

Definition rotWord (word : list Z) : list Z :=
  [get word 1; get word 2; get word 3; get word 0].

Definition subWord (word : list Z) : list Z :=
  map (fun b => get S_BOX (Z.to_nat b)) word.

(** [w[i]]: a word of the key schedule. *)
Definition word_at (w : list (list Z)) (i : nat) : list Z := nth i w [].

(** The body of the loop "Generate remaining words"; [w[i] = ...] with
    [i = w.length] appends. *)
Definition expand_step (w : list (list Z)) (i : nat) : list (list Z) :=
  let temp := word_at w (i - 1) in
  let temp :=
    if (i mod NK =? 0)%nat then
      let t := subWord (rotWord temp) in
      <[0%nat := Z.lxor (get t 0) (get RCON (i / NK - 1))]> t
    else if ((6 <? NK) && (i mod NK =? 4))%nat then subWord temp
    else temp in
  w ++ [ [ Z.lxor (get (word_at w (i - NK)) 0) (get temp 0);
           Z.lxor (get (word_at w (i - NK)) 1) (get temp 1);
           Z.lxor (get (word_at w (i - NK)) 2) (get temp 2);
           Z.lxor (get (word_at w (i - NK)) 3) (get temp 3) ] ].

(** The round key of one round: [roundKey[word * 4 + byte] = w[round * NB + word][byte]]. *)
Definition round_key (w : list (list Z)) (round : nat) : bytes :=
  foldl (fun rk word =>
           foldl (fun rk byte =>
                    put rk (word * 4 + byte) (get (word_at w (round * NB + word)) byte))
                 rk (seq 0 4))
        (alloc BLOCK_SIZE) (seq 0 NB).

Definition keyExpansion (key : bytes) : result (list bytes) :=
  if negb (length key =? KEY_SIZE)%nat then Err (InvalidKeySize (length key))
  else
    let totalWords := (NB * (NUM_ROUNDS + 1))%nat in
    let w := map (fun i => [get key (4 * i); get key (4 * i + 1);
                            get key (4 * i + 2); get key (4 * i + 3)]) (seq 0 NK) in
    let w := foldl expand_step w (seq NK (totalWords - NK)) in
    Ok (map (round_key w) (seq 0 (NUM_ROUNDS + 1))).

Definition addRoundKey (state roundKey : bytes) : bytes :=
  foldl (fun st i => put st i (Z.lxor (get st i) (get roundKey i))) state (seq 0 BLOCK_SIZE).

Definition subBytes (state : bytes) : bytes :=
  foldl (fun st i => put st i (get S_BOX (Z.to_nat (get st i)))) state (seq 0 BLOCK_SIZE).

Definition shiftRows (state : bytes) : bytes :=
  (* Row 1: shift left by 1 *)
  let temp1 := get state 1 in
  let state := put state 1 (get state 5) in
  let state := put state 5 (get state 9) in
  let state := put state 9 (get state 13) in
  let state := put state 13 temp1 in
  (* Row 2: shift left by 2 *)
  let temp2a := get state 2 in
  let temp2b := get state 6 in
  let state := put state 2 (get state 10) in
  let state := put state 6 (get state 14) in
  let state := put state 10 temp2a in
  let state := put state 14 temp2b in
  (* Row 3: shift left by 3 *)
  let temp3 := get state 15 in
  let state := put state 15 (get state 11) in
  let state := put state 11 (get state 7) in
  let state := put state 7 (get state 3) in
  put state 3 temp3.

Definition mixColumns (state : bytes) : bytes :=
  foldl (fun state col =>
           let i := (col * 4)%nat in
           let s0 := get state i in
           let s1 := get state (i + 1) in
           let s2 := get state (i + 2) in
           let s3 := get state (i + 3) in
           let state := put state i
             (Z.lxor (Z.lxor (Z.lxor (gmul 2 s0) (gmul 3 s1)) s2) s3) in
           let state := put state (i + 1)
             (Z.lxor (Z.lxor (Z.lxor s0 (gmul 2 s1)) (gmul 3 s2)) s3) in
           let state := put state (i + 2)
             (Z.lxor (Z.lxor (Z.lxor s0 s1) (gmul 2 s2)) (gmul 3 s3)) in
           put state (i + 3)
             (Z.lxor (Z.lxor (Z.lxor (gmul 3 s0) s1) s2) (gmul 2 s3)))
        state (seq 0 4).

(** [roundKeys[round]]. *)
Definition key_at (roundKeys : list bytes) (round : nat) : bytes := nth round roundKeys [].

(** The rounds of [encryptBlock], after the size check and the copy. *)
Definition rounds (state : bytes) (roundKeys : list bytes) : bytes :=
  let state := addRoundKey state (key_at roundKeys 0) in
  let state :=
    foldl (fun state round =>
             addRoundKey (mixColumns (shiftRows (subBytes state))) (key_at roundKeys round))
          state (seq 1 (NUM_ROUNDS - 1)) in
  addRoundKey (shiftRows (subBytes state)) (key_at roundKeys NUM_ROUNDS).

Definition encryptBlock (plaintext : bytes) (roundKeys : list bytes) : result bytes :=
  if negb (length plaintext =? BLOCK_SIZE)%nat then Err (InvalidBlockSize (length plaintext))
  else Ok (rounds plaintext roundKeys).

(** *** Decryption *)

Definition INV_S_BOX : list Z := [
    82; 9; 106; 213; 48; 54; 165; 56; 191; 64; 163; 158; 129; 243; 215; 251;
    124; 227; 57; 130; 155; 47; 255; 135; 52; 142; 67; 68; 196; 222; 233; 203;
    84; 123; 148; 50; 166; 194; 35; 61; 238; 76; 149; 11; 66; 250; 195; 78;
    8; 46; 161; 102; 40; 217; 36; 178; 118; 91; 162; 73; 109; 139; 209; 37;
    114; 248; 246; 100; 134; 104; 152; 22; 212; 164; 92; 204; 93; 101; 182; 146;
    108; 112; 72; 80; 253; 237; 185; 218; 94; 21; 70; 87; 167; 141; 157; 132;
    144; 216; 171; 0; 140; 188; 211; 10; 247; 228; 88; 5; 184; 179; 69; 6;
    208; 44; 30; 143; 202; 63; 15; 2; 193; 175; 189; 3; 1; 19; 138; 107;
    58; 145; 17; 65; 79; 103; 220; 234; 151; 242; 207; 206; 240; 180; 230; 115;
    150; 172; 116; 34; 231; 173; 53; 133; 226; 249; 55; 232; 28; 117; 223; 110;
    71; 241; 26; 113; 29; 41; 197; 137; 111; 183; 98; 14; 170; 24; 190; 27;
    252; 86; 62; 75; 198; 210; 121; 32; 154; 219; 192; 254; 120; 205; 90; 244;
    31; 221; 168; 51; 136; 7; 199; 49; 177; 18; 16; 89; 39; 128; 236; 95;
    96; 81; 127; 169; 25; 181; 74; 13; 45; 229; 122; 159; 147; 201; 156; 239;
    160; 224; 59; 77; 174; 42; 245; 176; 200; 235; 187; 60; 131; 83; 153; 97;
    23; 43; 4; 126; 186; 119; 214; 38; 225; 105; 20; 99; 85; 33; 12; 125 ].

Definition invSubBytes (state : bytes) : bytes :=
  foldl (fun st i => put st i (get INV_S_BOX (Z.to_nat (get st i)))) state (seq 0 BLOCK_SIZE).

Definition invShiftRows (state : bytes) : bytes :=
  (* Row 1: shift right by 1 *)
  let temp1 := get state 13 in
  let state := put state 13 (get state 9) in
  let state := put state 9 (get state 5) in
  let state := put state 5 (get state 1) in
  let state := put state 1 temp1 in
  (* Row 2: shift right by 2 *)
  let temp2a := get state 2 in
  let temp2b := get state 6 in
  let state := put state 2 (get state 10) in
  let state := put state 6 (get state 14) in
  let state := put state 10 temp2a in
  let state := put state 14 temp2b in
  (* Row 3: shift right by 3 *)
  let temp3 := get state 3 in
  let state := put state 3 (get state 7) in
  let state := put state 7 (get state 11) in
  let state := put state 11 (get state 15) in
  put state 15 temp3.

Definition invMixColumns (state : bytes) : bytes :=
  foldl (fun state col =>
           let i := (col * 4)%nat in
           let s0 := get state i in
           let s1 := get state (i + 1) in
           let s2 := get state (i + 2) in
           let s3 := get state (i + 3) in
           let state := put state i
             (Z.lxor (Z.lxor (Z.lxor (gmul 14 s0) (gmul 11 s1)) (gmul 13 s2)) (gmul 9 s3)) in
           let state := put state (i + 1)
             (Z.lxor (Z.lxor (Z.lxor (gmul 9 s0) (gmul 14 s1)) (gmul 11 s2)) (gmul 13 s3)) in
           let state := put state (i + 2)
             (Z.lxor (Z.lxor (Z.lxor (gmul 13 s0) (gmul 9 s1)) (gmul 14 s2)) (gmul 11 s3)) in
           put state (i + 3)
             (Z.lxor (Z.lxor (Z.lxor (gmul 11 s0) (gmul 13 s1)) (gmul 9 s2)) (gmul 14 s3)))
        state (seq 0 4).

(** The rounds of [decryptBlock], after the size check and the copy; the loop
    runs [round] from [NUM_ROUNDS - 1] down to 1. *)
Definition inv_rounds (state : bytes) (roundKeys : list bytes) : bytes :=
  let state := addRoundKey state (key_at roundKeys NUM_ROUNDS) in
  let state :=
    foldl (fun state round =>
             invMixColumns
               (addRoundKey (invSubBytes (invShiftRows state)) (key_at roundKeys round)))
          state (rev (seq 1 (NUM_ROUNDS - 1))) in
  addRoundKey (invSubBytes (invShiftRows state)) (key_at roundKeys 0).

Definition decryptBlock (ciphertext : bytes) (roundKeys : list bytes) : result bytes :=
  if negb (length ciphertext =? BLOCK_SIZE)%nat then Err (InvalidBlockSize (length ciphertext))
  else Ok (inv_rounds ciphertext roundKeys).

End AES.

(** ** ghash.ts *)

Module GHash.

Definition MASK64 : Z := 0xffffffffffffffff.

Record GF128 : Type := { high : Z; low : Z }.

(** [new GF128(high, low)]: the constructor masks both halves to 64 bits. *)
Definition mk (h l : Z) : GF128 := {| high := Z.land h MASK64; low := Z.land l MASK64 |}.

Definition fromBytes (b : bytes) : result GF128 :=
  if negb (length b =? 16)%nat then Err (Expected16Bytes (length b))
  else
    let h := foldl (fun h i => Z.lor (Z.shiftl h 8) (get b i)) 0 (seq 0 8) in
    let l := foldl (fun l i => Z.lor (Z.shiftl l 8) (get b i)) 0 (seq 8 8) in
    Ok (mk h l).

Definition toBytes (x : GF128) : bytes :=
  let '(result, _) :=
    foldl (fun '(result, h) i => (put result i (Z.land h 0xff), Z.shiftr h 8))
          (alloc 16, high x) (rev (seq 0 8)) in
  let '(result, _) :=
    foldl (fun '(result, l) i => (put result i (Z.land l 0xff), Z.shiftr l 8))
          (result, low x) (rev (seq 8 8)) in
  result.

Definition xor (x other : GF128) : GF128 :=
  mk (Z.lxor (high x) (high other)) (Z.lxor (low x) (low other)).

Definition getBit (x : GF128) (pos : nat) : bool :=
  if (pos <? 64)%nat
  then Z.land (Z.shiftr (high x) (Z.of_nat (63 - pos))) 1 =? 1
  else Z.land (Z.shiftr (low x) (Z.of_nat (127 - pos))) 1 =? 1.

Definition shiftRight (x : GF128) : GF128 :=
  let newLow := Z.lor (Z.shiftr (low x) 1) (Z.shiftl (Z.land (high x) 1) 63) in
  let newHigh := Z.shiftr (high x) 1 in
  mk newHigh newLow.

Definition R : GF128 := mk 0xe100000000000000 0.

Definition gf128Multiply (X Y : GF128) : GF128 :=
  let '(Zacc, _) :=
    foldl (fun '(Zacc, V) i =>
             let Zacc := if getBit X i then xor Zacc V else Zacc in
             let lsb := Z.land (low V) 1 =? 1 in
             let V := shiftRight V in
             let V := if lsb then xor V R else V in
             (Zacc, V))
          (mk 0 0, mk (high Y) (low Y)) (seq 0 128) in
  Zacc.

Definition ghash (H data : bytes) : result bytes :=
  if negb (length H =? 16)%nat then Err (InvalidHLength (length H))
  else if negb (length data mod 16 =? 0)%nat then Err (UnpaddedData (length data))
  else
    let* hashKey := fromBytes H in
    let numBlocks := (length data / 16)%nat in
    let* Y := forM (fun Y i =>
                      let block := slice data (i * 16) ((i + 1) * 16) in
                      let* X := fromBytes block in
                      Ok (gf128Multiply (xor Y X) hashKey))
                   (seq 0 numBlocks) (mk 0 0) in
    Ok (toBytes Y).

Definition padTo16 (data : bytes) : result bytes :=
  let remainder := (length data mod 16)%nat in
  if (remainder =? 0)%nat then Ok data
  else set_at (alloc (length data + (16 - remainder))) data 0.

Definition createLengthBlock (aadLength ciphertextLength : nat) : bytes :=
  let aadBits := Z.of_nat aadLength * 8 in
  let cipherBits := Z.of_nat ciphertextLength * 8 in
  let '(block, _) :=
    foldl (fun '(block, a) i => (put block i (Z.land a 0xff), Z.shiftr a 8))
          (alloc 16, aadBits) (rev (seq 0 8)) in
  let '(block, _) :=
    foldl (fun '(block, c) i => (put block i (Z.land c 0xff), Z.shiftr c 8))
          (block, cipherBits) (rev (seq 8 8)) in
  block.

End GHash.

(** ** gcm.ts *)

Module GCM.

Definition GCM_IV_SIZE : nat := 12.
Definition GCM_TAG_SIZE : nat := 16.
Definition BLOCK_SIZE : nat := 16.

(** The loop of [incrementCounter], from index 15 down to 12, with its [break]. *)
Fixpoint increment_from (idx : list nat) (result : bytes) : bytes :=
  match idx with
  | [] => result
  | i :: rest =>
      if (i <? length result)%nat then
        let result := put result i (get result i + 1) in
        if get result i =? 0 then increment_from rest result else result
      else result
  end.

Definition incrementCounter (counter : bytes) : bytes :=
  increment_from [15; 14; 13; 12]%nat counter.

Definition xorBytes (a b : bytes) : bytes :=
  foldl (fun result i => put result i (Z.lxor (get a i) (get b i)))
        (alloc (length a)) (seq 0 (length a)).

Definition generateJ0 (iv H : bytes) : result bytes :=
  if (length iv =? GCM_IV_SIZE)%nat then
    let* J0 := set_at (alloc BLOCK_SIZE) iv 0 in
    Ok (put J0 15 1)
  else
    let* paddedIV := GHash.padTo16 iv in
    let lengthBlock := GHash.createLengthBlock 0 (length iv) in
    let ghashInput := alloc (length paddedIV + 16) in
    let* ghashInput := set_at ghashInput paddedIV 0 in
    let* ghashInput := set_at ghashInput lengthBlock (length paddedIV) in
    GHash.ghash H ghashInput.

Definition gctr (roundKeys : list bytes) (icb data : bytes) : result bytes :=
  if (length data =? 0)%nat then Ok (alloc 0)
  else
    let result := alloc (length data) in
    let numFullBlocks := (length data / BLOCK_SIZE)%nat in
    let counter := icb in
    (* Process full blocks *)
    let* (result, counter) :=
      forM (fun '(result, counter) i =>
              let* keystream := AES.encryptBlock counter roundKeys in
              let plaintextBlock := slice data (i * BLOCK_SIZE) ((i + 1) * BLOCK_SIZE) in
              let ciphertextBlock := xorBytes plaintextBlock keystream in
              let* result := set_at result ciphertextBlock (i * BLOCK_SIZE) in
              Ok (result, incrementCounter counter))
           (seq 0 numFullBlocks) (result, counter) in
    (* Process partial last block (if any) *)
    let remainder := (length data mod BLOCK_SIZE)%nat in
    if (0 <? remainder)%nat then
      let* keystream := AES.encryptBlock counter roundKeys in
      let lastBlockStart := (numFullBlocks * BLOCK_SIZE)%nat in
      Ok (foldl (fun result i =>
                   put result (lastBlockStart + i)
                       (Z.lxor (get data (lastBlockStart + i)) (get keystream i)))
                result (seq 0 remainder))
    else Ok result.

Record GCMEncryptResult : Type := { ciphertext : bytes; tag : bytes }.

(** The GHASH input [pad(AAD) || pad(C) || len(AAD) || len(C)], assembled the
    same way by [encrypt] (step 6) and [decrypt] (step 4). *)
Definition ghash_input (aad ciphertext : bytes) : result bytes :=
  let* paddedAAD := GHash.padTo16 aad in
  let* paddedCiphertext := GHash.padTo16 ciphertext in
  let lengthBlock := GHash.createLengthBlock (length aad) (length ciphertext) in
  let ghashInput := alloc (length paddedAAD + length paddedCiphertext + 16) in
  let* ghashInput := set_at ghashInput paddedAAD 0 in
  let* ghashInput := set_at ghashInput paddedCiphertext (length paddedAAD) in
  set_at ghashInput lengthBlock (length paddedAAD + length paddedCiphertext).

Definition encrypt (key iv plaintext aad : bytes) : result GCMEncryptResult :=
  (* Step 1: round keys *)
  let* roundKeys := AES.keyExpansion key in
  (* Step 2: H = AES_K(0^128) *)
  let zeroBlock := alloc BLOCK_SIZE in
  let* H := AES.encryptBlock zeroBlock roundKeys in
  (* Step 3: J0 *)
  let* J0 := generateJ0 iv H in
  (* Step 4: ICB = J0 + 1 *)
  let ICB := incrementCounter J0 in
  (* Step 5: GCTR over the plaintext *)
  let* ciphertext := gctr roundKeys ICB plaintext in
  (* Step 6: GHASH over pad(AAD) || pad(C) || lengths *)
  let* ghashInput := ghash_input aad ciphertext in
  let* S_ := GHash.ghash H ghashInput in
  (* Step 7: tag = GCTR_K(J0, S) *)
  let* tag := gctr roundKeys J0 S_ in
  Ok {| ciphertext := ciphertext; tag := tag |}.

Definition decrypt (key iv ciphertext tag aad : bytes) : result bytes :=
  if negb (length tag =? GCM_TAG_SIZE)%nat then Err (InvalidTagSize (length tag))
  else
    let* roundKeys := AES.keyExpansion key in
    let zeroBlock := alloc BLOCK_SIZE in
    let* H := AES.encryptBlock zeroBlock roundKeys in
    let* J0 := generateJ0 iv H in
    (* Step 4: recompute the tag *)
    let* ghashInput := ghash_input aad ciphertext in
    let* S_ := GHash.ghash H ghashInput in
    let* computedTag := gctr roundKeys J0 S_ in
    (* Step 5: compare all 16 bytes, without an early exit *)
    let tagValid :=
      foldl (fun tagValid i => if get computedTag i =? get tag i then tagValid else false)
            true (seq 0 GCM_TAG_SIZE) in
    if negb tagValid then Err AuthenticationFailed
    else
      (* Step 6: GCTR over the ciphertext *)
      let ICB := incrementCounter J0 in
      gctr roundKeys ICB ciphertext.

(** *** The class [AES256GCM] *)

Module AES256GCM.

(** The private fields of an instance. *)
Record t : Type := { roundKeys : list bytes; H : bytes }.

(** [new AES256GCM(key)]. *)
Definition new (key : bytes) : result t :=
  if negb (length key =? 32)%nat then Err (InvalidKeySize (length key))
  else
    let* roundKeys := AES.keyExpansion key in
    let zeroBlock := alloc BLOCK_SIZE in
    let* H := AES.encryptBlock zeroBlock roundKeys in
    Ok {| roundKeys := roundKeys; H := H |}.

(** The GHASH input of the two methods; [aad] is optional:
    [aad ? padTo16(aad) : new Uint8Array(0)] and [aad?.length || 0]. *)
Definition ghash_input (aad : option bytes) (ciphertext : bytes) : result bytes :=
  let* paddedAAD := match aad with
                    | Some a => GHash.padTo16 a
                    | None => Ok (alloc 0)
                    end in
  let* paddedCiphertext := GHash.padTo16 ciphertext in
  let lengthBlock :=
    GHash.createLengthBlock (match aad with Some a => length a | None => 0%nat end)
                            (length ciphertext) in
  let ghashInput := alloc (length paddedAAD + length paddedCiphertext + 16) in
  let* ghashInput := set_at ghashInput paddedAAD 0 in
  let* ghashInput := set_at ghashInput paddedCiphertext (length paddedAAD) in
  set_at ghashInput lengthBlock (length paddedAAD + length paddedCiphertext).

(** [encrypt(plaintext, iv, aad?)]. *)
Definition encrypt (self : t) (plaintext iv : bytes) (aad : option bytes)
  : result GCMEncryptResult :=
  let* J0 := generateJ0 iv (H self) in
  let ICB := incrementCounter J0 in
  let* ciphertext := gctr (roundKeys self) ICB plaintext in
  let* ghashInput := ghash_input aad ciphertext in
  let* S_ := GHash.ghash (H self) ghashInput in
  let* tag := gctr (roundKeys self) J0 S_ in
  Ok {| ciphertext := ciphertext; tag := tag |}.

(** [decrypt(ciphertext, iv, tag, aad?)]. *)
Definition decrypt (self : t) (ciphertext iv tag : bytes) (aad : option bytes)
  : result bytes :=
  if negb (length tag =? GCM_TAG_SIZE)%nat then Err (InvalidTagSize (length tag))
  else
    let* J0 := generateJ0 iv (H self) in
    let* ghashInput := ghash_input aad ciphertext in
    let* S_ := GHash.ghash (H self) ghashInput in
    let* computedTag := gctr (roundKeys self) J0 S_ in
    let tagValid :=
      foldl (fun tagValid i => if get computedTag i =? get tag i then tagValid else false)
            true (seq 0 GCM_TAG_SIZE) in
    if negb tagValid then Err AuthenticationFailed
    else
      let ICB := incrementCounter J0 in
      gctr (roundKeys self) ICB ciphertext.

End AES256GCM.

End GCM.

(** The byte of the GCTR keystream at offset [j]: byte [j mod 16] of the
    encryption of the counter block incremented [j / 16] times. *)
Definition keystream (roundKeys : list bytes) (icb : bytes) (j : nat) : Z :=
  get (AES.rounds (Nat.iter (j / 16) GCM.incrementCounter icb) roundKeys) (j mod 16).

(** ** The WebAssembly module and the Node.js runtime

    [sha256] and [pbkdf2_hmac_sha256] are exported by the package
    [shared/src/wasm/pkg/wasm_crypto.js], which is not part of the TypeScript
    sources; the development is parametric in them.  Both return their
    result as a hexadecimal string. *)

Definition is_hex_digit (c : ascii) : bool :=
  match HexString.ascii_to_digit c with Some _ => true | None => false end.

Fixpoint all_hex (s : string) : bool :=
  match s with
  | EmptyString => true
  | String c s' => is_hex_digit c && all_hex s'
  end.

Definition is_hex (s : string) : bool :=
  match s with
  | EmptyString => false
  | _ => all_hex s
  end.

Class Wasm : Type := {
  sha256 : string → string;
  pbkdf2_hmac_sha256 : string → string → Z → Z → string;
  (* the digest is rendered as hexadecimal digits *)
  sha256_is_hex : ∀ s, is_hex (sha256 s) = true;
  (* the derived key is rendered as two hexadecimal digits per requested byte *)
  pbkdf2_is_hex : ∀ pw salt c dkLen, all_hex (pbkdf2_hmac_sha256 pw salt c dkLen) = true;
  pbkdf2_length : ∀ pw salt c dkLen,
    0 <= dkLen → String.length (pbkdf2_hmac_sha256 pw salt c dkLen) = Z.to_nat (2 * dkLen);
}.

(** [BigInt("0x" + s)]. *)
Definition BigInt_hex (s : string) : result Z :=
  if is_hex s then Ok (Z.of_N (HexString.Raw.to_N s 0)) else Err SyntaxError.

(** [z.toString(16)] on a bigint. *)
Definition toString16 (z : Z) : string :=
  match z with
  | Z0 => "0"
  | Zpos p => HexString.Raw.of_pos p ""
  | Zneg p => String "-" (HexString.Raw.of_pos p "")
  end.

Definition hex_digit (d : Z) : ascii :=
  nth (Z.to_nat d) (list_ascii_of_string "0123456789abcdef") "0"%char.

(** [buf.toString('hex')]. *)
Fixpoint Buffer_toString_hex (buf : bytes) : string :=
  match buf with
  | [] => EmptyString
  | b :: rest =>
      String (hex_digit (Z.land (Z.shiftr b 4) 15))
        (String (hex_digit (Z.land b 15)) (Buffer_toString_hex rest))
  end.

(** [Buffer.from(hex, 'hex')]: decoding stops at the first pair that is not
    two hexadecimal digits. *)
Fixpoint from_hex_chars (cs : list ascii) : bytes :=
  match cs with
  | a :: ((b :: rest) as tl) =>
      match HexString.ascii_to_digit a, HexString.ascii_to_digit b with
      | Some x, Some y => Z.of_N (16 * x + y) :: from_hex_chars rest
      | _, _ => []
      end
  | _ => []
  end.

Definition Buffer_from_hex (hex : string) : bytes :=
  from_hex_chars (list_ascii_of_string hex).

(** [Buffer.from(s, 'utf8')] and [new TextEncoder().encode(s)]: a [string] is
    held as the sequence of bytes of its UTF-8 encoding. *)
Definition utf8 (s : string) : bytes :=
  map (fun c => Z.of_N (N_of_ascii c)) (list_ascii_of_string s).

(** The byte-order mark U+FEFF, in UTF-8 the bytes EF BB BF.
    [new TextDecoder().decode] drops one of them at the start of its input. *)
Definition BOM : string :=
  String (ascii_of_nat 239) (String (ascii_of_nat 187) (String (ascii_of_nat 191) "")).

Definition bytes_start_with_BOM (b : bytes) : bool :=
  match b with
  | x :: y :: z :: _ => (x =? 239) && (y =? 187) && (z =? 191)
  | _ => false
  end.

Definition starts_with_BOM (s : string) : bool := bytes_start_with_BOM (utf8 s).

(** The bytes are well-formed UTF-8: they encode a string without lone
    surrogates, the strings that [TextEncoder] encodes as they are.  One
    byte 00 to 7F; C2 to DF and one continuation byte (80 to BF); E0 to EF
    and two, the first from A0 after E0 and up to 9F after ED; F0 to F4 and
    three, the first from 90 after F0 and up to 8F after F4. *)
Fixpoint well_formed (s : string) : bool :=
  let cont (n : nat) := ((128 <=? n) && (n <=? 191))%nat in
  match s with
  | EmptyString => true
  | String c0 r0 =>
      let b0 := nat_of_ascii c0 in
      if (b0 <? 128)%nat then well_formed r0
      else
        match r0 with
        | EmptyString => false
        | String c1 r1 =>
            let b1 := nat_of_ascii c1 in
            if ((194 <=? b0) && (b0 <=? 223))%nat then cont b1 && well_formed r1
            else
              match r1 with
              | EmptyString => false
              | String c2 r2 =>
                  let b2 := nat_of_ascii c2 in
                  if ((224 <=? b0) && (b0 <=? 239))%nat
                  then (if (b0 =? 224)%nat then (160 <=? b1) && (b1 <=? 191)
                        else if (b0 =? 237)%nat then (128 <=? b1) && (b1 <=? 159)
                        else cont b1)%nat
                       && cont b2 && well_formed r2
                  else
                    match r2 with
                    | EmptyString => false
                    | String c3 r3 =>
                        let b3 := nat_of_ascii c3 in
                        ((240 <=? b0) && (b0 <=? 244))%nat
                        && (if (b0 =? 240)%nat then (144 <=? b1) && (b1 <=? 191)
                            else if (b0 =? 244)%nat then (128 <=? b1) && (b1 <=? 143)
                            else cont b1)%nat
                        && cont b2 && cont b3 && well_formed r3
                    end
              end
        end
  end.

(** A text that the decoder gives back as the encoder got it: well-formed
    and without a byte-order mark at its start. *)
Definition decodable (s : string) : Prop :=
  well_formed s = true ∧ starts_with_BOM s = false.

(** ** srp.ts *)

Module SRP.

Definition N_hex : string :=
  "AC6BDB41324A9A9BF166DE5E1389582FAF72B6651987EE07FC3192943DB56050A37329CBB4A099ED8193E0757767A13DD52312AB4B03310DCD7F48A9DA04FD50E8083969EDB767B0CF6095179A163AB3661A05FBD5FAAAE82918A9962F0B93B855F97993EC975EEAA80D740ADBF4D6DB71577363ED7557A605FC81B2976D98DD719307281B7BB2C07971BA8675F5CF5D0E576B429A44CA431F75F6A931881B94AC25B2822B7E1B108929A88C1544DD7D3B5198AB29930D91D2702CB46820257B7B132C3A5576C71708A899C6A3644917C9B1093153545A25345914614A797A7C6B7B4B74044A5405608674F7565349282D20A10243166BE5E744116041C83F30C665672013".
Definition g_hex : string := "02".

Definition N : Z := Eval vm_compute in Z.of_N (HexString.Raw.to_N N_hex 0).
Definition g : Z := Eval vm_compute in Z.of_N (HexString.Raw.to_N g_hex 0).

(** The loop of [modPow]; [fuel] bounds the number of turns. *)
Fixpoint modPow_loop (fuel : nat) (res base exp md : Z) : Z :=
  match fuel with
  | O => res
  | S fuel =>
      if 0 <? exp then
        let res := if Z.rem exp 2 =? 1 then Z.rem (res * base) md else res in
        let base := Z.rem (base * base) md in
        let exp := Z.quot exp 2 in
        modPow_loop fuel res base exp md
      else res
  end.

(** [exp] is halved at each turn: one turn per binary digit. *)
Definition modPow (base exp md : Z) : Z :=
  modPow_loop (S (Z.to_nat (Z.log2 exp))) 1 (Z.rem base md) exp md.

Inductive HArg : Type :=
  | HString (s : string)
  | HBuffer (b : bytes)
  | HBigInt (z : Z).

(** [hex = z.toString(16); if (hex.length % 2 !== 0) hex = '0' + hex]. *)
Definition even_hex (z : Z) : string :=
  let hex := toString16 z in
  if negb (String.length hex mod 2 =? 0)%nat then String "0" hex else hex.

Section WithWasm.
Context {wasm : Wasm}.

Definition H (args : list HArg) : result Z :=
  let fullBuffer :=
    foldl (fun fullBuffer arg =>
             match arg with
             | HString s => fullBuffer ++ utf8 s
             | HBuffer b => fullBuffer ++ b
             | HBigInt z => fullBuffer ++ Buffer_from_hex (even_hex z)
             end) [] args in
  let hexInput := Buffer_toString_hex fullBuffer in
  let digestHex := sha256 hexInput in
  BigInt_hex digestHex.

(** [initSRP]: the value assigned to the module variable [k] (initially [0n]). *)
Definition initSRP : result Z := H [HBigInt N; HBigInt g].

Definition H_pad (num : Z) : bytes :=
  let buf := Buffer_from_hex (even_hex num) in
  if (length buf <? 256)%nat then replicate (256 - length buf) 0 ++ buf else buf.

(** [randomBigInt], given the buffer returned by [randomBytes(32)]. *)
Definition randomBigInt (buf : bytes) : result Z := BigInt_hex (Buffer_toString_hex buf).

(** [SRPClient.generateRegistration], given the result of [randomBytes(16)]. *)
Definition generateRegistration (rnd : bytes) (password : string) : result (string * string) :=
  let salt := Buffer_toString_hex rnd in
  let x_hash := sha256 (salt ++ password) in
  let* x := BigInt_hex x_hash in
  let v := modPow g x N in
  Ok (salt, toString16 v).

(** [SRPClient.generateEphemeral]; the recursive call draws again, so the
    function consumes a sequence of results of [randomBytes(32)]. *)
Fixpoint clientEphemeral (draws : list bytes) : option (result (string * string)) :=
  match draws with
  | [] => None
  | buf :: draws =>
      match randomBigInt buf with
      | Err e => Some (Err e)
      | Ok a_val =>
          let A_val := modPow g a_val N in
          if Z.rem A_val N =? 0 then clientEphemeral draws
          else Some (Ok (toString16 a_val, toString16 A_val))
      end
  end.

(** [while (base < 0n) base += N]. *)
Fixpoint lift_base (fuel : nat) (base : Z) : Z :=
  match fuel with
  | O => base
  | S fuel => if base <? 0 then lift_base fuel (base + N) else base
  end.

Record Session : Type := { K : string; M1 : string; M2 : string }.

(** [SRPClient.computeSession]; [k] is the current value of the module variable. *)
Definition computeSession (k : Z) (salt username password a_hex B_hex : string)
  : result Session :=
  let* a := BigInt_hex a_hex in
  let* B := BigInt_hex B_hex in
  if Z.rem B N =? 0 then Err SafetyCheckB
  else
    let A := modPow g a N in
    let* u := H [HBigInt A; HBigInt B] in
    let x_hash := sha256 (salt ++ password) in
    let* x := BigInt_hex x_hash in
    let v := modPow g x N in
    let base := B - Z.rem (k * v) N in
    let base := lift_base (S (Z.to_nat (Z.quot (Z.abs base) N))) base in
    let exp := a + u * x in
    let S_ := modPow base exp N in
    let K_hex := sha256 (Buffer_toString_hex (H_pad S_)) in
    let M1 := sha256 (toString16 A ++ toString16 B ++ K_hex) in
    let M2 := sha256 (toString16 A ++ M1 ++ K_hex) in
    Ok {| K := K_hex; M1 := M1; M2 := M2 |}.

(** [SRPServer.generateEphemeral], given the result of [randomBytes(32)]. *)
Definition serverEphemeral (k : Z) (buf : bytes) (verifier : string)
  : result (string * string) :=
  let* b_val := randomBigInt buf in
  let* v := BigInt_hex verifier in
  let gb := modPow g b_val N in
  let kv := Z.rem (k * v) N in
  let B_val := Z.rem (kv + gb) N in
  Ok (toString16 b_val, toString16 B_val).

(** [SRPServer.verifySession]; the result is [(K, M2)]. *)
Definition verifySession (k : Z) (username salt verifier A_hex b_hex M1_client : string)
  : result (string * string) :=
  let* A := BigInt_hex A_hex in
  let* b := BigInt_hex b_hex in
  let* v := BigInt_hex verifier in
  if Z.rem A N =? 0 then Err SafetyCheckA
  else
    let gb := modPow g b N in
    let kv := Z.rem (k * v) N in
    let B := Z.rem (kv + gb) N in
    let B_val := B in
    let* u := H [HBigInt A; HBigInt B] in
    let vu := modPow v u N in
    let base := Z.rem (A * vu) N in
    let S_ := modPow base b N in
    let K_hex := sha256 (Buffer_toString_hex (H_pad S_)) in
    let expectedM1 := sha256 (toString16 A ++ toString16 B_val ++ K_hex) in
    if negb (String.eqb M1_client expectedM1) then Err InvalidProof
    else
      let M2 := sha256 (toString16 A ++ M1_client ++ K_hex) in
      Ok (K_hex, M2).

End WithWasm.

End SRP.

(** ** vault.ts: data *)

(** An instance of the class [Password]: the envelopes are held decoded. *)
Record Password : Type := mkPassword {
  passwordId : Z;
  username : bytes;
  usernameIV : bytes;
  usernameTag : bytes;
  password : bytes;
  passwordIV : bytes;
  passwordTag : bytes;
  site : string;
  isFavorite : bool;
  note : string;
  category : string;
  created : string;
  updated : string;
}.

(** The object returned by [Password.getAsObject], also the shape of an
    element of [vault.passwords] in a document: binary fields are base64. *)
Record PasswordObject : Type := mkPasswordObject {
  password_id : Z;
  meta_site : string;
  meta_category : string;
  meta_note : string;
  meta_favorite : bool;
  meta_created : string;
  meta_updated : string;
  data_username : string;
  data_username_iv : string;
  data_username_tag : string;
  data_password : string;
  data_password_iv : string;
  data_password_tag : string;
}.

(** The content of [<user>-vault.json], after [JSON.parse]; a field that the
    document does not have is [None]. *)
Record VaultDocument : Type := mkVaultDocument {
  doc_user : option string;
  doc_version : option Z;
  doc_salt : option string;
  doc_createdAt : option string;
  doc_updatedAt : option string;
  doc_verificationToken : option string;
  doc_verificationIV : option string;
  doc_verificationTag : option string;
  doc_vault : option (list PasswordObject);
}.

(** The inner envelope of the sync format. *)
Record Envelope : Type := mkEnvelope {
  vault_iv : string;
  vault_ciphertext : string;
  vault_tag : string;
}.

(** The document exchanged with the server ([vaultData] in [uploadVault]). *)
Record RemoteDocument : Type := mkRemoteDocument {
  r_user : string;
  r_version : Z;
  r_salt : string;
  r_createdAt : string;
  r_updatedAt : string;
  r_verificationIV : string;
  r_verificationCiphertext : string;
  r_verificationTag : string;
  r_vault : Envelope;
}.

(** The object returned by [Password.getAccountInfo]. *)
Record AccountInfo : Type := mkAccountInfo {
  ai_id : Z;
  ai_site : string;
  ai_username : string;
  ai_password : string;
  ai_note : string;
  ai_category : string;
  ai_favorite : bool;
  ai_createdAt : string;
  ai_updatedAt : string;
}.

(** The fields of an instance of the class [Vault]. *)
Record Vault : Type := mkVault {
  user : string;
  createdAt : string;
  updatedAt : string;
  version : Z;
  vaultPasswords : list Password;
  salt : string;
  secretKey : string;
  token : option string;
  verificationToken : string;
  verificationIV : string;
  verificationTag : string;
  verificationPlaintext : string;
  derivedKey : bytes;
}.

Definition set_createdAt (x : string) (v : Vault) : Vault :=
  let '(mkVault u _ up ve ps s sk t vt vi vg vp dk) := v in
  mkVault u x up ve ps s sk t vt vi vg vp dk.
Definition set_updatedAt (x : string) (v : Vault) : Vault :=
  let '(mkVault u c _ ve ps s sk t vt vi vg vp dk) := v in
  mkVault u c x ve ps s sk t vt vi vg vp dk.
Definition set_version (x : Z) (v : Vault) : Vault :=
  let '(mkVault u c up _ ps s sk t vt vi vg vp dk) := v in
  mkVault u c up x ps s sk t vt vi vg vp dk.
Definition set_vaultPasswords (x : list Password) (v : Vault) : Vault :=
  let '(mkVault u c up ve _ s sk t vt vi vg vp dk) := v in
  mkVault u c up ve x s sk t vt vi vg vp dk.
Definition set_salt (x : string) (v : Vault) : Vault :=
  let '(mkVault u c up ve ps _ sk t vt vi vg vp dk) := v in
  mkVault u c up ve ps x sk t vt vi vg vp dk.
Definition set_secretKey (x : string) (v : Vault) : Vault :=
  let '(mkVault u c up ve ps s _ t vt vi vg vp dk) := v in
  mkVault u c up ve ps s x t vt vi vg vp dk.
Definition set_token (x : option string) (v : Vault) : Vault :=
  let '(mkVault u c up ve ps s sk _ vt vi vg vp dk) := v in
  mkVault u c up ve ps s sk x vt vi vg vp dk.
Definition set_verification (tok iv tg : string) (v : Vault) : Vault :=
  let '(mkVault u c up ve ps s sk t _ _ _ vp dk) := v in
  mkVault u c up ve ps s sk t tok iv tg vp dk.
Definition set_verificationPlaintext (x : string) (v : Vault) : Vault :=
  let '(mkVault u c up ve ps s sk t vt vi vg _ dk) := v in
  mkVault u c up ve ps s sk t vt vi vg x dk.
Definition set_derivedKey (x : bytes) (v : Vault) : Vault :=
  let '(mkVault u c up ve ps s sk t vt vi vg vp _) := v in
  mkVault u c up ve ps s sk t vt vi vg vp x.

(** ** The environment of the vault engine *)

(** A file of the directory [.vaults]. *)
Inductive File : Type :=
  | VaultFile (d : VaultDocument)      (* <user>-vault.json *)
  | KeyFile (b : bytes).               (* <user>-key.json *)

(** The sync server ([server/src/index.ts]), as far as one user sees it. *)
Record Server : Type := mkServer {
  reachable : bool;                    (* [fetch] does not reject *)
  sessions : list string;              (* the bearer tokens the server accepts *)
  stored : option RemoteDocument;      (* [vaults[username]] *)
  credentials : option (string * string);  (* [users[username]]: salt, verifier *)
}.

Record World : Type := mkWorld {
  disk : gmap string File;
  encryptionAvailable : bool;          (* [safeStorage.isEncryptionAvailable()] *)
  entropy : nat → Z;                   (* the bytes the random source will return *)
  drawn : nat;                         (* how many of them were consumed *)
  clock : nat → string;                (* what [new Date().toISOString()] will return *)
  ticks : nat;                         (* how many times it was read *)
  server : Server;
}.

Definition set_disk (x : gmap string File) (w : World) : World :=
  let '(mkWorld _ e en d c t s) := w in mkWorld x e en d c t s.
Definition set_drawn (x : nat) (w : World) : World :=
  let '(mkWorld di e en _ c t s) := w in mkWorld di e en x c t s.
Definition set_ticks (x : nat) (w : World) : World :=
  let '(mkWorld di e en d c _ s) := w in mkWorld di e en d c x s.
Definition set_server (x : Server) (w : World) : World :=
  let '(mkWorld di e en d c t _) := w in mkWorld di e en d c t x.

(** The functions of the JavaScript runtime and of Electron that the engine
    calls; the development is parametric in them. *)
Class Runtime : Type := {
  (* [Buffer.from(bytes).toString('base64')] and [btoa] of a binary string *)
  uint8ArrayToBase64 : bytes → string;
  (* [atob], which throws on text that is not base64 *)
  base64ToUint8Array : string → result bytes;
  (* [new TextDecoder().decode(bytes)] *)
  uint8ArrayToString : bytes → string;
  (* [JSON.stringify(this.vaultPasswords)]: the instances themselves *)
  stringify_instances : list Password → string;
  (* [JSON.stringify(passwords)]: the list of [getAsObject()] objects *)
  stringify_objects : list PasswordObject → string;
  (* [JSON.stringify] of the inner envelope *)
  stringify_envelope : Envelope → string;
  (* [JSON.parse] of the decrypted entries; [Ok None] is a falsy value *)
  parse_objects : string → result (option (list PasswordObject));
  (* [new Date(s).getTime()]; [None] is NaN *)
  getTime : string → option Z;
  (* [safeStorage.encryptString] and [safeStorage.decryptString] *)
  encryptString : string → bytes;
  decryptString : bytes → result string;
  (* decoding inverts encoding; on well-formed text the text decoder drops
     a leading byte-order mark, and that one only *)
  base64_round_trip : ∀ b, is_bytes b → base64ToUint8Array (uint8ArrayToBase64 b) = Ok b;
  text_round_trip : ∀ s, decodable s → uint8ArrayToString (utf8 s) = s;
  text_drops_BOM : ∀ s, well_formed s = true → uint8ArrayToString (utf8 (BOM ++ s)) = s;
  safeStorage_round_trip : ∀ s, decryptString (encryptString s) = Ok s;
}.

(** [this.token] where the source tests it for truthiness: [null] and the
    empty string both count as no token. *)
Definition bearer (v : Vault) : option string :=
  match token v with
  | Some t => if String.eqb t "" then None else Some t
  | None => None
  end.

(** [new TextEncoder().encode(str)]. *)
Definition stringToUint8Array (str : string) : bytes := utf8 str.

(** [a > b] on the results of [getTime]: false as soon as one is NaN. *)
Definition time_gt (a b : option Z) : bool :=
  match a, b with
  | Some x, Some y => y <? x
  | _, _ => false
  end.

(** ** vault.ts: the engine

    A method of [Vault] is a function of the instance and the world that
    returns the new instance and world, and a value or the exception thrown. *)

Definition M (A : Type) : Type := Vault * World → result A * (Vault * World).

Definition ret {A} (a : A) : M A := fun s => (Ok a, s).
Definition throw {A} (e : error) : M A := fun s => (Err e, s).
Definition lift {A} (r : result A) : M A := fun s => (r, s).
Definition mbind_M {A B} (m : M A) (k : A → M B) : M B :=
  fun s => match m s with
           | (Ok a, s') => k a s'
           | (Err e, s') => (Err e, s')
           end.
(** [try { m } catch { h }]. *)
Definition catch {A} (m : M A) (h : error → M A) : M A :=
  fun s => match m s with
           | (Ok a, s') => (Ok a, s')
           | (Err e, s') => h e s'
           end.

Notation "'let!' x ':=' m 'in' k" := (mbind_M m (fun x => k))
  (at level 10, x pattern, m at level 200, k at level 200,
   format "'[v' 'let!'  x  :=  m  'in' '/' k ']'").
Notation "m ';;' k" := (mbind_M m (fun _ => k))
  (at level 100, k at level 200, right associativity).

Definition this : M Vault := fun s => (Ok (fst s), s).
Definition world : M World := fun s => (Ok (snd s), s).
Definition update (f : Vault → Vault) : M unit := fun s => (Ok tt, (f (fst s), snd s)).
Definition update_world (f : World → World) : M unit :=
  fun s => (Ok tt, (fst s, f (snd s))).

(** A loop over a list whose body is a method. *)
Fixpoint for_each {A} (body : A → M unit) (l : list A) : M unit :=
  match l with
  | [] => ret tt
  | x :: rest => body x ;; for_each body rest
  end.

(** [new Date().toISOString()]. *)
Definition now : M string :=
  let! w := world in
  update_world (set_ticks (S (ticks w))) ;;
  ret (clock w (ticks w)).

(** [webcrypto.getRandomValues(new Uint8Array(n))] and [randomBytes(n)]. *)
Definition getRandomValues (n : nat) : M bytes :=
  let! w := world in
  update_world (set_drawn (drawn w + n)) ;;
  ret (map (fun i => u8 (entropy w (drawn w + i))) (seq 0 n)).

Definition vault_file (user : string) : string := user ++ "-vault.json".
Definition key_file (user : string) : string := user ++ "-key.json".

Section Engine.
Context {wasm : Wasm} {runtime : Runtime}.

(** [generateRandomBytes(length)]. *)
Definition generateRandomBytes (length : nat) : M string :=
  let! buffer := getRandomValues length in
  ret (uint8ArrayToBase64 buffer).

Definition generateRandomIV : M bytes := getRandomValues 16.

(** [storeSecretKey]. *)
Definition storeSecretKey (user plaintext : string) : M unit :=
  let! w := world in
  if negb (encryptionAvailable w) then ret tt
  else update_world (set_disk (<[key_file user := KeyFile (encryptString plaintext)]> (disk w))).

(** [getSecretKey]: [null] is [None]. *)
Definition getSecretKey (user : string) : M (option string) :=
  let! w := world in
  let encryptedBuffer :=
    match disk w !! key_file user with
    | Some (KeyFile b) => b
    | _ => []                          (* readDataBuffer: "safe empty buffer" *)
    end in
  match decryptString encryptedBuffer with
  | Ok s => ret (Some s)
  | Err _ => ret None
  end.

(** [deriveKey]. *)
Definition deriveKey (salt masterPassword secretKey : string) : bytes :=
  let derivedKeyHex := pbkdf2_hmac_sha256 (masterPassword ++ secretKey) salt 600000 32 in
  Buffer_from_hex derivedKeyHex.

(** [new Password(...)] with all thirteen arguments. *)
Definition Password_new (passwordId : Z)
    (username usernameIV usernameTag password passwordIV passwordTag : string)
    (site note category : string) (favorite : bool) (created updated : string)
  : result Password :=
  let* username := base64ToUint8Array username in
  let* usernameIV := base64ToUint8Array usernameIV in
  let* usernameTag := base64ToUint8Array usernameTag in
  let* password := base64ToUint8Array password in
  let* passwordIV := base64ToUint8Array passwordIV in
  let* passwordTag := base64ToUint8Array passwordTag in
  Ok (mkPassword passwordId username usernameIV usernameTag
                 password passwordIV passwordTag
                 site favorite note category created updated).

(** The constructor call shared by [createFromFile] and [importVaultData]. *)
Definition Password_of_object (key : PasswordObject) : result Password :=
  Password_new (password_id key)
    (data_username key) (data_username_iv key) (data_username_tag key)
    (data_password key) (data_password_iv key) (data_password_tag key)
    (meta_site key) (meta_note key) (meta_category key) (meta_favorite key)
    (meta_created key) (meta_updated key).

(** [this.vaultPasswords.push(new Password(Number(key.password_id), ...))],
    the body of the loops of [createFromFile] and [importVaultData]. *)
Definition push_object (key : PasswordObject) : M unit :=
  let! p := lift (Password_of_object key) in
  update (fun v => set_vaultPasswords (vaultPasswords v ++ [p]) v).

(** [Password.getAsObject]. *)
Definition getAsObject (p : Password) : PasswordObject :=
  mkPasswordObject (passwordId p)
    (site p) (category p) (note p) (isFavorite p) (created p) (updated p)
    (uint8ArrayToBase64 (username p)) (uint8ArrayToBase64 (usernameIV p))
    (uint8ArrayToBase64 (usernameTag p)) (uint8ArrayToBase64 (password p))
    (uint8ArrayToBase64 (passwordIV p)) (uint8ArrayToBase64 (passwordTag p)).

(** [Password.getAccountInfo]. *)
Definition getAccountInfo (p : Password) (key : bytes) : result AccountInfo :=
  let* u := GCM.decrypt key (usernameIV p) (username p) (usernameTag p) [] in
  let* pw := GCM.decrypt key (passwordIV p) (password p) (passwordTag p) [] in
  Ok (mkAccountInfo (passwordId p) (site p) (uint8ArrayToString u) (uint8ArrayToString pw)
                    (note p) (category p) (isFavorite p) (created p) (updated p)).

(** [new Vault(user)]: the field initialisers, then the constructor body. *)
Definition Vault_new (user : string) (w : World) : Vault * World :=
  let blank := mkVault user "" "" 1 [] "" "" None "" "" "" "" [] in
  let m : M unit :=
    let! salt := generateRandomBytes 32 in
    let! secretKey := generateRandomBytes 32 in
    let! createdAt := now in
    let! updatedAt := now in
    update (fun _ => mkVault user createdAt updatedAt 1 [] salt secretKey None "" "" "" "" []) in
  snd (m (blank, w)).

(** [uint8ArrayToString(decrypt(key, base64ToUint8Array(iv),
    base64ToUint8Array(ct), base64ToUint8Array(tag)))], the expression by which
    [verifyPassword] and [importVaultData] open an envelope. *)
Definition open_envelope (key : bytes) (iv ct tg : string) : result string :=
  let* iv := base64ToUint8Array iv in
  let* ct := base64ToUint8Array ct in
  let* tg := base64ToUint8Array tg in
  let* d := GCM.decrypt key iv ct tg [] in
  Ok (uint8ArrayToString d).

(** [Vault.verifyPassword]. *)
Definition verifyPassword (v : Vault) : bool :=
  if (String.eqb (verificationToken v) "" || String.eqb (verificationIV v) ""
      || String.eqb (verificationTag v) "")%bool
  then true
  else
    match open_envelope (derivedKey v) (verificationIV v) (verificationToken v)
                        (verificationTag v) with
    | Ok decryptedString =>
        String.eqb decryptedString (sha256 (stringify_instances (vaultPasswords v)))
    | Err _ => false
    end.

(** [Vault.setVerificationToken]. *)
Definition setVerificationToken : M unit :=
  let! iv := generateRandomIV in
  let! v := this in
  let! encrypted :=
    lift (GCM.encrypt (derivedKey v) iv (stringToUint8Array (verificationPlaintext v)) []) in
  update (set_verification (uint8ArrayToBase64 (GCM.ciphertext encrypted))
                           (uint8ArrayToBase64 iv)
                           (uint8ArrayToBase64 (GCM.tag encrypted))).

(** [Vault.setToken]. *)
Definition setToken (t : string) : M unit := update (set_token (Some t)).

(** [Vault.createFromFile]. *)
Definition createFromFile : M unit :=
  let! v := this in
  let! w := world in
  match disk w !! vault_file (user v) with
  | None => ret tt
  | Some (KeyFile _) => throw SyntaxError
  | Some (VaultFile content) =>
      (match doc_createdAt content with
       | Some c => update (set_createdAt c)
       | None => ret tt
       end) ;;
      (match doc_updatedAt content with
       | Some u =>
           update (set_updatedAt
                     (if String.eqb u "" then default "" (doc_createdAt content) else u))
       | None => ret tt
       end) ;;
      (match doc_version content with
       | Some n => update (set_version n)
       | None => ret tt
       end) ;;
      (match doc_salt content with
       | Some s => update (set_salt s)
       | None => ret tt
       end) ;;
      (match doc_vault content with
       | Some vault =>
           for_each push_object vault
       | None => ret tt
       end) ;;
      (match doc_verificationToken content with
       | Some t =>
           update (set_verification t (default "" (doc_verificationIV content))
                                      (default "" (doc_verificationTag content)))
       | None => ret tt
       end)
  end.

(** [Vault.saveToFile]. *)
Definition saveToFile : M unit :=
  update (fun v => set_version (version v + 1) v) ;;
  let! t := now in
  update (set_updatedAt t) ;;
  let! v := this in
  let passwords := map getAsObject (vaultPasswords v) in
  update (set_verificationPlaintext (sha256 (stringify_instances (vaultPasswords v)))) ;;
  setVerificationToken ;;
  let! v := this in
  let userData :=
    mkVaultDocument (Some (user v)) (Some (version v)) (Some (salt v))
                    (Some (createdAt v)) (Some (updatedAt v))
                    (Some (verificationToken v)) (Some (verificationIV v))
                    (Some (verificationTag v)) (Some passwords) in
  let! w := world in
  update_world (set_disk (<[vault_file (user v) := VaultFile userData]> (disk w))).

(** [Vault.factory]. *)
Definition factory (masterPassword : string) (isNew : bool) : M unit :=
  (if isNew then
     let! v := this in
     update (set_derivedKey (deriveKey (salt v) masterPassword (secretKey v))) ;;
     saveToFile ;;
     let! v := this in
     storeSecretKey (user v) (secretKey v)
   else
     let! v := this in
     let! secretKeyBuf := getSecretKey (user v) in
     match secretKeyBuf with
     | Some s => if String.eqb s "" then ret tt else update (set_secretKey s)
     | None => ret tt
     end) ;;
  createFromFile ;;
  (* [this.derivedKey != new Uint8Array()] compares two distinct objects *)
  let! v := this in
  update (set_derivedKey (deriveKey (salt v) masterPassword (secretKey v))) ;;
  let! v := this in
  if negb (verifyPassword v) then throw PasswordVerificationFailed
  else saveToFile.

(** [Vault.uploadVault]. *)
Definition uploadVault : M unit :=
  let! v := this in
  match bearer v with
  | None => ret tt
  | Some tok =>
      let passwords := map getAsObject (vaultPasswords v) in
      let! ivPass := generateRandomIV in
      let! encPassword :=
        lift (GCM.encrypt (derivedKey v) ivPass
                          (stringToUint8Array (stringify_objects passwords)) []) in
      let vaultEncData :=
        mkEnvelope (uint8ArrayToBase64 ivPass)
                   (uint8ArrayToBase64 (GCM.ciphertext encPassword))
                   (uint8ArrayToBase64 (GCM.tag encPassword)) in
      let verificationVaultSync := sha256 (stringify_envelope vaultEncData) in
      let! ivVer := generateRandomIV in
      let! encVer :=
        lift (GCM.encrypt (derivedKey v) ivVer
                          (stringToUint8Array verificationVaultSync) []) in
      let vaultData :=
        mkRemoteDocument (user v) (version v) (salt v) (createdAt v) (updatedAt v)
                         (uint8ArrayToBase64 ivVer)
                         (uint8ArrayToBase64 (GCM.ciphertext encVer))
                         (uint8ArrayToBase64 (GCM.tag encVer))
                         vaultEncData in
      let! w := world in
      let srv := server w in
      if negb (reachable srv) then throw FetchFailed
      else if bool_decide (tok ∈ sessions srv) then
        update_world (set_server (mkServer (reachable srv) (sessions srv)
                                           (Some vaultData) (credentials srv)))
      else ret tt
  end.

(** [Vault.importVaultData]. *)
Definition importVaultData (data : RemoteDocument) : M unit :=
  update (set_updatedAt (r_updatedAt data)) ;;
  update (set_salt (r_salt data)) ;;
  let verificationIV := r_verificationIV data in
  let verificationCiphertext := r_verificationCiphertext data in
  let verificationTag := r_verificationTag data in
  let encVault := r_vault data in
  let! v := this in
  let! verification :=
    lift (open_envelope (derivedKey v) verificationIV verificationCiphertext
                        verificationTag) in
  if negb (String.eqb verification (sha256 (stringify_envelope encVault)))
  then throw RemoteImportVerificationFailed
  else
    let! passwords :=
      lift (let* text := open_envelope (derivedKey v) (vault_iv encVault)
                                       (vault_ciphertext encVault) (vault_tag encVault) in
            parse_objects text) in
    let! v := this in
    (if negb (String.eqb (r_salt data) (salt v)) then update (set_salt (r_salt data))
     else ret tt) ;;
    update (set_vaultPasswords []) ;;
    match passwords with
    | Some passwords =>
        for_each push_object passwords
    | None => ret tt
    end.

(** [Vault.sync]. *)
Definition sync : M unit :=
  let! v := this in
  match bearer v with
  | None => ret tt
  | Some tok =>
      catch
        (let! w := world in
         let srv := server w in
         if negb (reachable srv) then throw FetchFailed
         else if negb (bool_decide (tok ∈ sessions srv)) then ret tt      (* 401 *)
         else
           match stored srv with
           | None => uploadVault                                          (* 404 *)
           | Some remoteData =>
               let remoteTime := getTime (r_updatedAt remoteData) in
               let localTime := getTime (updatedAt v) in
               if time_gt remoteTime localTime then
                 importVaultData remoteData ;; saveToFile
               else if time_gt localTime remoteTime then uploadVault
               else ret tt
           end)
        (fun _ => ret tt)
  end.

(** The statements of [Vault.addPassword] up to and including the [push];
    the value is the entry created. *)
Definition newEntry (user password site note category : string) (favorite : bool)
  : M Password :=
  let! ivPass := generateRandomIV in
  let! ivUser := generateRandomIV in
  let! v := this in
  let! encPassword :=
    lift (GCM.encrypt (derivedKey v) ivPass (stringToUint8Array password) []) in
  let! encUser :=
    lift (GCM.encrypt (derivedKey v) ivUser (stringToUint8Array user) []) in
  let! t := now in
  update (set_updatedAt t) ;;
  let passId :=
    match last (vaultPasswords v) with
    | Some p => passwordId p + 1
    | None => 0
    end in
  let! created := now in
  let! updated := now in
  let! p := lift (Password_new passId
                    (uint8ArrayToBase64 (GCM.ciphertext encUser))
                    (uint8ArrayToBase64 ivUser)
                    (uint8ArrayToBase64 (GCM.tag encUser))
                    (uint8ArrayToBase64 (GCM.ciphertext encPassword))
                    (uint8ArrayToBase64 ivPass)
                    (uint8ArrayToBase64 (GCM.tag encPassword))
                    site note category favorite created updated) in
  update (fun v => set_vaultPasswords (vaultPasswords v ++ [p]) v) ;;
  ret p.

(** [Vault.addPassword]. *)
Definition addPassword (user password site note category : string) (favorite : bool)
  : M unit :=
  let! _ := newEntry user password site note category favorite in
  saveToFile ;;
  sync.

(** [this.vaultPasswords.splice(id, 1)]: a negative index counts from the
    end, clamped at 0; an index past the end removes nothing. *)
Definition splice1 {A} (l : list A) (id : Z) : list A :=
  let start := if id <? 0 then Z.max (Z.of_nat (length l) + id) 0 else id in
  delete (Z.to_nat start) l.

(** The loop of [removePassword]: [i] runs while [i < this.vaultPasswords.length],
    the length being read again at each turn. *)
Fixpoint remove_loop (fuel i : nat) (id : Z) (l : list Password) : list Password :=
  match fuel with
  | O => l
  | S fuel =>
      match l !! i with
      | None => l
      | Some p =>
          let l := if passwordId p =? id then splice1 l id else l in
          remove_loop fuel (S i) id l
      end
  end.

(** A call of an [async] method that the source does not [await]: its effects
    are taken in program order and a rejection goes unobserved. *)
Definition not_awaited (m : M unit) : M unit := catch m (fun _ => ret tt).

(** [Vault.removePassword]. *)
Definition removePassword (id : Z) : M unit :=
  update (fun v => set_vaultPasswords
                     (remove_loop (length (vaultPasswords v)) 0 id (vaultPasswords v)) v) ;;
  let! t := now in
  update (set_updatedAt t) ;;
  not_awaited saveToFile ;;
  not_awaited sync.

(** [Vault.changeMasterPassword]. *)
Definition changeMasterPassword (currentPassword newPassword : string) : M unit :=
  let! v := this in
  let! currentSecretKey := getSecretKey (user v) in
  match currentSecretKey with
  | None => throw CannotRetrieveSecretKey
  | Some currentSecretKey =>
    if String.eqb currentSecretKey "" then throw CannotRetrieveSecretKey
    else
      let currentKey := deriveKey (salt v) currentPassword currentSecretKey in
      (* Test decryption with first password entry if available *)
      (match vaultPasswords v with
       | p0 :: _ =>
           match getAccountInfo p0 currentKey with
           | Ok _ => ret tt
           | Err _ => throw CurrentPasswordIncorrect
           end
       | [] => ret tt
       end) ;;
      (* Decrypt all passwords with current key *)
      let! decryptedPasswords :=
        lift (foldr (fun p acc =>
                       let* dp := getAccountInfo p currentKey in
                       let* rest := acc in
                       Ok (dp :: rest))
                    (Ok []) (vaultPasswords v)) in
      let! newSalt := generateRandomBytes 32 in
      let newKey := deriveKey newSalt newPassword currentSecretKey in
      (* Re-encrypt all passwords with new key *)
      update (set_vaultPasswords []) ;;
      for_each (fun dp =>
                  let! ivPass := generateRandomIV in
                  let! ivUser := generateRandomIV in
                  let! encPassword :=
                    lift (GCM.encrypt newKey ivPass (stringToUint8Array (ai_password dp)) []) in
                  let! encUser :=
                    lift (GCM.encrypt newKey ivUser (stringToUint8Array (ai_username dp)) []) in
                  let! p := lift (Password_new (ai_id dp)
                                    (uint8ArrayToBase64 (GCM.ciphertext encUser))
                                    (uint8ArrayToBase64 ivUser)
                                    (uint8ArrayToBase64 (GCM.tag encUser))
                                    (uint8ArrayToBase64 (GCM.ciphertext encPassword))
                                    (uint8ArrayToBase64 ivPass)
                                    (uint8ArrayToBase64 (GCM.tag encPassword))
                                    (ai_site dp) (ai_note dp) (ai_category dp)
                                    (ai_favorite dp) (ai_createdAt dp) (ai_updatedAt dp)) in
                  update (fun v => set_vaultPasswords (vaultPasswords v ++ [p]) v))
               decryptedPasswords ;;
      (* Update salt and derived key *)
      update (set_salt newSalt) ;;
      update (set_derivedKey newKey) ;;
      not_awaited setVerificationToken ;;
      (* Generate new SRP verifier and update on server *)
      let! rnd := getRandomValues 16 in
      let! registration := lift (SRP.generateRegistration rnd newPassword) in
      let '(srpSalt, verifier) := registration in
      let! v := this in
      (match bearer v with
       | Some tok =>
           let! w := world in
           let srv := server w in
           if negb (reachable srv) then throw FetchFailed
           else if negb (bool_decide (tok ∈ sessions srv)) then throw ServerUpdateFailed
           else if (String.eqb srpSalt "" || String.eqb verifier "")%bool
                then throw ServerUpdateFailed
           else
             match credentials srv with
             | None => throw ServerUpdateFailed
             | Some _ =>
                 update_world (set_server (mkServer (reachable srv) (sessions srv)
                                                    (stored srv) (Some (srpSalt, verifier))))
             end
       | None => ret tt
       end) ;;
      (* Save vault with new encryption *)
      saveToFile
  end.

(** [vault = new Vault(username); await vault.factory(masterKey, isNew)], as
    [register] and [login] do. *)
Definition open_vault (user masterPassword : string) (isNew : bool) (w : World)
  : result unit * (Vault * World) :=
  factory masterPassword isNew (Vault_new user w).

(** [Password.editPrivate]: an argument that is [null] leaves its field as
    it is; [updated] is the value of [new Date().toISOString()]. *)
Definition editPrivate (userData passwordData : option (bytes * bytes * bytes))
    (site note category : option string) (favorite : option bool) (updated : string)
    (p : Password) : Password :=
  let '(mkPassword id u uiv utg pw piv ptg st fav nt cat cr _) := p in
  mkPassword id
             (match userData with Some (c, _, _) => c | None => u end)
             (match userData with Some (_, iv, _) => iv | None => uiv end)
             (match userData with Some (_, _, tg) => tg | None => utg end)
             (match passwordData with Some (c, _, _) => c | None => pw end)
             (match passwordData with Some (_, iv, _) => iv | None => piv end)
             (match passwordData with Some (_, _, tg) => tg | None => ptg end)
             (default st site) (default fav favorite)
             (default nt note) (default cat category)
             cr updated.

(** [[enc.ciphertext, iv, enc.tag]] for a new secret, [null] for [null]. *)
Definition sealed_secret (secret : option string) : M (option (bytes * bytes * bytes)) :=
  match secret with
  | None => ret None
  | Some s =>
      let! iv := generateRandomIV in
      let! v := this in
      let! enc := lift (GCM.encrypt (derivedKey v) iv (stringToUint8Array s) []) in
      ret (Some (GCM.ciphertext enc, iv, GCM.tag enc))
  end.

(** The body of the loop of [editPassword] at index [i]. *)
Definition edit_at (id : Z) (user password site note category : option string)
    (favorite : option bool) (i : nat) : M unit :=
  let! v := this in
  match vaultPasswords v !! i with
  | None => ret tt
  | Some p =>
      if passwordId p =? id then
        let! passData := sealed_secret password in
        let! userData := sealed_secret user in
        let! updated := now in
        update (fun v => set_vaultPasswords
                           (alter (editPrivate userData passData site note category
                                               favorite updated) i (vaultPasswords v)) v)
      else ret tt
  end.

(** The loop of [editPassword]; no turn changes the length of the list. *)
Definition edit_entries (id : Z) (user password site note category : option string)
    (favorite : option bool) : M unit :=
  let! v := this in
  for_each (edit_at id user password site note category favorite)
           (seq 0 (length (vaultPasswords v))).

(** [Vault.editPassword]. *)
Definition editPassword (id : Z) (user password site note category : option string)
    (favorite : option bool) : M unit :=
  edit_entries id user password site note category favorite ;;
  let! t := now in
  update (set_updatedAt t) ;;
  not_awaited saveToFile ;;
  not_awaited sync.

(** [Vault.getDecryptedPasswords]: the loop stops at the first entry that
    does not decrypt. *)
Definition getDecryptedPasswords (v : Vault) : result (list AccountInfo) :=
  foldr (fun p acc =>
           let* dp := getAccountInfo p (derivedKey v) in
           let* rest := acc in
           Ok (dp :: rest))
        (Ok []) (vaultPasswords v).

End Engine.

(** ** Vocabulary of the statements *)

Section Stages.
Context {wasm : Wasm} {runtime : Runtime}.

(** The instances that a list of objects decodes to, as the loops of
    [createFromFile] and [importVaultData] build them one by one. *)
Definition decode_all (objs : list PasswordObject) : result (list Password) :=
  foldr (fun key acc =>
           let* p := Password_of_object key in
           let* rest := acc in
           Ok (p :: rest))
        (Ok []) objs.

(** The instance after the first statements of [saveToFile]: version, time
    stamp and digest of the entries. *)
Definition stamped (v : Vault) (w : World) : Vault :=
  set_verificationPlaintext (sha256 (stringify_instances (vaultPasswords v)))
    (set_updatedAt (clock w (ticks w)) (set_version (version v + 1) v)).

(** The instance after [setVerificationToken] sealed the digest. *)
Definition sealed (v : Vault) (iv : bytes) (enc : GCM.GCMEncryptResult) : Vault :=
  set_verification (uint8ArrayToBase64 (GCM.ciphertext enc)) (uint8ArrayToBase64 iv)
                   (uint8ArrayToBase64 (GCM.tag enc)) v.

(** The object [userData] that [saveToFile] writes. *)
Definition document_of (v : Vault) : VaultDocument :=
  mkVaultDocument (Some (user v)) (Some (version v)) (Some (salt v))
                  (Some (createdAt v)) (Some (updatedAt v))
                  (Some (verificationToken v)) (Some (verificationIV v))
                  (Some (verificationTag v))
                  (Some (map getAsObject (vaultPasswords v))).

(** The instance after [createFromFile] read the document [d], whose entries
    decode to [ps]. *)
Definition loaded (d : VaultDocument) (ps : list Password) (v : Vault) : Vault :=
  let v := match doc_createdAt d with Some c => set_createdAt c v | None => v end in
  let v := match doc_updatedAt d with
           | Some u => set_updatedAt
                         (if String.eqb u "" then default "" (doc_createdAt d) else u) v
           | None => v
           end in
  let v := match doc_version d with Some n => set_version n v | None => v end in
  let v := match doc_salt d with Some s => set_salt s v | None => v end in
  let v := match doc_vault d with
           | Some _ => set_vaultPasswords (vaultPasswords v ++ ps) v
           | None => v
           end in
  match doc_verificationToken d with
  | Some t => set_verification t (default "" (doc_verificationIV d))
                                 (default "" (doc_verificationTag d)) v
  | None => v
  end.

End Stages.

(** The integers on which a JavaScript number counts exactly: below 2^53 in
    absolute value, [x + 1] is the integer successor of [x]. *)
Definition safe_integer (z : Z) : Prop := - 2 ^ 53 < z < 2 ^ 53.

(** The largest identifier of a list of entries. *)
Definition max_identifier (l : list Password) : option Z :=
  foldr (fun q acc => match acc with
                      | None => Some (passwordId q)
                      | Some m => Some (Z.max (passwordId q) m)
                      end) None l.

(** The identifier the specification gives to a new entry. *)
Definition spec_identifier (l : list Password) : Z :=
  match max_identifier l with
  | Some m => m + 1
  | None => 0
  end.

(** The identifier [addPassword] computes. *)
Definition next_identifier (l : list Password) : Z :=
  match last l with
  | Some q => passwordId q + 1
  | None => 0
  end.

(** The 16 bytes the random source returns [off] bytes from now. *)
Definition random_block (w : World) (off : nat) : bytes :=
  map (fun i => u8 (entropy w (drawn w + off + i))) (seq 0 16).

(** The identifiers of the entries of a vault. *)
Definition identifiers (v : Vault) : list Z := map passwordId (vaultPasswords v).

(** The vault document of a user on disk. *)
Definition document (w : World) (user : string) : option VaultDocument :=
  match disk w !! vault_file user with
  | Some (VaultFile d) => Some d
  | _ => None
  end.

(** A divisor of [N], and half of that divisor minus one: modulo the
    divisor the powers of 2 are the numbers whose [half_order]-th power is 1. *)
Definition small_factor : Z := 61311073.
Definition half_order : Z := 30655536.

(** The multipliers [k] for which the server's [B = (k·v + g^b) mod N] cannot
    be zero: modulo [small_factor], [-k] is not a power of 2. *)
Definition admissible (k : Z) : bool :=
  negb (SRP.modPow ((- k) mod small_factor) half_order small_factor =? 1).

(** The identifier of the entry a run of [newEntry] created. *)
Definition added_identifier (r : result Password * (Vault * World)) : option Z :=
  match fst r with
  | Ok p => Some (passwordId p)
  | Err _ => None
  end.

(** The nonces of the entry a run of [newEntry] created: password, username. *)
Definition added_nonces (r : result Password * (Vault * World)) : option (bytes * bytes) :=
  match fst r with
  | Ok p => Some (passwordIV p, usernameIV p)
  | Err _ => None
  end.

(** The server accepts the bearer token of [v] and holds credentials for it,
    or [v] holds no token. *)
Definition server_accepts (v : Vault) (w : World) : Prop :=
  match bearer v with
  | None => True
  | Some tok => reachable (server w) = true ∧ tok ∈ sessions (server w)
                ∧ credentials (server w) ≠ None
  end.

(** The salt that [changeMasterPassword] draws in the world [w]. *)
Definition new_salt {runtime : Runtime} (w : World) : string :=
  uint8ArrayToBase64 (map (fun i => u8 (entropy w (drawn w + i))) (seq 0 32)).

(** ** Concrete inputs *)

Module Sample.

Definition key : bytes := map Z.of_nat (seq 0 32).

Definition entry (id : Z) : Password :=
  mkPassword id [] [] [] [] [] [] "example.org" false "" "" "2025-01-01T00:00:00.000Z"
             "2025-01-01T00:00:00.000Z".

Definition two_digits (n : nat) : string :=
  String (ascii_of_nat (48 + n / 10 mod 10)) (String (ascii_of_nat (48 + n mod 10)) "").

(** The clock advances by one second at each reading, from 2025-06-01 12:00:00. *)
Definition clock (n : nat) : string := "2025-06-01T12:00:" ++ two_digits n ++ ".000Z".

Definition offline : Server := mkServer false [] None None.

(** The random source returns 0, 1, 2, ... *)
Definition world : World := mkWorld ∅ true (fun i => Z.of_nat i) 0 clock 0 offline.

(** A random source that returns zeros only. *)
Definition world_zero : World := mkWorld ∅ true (fun _ => 0) 0 clock 0 offline.

(** A vault of user alice, unlocked under [key], not logged in to the server,
    holding entries with the given identifiers. *)
Definition vault (ids : list Z) : Vault :=
  mkVault "alice" "2025-01-01T00:00:00.000Z" "2025-01-01T00:00:00.000Z" 1
          (map entry ids) "c2FsdA==" "c2VjcmV0" None "" "" "" "" key.

(** A document written before verification tokens existed: it holds no
    token, IV or tag. *)
Definition legacy_document : VaultDocument :=
  mkVaultDocument (Some "alice") (Some 3) (Some "c2FsdA==")
                  (Some "2025-01-01T00:00:00.000Z") (Some "2025-01-01T00:00:00.000Z")
                  None None None (Some []).

Definition legacy_world : World :=
  mkWorld {[ vault_file "alice" := VaultFile legacy_document ]} true
          (fun i => Z.of_nat i) 0 clock 0 offline.

(** A world whose key file holds the secret key of [vault]. *)
Definition keyed_world {runtime : Runtime} : World :=
  mkWorld {[ key_file "alice" := KeyFile (encryptString "c2VjcmV0") ]} true
          (fun i => Z.of_nat i) 0 clock 0 offline.

(** A vault file that lists the entries 5 and 2, in this order. *)
Definition unsorted_document {runtime : Runtime} : VaultDocument :=
  mkVaultDocument (Some "alice") (Some 3) (Some "c2FsdA==")
                  (Some "2025-01-01T00:00:00.000Z") (Some "2025-01-01T00:00:00.000Z")
                  None None None (Some (map (fun id => getAsObject (entry id)) [5; 2])).

Definition unsorted_world {runtime : Runtime} : World :=
  mkWorld {[ vault_file "alice" := VaultFile unsorted_document ]} true
          (fun i => Z.of_nat i) 0 clock 0 offline.

(** An SRP exchange: the multiplier [H(N, g)] under SHA-256, the bytes drawn
    at registration, the salt they give, the hash [x] of salt and password
    "correct horse", the verifier, and for each side the 32 bytes drawn for
    its ephemeral, the exponent they encode and the public value. *)
Definition multiplier : Z :=
  32792654813796916186390817749037559530535150872736527756414108841326869126430.
Definition srp_random : bytes := map Z.of_nat (seq 1 16).
Definition srp_salt : string := "0102030405060708090a0b0c0d0e0f10".
Definition srp_x : Z :=
  2416759613213266978509883753983106190876398978305160412002066111824569987971.
Abbreviation srp_verifier := (toString16 (SRP.modPow SRP.g srp_x SRP.N)).
Definition client_draw : bytes := map Z.of_nat (seq 33 32).
Definition srp_a : Z :=
  14986639339042723578389441135457399961447446227543729134272587881746972688192.
Abbreviation srp_A := (toString16 (SRP.modPow SRP.g srp_a SRP.N)).
Definition server_draw : bytes := map Z.of_nat (seq 65 32).
Definition srp_b : Z :=
  29517411321764755945268937293410392319504856067937839131380990580779208564576.
Abbreviation srp_B :=
  (toString16 (Z.rem (Z.rem (multiplier * SRP.modPow SRP.g srp_x SRP.N) SRP.N
                      + SRP.modPow SRP.g srp_b SRP.N) SRP.N)).

(** An entry whose six binary fields hold the given number of bytes each. *)
Definition byte_entry (id : Z) (n : nat) : Password :=
  mkPassword id (map Z.of_nat (seq 1 n)) (map Z.of_nat (seq 2 n)) (map Z.of_nat (seq 3 n))
             (map Z.of_nat (seq 4 n)) (map Z.of_nat (seq 5 n)) (map Z.of_nat (seq 6 n))
             "example.org" false "a note" "" "2025-01-01T00:00:00.000Z"
             "2025-01-01T00:00:00.000Z".

(** A text sealed under a key with a nonce: ciphertext and tag. *)
Definition seal_text (key iv : bytes) (text : string) : bytes * bytes :=
  match GCM.encrypt key iv (utf8 text) [] with
  | Ok c => (GCM.ciphertext c, GCM.tag c)
  | Err _ => ([], [])
  end.

(** An entry whose user name and password are sealed under a key. *)
Definition sealed_entry (key : bytes) (id : Z) (user password : string) : Password :=
  mkPassword id
             (fst (seal_text key (map Z.of_nat (seq 0 16)) user))
             (map Z.of_nat (seq 0 16))
             (snd (seal_text key (map Z.of_nat (seq 0 16)) user))
             (fst (seal_text key (map Z.of_nat (seq 16 16)) password))
             (map Z.of_nat (seq 16 16))
             (snd (seal_text key (map Z.of_nat (seq 16 16)) password))
             "example.org" false "" "" "2025-01-01T00:00:00.000Z"
             "2025-01-01T00:00:00.000Z".

(** The vault of alice with the given entries, under the key derived from
    the master password "master". *)
Definition master_vault {wasm : Wasm} (ps : list Password) : Vault :=
  set_derivedKey (deriveKey "c2FsdA==" "master" "c2VjcmV0")
                 (set_vaultPasswords ps (vault [])).

(** That vault holding one entry of user bob, sealed under its key, and the
    entry in clear. *)
Definition keyed_vault {wasm : Wasm} : Vault :=
  master_vault [sealed_entry (deriveKey "c2FsdA==" "master" "c2VjcmV0") 0 "bob" "hunter2"].

Definition bob : AccountInfo :=
  mkAccountInfo 0 "example.org" "bob" "hunter2" "" "" false "2025-01-01T00:00:00.000Z"
                "2025-01-01T00:00:00.000Z".

(** The vault of alice under [key] holding the same entry, sealed under [key]. *)
Definition stocked : Vault :=
  set_vaultPasswords [sealed_entry key 0 "bob" "hunter2"] (vault []).

(** An entry in clear whose site holds a comma and whose note holds quotes. *)
Definition quoted : AccountInfo :=
  mkAccountInfo 1 "example.org, Inc." "carol" "s3cret"
                ("say " ++ String (ascii_of_nat 34) ("hi" ++ String (ascii_of_nat 34) ""))
                "work" true "2025-01-01T00:00:00.000Z" "2025-01-01T00:00:00.000Z".

(** A logged-in device whose vault holds two entries. *)
Definition device : Vault :=
  set_version 9 (set_token (Some "tok")
                   (set_vaultPasswords [byte_entry 1 16; byte_entry 2 3] (vault []))).

End Sample.

(** Inputs of the synchronisation runs. *)
Module Scenario.

Section Platform.
Context {wasm : Wasm} {runtime : Runtime}.

(** The server accepts the token "tok" and holds no vault yet. *)
Definition server0 : Server := mkServer true ["tok"%string] None (Some ("00"%string, "1"%string)).

Definition world0 : World :=
  mkWorld ∅ true (fun i => Z.of_nat i) 0 Sample.clock 0 server0.

(** A device whose vault is empty uploads it. *)
Definition uploader : Vault := set_version 9 (set_token (Some "tok"%string) (Sample.vault [])).

Definition uploaded : option RemoteDocument :=
  stored (server (snd (snd (uploadVault (uploader, world0))))).

(** The uploaded document, stamped 2025-03-01. *)
Definition remote : RemoteDocument :=
  match uploaded with
  | Some d =>
      mkRemoteDocument (r_user d) (r_version d) (r_salt d) (r_createdAt d)
                       "2025-03-01T00:00:00.000Z" (r_verificationIV d)
                       (r_verificationCiphertext d) (r_verificationTag d) (r_vault d)
  | None => mkRemoteDocument "" 0 "" "" "" "" "" "" (mkEnvelope "" "" "")
  end.

(** The same document after the server changed the salt and the ciphertext
    of the inner envelope. *)
Definition tampered : RemoteDocument :=
  mkRemoteDocument (r_user remote) (r_version remote) "ZXZpbA==" (r_createdAt remote)
                   (r_updatedAt remote) (r_verificationIV remote)
                   (r_verificationCiphertext remote) (r_verificationTag remote)
                   (mkEnvelope (vault_iv (r_vault remote)) "AAAA" (vault_tag (r_vault remote))).

(** The local vault: one entry, version 4, last updated 2025-01-01, logged in. *)
Definition local : Vault := set_version 4 (set_token (Some "tok"%string) (Sample.vault [7])).

(** The local world: the vault file holds the local vault, the server holds
    the given document. *)
Definition world_with (d : RemoteDocument) : World :=
  mkWorld {[ vault_file "alice" := VaultFile (document_of local) ]} true
          (fun i => Z.of_nat i) 0 Sample.clock 0
          (mkServer true ["tok"%string] (Some d) (Some ("00"%string, "1"%string))).

End Platform.

End Scenario.

(** ** A reference platform

    Executable models of the functions the development is parametric in,
    used to run the engine on concrete inputs. *)

Module Reference.

(** The first [n] 32-bit words written in a string, eight digits each. *)
Fixpoint hex_words (n : nat) (s : string) : list Z :=
  match n with
  | O => []
  | S n => Z.of_N (HexString.Raw.to_N (substring 0 8 s) 0)
           :: hex_words n (substring 8 (String.length s - 8) s)
  end.

(** Modelled from the spec: [sha256(bytes) → digest[32]], "SHA-256 must match
    FIPS-180"; the WASM module that implements it is not among the sources.
    These are the sixty-four round constants. *)
Definition K256 : list Z := Eval vm_compute in
  hex_words 64
    ("428a2f9871374491b5c0fbcfe9b5dba53956c25b59f111f1923f82a4ab1c5ed5" ++
     "d807aa9812835b01243185be550c7dc372be5d7480deb1fe9bdc06a7c19bf174" ++
     "e49b69c1efbe47860fc19dc6240ca1cc2de92c6f4a7484aa5cb0a9dc76f988da" ++
     "983e5152a831c66db00327c8bf597fc7c6e00bf3d5a7914706ca635114292967" ++
     "27b70a852e1b21384d2c6dfc53380d13650a7354766a0abb81c2c92e92722c85" ++
     "a2bfe8a1a81a664bc24b8b70c76c51a3d192e819d6990624f40e3585106aa070" ++
     "19a4c1161e376c082748774c34b0bcb5391c0cb34ed8aa4a5b9cca4f682e6ff3" ++
     "748f82ee78a5636f84c878148cc7020890befffaa4506cebbef9a3f7c67178f2").

Definition H256 : list Z := [
    0x6a09e667; 0xbb67ae85; 0x3c6ef372; 0xa54ff53a; 0x510e527f; 0x9b05688c; 0x1f83d9ab; 0x5be0cd19 ].

Definition w32 (z : Z) : Z := Z.land z 0xffffffff.
Definition rotr (n x : Z) : Z := Z.lor (Z.shiftr x n) (w32 (Z.shiftl x (32 - n))).
Definition Ch (x y z : Z) : Z := Z.lxor (Z.land x y) (Z.land (Z.lxor x 0xffffffff) z).
Definition Maj (x y z : Z) : Z := Z.lxor (Z.lxor (Z.land x y) (Z.land x z)) (Z.land y z).
Definition Sigma0 (x : Z) : Z := Z.lxor (Z.lxor (rotr 2 x) (rotr 13 x)) (rotr 22 x).
Definition Sigma1 (x : Z) : Z := Z.lxor (Z.lxor (rotr 6 x) (rotr 11 x)) (rotr 25 x).
Definition sigma0 (x : Z) : Z := Z.lxor (Z.lxor (rotr 7 x) (rotr 18 x)) (Z.shiftr x 3).
Definition sigma1 (x : Z) : Z := Z.lxor (Z.lxor (rotr 17 x) (rotr 19 x)) (Z.shiftr x 10).

(** Big-endian bytes of a word, and back. *)
Definition be_bytes (n : nat) (z : Z) : bytes :=
  map (fun i => Z.land (Z.shiftr z (8 * Z.of_nat (n - 1 - i))) 255) (seq 0 n).
Definition be_value (b : bytes) : Z := foldl (fun acc x => acc * 256 + x) 0 b.

Fixpoint chunks (fuel n : nat) (l : bytes) : list bytes :=
  match fuel with
  | O => []
  | S fuel => match l with
              | [] => []
              | _ => take n l :: chunks fuel n (drop n l)
              end
  end.

Definition schedule (block : bytes) : list Z :=
  let w := map be_value (chunks 16 4 block) in
  foldl (fun w i =>
           w ++ [w32 (sigma1 (get w (i - 2)) + get w (i - 7)
                      + sigma0 (get w (i - 15)) + get w (i - 16))])
        w (seq 16 48).

Definition compress (h : list Z) (block : bytes) : list Z :=
  let w := schedule block in
  let step (s : list Z) (i : nat) : list Z :=
    let a := get s 0 in let b := get s 1 in let c := get s 2 in let d := get s 3 in
    let e := get s 4 in let f := get s 5 in let g := get s 6 in let hh := get s 7 in
    let t1 := w32 (hh + Sigma1 e + Ch e f g + get K256 i + get w i) in
    let t2 := w32 (Sigma0 a + Maj a b c) in
    [w32 (t1 + t2); a; b; c; w32 (d + t1); e; f; g] in
  let s := foldl step h (seq 0 64) in
  map (fun i => w32 (get h i + get s i)) (seq 0 8).

Definition pad (msg : bytes) : bytes :=
  let zeros := ((55 + 64 - length msg mod 64) mod 64)%nat in
  msg ++ [0x80] ++ replicate zeros 0 ++ be_bytes 8 (8 * Z.of_nat (length msg)).

Definition sha256_bytes (msg : bytes) : bytes :=
  let m := pad (map u8 msg) in
  let h := foldl compress H256 (chunks (length m) 64 m) in
  concat (map (fun i => be_bytes 4 (get h i)) (seq 0 8)).

(** The binding exported by the module: text in, hexadecimal digest out. *)
Definition sha256_hex (s : string) : string := Buffer_toString_hex (sha256_bytes (utf8 s)).

(** Modelled from the spec: [hmac_sha256(key, bytes) → mac[32]], "Standard HMAC
    construction with 64-byte blocks, ipad/opad = 0x36/0x5C". *)
Definition hmac_sha256 (key msg : bytes) : bytes :=
  let key := if (64 <? length key)%nat then sha256_bytes key else key in
  let key := key ++ replicate (64 - length key) 0 in
  sha256_bytes (map (Z.lxor 0x5c) key ++ sha256_bytes (map (Z.lxor 0x36) key ++ msg)).

Definition xor_bytes (a b : bytes) : bytes := zip_with Z.lxor a b.

(** Modelled from the spec: [pbkdf2(password, salt, iterations, dk_len) → key],
    PBKDF2-HMAC-SHA256 (RFC 8018). *)
Definition pbkdf2_block (pw salt : bytes) (c : Z) (i : nat) : bytes :=
  let u1 := hmac_sha256 pw (salt ++ be_bytes 4 (Z.of_nat i)) in
  match c - 1 with
  | Zpos n => snd (Pos.iter (fun '(u, f) => let u' := hmac_sha256 pw u in (u', xor_bytes f u'))
                            (u1, u1) n)
  | _ => u1
  end.

Definition pbkdf2_bytes (pw salt : bytes) (c dkLen : Z) : bytes :=
  let n := Z.to_nat dkLen in
  let blocks := ((n + 31) / 32)%nat in
  take n (concat (map (pbkdf2_block pw salt c) (seq 1 blocks))).

Definition pbkdf2_hex (pw salt : string) (c dkLen : Z) : string :=
  Buffer_toString_hex (pbkdf2_bytes (utf8 pw) (utf8 salt) c dkLen).

(** Base64 with the standard alphabet and padding. *)
Definition alphabet : list ascii :=
  list_ascii_of_string "ABCDEFGHIJKLMNOPQRSTUVWXYZabcdefghijklmnopqrstuvwxyz0123456789+/".

Definition b64_char (i : Z) : ascii := nth (Z.to_nat i) alphabet "="%char.

Fixpoint index_of (c : ascii) (l : list ascii) (i : Z) : option Z :=
  match l with
  | [] => None
  | x :: rest => if Ascii.eqb c x then Some i else index_of c rest (i + 1)
  end.

Definition b64_value (c : ascii) : option Z := index_of c alphabet 0.

Fixpoint b64_encode (b : bytes) : list ascii :=
  match b with
  | [] => []
  | [x] => [b64_char (x / 4); b64_char (x mod 4 * 16); "="; "="]%char
  | [x; y] =>
      [b64_char (x / 4); b64_char (x mod 4 * 16 + y / 16); b64_char (y mod 16 * 4); "="%char]
  | x :: y :: z :: rest =>
      b64_char (x / 4) :: b64_char (x mod 4 * 16 + y / 16)
        :: b64_char (y mod 16 * 4 + z / 64) :: b64_char (z mod 64) :: b64_encode rest
  end.

Fixpoint b64_decode (fuel : nat) (cs : list ascii) : option bytes :=
  match fuel with
  | O => match cs with [] => Some [] | _ => None end
  | S fuel =>
      match cs with
      | [] => Some []
      | [a; b; c; d] =>
          match b64_value a, b64_value b with
          | Some a, Some b =>
              if Ascii.eqb d "=" then
                if Ascii.eqb c "=" then Some [a * 4 + b / 16]
                else match b64_value c with
                     | Some c => Some [a * 4 + b / 16; b mod 16 * 16 + c / 4]
                     | None => None
                     end
              else match b64_value c, b64_value d with
                   | Some c, Some d =>
                       Some [a * 4 + b / 16; b mod 16 * 16 + c / 4; c mod 4 * 64 + d]
                   | _, _ => None
                   end
          | _, _ => None
          end
      | a :: b :: c :: d :: rest =>
          match b64_value a, b64_value b, b64_value c, b64_value d, b64_decode fuel rest with
          | Some a, Some b, Some c, Some d, Some tl =>
              Some (a * 4 + b / 16 :: b mod 16 * 16 + c / 4 :: c mod 4 * 64 + d :: tl)
          | _, _, _, _, _ => None
          end
      | _ => None
      end
  end.

Definition base64_encode (b : bytes) : string := string_of_list_ascii (b64_encode b).
Definition base64_decode (s : string) : result bytes :=
  match b64_decode (String.length s) (list_ascii_of_string s) with
  | Some b => Ok b
  | None => Err InvalidCharacterError
  end.

(** Text whose bytes are the given ones. *)
Definition text_of (b : bytes) : string :=
  string_of_list_ascii (map (fun x => ascii_of_N (Z.to_N x)) b).

(** [new TextDecoder().decode(b)] on well-formed UTF-8: a byte-order mark at
    the start is left out. *)
Definition decode_text (b : bytes) : string :=
  if bytes_start_with_BOM b then text_of (drop 3 b) else text_of b.

(** Stand-ins for [JSON.stringify] of the instances and of the envelope: one
    line per entry, fields in the order of the source objects. *)
Definition show_bool (b : bool) : string := if b then "true" else "false".
Definition show_list {A} (f : A → string) (l : list A) : string :=
  "[" ++ String.concat "," (map f l) ++ "]".
Definition show_instance (p : Password) : string :=
  "{" ++ toString16 (passwordId p) ++ "," ++ Buffer_toString_hex (username p)
      ++ "," ++ Buffer_toString_hex (usernameIV p) ++ "," ++ Buffer_toString_hex (usernameTag p)
      ++ "," ++ Buffer_toString_hex (password p) ++ "," ++ Buffer_toString_hex (passwordIV p)
      ++ "," ++ Buffer_toString_hex (passwordTag p) ++ "," ++ site p
      ++ "," ++ show_bool (isFavorite p) ++ "," ++ note p ++ "," ++ category p
      ++ "," ++ created p ++ "," ++ updated p ++ "}".
Definition show_envelope (e : Envelope) : string :=
  "{" ++ vault_iv e ++ "," ++ vault_ciphertext e ++ "," ++ vault_tag e ++ "}".

(** [JSON.stringify] of the list of [getAsObject()] objects, and [JSON.parse]
    of the text it writes: keys in the order of the source object, no white
    space.  A number is an integer written in decimal digits. *)
Definition quote : string := String (ascii_of_nat 34) EmptyString.
Definition backslash : ascii := ascii_of_nat 92.

Definition hex_digit (n : N) : ascii :=
  match String.get (N.to_nat n) "0123456789abcdef" with Some c => c | None => "0"%char end.

(** QuoteJSONString on one unit. *)
Definition json_escape (c : ascii) : string :=
  let n := N_of_ascii c in
  if (n =? 34)%N then String backslash quote
  else if (n =? 92)%N then String backslash (String backslash "")
  else if (n =? 8)%N then String backslash "b"
  else if (n =? 12)%N then String backslash "f"
  else if (n =? 10)%N then String backslash "n"
  else if (n =? 13)%N then String backslash "r"
  else if (n =? 9)%N then String backslash "t"
  else if (n <? 32)%N
       then String backslash ("u00" ++ String (hex_digit (n / 16)) (String (hex_digit (n mod 16)) ""))
       else String c "".

Fixpoint json_escape_all (s : string) : string :=
  match s with
  | EmptyString => EmptyString
  | String c rest => json_escape c ++ json_escape_all rest
  end.

Definition json_string (s : string) : string := quote ++ json_escape_all s ++ quote.
Definition json_number (z : Z) : string := NilZero.string_of_int (Z.to_int z).
Definition json_bool (b : bool) : string := if b then "true" else "false".
Definition json_key (k : string) : string := quote ++ k ++ quote ++ ":".

Definition json_object (o : PasswordObject) : string :=
  "{" ++ json_key "password_id" ++ json_number (password_id o)
  ++ "," ++ json_key "metadata" ++ "{"
  ++ json_key "site" ++ json_string (meta_site o)
  ++ "," ++ json_key "category" ++ json_string (meta_category o)
  ++ "," ++ json_key "note" ++ json_string (meta_note o)
  ++ "," ++ json_key "favorite" ++ json_bool (meta_favorite o)
  ++ "," ++ json_key "created" ++ json_string (meta_created o)
  ++ "," ++ json_key "updated" ++ json_string (meta_updated o)
  ++ "}," ++ json_key "data" ++ "{"
  ++ json_key "username" ++ json_string (data_username o)
  ++ "," ++ json_key "username_iv" ++ json_string (data_username_iv o)
  ++ "," ++ json_key "username_tag" ++ json_string (data_username_tag o)
  ++ "," ++ json_key "password" ++ json_string (data_password o)
  ++ "," ++ json_key "password_iv" ++ json_string (data_password_iv o)
  ++ "," ++ json_key "password_tag" ++ json_string (data_password_tag o)
  ++ "}}".

Definition json_objects (l : list PasswordObject) : string :=
  "[" ++ String.concat "," (map json_object l) ++ "]".

(** Reading: each function returns the value read and the rest of the text. *)
Fixpoint expect (lit s : string) : option string :=
  match lit with
  | EmptyString => Some s
  | String c lit =>
      match s with
      | String d s => if Ascii.eqb c d then expect lit s else None
      | EmptyString => None
      end
  end.

Definition hex_value (c : ascii) : option N :=
  match HexString.ascii_to_digit c with Some n => Some n | None => None end.

(** The characters of a string literal after its opening quote. *)
Fixpoint read_chars (s : string) (acc : string) : option (string * string) :=
  match s with
  | EmptyString => None
  | String c rest =>
      if Ascii.eqb c (ascii_of_nat 34) then Some (acc, rest)
      else if Ascii.eqb c backslash then
        match rest with
        | String e rest' =>
            let plain (x : nat) := read_chars rest' (acc ++ String (ascii_of_nat x) "") in
            if Ascii.eqb e (ascii_of_nat 34) then plain 34%nat
            else if Ascii.eqb e backslash then plain 92%nat
            else if Ascii.eqb e "/" then plain 47%nat
            else if Ascii.eqb e "b" then plain 8%nat
            else if Ascii.eqb e "f" then plain 12%nat
            else if Ascii.eqb e "n" then plain 10%nat
            else if Ascii.eqb e "r" then plain 13%nat
            else if Ascii.eqb e "t" then plain 9%nat
            else if Ascii.eqb e "u" then
              match rest' with
              | String "0" (String "0" (String h (String l rest''))) =>
                  match hex_value h, hex_value l with
                  | Some h, Some l =>
                      if (h <? 8)%N
                      then read_chars rest'' (acc ++ String (ascii_of_N (16 * h + l)) "")
                      else None
                  | _, _ => None
                  end
              | _ => None
              end
            else None
        | EmptyString => None
        end
      else if (N_of_ascii c <? 32)%N then None
      else read_chars rest (acc ++ String c "")
  end.

Definition read_string (s : string) : option (string * string) :=
  match expect quote s with
  | Some s => read_chars s EmptyString
  | None => None
  end.

Definition digit_value (c : ascii) : option Z :=
  let n := Z.of_N (N_of_ascii c) in
  if (48 <=? n) && (n <=? 57) then Some (n - 48) else None.

Fixpoint read_digits (s : string) (acc : Z) : Z * string :=
  match s with
  | String c rest =>
      match digit_value c with
      | Some d => read_digits rest (10 * acc + d)
      | None => (acc, s)
      end
  | EmptyString => (acc, s)
  end.

Definition read_number (s : string) : option (Z * string) :=
  let '(neg, s) := match s with
                   | String "-" rest => (true, rest)
                   | _ => (false, s)
                   end in
  match s with
  | String c _ =>
      match digit_value c with
      | Some _ => let '(n, rest) := read_digits s 0 in Some (if neg : bool then - n else n, rest)
      | None => None
      end
  | EmptyString => None
  end.

Definition read_bool (s : string) : option (bool * string) :=
  match expect "true" s with
  | Some rest => Some (true, rest)
  | None => match expect "false" s with
            | Some rest => Some (false, rest)
            | None => None
            end
  end.

Definition andThen {A B} (r : option (A * string)) (k : A → string → option B) : option B :=
  match r with
  | Some (a, s) => k a s
  | None => None
  end.

Definition field {A} (sep key : string) (read : string → option (A * string)) (s : string)
  : option (A * string) :=
  match expect (sep ++ json_key key) s with
  | Some s => read s
  | None => None
  end.

Definition read_object (s : string) : option (PasswordObject * string) :=
  andThen (field "{" "password_id" read_number s) (fun id s =>
  andThen (field (",") "metadata" (fun s => field "{" "site" read_string s) s) (fun site s =>
  andThen (field "," "category" read_string s) (fun category s =>
  andThen (field "," "note" read_string s) (fun note s =>
  andThen (field "," "favorite" read_bool s) (fun favorite s =>
  andThen (field "," "created" read_string s) (fun created s =>
  andThen (field "," "updated" read_string s) (fun updated s =>
  andThen (field "}," "data" (fun s => field "{" "username" read_string s) s) (fun u s =>
  andThen (field "," "username_iv" read_string s) (fun uiv s =>
  andThen (field "," "username_tag" read_string s) (fun utg s =>
  andThen (field "," "password" read_string s) (fun p s =>
  andThen (field "," "password_iv" read_string s) (fun piv s =>
  andThen (field "," "password_tag" read_string s) (fun ptg s =>
  match expect "}}" s with
  | Some s => Some (mkPasswordObject id site category note favorite created updated
                                     u uiv utg p piv ptg, s)
  | None => None
  end))))))))))))).

(** The objects after the first one: [,object]* followed by the closing bracket. *)
Fixpoint read_more (fuel : nat) (s : string) : option (list PasswordObject) :=
  match fuel with
  | O => None
  | S fuel =>
      match s with
      | String "]" EmptyString => Some []
      | String "," rest =>
          andThen (read_object rest) (fun o s =>
            match read_more fuel s with
            | Some l => Some (o :: l)
            | None => None
            end)
      | _ => None
      end
  end.

Definition parse_objects (s : string) : result (option (list PasswordObject)) :=
  if String.eqb s "null" then Ok None
  else if String.eqb s "[]" then Ok (Some [])
  else
    match expect "[" s with
    | Some rest =>
        match andThen (read_object rest) (fun o s =>
                match read_more (String.length s) s with
                | Some l => Some (o :: l)
                | None => None
                end) with
        | Some l => Ok (Some l)
        | None => Err SyntaxError
        end
    | None => Err SyntaxError
    end.

(** A stand-in for [Date.getTime] that orders ISO-8601 strings of the same
    length as their dates. *)
Definition time_of (s : string) : option Z := Some (be_value (utf8 s)).

(** A stand-in for [safeStorage]: a one-byte header, then the text. *)
Definition seal (s : string) : bytes := 1 :: utf8 s.
Definition unseal (b : bytes) : result string :=
  match b with
  | 1 :: rest => Ok (text_of rest)
  | _ => Err SyntaxError
  end.

End Reference.

(** ** Vocabulary of the block cipher *)

(** The loop of [gmul], read as a sum: [xtime] is what one turn does to [a],
    and the turn adds [a] to the result when the low bit of [b] is set. *)
Definition xtime (a : Z) : Z :=
  let highBit := Z.land a 0x80 in
  let a := Z.land (Z.shiftl a 1) 0xff in
  if highBit =? 0 then a else Z.lxor a 0x1b.

Fixpoint gmul_sum (n : nat) (a b : Z) : Z :=
  match n with
  | O => 0
  | S n => Z.lxor (if Z.land b 1 =? 0 then 0 else a) (gmul_sum n (xtime a) (Z.shiftr b 1))
  end.

(** A check of all 256 bytes. *)
Definition on_bytes (P : Z → bool) : bool :=
  forallb (fun n => P (Z.of_nat n)) (seq 0 256).

(** The table [T] undoes the table [S] on every byte. *)
Definition inverse_tables (S T : list Z) : bool :=
  on_bytes (fun a => u8 (get T (Z.to_nat (u8 (get S (Z.to_nat a))))) =? a).

(** [a ^ b ^ c ^ d], as the two column loops write it. *)
Definition xor4 (a b c d : Z) : Z := Z.lxor (Z.lxor (Z.lxor a b) c) d.

(** The entries of the product of the matrix of [invMixColumns] with the matrix of
    [mixColumns], applied to one byte: the byte on the diagonal, 0 elsewhere. *)
Abbreviation inv_mix_products s := (
  (Z.lxor (Z.lxor (Z.lxor (AES.gmul 14 (AES.gmul 2 s)) (AES.gmul 11 s))
                  (AES.gmul 13 s)) (AES.gmul 9 (AES.gmul 3 s)) =? s) &&
  (Z.lxor (Z.lxor (Z.lxor (AES.gmul 14 (AES.gmul 3 s)) (AES.gmul 11 (AES.gmul 2 s)))
                  (AES.gmul 13 s)) (AES.gmul 9 s) =? 0) &&
  (Z.lxor (Z.lxor (Z.lxor (AES.gmul 14 s) (AES.gmul 11 (AES.gmul 3 s)))
                  (AES.gmul 13 (AES.gmul 2 s))) (AES.gmul 9 s) =? 0) &&
  (Z.lxor (Z.lxor (Z.lxor (AES.gmul 14 s) (AES.gmul 11 s))
                  (AES.gmul 13 (AES.gmul 3 s))) (AES.gmul 9 (AES.gmul 2 s)) =? 0) &&
  (Z.lxor (Z.lxor (Z.lxor (AES.gmul 9 (AES.gmul 2 s)) (AES.gmul 14 s))
                  (AES.gmul 11 s)) (AES.gmul 13 (AES.gmul 3 s)) =? 0) &&
  (Z.lxor (Z.lxor (Z.lxor (AES.gmul 9 (AES.gmul 3 s)) (AES.gmul 14 (AES.gmul 2 s)))
                  (AES.gmul 11 s)) (AES.gmul 13 s) =? s) &&
  (Z.lxor (Z.lxor (Z.lxor (AES.gmul 9 s) (AES.gmul 14 (AES.gmul 3 s)))
                  (AES.gmul 11 (AES.gmul 2 s))) (AES.gmul 13 s) =? 0) &&
  (Z.lxor (Z.lxor (Z.lxor (AES.gmul 9 s) (AES.gmul 14 s))
                  (AES.gmul 11 (AES.gmul 3 s))) (AES.gmul 13 (AES.gmul 2 s)) =? 0) &&
  (Z.lxor (Z.lxor (Z.lxor (AES.gmul 13 (AES.gmul 2 s)) (AES.gmul 9 s))
                  (AES.gmul 14 s)) (AES.gmul 11 (AES.gmul 3 s)) =? 0) &&
  (Z.lxor (Z.lxor (Z.lxor (AES.gmul 13 (AES.gmul 3 s)) (AES.gmul 9 (AES.gmul 2 s)))
                  (AES.gmul 14 s)) (AES.gmul 11 s) =? 0) &&
  (Z.lxor (Z.lxor (Z.lxor (AES.gmul 13 s) (AES.gmul 9 (AES.gmul 3 s)))
                  (AES.gmul 14 (AES.gmul 2 s))) (AES.gmul 11 s) =? s) &&
  (Z.lxor (Z.lxor (Z.lxor (AES.gmul 13 s) (AES.gmul 9 s))
                  (AES.gmul 14 (AES.gmul 3 s))) (AES.gmul 11 (AES.gmul 2 s)) =? 0) &&
  (Z.lxor (Z.lxor (Z.lxor (AES.gmul 11 (AES.gmul 2 s)) (AES.gmul 13 s))
                  (AES.gmul 9 s)) (AES.gmul 14 (AES.gmul 3 s)) =? 0) &&
  (Z.lxor (Z.lxor (Z.lxor (AES.gmul 11 (AES.gmul 3 s)) (AES.gmul 13 (AES.gmul 2 s)))
                  (AES.gmul 9 s)) (AES.gmul 14 s) =? 0) &&
  (Z.lxor (Z.lxor (Z.lxor (AES.gmul 11 s) (AES.gmul 13 (AES.gmul 3 s)))
                  (AES.gmul 9 (AES.gmul 2 s))) (AES.gmul 14 s) =? 0) &&
  (Z.lxor (Z.lxor (Z.lxor (AES.gmul 11 s) (AES.gmul 13 s))
                  (AES.gmul 9 (AES.gmul 3 s))) (AES.gmul 14 (AES.gmul 2 s)) =? s)).

(** The same for the matrix of [mixColumns] times the matrix of [invMixColumns]. *)
Abbreviation mix_inv_products s := (
  (Z.lxor (Z.lxor (Z.lxor (AES.gmul 2 (AES.gmul 14 s)) (AES.gmul 3 (AES.gmul 9 s)))
                  (AES.gmul 13 s)) (AES.gmul 11 s) =? s) &&
  (Z.lxor (Z.lxor (Z.lxor (AES.gmul 2 (AES.gmul 11 s)) (AES.gmul 3 (AES.gmul 14 s)))
                  (AES.gmul 9 s)) (AES.gmul 13 s) =? 0) &&
  (Z.lxor (Z.lxor (Z.lxor (AES.gmul 2 (AES.gmul 13 s)) (AES.gmul 3 (AES.gmul 11 s)))
                  (AES.gmul 14 s)) (AES.gmul 9 s) =? 0) &&
  (Z.lxor (Z.lxor (Z.lxor (AES.gmul 2 (AES.gmul 9 s)) (AES.gmul 3 (AES.gmul 13 s)))
                  (AES.gmul 11 s)) (AES.gmul 14 s) =? 0) &&
  (Z.lxor (Z.lxor (Z.lxor (AES.gmul 14 s) (AES.gmul 2 (AES.gmul 9 s)))
                  (AES.gmul 3 (AES.gmul 13 s))) (AES.gmul 11 s) =? 0) &&
  (Z.lxor (Z.lxor (Z.lxor (AES.gmul 11 s) (AES.gmul 2 (AES.gmul 14 s)))
                  (AES.gmul 3 (AES.gmul 9 s))) (AES.gmul 13 s) =? s) &&
  (Z.lxor (Z.lxor (Z.lxor (AES.gmul 13 s) (AES.gmul 2 (AES.gmul 11 s)))
                  (AES.gmul 3 (AES.gmul 14 s))) (AES.gmul 9 s) =? 0) &&
  (Z.lxor (Z.lxor (Z.lxor (AES.gmul 9 s) (AES.gmul 2 (AES.gmul 13 s)))
                  (AES.gmul 3 (AES.gmul 11 s))) (AES.gmul 14 s) =? 0) &&
  (Z.lxor (Z.lxor (Z.lxor (AES.gmul 14 s) (AES.gmul 9 s))
                  (AES.gmul 2 (AES.gmul 13 s))) (AES.gmul 3 (AES.gmul 11 s)) =? 0) &&
  (Z.lxor (Z.lxor (Z.lxor (AES.gmul 11 s) (AES.gmul 14 s))
                  (AES.gmul 2 (AES.gmul 9 s))) (AES.gmul 3 (AES.gmul 13 s)) =? 0) &&
  (Z.lxor (Z.lxor (Z.lxor (AES.gmul 13 s) (AES.gmul 11 s))
                  (AES.gmul 2 (AES.gmul 14 s))) (AES.gmul 3 (AES.gmul 9 s)) =? s) &&
  (Z.lxor (Z.lxor (Z.lxor (AES.gmul 9 s) (AES.gmul 13 s))
                  (AES.gmul 2 (AES.gmul 11 s))) (AES.gmul 3 (AES.gmul 14 s)) =? 0) &&
  (Z.lxor (Z.lxor (Z.lxor (AES.gmul 3 (AES.gmul 14 s)) (AES.gmul 9 s))
                  (AES.gmul 13 s)) (AES.gmul 2 (AES.gmul 11 s)) =? 0) &&
  (Z.lxor (Z.lxor (Z.lxor (AES.gmul 3 (AES.gmul 11 s)) (AES.gmul 14 s))
                  (AES.gmul 9 s)) (AES.gmul 2 (AES.gmul 13 s)) =? 0) &&
  (Z.lxor (Z.lxor (Z.lxor (AES.gmul 3 (AES.gmul 13 s)) (AES.gmul 11 s))
                  (AES.gmul 14 s)) (AES.gmul 2 (AES.gmul 9 s)) =? 0) &&
  (Z.lxor (Z.lxor (Z.lxor (AES.gmul 3 (AES.gmul 9 s)) (AES.gmul 13 s))
                  (AES.gmul 11 s)) (AES.gmul 2 (AES.gmul 14 s)) =? s)).

(** A state of the cipher: 16 bytes. *)
Definition block16 (s : bytes) : Prop := length s = 16%nat ∧ is_bytes s.

(** ** Vocabulary of the counter mode *)

(** The comparison of step 5 of [decrypt]: [tagValid] after the loop. *)
Definition tags_agree (computed tag : bytes) : bool :=
  foldl (fun tagValid i => if get computed i =? get tag i then tagValid else false)
        true (seq 0 GCM.GCM_TAG_SIZE).

(** The last four bytes of a counter block, read as a big-endian number. *)
Definition counter_value (c : bytes) : Z :=
  ((get c 12 * 256 + get c 13) * 256 + get c 14) * 256 + get c 15.

(** ** Vocabulary of the vault *)

(** The six binary fields of an entry hold bytes, as a [Uint8Array] does. *)
Definition entry_is_bytes (p : Password) : Prop :=
  is_bytes (username p) ∧ is_bytes (usernameIV p) ∧ is_bytes (usernameTag p)
  ∧ is_bytes (password p) ∧ is_bytes (passwordIV p) ∧ is_bytes (passwordTag p).

(** What [editPassword] leaves of an entry [p] that carries the identifier:
    the identifier and the creation time stay, each field for which a value
    was passed holds it, each other field is as before, and a new secret is
    stored as an envelope that opens under [key]. *)
Definition edited (key : bytes) (new_user new_password new_site new_note new_category
    : option string) (new_favorite : option bool) (p p' : Password) : Prop :=
  passwordId p' = passwordId p ∧ created p' = created p
  ∧ site p' = default (site p) new_site
  ∧ note p' = default (note p) new_note
  ∧ category p' = default (category p) new_category
  ∧ isFavorite p' = default (isFavorite p) new_favorite
  ∧ match new_password with
    | Some s => GCM.decrypt key (passwordIV p') (password p') (passwordTag p') [] = Ok (utf8 s)
    | None => password p' = password p ∧ passwordIV p' = passwordIV p
              ∧ passwordTag p' = passwordTag p
    end
  ∧ match new_user with
    | Some s => GCM.decrypt key (usernameIV p') (username p') (usernameTag p') [] = Ok (utf8 s)
    | None => username p' = username p ∧ usernameIV p' = usernameIV p
              ∧ usernameTag p' = usernameTag p
    end.

(** A user name that is one ordinary component of a path: it holds no
    separator ([/] or the backslash) and no NUL, so that
    [path.join(baseDir, user + "-key.json")] names the file of that name in
    the base directory. *)
Definition plain_name (user : string) : Prop :=
  forallb (fun c => negb (Ascii.eqb c "/") && negb (Ascii.eqb c (ascii_of_nat 92))
                    && negb (Ascii.eqb c (ascii_of_nat 0)))
          (list_ascii_of_string user) = true.

(** An entry in clear whose user name and password are well-formed and do
    not start with a byte-order mark: encoded and decoded again, they are
    what they were. *)
Definition decodable_entry (i : AccountInfo) : Prop :=
  decodable (ai_username i) ∧ decodable (ai_password i).

(** The entries in clear, under a key: the loop of [getDecryptedPasswords]
    and the step "Decrypt all passwords" of [changeMasterPassword]. *)
Definition decrypt_all {runtime : Runtime} (key : bytes) (ps : list Password)
  : result (list AccountInfo) :=
  foldr (fun p acc => let* dp := getAccountInfo p key in let* rest := acc in Ok (dp :: rest))
        (Ok []) ps.

(** ** accountOperations.ts: the CSV format

    A character of a [string] stands for one unit of a JavaScript string;
    the code below tests units only against the quote, the comma and the line
    feed. *)

Module CSV.

Definition quote : ascii := ascii_of_nat 34.
Definition line_feed : ascii := ascii_of_nat 10.

(** [field.includes(c)] for a one-character string [c]. *)
Fixpoint includes (field : string) (c : ascii) : bool :=
  match field with
  | EmptyString => false
  | String x rest => Ascii.eqb x c || includes rest c
  end.

(** [field.replace] of every quote by two quotes. *)
Fixpoint double_quotes (field : string) : string :=
  match field with
  | EmptyString => EmptyString
  | String x rest =>
      if Ascii.eqb x quote then String quote (String quote (double_quotes rest))
      else String x (double_quotes rest)
  end.

(** The function [escapeCSV] of [exportToCSV]. *)
Definition escapeCSV (field : string) : string :=
  if includes field ","%char || includes field quote || includes field line_feed
  then String quote (double_quotes field ++ String quote EmptyString)
  else field.

(** [parts.join(sep)]. *)
Fixpoint join (sep : string) (parts : list string) : string :=
  match parts with
  | [] => EmptyString
  | [x] => x
  | x :: rest => x ++ sep ++ join sep rest
  end.

(** The row that [exportToCSV] writes for one decrypted entry. *)
Definition export_row (p : AccountInfo) : string :=
  join "," [ escapeCSV (ai_site p); escapeCSV (ai_username p); escapeCSV (ai_password p);
             escapeCSV (ai_note p); escapeCSV (ai_category p);
             if ai_favorite p then "true" else "false";
             ai_createdAt p; ai_updatedAt p ]%string.

Definition header : string :=
  "site,username,password,note,category,favorite,createdAt,updatedAt".

(** The text that [exportToCSV] returns for the decrypted entries: the
    header and the rows, joined by line feeds. *)
Definition export_text (passwords : list AccountInfo) : string :=
  join (String line_feed EmptyString) (header :: map export_row passwords).

(** An entry in clear none of whose text fields holds a line feed. *)
Definition one_line (p : AccountInfo) : Prop :=
  includes (ai_site p) line_feed = false ∧ includes (ai_username p) line_feed = false
  ∧ includes (ai_password p) line_feed = false ∧ includes (ai_note p) line_feed = false
  ∧ includes (ai_category p) line_feed = false
  ∧ includes (ai_createdAt p) line_feed = false
  ∧ includes (ai_updatedAt p) line_feed = false.

(** Two entries in clear that agree on what a row of the CSV text carries
    over: site, user name, password, note, category and favourite flag. *)
Definition same_content (a b : AccountInfo) : Prop :=
  ai_site b = ai_site a ∧ ai_username b = ai_username a ∧ ai_password b = ai_password a
  ∧ ai_note b = ai_note a ∧ ai_category b = ai_category a ∧ ai_favorite b = ai_favorite a.

(** [exportToCSV] on a loaded vault. *)
Definition exportToCSV {runtime : Runtime} (vault : Vault) : result string :=
  let* passwords := getDecryptedPasswords vault in
  Ok (export_text passwords).

(** The loop over the characters of a line in [importFromCSV], followed by
    the final [fields.push(current)]; a doubled quote inside quotes advances
    by two characters. *)
Fixpoint parse_chars (line : string) (fields : list string) (current : string)
    (inQuotes : bool) : list string :=
  match line with
  | EmptyString => fields ++ [current]
  | String char rest =>
      if Ascii.eqb char quote then
        match rest with
        | String next rest' =>
            if inQuotes && Ascii.eqb next quote
            then parse_chars rest' fields (current ++ String quote EmptyString) inQuotes
            else parse_chars rest fields current (negb inQuotes)
        | EmptyString => parse_chars rest fields current (negb inQuotes)
        end
      else if Ascii.eqb char ","%char && negb inQuotes
           then parse_chars rest (fields ++ [current]) EmptyString inQuotes
           else parse_chars rest fields (current ++ String char EmptyString) inQuotes
  end.

(** The fields of one line. *)
Definition parse_line (line : string) : list string :=
  parse_chars line [] EmptyString false.

(** [csvContent.split("\n")]: the pieces between the line feeds; [current]
    is the piece being read. *)
Fixpoint split_lines (text current : string) : list string :=
  match text with
  | EmptyString => [current]
  | String c rest =>
      if Ascii.eqb c line_feed then current :: split_lines rest EmptyString
      else split_lines rest (current ++ String c EmptyString)
  end.

(** [!line.trim()]: the line holds nothing but white space and line
    terminators of ECMAScript.  In UTF-8 these are the bytes 09 to 0D and 20,
    C2 A0 (U+00A0), E1 9A 80 (U+1680), E2 80 80 to E2 80 8A (U+2000 to
    U+200A), E2 80 A8 and A9 (U+2028, U+2029), E2 80 AF (U+202F), E2 81 9F
    (U+205F), E3 80 80 (U+3000) and EF BB BF (U+FEFF). *)
Fixpoint blank (line : string) : bool :=
  match line with
  | EmptyString => true
  | String c rest =>
      let n := nat_of_ascii c in
      if ((9 <=? n) && (n <=? 13) || (n =? 32))%nat then blank rest
      else
        match rest with
        | String c1 rest1 =>
            let n1 := nat_of_ascii c1 in
            if ((n =? 194) && (n1 =? 160))%nat then blank rest1
            else
              match rest1 with
              | String c2 rest2 =>
                  let n2 := nat_of_ascii c2 in
                  if ((n =? 225) && (n1 =? 154) && (n2 =? 128)
                      || (n =? 226) && (n1 =? 128)
                         && ((128 <=? n2) && (n2 <=? 138) || (n2 =? 168) || (n2 =? 169)
                             || (n2 =? 175))
                      || (n =? 226) && (n1 =? 129) && (n2 =? 159)
                      || (n =? 227) && (n1 =? 128) && (n2 =? 128)
                      || (n =? 239) && (n1 =? 187) && (n2 =? 191))%nat
                  then blank rest2
                  else false
              | EmptyString => false
              end
        | EmptyString => false
        end
  end.

(** The data lines of [importFromCSV]: the lines that are not blank, without
    the first one. *)
Definition data_lines (csvContent : string) : result (list string) :=
  let lines := List.filter (fun line => negb (blank line))
                           (split_lines csvContent EmptyString) in
  if (length lines <? 2)%nat then Err NoDataRows else Ok (drop 1 lines).

(** [favoriteStr.toLowerCase() === "true"]: only the letters A to Z have a
    lower-case form among the letters of "true". *)
Definition lower (c : ascii) : ascii :=
  let n := nat_of_ascii c in
  if ((65 <=? n) && (n <=? 90))%nat then ascii_of_nat (n + 32) else c.

Fixpoint lower_all (s : string) : string :=
  match s with
  | EmptyString => EmptyString
  | String c rest => String (lower c) (lower_all rest)
  end.

Definition says_true (s : string) : bool := String.eqb (lower_all s) "true".

(** The arguments of the call [vault.addPassword(username, password, site,
    note, category, favorite)] for one line. *)
Record Row : Type := mkRow {
  row_username : string;
  row_password : string;
  row_site : string;
  row_note : string;
  row_category : string;
  row_favorite : bool;
}.

(** One line of [importFromCSV] up to the call: [None] when the line has
    fewer than four fields; a field that the line does not have takes its
    default. *)
Definition row_arguments (line : string) : option Row :=
  let fields := parse_line line in
  if (length fields <? 4)%nat then None
  else
    let field (i : nat) (d : string) := default d (fields !! i) in
    Some (mkRow (field 1%nat "") (field 2%nat "") (field 0%nat "") (field 3%nat "")
                (field 4%nat "") (says_true (field 5%nat "false"))).

(** The loop of [importFromCSV] over the data lines: a line with too few
    fields and a call that throws count as errors. *)
Fixpoint import_rows {wasm : Wasm} {runtime : Runtime} (dataLines : list string)
    (imported errors : nat) : M (nat * nat) :=
  match dataLines with
  | [] => ret (imported, errors)
  | line :: rest =>
      match row_arguments line with
      | None => import_rows rest imported (S errors)
      | Some r =>
          let! added :=
            catch (addPassword (row_username r) (row_password r) (row_site r)
                               (row_note r) (row_category r) (row_favorite r) ;;
                   ret true)
                  (fun _ => ret false) in
          if added : bool then import_rows rest (S imported) errors
          else import_rows rest imported (S errors)
      end
  end.

(** [importFromCSV] on a loaded vault: the numbers of rows imported and of
    errors. *)
Definition importFromCSV {wasm : Wasm} {runtime : Runtime} (csvContent : string)
  : M (nat * nat) :=
  let! dataLines := lift (data_lines csvContent) in
  import_rows dataLines 0 0.

End CSV.

(** * Properties *)

(** ** Typed-array facts *)

Lemma get_lookup (a : list Z) i : get a i = default 0 (a !! i).
Proof. apply nth_lookup. Qed.

Lemma length_put a i v : length (put a i v) = length a.
Proof. apply length_insert. Qed.

Lemma get_put a i j v :
  get (put a i v) j = if decide (i = j ∧ (j < length a)%nat) then u8 v else get a j.
Proof.
  rewrite !get_lookup. unfold put. rewrite list_lookup_insert.
  repeat destruct (decide _); try reflexivity; exfalso; intuition lia.
Qed.

Lemma length_alloc n : length (alloc n) = n.
Proof. apply length_replicate. Qed.

Lemma get_alloc n j : get (alloc n) j = 0.
Proof.
  rewrite get_lookup. unfold alloc.
  destruct (replicate n 0 !! j) eqn:E; [|reflexivity].
  apply lookup_replicate in E. simpl. tauto.
Qed.

Lemma get_ge (a : list Z) j : (length a ≤ j)%nat → get a j = 0.
Proof. intros H. rewrite get_lookup, lookup_ge_None_2; auto. Qed.

Lemma get_ext (a b : list Z) :
  length a = length b → (∀ j, (j < length a)%nat → get a j = get b j) → a = b.
Proof.
  intros Hl H. apply list_eq. intros j.
  destruct (decide (j < length a)%nat) as [Hj|Hj].
  - specialize (H j Hj). rewrite !get_lookup in H.
    destruct (lookup_lt_is_Some_2 a j Hj) as [x Hx].
    destruct (lookup_lt_is_Some_2 b j ltac:(lia)) as [y Hy].
    rewrite Hx, Hy in *. simpl in H. congruence.
  - rewrite !lookup_ge_None_2; auto; lia.
Qed.

Lemma set_at_fits dst src off :
  (off + length src ≤ length dst)%nat →
  set_at dst src off = Ok (take off dst ++ src ++ drop (off + length src) dst).
Proof.
  intros H. unfold set_at.
  destruct (Nat.leb_spec (off + length src) (length dst)); [reflexivity|lia].
Qed.

Lemma set_at_inv dst src off r :
  set_at dst src off = Ok r →
  (off + length src ≤ length dst)%nat ∧
  r = take off dst ++ src ++ drop (off + length src) dst.
Proof.
  unfold set_at. destruct (Nat.leb_spec (off + length src) (length dst)); [|discriminate].
  intros [= <-]. auto.
Qed.

Lemma length_set_at dst src off r : set_at dst src off = Ok r → length r = length dst.
Proof.
  intros H. apply set_at_inv in H as [Hle ->].
  rewrite !length_app, length_take, length_drop. lia.
Qed.

Lemma get_set_at dst src off r j :
  set_at dst src off = Ok r →
  get r j = if decide (off ≤ j < off + length src)%nat then get src (j - off) else get dst j.
Proof.
  intros H. apply set_at_inv in H as [Hle ->]. rewrite !get_lookup.
  destruct (decide (off ≤ j < off + length src)%nat) as [Hj|Hj].
  - rewrite lookup_app_r by (rewrite length_take; lia).
    rewrite length_take, Nat.min_l by lia.
    rewrite lookup_app_l by lia. reflexivity.
  - destruct (decide (j < off)%nat).
    + rewrite lookup_app_l by (rewrite length_take; lia).
      rewrite lookup_take_lt by lia. reflexivity.
    + rewrite lookup_app_r by (rewrite length_take; lia).
      rewrite length_take, Nat.min_l by lia.
      rewrite lookup_app_r by lia. rewrite lookup_drop.
      f_equal. f_equal. lia.
Qed.

Lemma length_slice a s e : (e ≤ length a)%nat → length (slice a s e) = (e - s)%nat.
Proof. intros H. unfold slice. rewrite length_take, length_drop. lia. Qed.

Lemma get_slice a s e j : (j < e - s)%nat → get (slice a s e) j = get a (s + j).
Proof.
  intros H. unfold slice. rewrite !get_lookup, lookup_take_lt, lookup_drop by lia.
  reflexivity.
Qed.

Lemma foldl_length_pres {B} (body : bytes → B → bytes) l r0 :
  (∀ r i, length (body r i) = length r) → length (foldl body r0 l) = length r0.
Proof.
  intros H. revert r0. induction l as [|x l IH]; intros r0; simpl; [reflexivity|].
  rewrite IH. apply H.
Qed.

(** A loop that stores [F i] at [off + i] for [i = 0 .. n-1]. *)
Lemma foldl_put_get n off (F : nat → Z) r0 j :
  get (foldl (fun r i => put r (off + i) (F i)) r0 (seq 0 n)) j
  = if decide ((off ≤ j < off + n)%nat ∧ (j < length r0)%nat)
    then u8 (F (j - off)%nat) else get r0 j.
Proof.
  induction n as [|n IH].
  - simpl. destruct (decide _) as [[? ?]|]; [lia|reflexivity].
  - rewrite seq_S, foldl_app. simpl. rewrite get_put, IH.
    rewrite foldl_length_pres by (intros; apply length_put).
    repeat destruct (decide _); try reflexivity; try (exfalso; intuition lia).
    all: f_equal; f_equal; lia.
Qed.

Lemma u8_xor_involutive p k : is_byte p → u8 (Z.lxor (u8 (Z.lxor p k)) k) = p.
Proof.
  intros Hp. unfold u8.
  assert (Hp' : Z.land p 255 = p).
  { change 255 with (Z.ones 8). rewrite Z.land_ones by lia.
    apply Z.mod_small. unfold is_byte in Hp. lia. }
  rewrite <- Hp' at 2. apply Z.bits_inj'. intros n Hn.
  rewrite !Z.land_spec, !Z.lxor_spec, !Z.land_spec, !Z.lxor_spec.
  destruct (Z.testbit p n), (Z.testbit k n), (Z.testbit 255 n); reflexivity.
Qed.

Lemma u8_is_byte z : is_byte (u8 z).
Proof.
  unfold u8, is_byte. change 255 with (Z.ones 8). rewrite Z.land_ones by lia.
  apply Z.mod_pos_bound. lia.
Qed.

Lemma forM_app {S} (body : S → nat → result S) l1 l2 s :
  forM body (l1 ++ l2) s = let* s' := forM body l1 s in forM body l2 s'.
Proof.
  revert s. induction l1 as [|x l1 IH]; intros s; simpl; [reflexivity|].
  destruct (body s x); simpl; auto.
Qed.

(** ** AES-256: the block functions keep the block size *)

Lemma length_addRoundKey s rk : length (AES.addRoundKey s rk) = length s.
Proof. apply foldl_length_pres. intros. apply length_put. Qed.

Lemma length_subBytes s : length (AES.subBytes s) = length s.
Proof. apply foldl_length_pres. intros. apply length_put. Qed.

Lemma length_shiftRows s : length (AES.shiftRows s) = length s.
Proof. unfold AES.shiftRows. cbv zeta. rewrite !length_put. reflexivity. Qed.

Lemma length_mixColumns s : length (AES.mixColumns s) = length s.
Proof. apply foldl_length_pres. intros. cbv zeta. rewrite !length_put. reflexivity. Qed.

Lemma length_rounds s rk : length (AES.rounds s rk) = length s.
Proof.
  unfold AES.rounds. cbv zeta.
  rewrite length_addRoundKey, length_shiftRows, length_subBytes.
  rewrite foldl_length_pres; [apply length_addRoundKey|].
  intros. rewrite length_addRoundKey, length_mixColumns, length_shiftRows.
  apply length_subBytes.
Qed.

Lemma encryptBlock_ok b rk :
  length b = 16%nat → AES.encryptBlock b rk = Ok (AES.rounds b rk).
Proof. intros H. unfold AES.encryptBlock. rewrite H. reflexivity. Qed.

Lemma keyExpansion_ok key :
  length key = 32%nat → ∃ rk, AES.keyExpansion key = Ok rk.
Proof. intros H. unfold AES.keyExpansion. rewrite H. simpl negb. cbv iota. eauto. Qed.

(** ** GHASH always returns 16 bytes on padded input *)

Lemma length_toBytes x : length (GHash.toBytes x) = 16%nat.
Proof.
  unfold GHash.toBytes. cbn -[put alloc Z.land Z.shiftr].
  rewrite !length_put. apply length_alloc.
Qed.

Lemma length_createLengthBlock a c : length (GHash.createLengthBlock a c) = 16%nat.
Proof.
  unfold GHash.createLengthBlock. cbn -[put alloc Z.land Z.shiftr Z.mul].
  rewrite !length_put. apply length_alloc.
Qed.

Lemma pad_arith n : (n mod 16 ≠ 0 → (n + (16 - n mod 16)) mod 16 = 0)%nat.
Proof.
  intros H. pose proof (Nat.div_mod_eq n 16) as E.
  pose proof (Nat.mod_upper_bound n 16 ltac:(lia)) as B.
  replace (n + (16 - n mod 16))%nat with ((n / 16 + 1) * 16)%nat by lia.
  apply Nat.Div0.mod_mul.
Qed.

Lemma mod16_add a b : (a mod 16 = 0 → b mod 16 = 0 → (a + b) mod 16 = 0)%nat.
Proof. intros Ha Hb. rewrite Nat.Div0.add_mod, Ha, Hb. reflexivity. Qed.

Lemma padTo16_ok d :
  ∃ p, GHash.padTo16 d = Ok p ∧ (length p mod 16 = 0)%nat.
Proof.
  unfold GHash.padTo16. cbv zeta.
  destruct (Nat.eqb_spec (length d mod 16) 0) as [E|E].
  - eauto.
  - rewrite set_at_fits by (rewrite length_alloc; lia).
    eexists; split; [reflexivity|].
    rewrite !length_app, length_take, length_drop, length_alloc.
    match goal with
    | |- (?x mod 16 = 0)%nat =>
        replace x with (length d + (16 - length d mod 16))%nat by lia
    end.
    apply pad_arith, E.
Qed.

Lemma forM_total {S} (P : S → Prop) (body : S → nat → result S) l s :
  P s →
  (∀ s i, P s → i ∈ l → ∃ s', body s i = Ok s' ∧ P s') →
  ∃ s', forM body l s = Ok s' ∧ P s'.
Proof.
  revert s. induction l as [|x l IH]; intros s Hs Hb; simpl; [eauto|].
  destruct (Hb s x Hs) as (s' & -> & Hs'); [left|]. simpl.
  apply IH; auto. intros. apply Hb; auto. right. auto.
Qed.

Lemma fromBytes_ok b : length b = 16%nat → ∃ x, GHash.fromBytes b = Ok x.
Proof. intros H. unfold GHash.fromBytes. rewrite H. simpl. eauto. Qed.

Lemma ghash_ok H data :
  length H = 16%nat → (length data mod 16 = 0)%nat →
  ∃ y, GHash.ghash H data = Ok y ∧ length y = 16%nat.
Proof.
  intros HH Hd. unfold GHash.ghash. rewrite HH, Hd. simpl negb. cbv iota.
  destruct (fromBytes_ok H HH) as [hk ->]. cbn [bind]. cbv zeta.
  edestruct (forM_total (fun _ : GHash.GF128 => True)) as (Y & -> & _); [exact I| |].
  - intros Y i _ Hi. apply elem_of_seq in Hi.
    destruct (fromBytes_ok (slice data (i * 16) ((i + 1) * 16))) as [X ->].
    + rewrite length_slice; [lia|].
      pose proof (Nat.Div0.mul_div_le (length data) 16). lia.
    + cbn [bind]. eauto.
  - cbn [bind]. eexists; split; [reflexivity|apply length_toBytes].
Qed.

(** ** GCTR is an XOR with a keystream that depends on the counter only *)

Lemma length_increment_from idx r : length (GCM.increment_from idx r) = length r.
Proof.
  revert r. induction idx as [|i idx IH]; intros r; simpl; [reflexivity|].
  destruct (i <? length r)%nat; [|reflexivity].
  destruct (_ =? 0); [rewrite IH|]; apply length_put.
Qed.

Lemma length_incrementCounter c : length (GCM.incrementCounter c) = length c.
Proof. apply length_increment_from. Qed.

Lemma length_iter_increment n c :
  length (Nat.iter n GCM.incrementCounter c) = length c.
Proof. induction n; simpl; [reflexivity|]. rewrite length_incrementCounter. auto. Qed.

Lemma length_xorBytes a b : length (GCM.xorBytes a b) = length a.
Proof.
  unfold GCM.xorBytes. rewrite foldl_length_pres by (intros; apply length_put).
  apply length_alloc.
Qed.

Lemma get_xorBytes a b j :
  (j < length a)%nat → get (GCM.xorBytes a b) j = u8 (Z.lxor (get a j) (get b j)).
Proof.
  intros H. unfold GCM.xorBytes.
  rewrite (foldl_put_get (length a) 0 (fun i => Z.lxor (get a i) (get b i))).
  rewrite length_alloc, Nat.sub_0_r.
  destruct (decide _) as [|N]; [reflexivity|]. exfalso. apply N. lia.
Qed.

Lemma block_index n i : (i < 16 → (n * 16 + i) / 16 = n ∧ (n * 16 + i) mod 16 = i)%nat.
Proof.
  intros H. split.
  - symmetry. apply (Nat.div_unique _ 16 n i); lia.
  - symmetry. apply (Nat.mod_unique _ 16 n i); lia.
Qed.

Lemma gctr_blocks rk icb data n r0 :
  length icb = 16%nat → length r0 = length data → (n * 16 ≤ length data)%nat →
  ∃ r,
    forM (fun '(result, counter) i =>
            let* keystream := AES.encryptBlock counter rk in
            let* result :=
              set_at result
                     (GCM.xorBytes (slice data (i * 16) ((i + 1) * 16)) keystream)
                     (i * 16) in
            Ok (result, GCM.incrementCounter counter))
         (seq 0 n) (r0, icb)
    = Ok (r, Nat.iter n GCM.incrementCounter icb)
    ∧ length r = length data
    ∧ ∀ j, get r j = if decide (j < n * 16)%nat
                     then u8 (Z.lxor (get data j) (keystream rk icb j))
                     else get r0 j.
Proof.
  intros Hicb Hr0. induction n as [|n IH]; intros Hn.
  - exists r0. simpl. repeat split; auto.
  - destruct IH as (r & Hrun & Hlen & Hget); [lia|].
    rewrite seq_S, forM_app, Hrun. cbn [bind forM Nat.add]. unfold GCM.BLOCK_SIZE.
    rewrite encryptBlock_ok by (rewrite length_iter_increment; exact Hicb).
    cbn [bind]. cbv zeta.
    set (ks := AES.rounds (Nat.iter n GCM.incrementCounter icb) rk).
    set (pb := slice data (n * 16) ((n + 1) * 16)).
    assert (Hpb : length pb = 16%nat) by (unfold pb; rewrite length_slice; lia).
    destruct (set_at r (GCM.xorBytes pb ks) (n * 16)) as [r'|] eqn:Hset.
    2:{ rewrite set_at_fits in Hset; [discriminate|].
        rewrite length_xorBytes, Hpb. lia. }
    cbn [bind]. exists r'. split; [reflexivity|]. split.
    + erewrite length_set_at by eassumption. exact Hlen.
    + intros j. rewrite (get_set_at _ _ _ _ j Hset), length_xorBytes, Hpb.
      destruct (decide (n * 16 ≤ j < n * 16 + 16)%nat) as [Hj|Hj].
      * rewrite get_xorBytes by lia.
        destruct (decide (j < S n * 16)%nat); [|lia].
        unfold pb. rewrite get_slice by lia.
        replace (n * 16 + (j - n * 16))%nat with j by lia.
        unfold keystream.
        destruct (block_index n (j - n * 16)) as [Hd Hm]; [lia|].
        replace (n * 16 + (j - n * 16))%nat with j in * by lia.
        rewrite Hd, Hm. reflexivity.
      * rewrite Hget. repeat destruct (decide _); try reflexivity; lia.
Qed.

Lemma gctr_spec rk icb data :
  length icb = 16%nat →
  ∃ r, GCM.gctr rk icb data = Ok r
       ∧ length r = length data
       ∧ ∀ j, (j < length data)%nat →
              get r j = u8 (Z.lxor (get data j) (keystream rk icb j)).
Proof.
  intros Hicb. unfold GCM.gctr.
  destruct (Nat.eqb_spec (length data) 0) as [E|E].
  { exists (alloc 0). repeat split; auto. intros; lia. }
  cbv zeta. unfold GCM.BLOCK_SIZE.
  pose proof (Nat.Div0.mul_div_le (length data) 16) as Hfull.
  pose proof (Nat.div_mod_eq (length data) 16) as Hdm.
  pose proof (Nat.mod_upper_bound (length data) 16 ltac:(lia)) as Hrem.
  destruct (gctr_blocks rk icb data (length data / 16) (alloc (length data)))
    as (r & -> & Hlen & Hget); [assumption|apply length_alloc|lia|].
  cbn [bind].
  destruct (Nat.ltb_spec 0 (length data mod 16)) as [Hpos|Hzero].
  - rewrite encryptBlock_ok by (rewrite length_iter_increment; exact Hicb).
    cbn [bind].
    set (ks := AES.rounds _ rk). set (lbs := (length data / 16 * 16)%nat).
    eexists; split; [reflexivity|]. split.
    + rewrite foldl_length_pres by (intros; apply length_put). exact Hlen.
    + intros j Hj.
      rewrite (foldl_put_get _ lbs (fun i => Z.lxor (get data (lbs + i)) (get ks i))).
      rewrite Hlen. destruct (decide _) as [[Hin _]|Hout].
      * replace (lbs + (j - lbs))%nat with j by lia. unfold keystream.
        destruct (block_index (length data / 16) (j - lbs)) as [Hd Hm]; [lia|].
        fold lbs in Hd, Hm. replace (lbs + (j - lbs))%nat with j in * by lia.
        rewrite Hd, Hm. reflexivity.
      * rewrite Hget. destruct (decide _); [reflexivity|]. unfold lbs in *. lia.
  - exists r. repeat split; auto. intros j Hj. rewrite Hget.
    destruct (decide _); [reflexivity|]. lia.
Qed.

Lemma is_bytes_get a j : is_bytes a → is_byte (get a j).
Proof.
  intros H. rewrite get_lookup. destruct (a !! j) eqn:E; simpl.
  - eapply Forall_lookup_1; eauto.
  - unfold is_byte. lia.
Qed.

Lemma gctr_involutive rk icb data c :
  length icb = 16%nat → is_bytes data →
  GCM.gctr rk icb data = Ok c → GCM.gctr rk icb c = Ok data.
Proof.
  intros Hicb Hb Hc.
  destruct (gctr_spec rk icb data Hicb) as (c' & Hc' & Hl1 & Hg1).
  rewrite Hc in Hc'. injection Hc' as <-.
  destruct (gctr_spec rk icb c Hicb) as (p & -> & Hl2 & Hg2).
  f_equal. apply get_ext; [congruence|].
  intros j Hj. rewrite Hg2, Hg1 by lia.
  apply u8_xor_involutive, is_bytes_get, Hb.
Qed.

(** ** AES-256-GCM *)

Lemma generateJ0_ok iv H :
  length H = 16%nat → ∃ J0, GCM.generateJ0 iv H = Ok J0 ∧ length J0 = 16%nat.
Proof.
  intros HH. unfold GCM.generateJ0, GCM.GCM_IV_SIZE, GCM.BLOCK_SIZE.
  destruct (Nat.eqb_spec (length iv) 12) as [E|E].
  - rewrite set_at_fits by (rewrite length_alloc; lia). cbn [bind].
    eexists; split; [reflexivity|].
    rewrite length_put, !length_app, length_take, length_drop, length_alloc. lia.
  - destruct (padTo16_ok iv) as (p & -> & Hp). cbn [bind]. cbv zeta.
    destruct (set_at (alloc (length p + 16)) p 0) as [g1|] eqn:E1.
    2:{ rewrite set_at_fits in E1; [discriminate|rewrite length_alloc; lia]. }
    cbn [bind]. pose proof (length_set_at _ _ _ _ E1) as L1.
    rewrite length_alloc in L1.
    destruct (set_at g1 (GHash.createLengthBlock 0 (length iv)) (length p)) as [g2|] eqn:E2.
    2:{ rewrite set_at_fits in E2; [discriminate|].
        rewrite length_createLengthBlock. lia. }
    cbn [bind]. pose proof (length_set_at _ _ _ _ E2) as L2.
    apply ghash_ok; [assumption|].
    rewrite L2, L1. apply mod16_add; [exact Hp|reflexivity].
Qed.

Lemma ghash_input_ok aad c :
  ∃ g, GCM.ghash_input aad c = Ok g ∧ (length g mod 16 = 0)%nat.
Proof.
  unfold GCM.ghash_input.
  destruct (padTo16_ok aad) as (pa & -> & Hpa).
  destruct (padTo16_ok c) as (pc & -> & Hpc). cbn [bind]. cbv zeta.
  destruct (set_at (alloc (length pa + length pc + 16)) pa 0) as [g1|] eqn:E1.
  2:{ rewrite set_at_fits in E1; [discriminate|rewrite length_alloc; lia]. }
  cbn [bind]. pose proof (length_set_at _ _ _ _ E1) as L1. rewrite length_alloc in L1.
  destruct (set_at g1 pc (length pa)) as [g2|] eqn:E2.
  2:{ rewrite set_at_fits in E2; [discriminate|lia]. }
  cbn [bind]. pose proof (length_set_at _ _ _ _ E2) as L2.
  destruct (set_at g2 _ (length pa + length pc)) as [g3|] eqn:E3.
  2:{ rewrite set_at_fits in E3; [discriminate|].
      rewrite length_createLengthBlock. lia. }
  pose proof (length_set_at _ _ _ _ E3) as L3.
  exists g3. split; [reflexivity|].
  rewrite L3, L2, L1. repeat apply mod16_add; auto.
Qed.

Lemma tag_compare_refl t l :
  foldl (fun tagValid i => if get t i =? get t i then tagValid else false) true l = true.
Proof.
  induction l as [|i l IH] using rev_ind; [reflexivity|].
  rewrite foldl_app. simpl. rewrite IH, Z.eqb_refl. reflexivity.
Qed.

Lemma is_bytes_of_get r : (∀ j, (j < length r)%nat → is_byte (get r j)) → is_bytes r.
Proof.
  intros H. apply Forall_lookup. intros j x Hj.
  specialize (H j (lookup_lt_Some _ _ _ Hj)). rewrite get_lookup, Hj in H. exact H.
Qed.

Lemma gctr_is_bytes rk icb data r :
  length icb = 16%nat → GCM.gctr rk icb data = Ok r → is_bytes r ∧ length r = length data.
Proof.
  intros Hicb Hr. destruct (gctr_spec rk icb data Hicb) as (r' & Hr' & Hl & Hg).
  rewrite Hr in Hr'. injection Hr' as <-. split; [|exact Hl].
  apply is_bytes_of_get. intros j Hj. rewrite Hg by lia. apply u8_is_byte.
Qed.

(** [encrypt] succeeds under a 32-byte key, returns arrays of bytes, and
    [decrypt] inverts it. *)
Lemma encrypt_then_decrypt key iv plaintext aad :
  length key = 32%nat →
  ∃ c, GCM.encrypt key iv plaintext aad = Ok c
       ∧ is_bytes (GCM.ciphertext c) ∧ is_bytes (GCM.tag c)
       ∧ (is_bytes plaintext →
          GCM.decrypt key iv (GCM.ciphertext c) (GCM.tag c) aad = Ok plaintext).
Proof.
  intros Hkey.
  destruct (keyExpansion_ok key Hkey) as [rk Erk].
  set (H := AES.rounds (alloc 16) rk).
  assert (EH : AES.encryptBlock (alloc GCM.BLOCK_SIZE) rk = Ok H)
    by (apply encryptBlock_ok, length_alloc).
  assert (HH : length H = 16%nat) by (unfold H; rewrite length_rounds; apply length_alloc).
  destruct (generateJ0_ok iv H HH) as (J0 & EJ0 & HJ0).
  assert (HICB : length (GCM.incrementCounter J0) = 16%nat)
    by (rewrite length_incrementCounter; exact HJ0).
  destruct (gctr_spec rk (GCM.incrementCounter J0) plaintext HICB) as (ct & Ect & _).
  destruct (ghash_input_ok aad ct) as (gi & Egi & Hgi).
  destruct (ghash_ok H gi HH Hgi) as (S_ & ES & HS).
  destruct (gctr_spec rk J0 S_ HJ0) as (tg & Etg & Htg & _).
  exists {| GCM.ciphertext := ct; GCM.tag := tg |}. cbn [GCM.ciphertext GCM.tag].
  split; [|split; [|split]].
  - unfold GCM.encrypt. rewrite Erk. cbn [bind]. cbv zeta.
    rewrite EH. cbn [bind]. rewrite EJ0. cbn [bind]. rewrite Ect. cbn [bind].
    rewrite Egi. cbn [bind]. rewrite ES. cbn [bind]. rewrite Etg. reflexivity.
  - exact (proj1 (gctr_is_bytes _ _ _ _ HICB Ect)).
  - exact (proj1 (gctr_is_bytes _ _ _ _ HJ0 Etg)).
  - intros Hp. unfold GCM.decrypt.
    rewrite Htg, HS. change (negb (16 =? GCM.GCM_TAG_SIZE)%nat) with false. cbv iota.
    rewrite Erk. cbn [bind]. cbv zeta.
    rewrite EH. cbn [bind]. rewrite EJ0. cbn [bind].
    rewrite Egi. cbn [bind]. rewrite ES. cbn [bind]. rewrite Etg. cbn [bind].
    rewrite tag_compare_refl. change (negb true) with false. cbv iota.
    apply gctr_involutive; assumption.
Qed.

(** C1. AEAD round trip: for every 32-byte key, every IV, every plaintext
    (an array of bytes) and every AAD, [encrypt] succeeds and [decrypt], given
    the ciphertext and the tag it produced, together with the same key, IV and
    AAD, succeeds and returns the plaintext. *)
Theorem aead_round_trip key iv plaintext aad :
  length key = 32%nat → is_bytes plaintext →
  ∃ c, GCM.encrypt key iv plaintext aad = Ok c
       ∧ GCM.decrypt key iv (GCM.ciphertext c) (GCM.tag c) aad = Ok plaintext.
Proof.
  intros Hkey Hp.
  destruct (encrypt_then_decrypt key iv plaintext aad Hkey) as (c & Ec & _ & _ & Hd).
  exists c. auto.
Qed.

(** ** Hexadecimal strings and bigints *)

Fixpoint all_hex_of_pos (p : positive) (rest : string) {struct p} :
  all_hex (HexString.Raw.of_pos p rest) = all_hex rest.
Proof.
  do 4 try destruct p as [p|p|]; try reflexivity;
    cbn [HexString.Raw.of_pos]; rewrite all_hex_of_pos; reflexivity.
Qed.

Lemma of_pos_not_empty p : HexString.Raw.of_pos p "" ≠ EmptyString.
Proof.
  intros E. pose proof (HexString.Raw.to_N_of_pos p "" 0%N) as T.
  rewrite E in T. discriminate T.
Qed.

Lemma is_hex_of_pos p : is_hex (HexString.Raw.of_pos p "") = true.
Proof.
  pose proof (of_pos_not_empty p) as NE. pose proof (all_hex_of_pos p "") as A.
  unfold is_hex. destruct (HexString.Raw.of_pos p ""); [congruence|exact A].
Qed.

Lemma BigInt_hex_toString16 z : 0 <= z → BigInt_hex (toString16 z) = Ok z.
Proof.
  intros Hz. destruct z as [|p|p]; [reflexivity| |lia].
  unfold BigInt_hex, toString16. rewrite is_hex_of_pos.
  rewrite HexString.Raw.to_N_of_pos. reflexivity.
Qed.

Lemma BigInt_hex_nonneg s z : BigInt_hex s = Ok z → 0 <= z.
Proof.
  unfold BigInt_hex. destruct (is_hex s); [|discriminate].
  intros [= <-]. apply N2Z.is_nonneg.
Qed.

Lemma BigInt_hex_total s : is_hex s = true → ∃ z, BigInt_hex s = Ok z ∧ 0 <= z.
Proof.
  intros E. unfold BigInt_hex. rewrite E. eexists; split; [reflexivity|].
  apply N2Z.is_nonneg.
Qed.

Lemma toString16_zero z : 0 <= z → toString16 z = "0"%string → z = 0.
Proof.
  intros Hz E. apply (f_equal BigInt_hex) in E.
  rewrite BigInt_hex_toString16 in E by assumption.
  change (BigInt_hex "0") with (Ok (A:=Z) 0) in E. congruence.
Qed.

(** ** [modPow] computes the modular power *)

Lemma modPow_loop_spec fuel : ∀ res base exp md,
  1 < md → 0 <= res < md → 0 <= base < md → 0 <= exp < 2 ^ Z.of_nat fuel →
  SRP.modPow_loop fuel res base exp md = (res * base ^ exp) mod md.
Proof.
  induction fuel as [|fuel IH]; intros res base exp md Hmd Hres Hbase Hexp.
  - simpl in *. assert (exp = 0) as -> by lia.
    rewrite Z.pow_0_r, Z.mul_1_r, Z.mod_small; auto.
  - cbn [SRP.modPow_loop]. destruct (Z.ltb_spec 0 exp) as [Hpos|Hzero].
    2:{ assert (exp = 0) as -> by lia.
        rewrite Z.pow_0_r, Z.mul_1_r, Z.mod_small; auto. }
    cbv zeta.
    rewrite Z.rem_mod_nonneg, Z.quot_div_nonneg by lia.
    rewrite (Z.rem_mod_nonneg (base * base)) by nia.
    assert (Hq : 0 <= exp / 2 < 2 ^ Z.of_nat fuel).
    { rewrite Nat2Z.inj_succ, Z.pow_succ_r in Hexp by lia.
      split; [apply Z.div_pos; lia|apply Z.div_lt_upper_bound; lia]. }
    assert (Hb2 : 0 <= (base * base) mod md < md) by (apply Z.mod_pos_bound; lia).
    assert (Hsq : (base * base mod md) ^ (exp / 2) mod md = base ^ (2 * (exp / 2)) mod md).
    { rewrite Z.mod_pow_l, Z.pow_mul_r, Z.pow_2_r by lia. reflexivity. }
    pose proof (Z.div_mod exp 2 ltac:(lia)) as Hdm.
    pose proof (Z.mod_pos_bound exp 2 ltac:(lia)) as Hr.
    destruct (Z.eqb_spec (exp mod 2) 1) as [Hodd|Heven].
    + rewrite (Z.rem_mod_nonneg (res * base)) by nia.
      rewrite IH; auto; [|apply Z.mod_pos_bound; lia].
      rewrite Z.mul_mod_idemp_l by lia.
      rewrite <- Z.mul_mod_idemp_r, Hsq, Z.mul_mod_idemp_r by lia.
      f_equal. replace (base ^ exp) with (base ^ (2 * (exp / 2) + 1)) by (f_equal; lia).
      rewrite Z.pow_add_r, Z.pow_1_r by lia. ring.
    + rewrite IH; auto.
      rewrite <- Z.mul_mod_idemp_r, Hsq, Z.mul_mod_idemp_r by lia.
      f_equal. f_equal. f_equal. lia.
Qed.

Lemma modPow_spec base exp md :
  1 < md → 0 <= base → 0 <= exp → SRP.modPow base exp md = base ^ exp mod md.
Proof.
  intros Hmd Hb He. unfold SRP.modPow.
  rewrite Z.rem_mod_nonneg by lia.
  rewrite modPow_loop_spec; try lia.
  - rewrite Z.mul_1_l. apply Z.mod_pow_l.
  - apply Z.mod_pos_bound. lia.
  - split; [lia|]. rewrite Nat2Z.inj_succ, Z2Nat.id by apply Z.log2_nonneg.
    destruct (Z.eq_dec exp 0) as [->|Hne]; [reflexivity|].
    apply Z.log2_spec. lia.
Qed.

Lemma modPow_range base exp md :
  1 < md → 0 <= base → 0 <= exp → 0 <= SRP.modPow base exp md < md.
Proof. intros. rewrite modPow_spec by assumption. apply Z.mod_pos_bound. lia. Qed.

(** ** SRP-6a: both sides derive the same secret *)

Lemma odd_coprime_2 n : Z.odd n = true → Z.gcd n 2 = 1.
Proof.
  intros Ho. apply Z.coprime_Bezout. exists 1, (- (n / 2)).
  pose proof (Z.div_mod n 2 ltac:(lia)) as E.
  rewrite Zmod_odd, Ho in E. lia.
Qed.

Lemma pow2_mod_odd_nonzero n a :
  1 < n → Z.odd n = true → 0 <= a → 2 ^ a mod n ≠ 0.
Proof.
  intros Hn Ho Ha E. apply Z.mod_divide in E; [|lia].
  revert E. pattern a. apply natlike_ind; [| |exact Ha].
  - rewrite Z.pow_0_r. intros D. apply Z.divide_1_r_nonneg in D; lia.
  - intros y Hy IH D. apply IH. rewrite Z.pow_succ_r in D by assumption.
    apply Z.gauss with 2; [exact D|]. apply odd_coprime_2, Ho.
Qed.

Lemma srp_shared_secret n g k x a b u base :
  1 < n → 0 <= g → 0 <= x → 0 <= a → 0 <= b → 0 <= u → 0 <= base →
  base mod n = (((k * (g ^ x mod n)) mod n + g ^ b mod n) mod n
                - (k * (g ^ x mod n)) mod n) mod n →
  base ^ (a + u * x) mod n
  = ((g ^ a mod n * ((g ^ x mod n) ^ u mod n)) mod n) ^ b mod n.
Proof.
  intros Hn Hg Hx Ha Hb Hu Hbase E.
  assert (Eb : base mod n = g ^ b mod n).
  { rewrite E, Zminus_mod_idemp_l.
    replace ((k * (g ^ x mod n)) mod n + g ^ b mod n - (k * (g ^ x mod n)) mod n)
      with (g ^ b mod n) by ring.
    apply Z.mod_mod. lia. }
  assert (Ein : (g ^ a mod n * ((g ^ x mod n) ^ u mod n)) mod n = g ^ (a + x * u) mod n).
  { rewrite <- Z.mul_mod by lia.
    rewrite <- Z.mul_mod_idemp_r, Z.mod_pow_l, Z.mul_mod_idemp_r by lia.
    rewrite <- Z.pow_mul_r, <- Z.pow_add_r by nia. reflexivity. }
  rewrite Ein, Z.mod_pow_l, <- Z.pow_mul_r by nia.
  rewrite <- Z.mod_pow_l, Eb, Z.mod_pow_l, <- Z.pow_mul_r by nia.
  f_equal. f_equal. ring.
Qed.

Lemma pow_pow_mod_one (a n e p : Z) :
  1 < p → 0 <= n → 0 <= e → a ^ n mod p = 1 → (a ^ e) ^ n mod p = 1.
Proof.
  intros Hp Hn He H1.
  rewrite <- Z.pow_mul_r, (Z.mul_comm e n), Z.pow_mul_r by assumption.
  rewrite <- Z.mod_pow_l, H1, Z.pow_1_l by assumption. apply Z.mod_1_l, Hp.
Qed.

(** If [2^q ≡ 1] and [(-k)^q ≢ 1] modulo [p], no [k·2^x + 2^b] is a
    multiple of [p]. *)
Lemma no_power_congruence (p q k x b : Z) :
  1 < p → 0 <= q → 0 <= x → 0 <= b →
  2 ^ q mod p = 1 → (- k) ^ q mod p ≠ 1 →
  (k * 2 ^ x + 2 ^ b) mod p ≠ 0.
Proof.
  intros Hp Hq Hx Hb H2 Hk E. apply Hk.
  assert (Eb : 2 ^ b mod p = (- k * 2 ^ x) mod p).
  { apply Z.mod_divide in E as [m Em]; [|lia].
    replace (2 ^ b) with (- k * 2 ^ x + m * p) by lia.
    apply Z.mod_add. lia. }
  apply (f_equal (fun z => z ^ q mod p)) in Eb. cbv beta in Eb.
  rewrite !Z.mod_pow_l in Eb.
  rewrite (pow_pow_mod_one 2 q b p) in Eb by assumption.
  rewrite Z.pow_mul_l, Z.mul_mod, (pow_pow_mod_one 2 q x p) in Eb by (assumption || lia).
  rewrite Z.mul_1_r, Z.mod_mod in Eb by lia. congruence.
Qed.

Lemma N_gt_1 : 1 < SRP.N.
Proof. reflexivity. Qed.

Lemma N_odd : Z.odd SRP.N = true.
Proof. reflexivity. Qed.

Lemma g_is_2 : SRP.g = 2.
Proof. reflexivity. Qed.

Lemma lift_base_nonneg fuel z : 0 <= z → SRP.lift_base fuel z = z.
Proof.
  intros Hz. destruct fuel; [reflexivity|]. simpl.
  destruct (Z.ltb_spec z 0); [lia|reflexivity].
Qed.

Lemma lift_base_once fuel z :
  - SRP.N <= z →
  0 <= SRP.lift_base (S fuel) z ∧ SRP.lift_base (S fuel) z mod SRP.N = z mod SRP.N.
Proof.
  intros Hz. cbn [SRP.lift_base]. destruct (Z.ltb_spec z 0).
  - rewrite lift_base_nonneg by lia. split; [lia|].
    rewrite <- (Z.mul_1_l SRP.N) at 1. apply Z.mod_add. pose proof N_gt_1. lia.
  - auto.
Qed.

Section SRPAgreement.
Context {wasm : Wasm}.

Lemma H_total args : ∃ u, SRP.H args = Ok u ∧ 0 <= u.
Proof. unfold SRP.H. apply BigInt_hex_total, sha256_is_hex. Qed.

Lemma generateRegistration_inv rnd password salt verifier :
  SRP.generateRegistration rnd password = Ok (salt, verifier) →
  ∃ x, BigInt_hex (sha256 (salt ++ password)) = Ok x ∧ 0 <= x
       ∧ verifier = toString16 (SRP.modPow SRP.g x SRP.N).
Proof.
  unfold SRP.generateRegistration. cbv zeta.
  destruct (BigInt_hex (sha256 _)) as [x|] eqn:Ex; [|discriminate].
  cbn [bind]. intros [= <- <-]. exists x. repeat split; auto.
  eapply BigInt_hex_nonneg; eauto.
Qed.

Lemma clientEphemeral_inv draws a_hex A_hex :
  SRP.clientEphemeral draws = Some (Ok (a_hex, A_hex)) →
  ∃ a, 0 <= a ∧ a_hex = toString16 a ∧ A_hex = toString16 (SRP.modPow SRP.g a SRP.N).
Proof.
  induction draws as [|buf draws IH]; [discriminate|]. cbn [SRP.clientEphemeral].
  destruct (SRP.randomBigInt buf) as [a|] eqn:Ea; [|discriminate].
  cbv zeta. destruct (_ =? 0); [exact IH|].
  intros [= <- <-]. exists a. repeat split; auto.
  eapply BigInt_hex_nonneg; eauto.
Qed.

Lemma serverEphemeral_inv k buf verifier b_hex B_hex :
  SRP.serverEphemeral k buf verifier = Ok (b_hex, B_hex) →
  ∃ b v, 0 <= b ∧ BigInt_hex verifier = Ok v ∧ b_hex = toString16 b
         ∧ B_hex = toString16 (Z.rem (Z.rem (k * v) SRP.N + SRP.modPow SRP.g b SRP.N) SRP.N).
Proof.
  unfold SRP.serverEphemeral.
  destruct (SRP.randomBigInt buf) as [b|] eqn:Eb; [|discriminate]. cbn [bind].
  destruct (BigInt_hex verifier) as [v|] eqn:Ev; [|discriminate]. cbn [bind]. cbv zeta.
  intros [= <- <-]. exists b, v. repeat split; auto.
  eapply BigInt_hex_nonneg; eauto.
Qed.

(** The agreement, as long as the server's [B] is not zero, the one value
    the client's safety check rejects. *)
Lemma srp_agreement_when_B_is_not_zero (k : Z) (rnd_s : bytes) (draws : list bytes) (rnd_b : bytes)
    (username password salt verifier a_hex A_hex b_hex B_hex : string) :
  0 <= k →
  SRP.generateRegistration rnd_s password = Ok (salt, verifier) →
  SRP.clientEphemeral draws = Some (Ok (a_hex, A_hex)) →
  SRP.serverEphemeral k rnd_b verifier = Ok (b_hex, B_hex) →
  B_hex ≠ "0"%string →
  ∃ s, SRP.computeSession k salt username password a_hex B_hex = Ok s
       ∧ SRP.verifySession k username salt verifier A_hex b_hex (SRP.M1 s)
         = Ok (SRP.K s, SRP.M2 s).
Proof.
  intros Hk Hreg Hcl Hsrv HB.
  pose proof N_gt_1 as HN.
  destruct (generateRegistration_inv _ _ _ _ Hreg) as (x & Ex & Hx & ->).
  destruct (clientEphemeral_inv _ _ _ Hcl) as (a & Ha & -> & ->).
  destruct (serverEphemeral_inv _ _ _ _ _ Hsrv) as (b & v & Hb & Ev & -> & ->).
  rewrite BigInt_hex_toString16 in Ev
    by (apply modPow_range; rewrite ?g_is_2; lia).
  injection Ev as <-.
  set (v := SRP.modPow SRP.g x SRP.N) in *.
  set (A := SRP.modPow SRP.g a SRP.N).
  set (gb := SRP.modPow SRP.g b SRP.N) in *.
  assert (Hv : 0 <= v < SRP.N) by (apply modPow_range; rewrite ?g_is_2; lia).
  assert (HA : 0 <= A < SRP.N) by (apply modPow_range; rewrite ?g_is_2; lia).
  assert (Hgb : 0 <= gb < SRP.N) by (apply modPow_range; rewrite ?g_is_2; lia).
  assert (Hkv : Z.rem (k * v) SRP.N = (k * v) mod SRP.N)
    by (apply Z.rem_mod_nonneg; nia).
  assert (Hkvr : 0 <= (k * v) mod SRP.N < SRP.N) by (apply Z.mod_pos_bound; lia).
  set (B := Z.rem (Z.rem (k * v) SRP.N + gb) SRP.N) in *.
  assert (EB : B = ((k * v) mod SRP.N + gb) mod SRP.N).
  { unfold B. rewrite Hkv. apply Z.rem_mod_nonneg; lia. }
  assert (HBr : 0 <= B < SRP.N) by (rewrite EB; apply Z.mod_pos_bound; lia).
  assert (HB0 : B ≠ 0) by (intros E0; apply HB; rewrite E0; reflexivity).
  destruct (H_total [SRP.HBigInt A; SRP.HBigInt B]) as (u & Eu & Hu).
  (* the client *)
  unfold SRP.computeSession.
  rewrite !BigInt_hex_toString16 by lia. cbn [bind].
  rewrite (Z.rem_mod_nonneg B), (Z.mod_small B) by lia.
  destruct (Z.eqb_spec B 0) as [|_]; [contradiction|].
  cbv zeta. fold A. rewrite Eu. cbn [bind]. rewrite Ex. cbn [bind]. fold v.
  eexists. split; [reflexivity|]. cbn [SRP.K SRP.M1 SRP.M2].
  (* the server *)
  unfold SRP.verifySession.
  rewrite !BigInt_hex_toString16 by lia. cbn [bind].
  rewrite (Z.rem_mod_nonneg A), (Z.mod_small A) by lia.
  destruct (Z.eqb_spec A 0) as [EA|_].
  { exfalso. unfold A in EA. rewrite modPow_spec, g_is_2 in EA by (rewrite ?g_is_2; lia).
    revert EA. apply pow2_mod_odd_nonzero; auto using N_odd. }
  cbv zeta. fold v gb B. rewrite Eu. cbn [bind].
  (* the two shared secrets coincide *)
  set (base := SRP.lift_base _ (B - Z.rem (k * v) SRP.N)).
  assert (Hbase : 0 <= base ∧ base mod SRP.N = (B - Z.rem (k * v) SRP.N) mod SRP.N).
  { apply lift_base_once. rewrite Hkv. lia. }
  destruct Hbase as [Hbase0 Hbase1].
  assert (Hvu : 0 <= SRP.modPow v u SRP.N < SRP.N) by (apply modPow_range; lia).
  assert (ES : SRP.modPow base (a + u * x) SRP.N
               = SRP.modPow (Z.rem (A * SRP.modPow v u SRP.N) SRP.N) b SRP.N).
  { rewrite (Z.rem_mod_nonneg (A * _)) by nia.
    rewrite !modPow_spec; try lia; try nia.
    2:{ apply Z.mod_pos_bound. lia. }
    unfold A, v. rewrite !modPow_spec by (rewrite ?g_is_2; lia).
    apply (srp_shared_secret SRP.N SRP.g k x a b u base);
      try lia; try (rewrite g_is_2; lia).
    rewrite Hbase1, EB, Hkv. unfold v, gb.
    rewrite !modPow_spec by (rewrite ?g_is_2; lia). reflexivity. }
  rewrite <- ES. rewrite String.eqb_refl. reflexivity.
Qed.

Lemma small_factor_divides_N : (small_factor | SRP.N).
Proof. exists (SRP.N / small_factor). vm_compute. reflexivity. Qed.

Lemma two_has_half_order : 2 ^ half_order mod small_factor = 1.
Proof.
  rewrite <- modPow_spec; [vm_compute; reflexivity|reflexivity|discriminate|discriminate].
Qed.

Lemma admissible_spec k :
  admissible k = true → (- k) ^ half_order mod small_factor ≠ 1.
Proof.
  unfold admissible. intros Hadm. apply negb_true_iff, Z.eqb_neq in Hadm.
  rewrite <- Z.mod_pow_l, <- modPow_spec; [exact Hadm|reflexivity| |discriminate].
  apply Z.mod_pos_bound. reflexivity.
Qed.

(** For an admissible multiplier the server's [B] is never zero. *)
Lemma server_B_nonzero k x b :
  0 <= k → 0 <= x → 0 <= b → admissible k = true →
  Z.rem (Z.rem (k * SRP.modPow SRP.g x SRP.N) SRP.N + SRP.modPow SRP.g b SRP.N) SRP.N ≠ 0.
Proof.
  intros Hk Hx Hb Hadm. apply admissible_spec in Hadm.
  pose proof two_has_half_order as H2. pose proof small_factor_divides_N as HD.
  assert (Hp : 1 < small_factor) by reflexivity.
  assert (Hq : 0 <= half_order) by discriminate.
  revert Hp Hq H2 HD Hadm. generalize small_factor half_order. intros p q Hp Hq H2 HD Hadm.
  pose proof N_gt_1 as HN.
  rewrite !modPow_spec, g_is_2 by (rewrite ?g_is_2; lia).
  pose proof (Z.mod_pos_bound (2 ^ x) SRP.N ltac:(lia)) as Hv.
  pose proof (Z.mod_pos_bound (2 ^ b) SRP.N ltac:(lia)) as Hgb.
  rewrite (Z.rem_mod_nonneg (k * _)) by nia.
  pose proof (Z.mod_pos_bound (k * (2 ^ x mod SRP.N)) SRP.N ltac:(lia)) as Hkv.
  rewrite Z.rem_mod_nonneg by lia.
  rewrite Z.mul_mod_idemp_r, Z.add_mod_idemp_l, Z.add_mod_idemp_r by lia.
  intros E. apply Z.mod_divide in E; [|lia].
  pose proof (Z.divide_trans _ _ _ HD E) as D.
  apply Z.mod_divide in D; [|lia].
  revert D. apply (no_power_congruence p q); assumption.
Qed.

(** C3. SRP agreement.  Let the server hold the verifier produced by
    [generateRegistration] for a password, that is [g^x mod N] with [x] the
    hash of salt and password; let [(a, A)] come from the client's
    [generateEphemeral] and [(b, B)] from the server's [generateEphemeral] on
    that verifier, both sides holding the same multiplier [k], an admissible
    one (as [H(N, g)] is under SHA-256, and as 0 is).  Then [computeSession]
    on the client and [verifySession] on the server, fed the client's [A] and
    [M1], both succeed; they yield the same session key [K], the server
    accepts [M1], and both yield the same [M2]. *)
Theorem srp_agreement (k : Z) (rnd_s : bytes) (draws : list bytes) (rnd_b : bytes)
    (username password salt verifier a_hex A_hex b_hex B_hex : string) :
  0 <= k → admissible k = true →
  SRP.generateRegistration rnd_s password = Ok (salt, verifier) →
  SRP.clientEphemeral draws = Some (Ok (a_hex, A_hex)) →
  SRP.serverEphemeral k rnd_b verifier = Ok (b_hex, B_hex) →
  ∃ s, SRP.computeSession k salt username password a_hex B_hex = Ok s
       ∧ SRP.verifySession k username salt verifier A_hex b_hex (SRP.M1 s)
         = Ok (SRP.K s, SRP.M2 s).
Proof.
  intros Hk Hadm Hreg Hcl Hsrv.
  apply (srp_agreement_when_B_is_not_zero k rnd_s draws rnd_b); try assumption.
  pose proof N_gt_1 as HN.
  destruct (generateRegistration_inv _ _ _ _ Hreg) as (x & Ex & Hx & ->).
  destruct (serverEphemeral_inv _ _ _ _ _ Hsrv) as (b & v & Hb & Ev & _ & ->).
  rewrite BigInt_hex_toString16 in Ev
    by (apply modPow_range; rewrite ?g_is_2; lia).
  injection Ev as <-.
  intros E. apply toString16_zero in E.
  - revert E. apply server_B_nonzero; assumption.
  - apply Z.rem_nonneg; [lia|].
    apply Z.add_nonneg_nonneg; [apply Z.rem_nonneg; [lia|]|].
    + apply Z.mul_nonneg_nonneg; [exact Hk|]. apply modPow_range; rewrite ?g_is_2; lia.
    + apply modPow_range; rewrite ?g_is_2; lia.
Qed.

End SRPAgreement.

(** ** The reference platform satisfies the laws of [Wasm] and [Runtime] *)

Lemma is_hex_digit_hex_digit z : is_hex_digit (hex_digit (Z.land z 15)) = true.
Proof.
  assert (H : 0 <= Z.land z 15 < 16).
  { change 15 with (Z.ones 4). rewrite Z.land_ones by lia. apply Z.mod_pos_bound. lia. }
  set (d := Z.land z 15) in *.
  assert (E : d = 0 ∨ d = 1 ∨ d = 2 ∨ d = 3 ∨ d = 4 ∨ d = 5 ∨ d = 6 ∨ d = 7 ∨ d = 8
              ∨ d = 9 ∨ d = 10 ∨ d = 11 ∨ d = 12 ∨ d = 13 ∨ d = 14 ∨ d = 15) by lia.
  repeat (destruct E as [->|E]; [reflexivity|]). subst d. rewrite E. reflexivity.
Qed.

Lemma all_hex_Buffer_toString_hex b : all_hex (Buffer_toString_hex b) = true.
Proof.
  induction b as [|x b IH]; [reflexivity|].
  cbn [Buffer_toString_hex all_hex]. rewrite !is_hex_digit_hex_digit, IH. reflexivity.
Qed.

Lemma length_Buffer_toString_hex b :
  String.length (Buffer_toString_hex b) = (2 * length b)%nat.
Proof. induction b as [|x b IH]; [reflexivity|]. cbn [Buffer_toString_hex String.length length]. lia. Qed.

Lemma length_sha256_bytes msg : length (Reference.sha256_bytes msg) = 32%nat.
Proof. unfold Reference.sha256_bytes. cbv zeta. generalize (foldl Reference.compress Reference.H256). reflexivity. Qed.

Lemma sha256_hex_is_hex s : is_hex (Reference.sha256_hex s) = true.
Proof.
  unfold Reference.sha256_hex.
  pose proof (length_sha256_bytes (utf8 s)) as L.
  pose proof (all_hex_Buffer_toString_hex (Reference.sha256_bytes (utf8 s))) as A.
  destruct (Reference.sha256_bytes (utf8 s)); [discriminate L|exact A].
Qed.

Lemma length_hmac_sha256 key msg : length (Reference.hmac_sha256 key msg) = 32%nat.
Proof. apply length_sha256_bytes. Qed.

Lemma length_pbkdf2_block pw salt c i : length (Reference.pbkdf2_block pw salt c i) = 32%nat.
Proof.
  unfold Reference.pbkdf2_block. cbv zeta.
  destruct (c - 1) as [|n|n]; try apply length_hmac_sha256.
  set (u1 := Reference.hmac_sha256 pw _).
  enough (length (Pos.iter (fun '(u, f) =>
                              let u' := Reference.hmac_sha256 pw u in
                              (u', Reference.xor_bytes f u')) (u1, u1) n).1 = 32%nat
          ∧ length (Pos.iter (fun '(u, f) =>
                                let u' := Reference.hmac_sha256 pw u in
                                (u', Reference.xor_bytes f u')) (u1, u1) n).2 = 32%nat)
    as [_ H] by exact H.
  apply Pos.iter_invariant.
  - intros [u f] [Hu Hf]. cbn [fst snd] in *. split; [apply length_hmac_sha256|].
    unfold Reference.xor_bytes. rewrite length_zip_with, Hf, length_hmac_sha256. reflexivity.
  - cbn [fst snd]. split; apply length_hmac_sha256.
Qed.

Lemma length_concat_blocks (f : nat → bytes) l :
  (∀ i, length (f i) = 32%nat) → length (concat (map f l)) = (32 * length l)%nat.
Proof.
  intros H. induction l as [|x l IH]; [reflexivity|].
  cbn [map concat]. rewrite length_app, H, IH. cbn [length]. lia.
Qed.

Lemma length_pbkdf2_bytes pw salt c dkLen :
  length (Reference.pbkdf2_bytes pw salt c dkLen) = Z.to_nat dkLen.
Proof.
  unfold Reference.pbkdf2_bytes. cbv zeta.
  rewrite length_take, length_concat_blocks by apply length_pbkdf2_block.
  rewrite length_seq.
  pose proof (Nat.div_mod_eq (Z.to_nat dkLen + 31) 32).
  pose proof (Nat.mod_upper_bound (Z.to_nat dkLen + 31) 32 ltac:(lia)). lia.
Qed.

Lemma pbkdf2_hex_length pw salt c dkLen :
  0 <= dkLen → String.length (Reference.pbkdf2_hex pw salt c dkLen) = Z.to_nat (2 * dkLen).
Proof.
  intros H. unfold Reference.pbkdf2_hex.
  rewrite length_Buffer_toString_hex, length_pbkdf2_bytes. lia.
Qed.

#[export] Instance reference_wasm : Wasm := {|
  sha256 := Reference.sha256_hex;
  pbkdf2_hmac_sha256 := Reference.pbkdf2_hex;
  sha256_is_hex := sha256_hex_is_hex;
  pbkdf2_is_hex := fun pw salt c dkLen => all_hex_Buffer_toString_hex _;
  pbkdf2_length := pbkdf2_hex_length;
|}.

Lemma text_of_utf8 s : Reference.text_of (utf8 s) = s.
Proof.
  unfold Reference.text_of, utf8. rewrite map_map.
  rewrite (map_ext _ (fun c => c)), map_id.
  - apply string_of_list_ascii_of_string.
  - intros c. rewrite N2Z.id. apply ascii_N_embedding.
Qed.

Lemma decode_text_utf8 s : decodable s → Reference.decode_text (utf8 s) = s.
Proof.
  intros [_ H]. unfold starts_with_BOM in H. unfold Reference.decode_text.
  rewrite H. apply text_of_utf8.
Qed.

Lemma decode_text_BOM s :
  well_formed s = true → Reference.decode_text (utf8 (BOM ++ s)) = s.
Proof. intros _. exact (text_of_utf8 s). Qed.

Lemma unseal_seal s : Reference.unseal (Reference.seal s) = Ok s.
Proof. unfold Reference.unseal, Reference.seal. rewrite text_of_utf8. reflexivity. Qed.

Lemma b64_digit i :
  0 <= i < 64 →
  Reference.b64_value (Reference.b64_char i) = Some i
  ∧ Ascii.eqb (Reference.b64_char i) "=" = false.
Proof.
  intros H.
  assert (F : Forall (fun i => Reference.b64_value (Reference.b64_char i) = Some i
                               ∧ Ascii.eqb (Reference.b64_char i) "=" = false)
                     (seqZ 0 64)).
  { vm_compute seqZ. repeat (constructor; [split; reflexivity|]). constructor. }
  rewrite Forall_forall in F. apply F, elem_of_seqZ. lia.
Qed.

Lemma b64_encode_cons x b : ∃ h t, Reference.b64_encode (x :: b) = h :: t.
Proof. destruct b as [|y [|z b]]; cbn [Reference.b64_encode]; eauto. Qed.

Lemma b64_decode_encode b : ∀ fuel,
  is_bytes b → (length (Reference.b64_encode b) ≤ fuel)%nat →
  Reference.b64_decode fuel (Reference.b64_encode b) = Some b.
Proof.
  induction b as [b IH] using (induction_ltof1 _ (@length Z)). unfold ltof in IH.
  intros fuel Hb Hfuel.
  destruct b as [|x [|y [|z rest]]].
  - destruct fuel; reflexivity.
  - apply Forall_cons in Hb as [Hx _]. unfold is_byte in Hx.
    cbn [Reference.b64_encode length] in *. destruct fuel; [lia|].
    cbn [Reference.b64_decode].
    destruct (b64_digit (x / 4)) as [-> _]; [Z.div_mod_to_equations; lia|].
    destruct (b64_digit (x mod 4 * 16)) as [-> _]; [Z.div_mod_to_equations; lia|].
    cbn [Ascii.eqb Bool.eqb]. cbv iota. do 2 f_equal. Z.div_mod_to_equations; lia.
  - apply Forall_cons in Hb as [Hx Hb]. apply Forall_cons in Hb as [Hy _].
    unfold is_byte in Hx, Hy.
    cbn [Reference.b64_encode length] in *. destruct fuel; [lia|].
    cbn [Reference.b64_decode].
    destruct (b64_digit (x / 4)) as [-> _]; [Z.div_mod_to_equations; lia|].
    destruct (b64_digit (x mod 4 * 16 + y / 16)) as [-> _]; [Z.div_mod_to_equations; lia|].
    destruct (b64_digit (y mod 16 * 4)) as [-> ->]; [Z.div_mod_to_equations; lia|].
    cbn [Ascii.eqb Bool.eqb]. cbv iota.
    f_equal. f_equal; [|f_equal]; Z.div_mod_to_equations; lia.
  - apply Forall_cons in Hb as [Hx Hb]. apply Forall_cons in Hb as [Hy Hb].
    apply Forall_cons in Hb as [Hz Hb]. unfold is_byte in Hx, Hy, Hz.
    cbn [Reference.b64_encode length] in *. destruct fuel; [lia|].
    destruct (b64_digit (x / 4)) as [Ea _]; [Z.div_mod_to_equations; lia|].
    destruct (b64_digit (x mod 4 * 16 + y / 16)) as [Eb _]; [Z.div_mod_to_equations; lia|].
    destruct (b64_digit (y mod 16 * 4 + z / 64)) as [Ec _]; [Z.div_mod_to_equations; lia|].
    destruct (b64_digit (z mod 64)) as [Ed Ed']; [Z.div_mod_to_equations; lia|].
    assert (X : x / 4 * 4 + (x mod 4 * 16 + y / 16) / 16 = x) by (Z.div_mod_to_equations; lia).
    assert (Y : (x mod 4 * 16 + y / 16) mod 16 * 16 + (y mod 16 * 4 + z / 64) / 4 = y)
      by (Z.div_mod_to_equations; lia).
    assert (Zq : (y mod 16 * 4 + z / 64) mod 4 * 64 + z mod 64 = z)
      by (Z.div_mod_to_equations; lia).
    destruct rest as [|r rest].
    + cbn [Reference.b64_encode Reference.b64_decode].
      rewrite Ea, Eb, Ec, Ed, Ed'. rewrite X, Y, Zq. reflexivity.
    + destruct (b64_encode_cons r rest) as (h & t & Eh).
      rewrite Eh in *. cbn [Reference.b64_decode].
      rewrite Ea, Eb, Ec, Ed. rewrite <- Eh.
      rewrite IH; [|cbn [length]; lia|exact Hb|rewrite Eh; cbn [length] in *; lia].
      rewrite X, Y, Zq. reflexivity.
Qed.

Lemma base64_decode_encode b :
  is_bytes b → Reference.base64_decode (Reference.base64_encode b) = Ok b.
Proof.
  intros Hb. unfold Reference.base64_decode, Reference.base64_encode.
  rewrite list_ascii_of_string_of_list_ascii.
  rewrite b64_decode_encode; auto.
  clear. generalize (Reference.b64_encode b). intros l.
  induction l as [|c l IH]; cbn [string_of_list_ascii String.length length]; lia.
Qed.

#[export] Instance reference_runtime : Runtime := {|
  uint8ArrayToBase64 := Reference.base64_encode;
  base64ToUint8Array := Reference.base64_decode;
  uint8ArrayToString := Reference.decode_text;
  stringify_instances := Reference.show_list Reference.show_instance;
  stringify_objects := Reference.json_objects;
  stringify_envelope := Reference.show_envelope;
  parse_objects := Reference.parse_objects;
  getTime := Reference.time_of;
  encryptString := Reference.seal;
  decryptString := Reference.unseal;
  base64_round_trip := base64_decode_encode;
  text_round_trip := decode_text_utf8;
  text_drops_BOM := decode_text_BOM;
  safeStorage_round_trip := unseal_seal;
|}.

(** ** The vault engine *)

Arguments GCM.encrypt : simpl never.
Arguments GCM.decrypt : simpl never.
Arguments SRP.generateRegistration : simpl never.
Arguments deriveKey : simpl never.

Section VaultEngine.
Context {wasm : Wasm} {runtime : Runtime}.

Lemma Password_new_inv id u uiv utg pw piv ptg st nt cat fav cr up p :
  Password_new id u uiv utg pw piv ptg st nt cat fav cr up = Ok p →
  passwordId p = id
  ∧ base64ToUint8Array uiv = Ok (usernameIV p)
  ∧ base64ToUint8Array piv = Ok (passwordIV p).
Proof.
  unfold Password_new.
  destruct (base64ToUint8Array u); [|discriminate]. cbn [bind].
  destruct (base64ToUint8Array uiv); [|discriminate]. cbn [bind].
  destruct (base64ToUint8Array utg); [|discriminate]. cbn [bind].
  destruct (base64ToUint8Array pw); [|discriminate]. cbn [bind].
  destruct (base64ToUint8Array piv); [|discriminate]. cbn [bind].
  destruct (base64ToUint8Array ptg); [|discriminate]. cbn [bind].
  intros [= <-]. auto.
Qed.

Lemma max_identifier_last l :
  StronglySorted Z.le (map passwordId l) →
  max_identifier l = passwordId <$> last l.
Proof.
  induction l as [|q l IH]; [reflexivity|]. intros Hs.
  change (map passwordId (q :: l)) with (passwordId q :: map passwordId l) in Hs.
  apply StronglySorted_inv in Hs as [Hs Hq].
  cbn [max_identifier foldr]. fold (max_identifier l). rewrite IH by assumption.
  destruct l as [|r l]; [reflexivity|].
  rewrite last_cons_cons. destruct (last (r :: l)) as [z|] eqn:El.
  - cbn [fmap option_fmap option_map]. f_equal. apply Z.max_r.
    rewrite Forall_forall in Hq. apply Hq.
    apply (list_elem_of_fmap_2 passwordId), last_Some_elem_of, El.
  - apply last_None in El. discriminate El.
Qed.

Lemma sorted_last_is_max v :
  StronglySorted Z.le (identifiers v) →
  next_identifier (vaultPasswords v) = spec_identifier (vaultPasswords v).
Proof.
  intros Hs. unfold spec_identifier, next_identifier.
  rewrite max_identifier_last by exact Hs.
  destruct (last (vaultPasswords v)); reflexivity.
Qed.

(** What [newEntry] does when it returns: the two nonces are the next 32
    bytes of the random source, the identifier comes from the last entry,
    and the entry is appended. *)
Lemma newEntry_inv user0 pw st nt cat fav v w p v' w' :
  newEntry user0 pw st nt cat fav (v, w) = (Ok p, (v', w')) →
  passwordId p = match last (vaultPasswords v) with
                 | Some q => passwordId q + 1
                 | None => 0
                 end
  ∧ vaultPasswords v' = vaultPasswords v ++ [p]
  ∧ base64ToUint8Array
      (uint8ArrayToBase64 (map (fun i => u8 (entropy w (drawn w + i))) (seq 0 16)))
    = Ok (passwordIV p)
  ∧ base64ToUint8Array
      (uint8ArrayToBase64 (map (fun i => u8 (entropy w (drawn w + 16 + i))) (seq 0 16)))
    = Ok (usernameIV p)
  ∧ derivedKey v' = derivedKey v ∧ token v' = token v.
Proof.
  destruct v as [u c up ve ps s sk t vt vi vg vp dk].
  destruct w as [di ea en d cl ti srv].
  unfold newEntry, generateRandomIV, getRandomValues, now.
  cbn -[seq]. 
  destruct (GCM.encrypt dk _ (stringToUint8Array pw) []) as [encP|]; [|discriminate].
  cbn -[seq].
  destruct (GCM.encrypt dk _ (stringToUint8Array user0) []) as [encU|]; [|discriminate].
  cbn -[seq].
  destruct (Password_new _ _ _ _ _ _ _ _ _ _ _ _ _) as [q|] eqn:E; [|discriminate].
  cbn -[seq]. intros [= <- <- <-].
  apply Password_new_inv in E as (E1 & E2 & E3).
  cbn -[seq]. repeat split; auto.
Qed.

End VaultEngine.

(** Runs the plumbing of a method on an instance and a world given by their
    constructors, leaving the calls into the platform and the cipher. *)
Ltac run :=
  cbv beta iota zeta delta
    [mbind_M ret throw lift catch this world update update_world not_awaited
     now getRandomValues generateRandomIV generateRandomBytes fst snd
     user createdAt updatedAt version vaultPasswords salt secretKey token
     verificationToken verificationIV verificationTag verificationPlaintext derivedKey
     set_createdAt set_updatedAt set_version set_vaultPasswords set_salt set_secretKey
     set_token set_verification set_verificationPlaintext set_derivedKey
     disk encryptionAvailable entropy drawn clock ticks server
     set_disk set_drawn set_ticks set_server bearer
     stamped sealed document_of].

Section VaultRuns.
Context {wasm : Wasm} {runtime : Runtime}.

(** [saveToFile], step by step. *)
Lemma saveToFile_run v w :
  saveToFile (v, w)
  = let iv := map (fun i => u8 (entropy w (drawn w + i))) (seq 0 16) in
    let w1 := set_drawn (drawn w + 16) (set_ticks (S (ticks w)) w) in
    match GCM.encrypt (derivedKey v) iv
            (stringToUint8Array (sha256 (stringify_instances (vaultPasswords v)))) [] with
    | Ok enc =>
        let v' := sealed (stamped v w) iv enc in
        (Ok tt, (v', set_disk (<[vault_file (user v) := VaultFile (document_of v')]> (disk w)) w1))
    | Err e => (Err e, (stamped v w, w1))
    end.
Proof.
  destruct v as [u c up ve ps s sk t vt vi vg vp dk].
  destruct w as [di ea en d cl ti srv].
  unfold saveToFile, setVerificationToken. run.
  destruct (GCM.encrypt dk _ _ []); reflexivity.
Qed.

(** [saveToFile] succeeds whenever the key has 32 bytes. *)
Lemma saveToFile_ok v w :
  length (derivedKey v) = 32%nat →
  ∃ iv enc,
    saveToFile (v, w)
    = (Ok tt, (sealed (stamped v w) iv enc,
               set_disk (<[vault_file (user v)
                           := VaultFile (document_of (sealed (stamped v w) iv enc))]> (disk w))
                        (set_drawn (drawn w + 16) (set_ticks (S (ticks w)) w)))).
Proof.
  intros Hk. rewrite saveToFile_run. cbv zeta.
  destruct (encrypt_then_decrypt (derivedKey v)
              (map (fun i => u8 (entropy w (drawn w + i))) (seq 0 16))
              (stringToUint8Array (sha256 (stringify_instances (vaultPasswords v)))) [] Hk)
    as (enc & -> & _). eauto.
Qed.

Lemma for_each_push objs : ∀ ps v w,
  decode_all objs = Ok ps →
  for_each push_object objs (v, w)
  = (Ok tt, (set_vaultPasswords (vaultPasswords v ++ ps) v, w)).
Proof.
  induction objs as [|key objs IH]; intros ps v w.
  - intros [= <-]. destruct v. cbn. rewrite app_nil_r. reflexivity.
  - cbn [decode_all foldr]. fold (decode_all objs).
    destruct (Password_of_object key) as [p|] eqn:Ep; [|discriminate]. cbn [bind].
    destruct (decode_all objs) as [rest|] eqn:Er; [|discriminate]. cbn [bind].
    intros [= <-]. cbn [for_each]. unfold mbind_M at 1. unfold push_object at 1.
    unfold mbind_M at 1. unfold lift at 1. rewrite Ep. unfold update at 1. cbn [fst snd].
    rewrite (IH rest) by reflexivity. destruct v. cbn. rewrite <- app_assoc. reflexivity.
Qed.

Lemma for_each_push_inv objs : ∀ v w v1 w1,
  for_each push_object objs (v, w) = (Ok tt, (v1, w1)) → ∃ ps, decode_all objs = Ok ps.
Proof.
  induction objs as [|key objs IH]; intros v w v1 w1 Hrun; [exists []; reflexivity|].
  cbn [for_each] in Hrun. unfold mbind_M at 1 in Hrun.
  unfold push_object at 1 in Hrun. unfold mbind_M at 1 in Hrun.
  unfold lift at 1 in Hrun. cbn [decode_all foldr]. fold (decode_all objs).
  destruct (Password_of_object key) as [p|]; [|discriminate Hrun].
  unfold update at 1 in Hrun. cbn [fst snd] in Hrun.
  apply IH in Hrun as [ps ->]. cbn [bind]. eauto.
Qed.

(** [createFromFile] on a document whose entries decode. *)
Lemma createFromFile_run v w d ps :
  disk w !! vault_file (user v) = Some (VaultFile d) →
  decode_all (default [] (doc_vault d)) = Ok ps →
  createFromFile (v, w) = (Ok tt, (loaded d ps v, w)).
Proof.
  intros Hd Hps. unfold createFromFile.
  unfold mbind_M at 1. unfold this at 1. cbn [fst snd].
  unfold mbind_M at 1. unfold world at 1. cbn [fst snd]. rewrite Hd.
  destruct d as [du dv ds dc dup dt di dg dvault]. cbn [doc_createdAt doc_updatedAt
    doc_version doc_salt doc_vault doc_verificationToken doc_verificationIV
    doc_verificationTag] in *.
  unfold loaded. cbn [doc_createdAt doc_updatedAt doc_version doc_salt doc_vault
    doc_verificationToken doc_verificationIV doc_verificationTag].
  destruct v as [u c up ve es s sk t vt vi vg vp dk].
  destruct dc, dup, dv, ds; run;
    (destruct dvault as [objs|]; cbn [default] in Hps;
     [rewrite (for_each_push objs ps) by exact Hps|]);
    destruct dt; reflexivity.
Qed.

(** Without a token, [sync] does nothing. *)
Lemma sync_without_token s : bearer (fst s) = None → sync s = (Ok tt, s).
Proof.
  intros H. unfold sync, mbind_M, this. cbn [fst snd]. rewrite H. destruct s. reflexivity.
Qed.

End VaultRuns.

Section Removal.
Context {wasm : Wasm} {runtime : Runtime}.

(** The entries after [removePassword], when no session token is held (so
    that the final [sync] does nothing): what the loop leaves. *)
Lemma removePassword_entries id v w :
  bearer v = None →
  vaultPasswords (fst (snd (removePassword id (v, w))))
  = remove_loop (length (vaultPasswords v)) 0 id (vaultPasswords v).
Proof.
  intros Hb. unfold removePassword.
  unfold mbind_M at 1. unfold update at 1. cbn [fst snd].
  unfold mbind_M at 1. unfold now at 1. unfold mbind_M at 1. unfold world at 1.
  cbn [fst snd]. unfold mbind_M at 1. unfold update_world at 1. cbn [fst snd].
  unfold ret at 1. unfold mbind_M at 1. unfold update at 1. cbn [fst snd].
  unfold mbind_M at 1. unfold not_awaited at 1. unfold catch at 1.
  rewrite saveToFile_run. cbv zeta.
  set (v1 := set_updatedAt _ (set_vaultPasswords _ v)).
  assert (Hb1 : bearer v1 = None) by (destruct v; exact Hb).
  assert (Hp1 : vaultPasswords v1
                = remove_loop (length (vaultPasswords v)) 0 id (vaultPasswords v))
    by (destruct v; reflexivity).
  destruct (GCM.encrypt _ _ _ []) as [enc|e].
  - unfold not_awaited, catch. rewrite sync_without_token.
    + cbn [fst snd]. rewrite <- Hp1. destruct v1. reflexivity.
    + cbn [fst snd]. destruct v1. exact Hb1.
  - unfold ret at 1. unfold not_awaited, catch. rewrite sync_without_token.
    + cbn [fst snd]. rewrite <- Hp1. destruct v1. reflexivity.
    + cbn [fst snd]. destruct v1. exact Hb1.
Qed.

End Removal.

(** C6 (code evaluated at the failing input). A vault holds the entries with
    identifiers 1 and 2, in this order. [removePassword(1)] finds the entry
    with identifier 1 at position 0 and splices position 1: the entry with
    identifier 2 is deleted and the entry with identifier 1 remains. *)
Theorem remove_splices_at_the_identifier :
  identifiers (fst (snd (removePassword 1 (Sample.vault [1; 2], Sample.world)))) = [1].
Proof.
  unfold identifiers. rewrite removePassword_entries by reflexivity. reflexivity.
Qed.


Section RemoteImport.
Context {wasm : Wasm} {runtime : Runtime}.

(** [importVaultData], step by step: the two assignments come first, then
    the checks. *)
Lemma importVaultData_run data v w :
  importVaultData data (v, w)
  = let v0 := set_salt (r_salt data) (set_updatedAt (r_updatedAt data) v) in
    match open_envelope (derivedKey v) (r_verificationIV data)
                        (r_verificationCiphertext data) (r_verificationTag data) with
    | Err e => (Err e, (v0, w))
    | Ok verification =>
        if negb (String.eqb verification (sha256 (stringify_envelope (r_vault data))))
        then (Err RemoteImportVerificationFailed, (v0, w))
        else
          match (let* text := open_envelope (derivedKey v) (vault_iv (r_vault data))
                                (vault_ciphertext (r_vault data)) (vault_tag (r_vault data)) in
                 parse_objects text) with
          | Err e => (Err e, (v0, w))
          | Ok (Some objs) => for_each push_object objs (set_vaultPasswords [] v0, w)
          | Ok None => (Ok tt, (set_vaultPasswords [] v0, w))
          end
    end.
Proof.
  destruct v as [u c up ve ps s sk t vt vi vg vp dk].
  unfold importVaultData. run.
  destruct (open_envelope dk _ _ _) as [verification|]; [|reflexivity].
  destruct (negb _); [reflexivity|].
  destruct (bind _ _) as [[objs|]|]; try reflexivity.
  all: rewrite String.eqb_refl; reflexivity.
Qed.

(** When the decrypted verification envelope differs from the digest of the
    inner envelope, [importVaultData] throws after it has overwritten
    [updatedAt] and [salt] with the remote values. *)
Lemma import_mismatch data v w verification :
  open_envelope (derivedKey v) (r_verificationIV data)
                (r_verificationCiphertext data) (r_verificationTag data) = Ok verification →
  verification ≠ sha256 (stringify_envelope (r_vault data)) →
  importVaultData data (v, w)
  = (Err RemoteImportVerificationFailed,
     (set_salt (r_salt data) (set_updatedAt (r_updatedAt data) v), w)).
Proof.
  intros E N. rewrite importVaultData_run. cbv zeta. rewrite E.
  destruct (String.eqb_spec verification (sha256 (stringify_envelope (r_vault data))));
    [contradiction|reflexivity].
Qed.

(** A successful import: the entries are those of the remote document, the
    time stamp and the salt are the remote ones, and nothing else moves. *)
Lemma import_success data v w v1 w1 :
  importVaultData data (v, w) = (Ok tt, (v1, w1)) →
  w1 = w
  ∧ (∃ objs, decode_all objs = Ok (vaultPasswords v1)
             ∨ (objs = [] ∧ vaultPasswords v1 = []))
  ∧ updatedAt v1 = r_updatedAt data ∧ salt v1 = r_salt data
  ∧ version v1 = version v ∧ derivedKey v1 = derivedKey v ∧ user v1 = user v
  ∧ token v1 = token v ∧ createdAt v1 = createdAt v.
Proof.
  rewrite importVaultData_run. cbv zeta.
  destruct (open_envelope (derivedKey v) _ _ _) as [verification|]; [|discriminate].
  destruct (negb _); [discriminate|].
  destruct (bind _ _) as [[objs|]|]; [| |discriminate].
  - destruct (decode_all objs) as [ps|] eqn:Ed.
    + rewrite (for_each_push objs ps) by exact Ed.
      intros [= <- <-]. destruct v. cbn. split; [reflexivity|].
      split; [exists objs; left; exact Ed|]. repeat split.
    + intros Hrun. apply for_each_push_inv in Hrun as [ps Hps]. congruence.
  - intros [= <- <-]. destruct v. cbn. split; [reflexivity|].
    split; [exists []; right; auto|]. repeat split.
Qed.

End RemoteImport.

(** C5 (code evaluated at the failing input). The server returns the
    document the user uploaded with the salt replaced and a changed inner
    ciphertext.  The outer envelope decrypts, the digests differ and
    [importVaultData] throws "Remote import verification failed"; by then
    [salt] and [updatedAt] of the local vault hold the remote values.  The
    entries and the disk are as before. *)
Theorem import_failure_overwrites_salt_and_time :
  let '(r, (v', w')) :=
    importVaultData Scenario.tampered
      (Scenario.local, Scenario.world_with Scenario.tampered) in
  r = Err RemoteImportVerificationFailed
  ∧ salt Scenario.local = "c2FsdA=="%string ∧ salt v' = "ZXZpbA=="%string
  ∧ updatedAt Scenario.local = "2025-01-01T00:00:00.000Z"%string
  ∧ updatedAt v' = "2025-03-01T00:00:00.000Z"%string
  ∧ vaultPasswords v' = vaultPasswords Scenario.local
  ∧ disk w' = disk (Scenario.world_with Scenario.tampered).
Proof. vm_compute. repeat split. Qed.

(** C4 (code evaluated at the failing input). The server holds a document
    that passes the integrity check and is newer (2025-03-01) than the local
    vault (2025-01-01, version 4).  After [sync] the local entries are the
    remote ones, but [saveToFile] ran after the import: the version is 5 in
    memory and on disk, and [updatedAt] is the time of the save, not the
    remote time stamp. *)
Theorem sync_download_bumps_version_and_time :
  let '(r, (v', w')) := sync (Scenario.local, Scenario.world_with Scenario.remote) in
  r = Ok tt
  ∧ vaultPasswords v' = vaultPasswords Scenario.uploader
  ∧ version Scenario.local = 4 ∧ version v' = 5
  ∧ (document w' "alice" ≫= doc_version) = Some 5
  ∧ r_updatedAt Scenario.remote = "2025-03-01T00:00:00.000Z"%string
  ∧ updatedAt v' = "2025-06-01T12:00:00.000Z"%string
  ∧ (document w' "alice" ≫= doc_updatedAt) = Some "2025-06-01T12:00:00.000Z"%string.
Proof. vm_compute. repeat split. Qed.

(** ** Opening a vault *)

Lemma length_from_hex_chars cs :
  forallb is_hex_digit cs = true → length (from_hex_chars cs) = (length cs / 2)%nat.
Proof.
  induction cs as [cs IH] using (induction_ltof1 _ (@length ascii)). unfold ltof in IH.
  destruct cs as [|a [|b rest]]; [reflexivity|reflexivity|].
  cbn [forallb from_hex_chars]. intros H.
  apply andb_prop in H as [Ha H]. apply andb_prop in H as [Hb H].
  unfold is_hex_digit in Ha, Hb.
  destruct (ascii_to_digit a); [|discriminate]. destruct (ascii_to_digit b); [|discriminate].
  cbn [length]. rewrite IH by (cbn [length]; lia || exact H).
  change (S (S (length rest))) with (1 * 2 + length rest)%nat.
  rewrite Nat.div_add_l by lia. lia.
Qed.

Lemma all_hex_forallb s : all_hex s = forallb is_hex_digit (list_ascii_of_string s).
Proof. induction s as [|c s IH]; [reflexivity|]. cbn. rewrite IH. reflexivity. Qed.

Lemma length_list_ascii_of_string s : length (list_ascii_of_string s) = String.length s.
Proof. induction s as [|c s IH]; [reflexivity|]. cbn. rewrite IH. reflexivity. Qed.

Section Opening.
Context {wasm : Wasm} {runtime : Runtime}.

(** The derived key has 32 bytes. *)
Lemma length_deriveKey salt0 mp sk : length (deriveKey salt0 mp sk) = 32%nat.
Proof.
  unfold deriveKey, Buffer_from_hex. cbv zeta.
  rewrite length_from_hex_chars
    by (rewrite <- all_hex_forallb; apply pbkdf2_is_hex).
  rewrite length_list_ascii_of_string, pbkdf2_length by lia. reflexivity.
Qed.

(** [new Vault(user)]. *)
Lemma Vault_new_run user0 w :
  Vault_new user0 w
  = (mkVault user0 (clock w (ticks w)) (clock w (S (ticks w))) 1 []
             (uint8ArrayToBase64 (map (fun i => u8 (entropy w (drawn w + i))) (seq 0 32)))
             (uint8ArrayToBase64
                (map (fun i => u8 (entropy w (drawn w + 32 + i))) (seq 0 32)))
             None "" "" "" "" [],
     set_ticks (S (S (ticks w))) (set_drawn (drawn w + 32 + 32) w)).
Proof. destruct w. reflexivity. Qed.

(** [verifyPassword] answers [true] without opening the envelope as soon as
    one of the three verification fields is empty. *)
Lemma verifyPassword_without_token v :
  verificationToken v = ""%string ∨ verificationIV v = ""%string
  ∨ verificationTag v = ""%string →
  verifyPassword v = true.
Proof.
  unfold verifyPassword. intros [-> | [-> | ->] ]; cbn [String.eqb orb];
    rewrite ?orb_true_r; reflexivity.
Qed.

(** A fresh instance that loaded a document lacking one of the three fields
    has an empty verification field. *)
Lemma loaded_without_token d ps v :
  verificationToken v = ""%string → verificationIV v = ""%string →
  verificationTag v = ""%string →
  doc_verificationToken d = None ∨ doc_verificationIV d = None
  ∨ doc_verificationTag d = None →
  verificationToken (loaded d ps v) = ""%string
  ∨ verificationIV (loaded d ps v) = ""%string
  ∨ verificationTag (loaded d ps v) = ""%string.
Proof.
  intros Ht Hi Hg Hd. destruct v as [u c up ve es s sk t vt vi vg vp dk].
  cbn in Ht, Hi, Hg. subst vt vi vg.
  destruct d as [du dv ds dc dup dt di dg dvault].
  cbn [doc_verificationToken doc_verificationIV doc_verificationTag] in Hd.
  unfold loaded. cbn [doc_createdAt doc_updatedAt doc_version doc_salt doc_vault
    doc_verificationToken doc_verificationIV doc_verificationTag].
  destruct dc, dup, dv, ds, dvault, dt as [tk|], di as [iv|], dg as [tg|];
    cbn; auto; destruct Hd as [Hd|[Hd|Hd]]; discriminate Hd.
Qed.

(** [factory(masterPassword, false)] on a fresh instance, step by step. *)
Lemma factory_open_run mp v w d ps :
  disk w !! vault_file (user v) = Some (VaultFile d) →
  decode_all (default [] (doc_vault d)) = Ok ps →
  ∃ v0, (v0 = v ∨ ∃ s, v0 = set_secretKey s v)
        ∧ factory mp false (v, w)
          = let v1 := loaded d ps v0 in
            let v2 := set_derivedKey (deriveKey (salt v1) mp (secretKey v1)) v1 in
            if negb (verifyPassword v2) then (Err PasswordVerificationFailed, (v2, w))
            else saveToFile (v2, w).
Proof.
  intros Hd Hps. unfold factory. cbv beta iota.
  match goal with
  | |- ∃ v0, _ ∧ mbind_M ?p ?k (v, w) = _ =>
      assert (Hp : ∃ v0, (v0 = v ∨ ∃ s, v0 = set_secretKey s v)
                         ∧ p (v, w) = (Ok tt, (v0, w)))
  end.
  { unfold getSecretKey. unfold mbind_M, this, world. cbn [fst snd].
    destruct (decryptString _) as [s|]; unfold ret, update; cbn [fst snd];
      [destruct (String.eqb s "")|]; eauto. }
  destruct Hp as (v0 & Hv0 & Hp). exists v0. split; [exact Hv0|].
  assert (Hu : user v0 = user v).
  { destruct Hv0 as [->|[s ->]]; [reflexivity|]. destruct v. reflexivity. }
  unfold mbind_M at 1. rewrite Hp.
  unfold mbind_M at 1.
  rewrite (createFromFile_run v0 w d ps) by (try rewrite Hu; assumption).
  cbv zeta. unfold mbind_M at 1. unfold this at 1. cbn [fst snd].
  unfold mbind_M at 1. unfold update at 1. cbn [fst snd].
  unfold mbind_M at 1. unfold this at 1. cbn [fst snd].
  destruct (negb _); reflexivity.
Qed.

End Opening.

Section OpeningClaims.
Context {wasm : Wasm} {runtime : Runtime}.

(** [new Vault(user); factory(masterPassword, false)] when the vault file
    holds a document that loads: the instance on which [verifyPassword] is
    called, and the two ways on. *)
Lemma open_vault_run user0 masterPassword w d ps :
  disk w !! vault_file user0 = Some (VaultFile d) →
  decode_all (default [] (doc_vault d)) = Ok ps →
  ∃ v0 w0,
    verificationToken v0 = ""%string ∧ verificationIV v0 = ""%string
    ∧ verificationTag v0 = ""%string ∧ vaultPasswords v0 = [] ∧ user v0 = user0
    ∧ disk w0 = disk w
    ∧ open_vault user0 masterPassword false w
      = let v1 := loaded d ps v0 in
        let v2 := set_derivedKey (deriveKey (salt v1) masterPassword (secretKey v1)) v1 in
        if negb (verifyPassword v2) then (Err PasswordVerificationFailed, (v2, w0))
        else saveToFile (v2, w0).
Proof.
  intros Hd Hps. unfold open_vault. rewrite Vault_new_run.
  match goal with
  | |- context [factory _ _ (?v, ?w0)] =>
      destruct (factory_open_run masterPassword v w0 d ps) as (v0 & Hv0 & E);
        [destruct w; exact Hd|exact Hps|]; exists v0, w0
  end.
  destruct Hv0 as [->|[s ->]]; (repeat split; [destruct w; reflexivity|exact E]).
Qed.

(** The fields that [createFromFile] and the following save leave alone. *)
Lemma loaded_fields d ps v :
  user (loaded d ps v) = user v
  ∧ secretKey (loaded d ps v) = secretKey v
  ∧ vaultPasswords (loaded d ps v)
    = match doc_vault d with Some _ => vaultPasswords v ++ ps | None => vaultPasswords v end
  ∧ salt (loaded d ps v) = default (salt v) (doc_salt d).
Proof.
  destruct v as [u c up ve es s sk t vt vi vg vp dk].
  destruct d as [du dve ds dc dup dt di dg dva]. unfold loaded.
  cbn [doc_createdAt doc_updatedAt doc_version doc_salt doc_vault doc_verificationToken
       doc_verificationIV doc_verificationTag].
  destruct dc, dup, dve, ds, dva, dt; cbn; repeat split; reflexivity.
Qed.

(** C9. When the document on disk lacks the verification token, its IV or
    its tag (and its entries load), [verifyPassword] answers [true] on the
    loaded instance whatever key was derived, and the vault opens under
    every master password: the call returns an instance of the user that
    holds the entries of the document and, when the document has one, its
    salt, whose key is the one derived from the given master password, and
    the document is saved again from this instance. *)
Theorem open_without_verification_fields user0 w d ps :
  disk w !! vault_file user0 = Some (VaultFile d) →
  doc_verificationToken d = None ∨ doc_verificationIV d = None
  ∨ doc_verificationTag d = None →
  decode_all (default [] (doc_vault d)) = Ok ps →
  (∀ v key,
     verificationToken v = ""%string → verificationIV v = ""%string →
     verificationTag v = ""%string →
     verifyPassword (set_derivedKey key (loaded d ps v)) = true)
  ∧ ∀ masterPassword,
      ∃ v' w',
        open_vault user0 masterPassword false w = (Ok tt, (v', w'))
        ∧ user v' = user0
        ∧ vaultPasswords v' = ps
        ∧ (∀ s, doc_salt d = Some s → salt v' = s)
        ∧ derivedKey v' = deriveKey (salt v') masterPassword (secretKey v')
        ∧ document w' user0 = Some (document_of v').
Proof.
  intros Hd Hlack Hps.
  assert (Hver : ∀ v key,
            verificationToken v = ""%string → verificationIV v = ""%string →
            verificationTag v = ""%string →
            verifyPassword (set_derivedKey key (loaded d ps v)) = true).
  { intros v key Ht Hi Hg. apply verifyPassword_without_token.
    pose proof (loaded_without_token d ps v Ht Hi Hg Hlack) as H.
    destruct (loaded d ps v). exact H. }
  split; [exact Hver|]. intros mp.
  destruct (open_vault_run user0 mp w d ps Hd Hps)
    as (v0 & w0 & Ht & Hi & Hg & Hempty & Hu & _ & E).
  rewrite E. cbv zeta. rewrite Hver by assumption. cbn [negb].
  destruct (loaded_fields d ps v0) as (Lu & Lk & Lp & Ls).
  assert (Hentries : vaultPasswords (loaded d ps v0) = ps).
  { rewrite Lp, Hempty. destruct (doc_vault d); [reflexivity|].
    cbn in Hps. congruence. }
  set (V := set_derivedKey _ (loaded d ps v0)).
  assert (HV : user V = user0 ∧ vaultPasswords V = ps
               ∧ salt V = salt (loaded d ps v0)
               ∧ derivedKey V = deriveKey (salt V) mp (secretKey V)).
  { assert (G : ∀ k X, user (set_derivedKey k X) = user X
                       ∧ vaultPasswords (set_derivedKey k X) = vaultPasswords X
                       ∧ salt (set_derivedKey k X) = salt X
                       ∧ secretKey (set_derivedKey k X) = secretKey X
                       ∧ derivedKey (set_derivedKey k X) = k)
      by (intros k X; destruct X; repeat split).
    unfold V.
    destruct (G (deriveKey (salt (loaded d ps v0)) mp (secretKey (loaded d ps v0)))
                (loaded d ps v0)) as (G1 & G2 & G3 & G4 & G5).
    rewrite G1, G2, G3, G4, G5. repeat split; congruence. }
  destruct HV as (HVu & HVp & HVs & HVk).
  destruct (saveToFile_ok V w0) as (iv & enc & Es).
  { rewrite HVk. apply length_deriveKey. }
  rewrite Es. eexists _, _. split; [reflexivity|].
  assert (HS : user (sealed (stamped V w0) iv enc) = user V
               ∧ vaultPasswords (sealed (stamped V w0) iv enc) = vaultPasswords V
               ∧ salt (sealed (stamped V w0) iv enc) = salt V
               ∧ secretKey (sealed (stamped V w0) iv enc) = secretKey V
               ∧ derivedKey (sealed (stamped V w0) iv enc) = derivedKey V)
    by (destruct V; repeat split).
  destruct HS as (S1 & S2 & S3 & S4 & S5).
  rewrite S1, S2, S3, S4, S5.
  split; [exact HVu|]. split; [exact HVp|].
  split; [intros s Hs; rewrite HVs, Ls, Hs; reflexivity|].
  split; [exact HVk|].
  unfold document. rewrite HVu. destruct w0. cbn [set_disk set_drawn set_ticks disk].
  rewrite lookup_insert_eq. reflexivity.
Qed.

(** An attempt to open that is turned down raises "Password verification
    failed" and leaves the disk as it was. *)
Lemma open_rejected_writes_nothing user0 masterPassword w d ps :
  disk w !! vault_file user0 = Some (VaultFile d) →
  decode_all (default [] (doc_vault d)) = Ok ps →
  fst (open_vault user0 masterPassword false w) = Ok tt
  ∨ (fst (open_vault user0 masterPassword false w) = Err PasswordVerificationFailed
     ∧ disk (snd (snd (open_vault user0 masterPassword false w))) = disk w).
Proof.
  intros Hd Hps.
  destruct (open_vault_run user0 masterPassword w d ps Hd Hps)
    as (v0 & w0 & _ & _ & _ & _ & _ & Hw & E).
  rewrite E. cbv zeta. destruct (verifyPassword _); cbn [negb].
  - left.
    match goal with
    | |- context [saveToFile (?V, ?W)] =>
        destruct (saveToFile_ok V W) as (iv & enc & Es)
    end.
    { destruct (loaded d ps v0). apply length_deriveKey. }
    rewrite Es. reflexivity.
  - right. split; [reflexivity|exact Hw].
Qed.

End OpeningClaims.

(** ** Changing the master password *)

Lemma toString16_not_empty z : toString16 z ≠ ""%string.
Proof.
  destruct z as [|p|p]; cbn; [discriminate| |discriminate]. apply of_pos_not_empty.
Qed.

Section Rekey.
Context {wasm : Wasm} {runtime : Runtime}.

(** [generateRegistration] always returns, and neither string is empty when
    the random buffer is not. *)
Lemma generateRegistration_total rnd newPassword :
  rnd ≠ [] →
  ∃ srpSalt verifier,
    SRP.generateRegistration rnd newPassword = Ok (srpSalt, verifier)
    ∧ srpSalt ≠ ""%string ∧ verifier ≠ ""%string.
Proof.
  intros Hr. unfold SRP.generateRegistration. cbv zeta.
  destruct (BigInt_hex_total _ (sha256_is_hex (Buffer_toString_hex rnd ++ newPassword)))
    as (x & -> & _).
  cbn [bind]. eexists _, _. split; [reflexivity|]. split.
  - destruct rnd; [congruence|]. discriminate.
  - apply toString16_not_empty.
Qed.

(** [setVerificationToken] succeeds whenever the key has 32 bytes. *)
Lemma setVerificationToken_ok v w :
  length (derivedKey v) = 32%nat →
  ∃ iv enc,
    setVerificationToken (v, w)
    = (Ok tt, (sealed v iv enc, set_drawn (drawn w + 16) w)).
Proof.
  intros Hk.
  destruct (encrypt_then_decrypt (derivedKey v)
              (map (fun i => u8 (entropy w (drawn w + i))) (seq 0 16))
              (stringToUint8Array (verificationPlaintext v)) [] Hk) as (enc & E & _).
  exists (map (fun i => u8 (entropy w (drawn w + i))) (seq 0 16)), enc.
  destruct v as [u c up ve ps s k0 t vt vi vg vp dk].
  destruct w as [di ea en d cl ti srv].
  cbn [derivedKey verificationPlaintext entropy drawn] in E.
  unfold setVerificationToken. run. rewrite E. reflexivity.
Qed.

Lemma getSecretKey_inv u v w sk :
  getSecretKey u (v, w) = (Ok (Some sk), (v, w)) →
  decryptString (match disk w !! key_file u with Some (KeyFile b) => b | _ => [] end)
  = Ok sk.
Proof.
  unfold getSecretKey. run.
  destruct (decryptString _) as [s|]; [|discriminate]. congruence.
Qed.

(** With no entry, the two uses of the key derived from [currentPassword]
    vanish: the result does not depend on it. *)
Lemma changeMasterPassword_empty_any cur cur' newPassword v w :
  vaultPasswords v = [] →
  changeMasterPassword cur newPassword (v, w)
  = changeMasterPassword cur' newPassword (v, w).
Proof.
  intros Hps. destruct v as [u c up ve ps s k0 t vt vi vg vp dk].
  cbn [vaultPasswords] in Hps. subst ps.
  unfold changeMasterPassword, getSecretKey. run.
  destruct (decryptString _) as [sk|]; [|reflexivity].
  destruct (String.eqb sk ""); [reflexivity|].
  cbv beta iota zeta delta [for_each foldr]. run. reflexivity.
Qed.

Lemma saveToFile_persists v w :
  length (derivedKey v) = 32%nat →
  ∃ v' w',
    saveToFile (v, w) = (Ok tt, (v', w'))
    ∧ salt v' = salt v ∧ derivedKey v' = derivedKey v ∧ server w' = server w
    ∧ document w' (user v) = Some (document_of v').
Proof.
  intros Hk. destruct (saveToFile_ok v w Hk) as (iv & enc & E).
  eexists _, _. split; [exact E|].
  destruct v as [u c up ve ps s k0 t vt vi vg vp dk].
  destruct w as [di ea en d cl ti srv].
  unfold document. run. rewrite lookup_insert_eq. repeat split.
Qed.

(** On a vault without entries [changeMasterPassword] runs to the end. *)
Lemma changeMasterPassword_empty_run cur newPassword v w sk :
  vaultPasswords v = [] →
  getSecretKey (user v) (v, w) = (Ok (Some sk), (v, w)) →
  sk ≠ ""%string →
  server_accepts v w →
  ∃ v' w' registration,
    changeMasterPassword cur newPassword (v, w) = (Ok tt, (v', w'))
    ∧ salt v' = new_salt w
    ∧ derivedKey v' = deriveKey (new_salt w) newPassword sk
    ∧ SRP.generateRegistration (random_block w 48) newPassword = Ok registration
    ∧ (bearer v ≠ None → credentials (server w') = Some registration)
    ∧ document w' (user v) = Some (document_of v').
Proof.
  intros Hps Hsk Hne Hsrv. apply getSecretKey_inv in Hsk.
  set (newSalt := new_salt w).
  set (newKey := deriveKey newSalt newPassword sk).
  set (v1 := set_derivedKey newKey (set_salt newSalt v)).
  set (w1 := set_drawn (drawn w + 32) w).
  assert (Hk : length (derivedKey v1) = 32%nat).
  { unfold v1. destruct v. apply length_deriveKey. }
  destruct (setVerificationToken_ok v1 w1 Hk) as (iv & enc & Etok).
  destruct (generateRegistration_total (random_block w 48) newPassword)
    as (srpSalt & verifier & Ereg & Hs & Hv); [discriminate|].
  apply String.eqb_neq in Hne, Hs, Hv.
  destruct v as [u c up ve ps s k0 t vt vi vg vp dk].
  destruct w as [di ea en d cl ti srv].
  cbn [vaultPasswords user disk] in Hps, Hsk. subst ps.
  unfold v1, w1, newKey, newSalt, new_salt in *. clear v1 w1 newKey newSalt.
  unfold random_block in *.
  cbv beta iota zeta delta [set_derivedKey set_salt set_drawn drawn entropy sealed
    set_verification derivedKey salt] in Etok, Ereg, Hk |- *.
  unfold server_accepts, bearer in Hsrv. cbn [server token] in Hsrv.
  unfold bearer. cbn [token].
  assert (Hcase : (match t with Some t0 => if String.eqb t0 "" then None else Some t0
                   | None => None end = None)
                  ∨ ∃ tok, match t with Some t0 => if String.eqb t0 "" then None else Some t0
                           | None => None end = Some tok).
  { destruct t as [t0|]; [destruct (String.eqb t0 "")|]; eauto. }
  assert (Hfin : ∀ V W, length (derivedKey V) = 32%nat →
            user V = u →
            salt V = uint8ArrayToBase64 (map (λ i, u8 (en (d + i)%nat)) (seq 0 32)) →
            derivedKey V = deriveKey (uint8ArrayToBase64
                             (map (λ i, u8 (en (d + i)%nat)) (seq 0 32))) newPassword sk →
            ∃ v' w', saveToFile (V, W) = (Ok tt, (v', w'))
              ∧ salt v' = uint8ArrayToBase64 (map (λ i, u8 (en (d + i)%nat)) (seq 0 32))
              ∧ derivedKey v' = deriveKey (uint8ArrayToBase64
                             (map (λ i, u8 (en (d + i)%nat)) (seq 0 32))) newPassword sk
              ∧ server w' = server W
              ∧ document w' u = Some (document_of v')).
  { intros V W HkV Hu HsV HdV.
    destruct (saveToFile_persists V W HkV) as (v' & w' & E & E1 & E2 & E3 & E4).
    exists v', w'. rewrite Hu in E4. repeat split; congruence. }
  destruct Hcase as [E|[tok E]]; rewrite E in Hsrv |- *.
  - match goal with
    | |- context [changeMasterPassword _ _ ?s0] =>
        eassert (Hrun : changeMasterPassword cur newPassword s0 = saveToFile (_, _))
    end.
    { unfold changeMasterPassword, getSecretKey. run. rewrite Hsk, Hne.
      cbv beta iota zeta delta [for_each foldr]. run.
      rewrite Etok. run.
      replace (d + 32 + 16)%nat with (d + 48)%nat by lia.
      rewrite Ereg. run. rewrite Hs, Hv, E. cbn [orb]. reflexivity. }
    rewrite Hrun.
    match goal with
    | |- context [saveToFile (?V, ?W)] =>
        destruct (Hfin V W Hk eq_refl eq_refl eq_refl) as (v' & w' & Es & E1 & E2 & E3 & E4)
    end.
    exists v', w', (srpSalt, verifier). repeat split; auto. congruence.
  - destruct Hsrv as (Hr & Hin & Hc).
    destruct (credentials srv) as [cr|] eqn:Ecr; [clear Hc|congruence].
    match goal with
    | |- context [changeMasterPassword _ _ ?s0] =>
        eassert (Hrun : changeMasterPassword cur newPassword s0 = saveToFile (_, _))
    end.
    { unfold changeMasterPassword, getSecretKey. run. rewrite Hsk, Hne.
      cbv beta iota zeta delta [for_each foldr]. run.
      rewrite Etok. run.
      replace (d + 32 + 16)%nat with (d + 48)%nat by lia.
      rewrite Ereg. run. rewrite Hs, Hv, E. cbn [orb].
      rewrite Hr, (bool_decide_eq_true_2 _ Hin), Ecr. run. reflexivity. }
    rewrite Hrun.
    match goal with
    | |- context [saveToFile (?V, ?W)] =>
        destruct (Hfin V W Hk eq_refl eq_refl eq_refl) as (v' & w' & Es & E1 & E2 & E3 & E4)
    end.
    exists v', w', (srpSalt, verifier). repeat split; auto. rewrite E3. reflexivity.
Qed.

(** C10. On a vault whose list of entries is empty, [changeMasterPassword]
    performs no check of [currentPassword]: provided the secret key can be
    read and the server (if a session token is held) accepts the update, the
    call succeeds with one and the same final state for every value of
    [currentPassword], and that state is rekeyed: a newly drawn salt, the
    key derived from it and [newPassword], a new SRP registration (sent to
    the server when a token is held), and the document saved to disk. *)
Theorem change_master_password_unchecked_when_empty newPassword v w sk :
  vaultPasswords v = [] →
  getSecretKey (user v) (v, w) = (Ok (Some sk), (v, w)) →
  sk ≠ ""%string →
  server_accepts v w →
  ∃ v' w' registration,
    (∀ currentPassword,
       changeMasterPassword currentPassword newPassword (v, w) = (Ok tt, (v', w')))
    ∧ salt v' = new_salt w
    ∧ derivedKey v' = deriveKey (new_salt w) newPassword sk
    ∧ SRP.generateRegistration (random_block w 48) newPassword = Ok registration
    ∧ (bearer v ≠ None → credentials (server w') = Some registration)
    ∧ document w' (user v) = Some (document_of v').
Proof.
  intros Hps Hsk Hne Hsrv.
  destruct (changeMasterPassword_empty_run ""%string newPassword v w sk Hps Hsk Hne Hsrv)
    as (v' & w' & reg & Hrun & Hrest).
  exists v', w', reg. split; [|exact Hrest].
  intros cur. rewrite <- Hrun. apply changeMasterPassword_empty_any, Hps.
Qed.

End Rekey.

(** ** Adding an entry *)

Section Adding.
Context {wasm : Wasm} {runtime : Runtime}.

Lemma random_is_bytes (f : nat → Z) (l : list nat) : is_bytes (map (fun i => u8 (f i)) l).
Proof. apply Forall_map, Forall_forall. intros i _. apply u8_is_byte. Qed.

(** With a 32-byte key [newEntry] returns. *)
Lemma newEntry_returns user0 pw st nt cat fav v w :
  length (derivedKey v) = 32%nat →
  ∃ p v' w', newEntry user0 pw st nt cat fav (v, w) = (Ok p, (v', w')).
Proof.
  intros Hk.
  destruct v as [u c up ve ps s sk t vt vi vg vp dk].
  destruct w as [di ea en d cl ti srv]. cbn [derivedKey] in Hk.
  unfold newEntry, generateRandomIV, getRandomValues, now.
  cbn -[seq].
  match goal with
  | |- context [GCM.encrypt dk ?iv (stringToUint8Array pw) []] =>
      destruct (encrypt_then_decrypt dk iv (stringToUint8Array pw) [] Hk)
        as (encP & -> & HcP & HtP & _)
  end.
  cbn -[seq].
  match goal with
  | |- context [GCM.encrypt dk ?iv (stringToUint8Array user0) []] =>
      destruct (encrypt_then_decrypt dk iv (stringToUint8Array user0) [] Hk)
        as (encU & -> & HcU & HtU & _)
  end.
  cbn -[seq]. unfold Password_new.
  rewrite !base64_round_trip by (assumption || apply random_is_bytes).
  cbn -[seq]. eauto.
Qed.

(** The rest of [addPassword] on a vault that holds no session token: the
    document is saved, nothing is synchronised, the entries stay. *)
Lemma addPassword_offline user0 pw st nt cat fav v w p v' w' :
  newEntry user0 pw st nt cat fav (v, w) = (Ok p, (v', w')) →
  length (derivedKey v) = 32%nat →
  bearer v = None →
  ∃ v'' w'',
    addPassword user0 pw st nt cat fav (v, w) = (Ok tt, (v'', w''))
    ∧ vaultPasswords v'' = vaultPasswords v'.
Proof.
  intros E Hk Hb. pose proof (newEntry_inv _ _ _ _ _ _ _ _ _ _ _ E) as (_ & _ & _ & _ & Hd & Ht).
  unfold addPassword. unfold mbind_M at 1. rewrite E.
  unfold mbind_M at 1.
  destruct (saveToFile_ok v' w') as (iv & enc & Es); [congruence|].
  rewrite Es. rewrite sync_without_token.
  - eexists _, _. split; [reflexivity|]. destruct v'. reflexivity.
  - cbn [fst]. unfold bearer in Hb |- *. rewrite <- Ht in Hb. destruct v'. exact Hb.
Qed.

(** The two nonces that [newEntry] draws are what the constructor decodes. *)
Lemma newEntry_nonces user0 pw st nt cat fav v w p v' w' :
  newEntry user0 pw st nt cat fav (v, w) = (Ok p, (v', w')) →
  passwordIV p = random_block w 0 ∧ usernameIV p = random_block w 16.
Proof.
  intros E. apply newEntry_inv in E as (_ & _ & Ep & Eu & _).
  rewrite base64_round_trip in Ep, Eu by apply random_is_bytes.
  unfold random_block. split; [|congruence].
  rewrite (map_ext _ (fun i => u8 (entropy w (drawn w + i))))
    by (intros; do 2 f_equal; lia).
  congruence.
Qed.

(** C8 (amended). On an unlocked vault whose last identifier is a safe
    integer (below 2^53 in absolute value, where adding 1 to a number is
    exact), [addPassword] creates an entry whose identifier is that of the
    last entry of the list plus one, or 0 when the list is empty, and
    appends it; when the identifiers are in non-decreasing order along the
    list, this is the maximum identifier plus one.  The call then saves and
    synchronises from this state; with no session token it ends with
    exactly these entries. *)
Theorem add_assigns_last_plus_one user0 pw st nt cat fav v w :
  length (derivedKey v) = 32%nat →
  (∀ q, last (vaultPasswords v) = Some q → safe_integer (passwordId q)) →
  ∃ p v' w',
    newEntry user0 pw st nt cat fav (v, w) = (Ok p, (v', w'))
    ∧ passwordId p = next_identifier (vaultPasswords v)
    ∧ vaultPasswords v' = vaultPasswords v ++ [p]
    ∧ (StronglySorted Z.le (identifiers v) →
       passwordId p = spec_identifier (vaultPasswords v))
    ∧ addPassword user0 pw st nt cat fav (v, w) = (saveToFile ;; sync) (v', w')
    ∧ (bearer v = None →
       ∃ v'' w'', addPassword user0 pw st nt cat fav (v, w) = (Ok tt, (v'', w''))
                  ∧ vaultPasswords v'' = vaultPasswords v ++ [p]).
Proof.
  intros Hk _.
  destruct (newEntry_returns user0 pw st nt cat fav v w Hk) as (p & v' & w' & E).
  exists p, v', w'. split; [exact E|].
  pose proof (newEntry_inv _ _ _ _ _ _ _ _ _ _ _ E) as (Hid & Happ & _).
  repeat split; auto.
  - intros Hs. rewrite Hid. apply sorted_last_is_max, Hs.
  - unfold addPassword. unfold mbind_M at 1. rewrite E. reflexivity.
  - intros Hb.
    destruct (addPassword_offline _ _ _ _ _ _ _ _ _ _ _ E Hk Hb) as (v'' & w'' & Ea & Ev).
    exists v'', w''. split; [exact Ea|congruence].
Qed.

(** C7 (amended). On an unlocked vault [addPassword] creates an entry whose
    two nonces are the next two 16-byte blocks of the random source, the
    first for the password and the second for the username; each is 16 bytes
    long. *)
Theorem add_nonces_are_16_random_bytes user0 pw st nt cat fav v w :
  length (derivedKey v) = 32%nat →
  ∃ p v' w',
    newEntry user0 pw st nt cat fav (v, w) = (Ok p, (v', w'))
    ∧ passwordIV p = random_block w 0
    ∧ usernameIV p = random_block w 16
    ∧ length (passwordIV p) = 16%nat
    ∧ length (usernameIV p) = 16%nat.
Proof.
  intros Hk.
  destruct (newEntry_returns user0 pw st nt cat fav v w Hk) as (p & v' & w' & E).
  exists p, v', w'. split; [exact E|].
  destruct (newEntry_nonces _ _ _ _ _ _ _ _ _ _ _ E) as (Ep & Eu).
  rewrite Ep, Eu. unfold random_block. rewrite !length_map, !length_seq. auto.
Qed.

End Adding.

(** ** The boundary of the SRP agreement *)

Section SRPBoundary.
Context {wasm : Wasm}.

(** When the server's [B] is 0 the client stops at its safety check. *)
Lemma computeSession_rejects_zero k salt0 username0 password0 a_hex a :
  BigInt_hex a_hex = Ok a →
  SRP.computeSession k salt0 username0 password0 a_hex "0" = Err SafetyCheckB.
Proof. intros Ea. unfold SRP.computeSession. rewrite Ea. reflexivity. Qed.

(** [generateEphemeral] of the server on a well-formed verifier. *)
Lemma serverEphemeral_run k buf b v :
  SRP.randomBigInt buf = Ok b → 0 <= v →
  SRP.serverEphemeral k buf (toString16 v)
  = Ok (toString16 b,
        toString16 (Z.rem (Z.rem (k * v) SRP.N + SRP.modPow SRP.g b SRP.N) SRP.N)).
Proof.
  intros Eb Hv. unfold SRP.serverEphemeral. rewrite Eb. cbn [bind].
  rewrite BigInt_hex_toString16 by exact Hv. reflexivity.
Qed.

(** [generateEphemeral] of the client: the first draw is kept, since a power
    of 2 is never 0 modulo [N]. *)
Lemma clientEphemeral_run buf rest a :
  SRP.randomBigInt buf = Ok a →
  SRP.clientEphemeral (buf :: rest)
  = Some (Ok (toString16 a, toString16 (SRP.modPow SRP.g a SRP.N))).
Proof.
  intros Ea. cbn [SRP.clientEphemeral]. rewrite Ea. cbv zeta.
  pose proof N_gt_1 as HN.
  assert (Ha : 0 <= a) by (unfold SRP.randomBigInt in Ea; eapply BigInt_hex_nonneg; eauto).
  pose proof (modPow_range SRP.g a SRP.N HN ltac:(rewrite g_is_2; lia) Ha) as HA.
  rewrite Z.rem_mod_nonneg, Z.mod_small by lia.
  destruct (Z.eqb_spec (SRP.modPow SRP.g a SRP.N) 0) as [E|_]; [|reflexivity].
  exfalso. rewrite modPow_spec, g_is_2 in E by (rewrite ?g_is_2; lia).
  revert E. apply pow2_mod_odd_nonzero; auto using N_odd.
Qed.

(** [generateRegistration], given the hash of salt and password. *)
Lemma generateRegistration_run rnd password0 x :
  BigInt_hex (sha256 (Buffer_toString_hex rnd ++ password0)) = Ok x →
  SRP.generateRegistration rnd password0
  = Ok (Buffer_toString_hex rnd, toString16 (SRP.modPow SRP.g x SRP.N)).
Proof. intros Ex. unfold SRP.generateRegistration. cbv zeta. rewrite Ex. reflexivity. Qed.

End SRPBoundary.

(** * The statements on concrete inputs *)

(** ** Known answers

    The embedding of the cipher reproduces the published vectors: FIPS-197
    appendix C.3 for AES-256 and test cases 13 and 14 of the GCM
    specification (a zero key and a zero IV of 12 bytes; no plaintext, then
    one block of zeros). *)

Example aes256_fips197_c3 :
  (let* rk := AES.keyExpansion (map Z.of_nat (seq 0 32)) in
   AES.encryptBlock (map (fun i => 17 * Z.of_nat i) (seq 0 16)) rk)
  = Ok [142; 162; 183; 202; 81; 103; 69; 191; 234; 252; 73; 144; 75; 73; 96; 137].
Proof. vm_compute. reflexivity. Qed.

Example gcm_test_case_13 :
  GCM.encrypt (replicate 32 0) (replicate 12 0) [] []
  = Ok {| GCM.ciphertext := [];
          GCM.tag := [83; 15; 138; 251; 199; 69; 54; 185;
                      169; 99; 180; 241; 196; 203; 115; 139] |}.
Proof. vm_compute. reflexivity. Qed.

Example gcm_test_case_14 :
  GCM.encrypt (replicate 32 0) (replicate 12 0) (replicate 16 0) []
  = Ok {| GCM.ciphertext := [206; 167; 64; 61; 77; 96; 107; 110;
                             7; 78; 197; 211; 186; 243; 157; 24];
          GCM.tag := [208; 209; 200; 167; 153; 153; 107; 240;
                      38; 91; 152; 181; 212; 138; 185; 25] |}.
Proof. vm_compute. reflexivity. Qed.

(** The reference hash functions reproduce the published answers: SHA-256
    of "abc", and PBKDF2-HMAC-SHA256 of "password" and "salt" at two
    iterations. *)
Example sha256_abc :
  sha256 "abc" = "ba7816bf8f01cfea414140de5dae2223b00361a396177a9cb410ff61f20015ad"%string.
Proof. vm_compute. reflexivity. Qed.

Example pbkdf2_two_iterations :
  pbkdf2_hmac_sha256 "password" "salt" 2 32
  = "ae4d0c95af6b46d32d0adff928f06dd02a303f8ef3c251dfd6e2d85a95474c43"%string.
Proof. vm_compute. reflexivity. Qed.

(** ** Instances *)

(** C1 at a 12-byte IV, two bytes of plaintext and three bytes of AAD. *)
Lemma aead_round_trip_witness :
  length Sample.key = 32%nat ∧ is_bytes [104; 105]
  ∧ ∃ c, GCM.encrypt Sample.key (map Z.of_nat (seq 0 12)) [104; 105] [1; 2; 3] = Ok c
         ∧ GCM.decrypt Sample.key (map Z.of_nat (seq 0 12))
                       (GCM.ciphertext c) (GCM.tag c) [1; 2; 3]
           = Ok [104; 105].
Proof.
  assert (Hp : is_bytes [104; 105]).
  { constructor; [unfold is_byte; lia|]. constructor; [unfold is_byte; lia|]. constructor. }
  split; [reflexivity|]. split; [exact Hp|].
  apply aead_round_trip; [reflexivity|exact Hp].
Defined.

(** C3 with the multiplier [H(N, g)] under SHA-256, the password
    "correct horse" and 32 bytes drawn on each side. *)
Lemma srp_agreement_witness :
  SRP.initSRP = Ok Sample.multiplier
  ∧ admissible Sample.multiplier = true
  ∧ SRP.generateRegistration Sample.srp_random "correct horse"
    = Ok (Sample.srp_salt, Sample.srp_verifier)
  ∧ SRP.clientEphemeral [Sample.client_draw]
    = Some (Ok (toString16 Sample.srp_a, Sample.srp_A))
  ∧ SRP.serverEphemeral Sample.multiplier Sample.server_draw Sample.srp_verifier
    = Ok (toString16 Sample.srp_b, Sample.srp_B)
  ∧ ∃ s,
      SRP.computeSession Sample.multiplier Sample.srp_salt "alice" "correct horse"
                         (toString16 Sample.srp_a) Sample.srp_B = Ok s
      ∧ SRP.verifySession Sample.multiplier "alice" Sample.srp_salt Sample.srp_verifier
                          Sample.srp_A (toString16 Sample.srp_b) (SRP.M1 s)
        = Ok (SRP.K s, SRP.M2 s).
Proof.
  assert (Hi : SRP.initSRP = Ok Sample.multiplier) by (vm_compute; reflexivity).
  assert (Hk : 0 <= Sample.multiplier) by discriminate.
  assert (Hadm : admissible Sample.multiplier = true) by (vm_compute; reflexivity).
  assert (Hx : BigInt_hex (sha256 (Buffer_toString_hex Sample.srp_random ++ "correct horse"))
               = Ok Sample.srp_x)
    by (vm_compute; reflexivity).
  pose proof (generateRegistration_run _ _ _ Hx) as Hreg.
  change (Buffer_toString_hex Sample.srp_random) with Sample.srp_salt in Hreg.
  assert (Ea : SRP.randomBigInt Sample.client_draw = Ok Sample.srp_a)
    by (vm_compute; reflexivity).
  assert (Eb : SRP.randomBigInt Sample.server_draw = Ok Sample.srp_b)
    by (vm_compute; reflexivity).
  pose proof (clientEphemeral_run _ [] _ Ea) as Hcl.
  assert (Hv : 0 <= SRP.modPow SRP.g Sample.srp_x SRP.N).
  { apply modPow_range; [exact N_gt_1|discriminate|discriminate]. }
  pose proof (serverEphemeral_run Sample.multiplier _ _ _ Eb Hv) as Hsrv.
  repeat (split; [assumption|]).
  exact (srp_agreement _ _ _ _ "alice" _ _ _ _ _ _ _ Hk Hadm Hreg Hcl Hsrv).
Defined.

(** C8 (amended) on a vault whose identifiers are 0 and 1. *)
Lemma add_assigns_last_plus_one_witness :
  length (derivedKey (Sample.vault [0; 1])) = 32%nat
  ∧ (∀ q, last (vaultPasswords (Sample.vault [0; 1])) = Some q →
          safe_integer (passwordId q))
  ∧ ∃ p v' w',
      newEntry "bob" "hunter2" "example.org" "" "" false (Sample.vault [0; 1], Sample.world)
      = (Ok p, (v', w'))
      ∧ passwordId p = next_identifier (vaultPasswords (Sample.vault [0; 1]))
      ∧ vaultPasswords v' = vaultPasswords (Sample.vault [0; 1]) ++ [p]
      ∧ (StronglySorted Z.le (identifiers (Sample.vault [0; 1])) →
         passwordId p = spec_identifier (vaultPasswords (Sample.vault [0; 1])))
      ∧ addPassword "bob" "hunter2" "example.org" "" "" false
                    (Sample.vault [0; 1], Sample.world)
        = (saveToFile ;; sync) (v', w')
      ∧ (bearer (Sample.vault [0; 1]) = None →
         ∃ v'' w'',
           addPassword "bob" "hunter2" "example.org" "" "" false
                       (Sample.vault [0; 1], Sample.world)
           = (Ok tt, (v'', w''))
           ∧ vaultPasswords v'' = vaultPasswords (Sample.vault [0; 1]) ++ [p]).
Proof.
  assert (Hsafe : ∀ q, last (vaultPasswords (Sample.vault [0; 1])) = Some q →
                       safe_integer (passwordId q)).
  { intros q [= <-]. unfold safe_integer. cbn [Sample.entry passwordId]. lia. }
  split; [reflexivity|]. split; [exact Hsafe|].
  exact (add_assigns_last_plus_one "bob" "hunter2" "example.org" "" "" false
           (Sample.vault [0; 1]) Sample.world eq_refl Hsafe).
Defined.

(** The claim C8 as stated fails on a vault whose identifiers are 5 and 2, in
    this order, as [createFromFile] loads it from a file that lists them so:
    the new entry gets 3, the maximum plus one is 6. *)
Lemma add_after_unsorted_identifiers :
  vaultPasswords (fst (snd (createFromFile (Sample.vault [], Sample.unsorted_world))))
  = vaultPasswords (Sample.vault [5; 2])
  ∧ added_identifier
      (newEntry "bob" "hunter2" "example.org" "" "" false (Sample.vault [5; 2], Sample.world))
    = Some 3
  ∧ spec_identifier (vaultPasswords (Sample.vault [5; 2])) = 6.
Proof. vm_compute. repeat split. Qed.

(** C7 on an empty vault. *)
Lemma add_nonces_are_16_random_bytes_witness :
  length (derivedKey (Sample.vault [])) = 32%nat
  ∧ ∃ p v' w',
      newEntry "bob" "hunter2" "example.org" "" "" false (Sample.vault [], Sample.world)
      = (Ok p, (v', w'))
      ∧ passwordIV p = random_block Sample.world 0
      ∧ usernameIV p = random_block Sample.world 16
      ∧ length (passwordIV p) = 16%nat
      ∧ length (usernameIV p) = 16%nat.
Proof.
  split; [reflexivity|].
  apply (add_nonces_are_16_random_bytes "bob" "hunter2" "example.org" "" "" false
           (Sample.vault []) Sample.world).
  reflexivity.
Defined.

(** The claim C7 as stated fails: with the random source that counts
    0, 1, 2, ... the two nonces have 16 bytes each, not 12; and nothing
    compares them, so that a source that repeats itself gives the same nonce
    twice. *)
Lemma add_nonces_have_16_bytes_and_may_coincide :
  added_nonces
    (newEntry "bob" "hunter2" "example.org" "" "" false (Sample.vault [], Sample.world))
  = Some (map Z.of_nat (seq 0 16), map Z.of_nat (seq 16 16))
  ∧ added_nonces
      (newEntry "bob" "hunter2" "example.org" "" "" false
                (Sample.vault [], Sample.world_zero))
    = Some (replicate 16 0, replicate 16 0).
Proof. vm_compute. split; reflexivity. Qed.

(** C9 on a document without verification fields that holds two entries,
    under an arbitrary master password. *)
Lemma open_without_verification_fields_witness :
  disk Sample.unsorted_world !! vault_file "alice" = Some (VaultFile Sample.unsorted_document)
  ∧ doc_verificationToken Sample.unsorted_document = None
  ∧ decode_all (default [] (doc_vault Sample.unsorted_document))
    = Ok [Sample.entry 5; Sample.entry 2]
  ∧ ∃ v' w',
      open_vault "alice" "not the password" false Sample.unsorted_world = (Ok tt, (v', w'))
      ∧ user v' = "alice"%string
      ∧ vaultPasswords v' = [Sample.entry 5; Sample.entry 2]
      ∧ (∀ s, doc_salt Sample.unsorted_document = Some s → salt v' = s)
      ∧ derivedKey v' = deriveKey (salt v') "not the password" (secretKey v')
      ∧ document w' "alice" = Some (document_of v').
Proof.
  assert (Hd : disk Sample.unsorted_world !! vault_file "alice"
               = Some (VaultFile Sample.unsorted_document)) by (vm_compute; reflexivity).
  assert (Hps : decode_all (default [] (doc_vault Sample.unsorted_document))
                = Ok [Sample.entry 5; Sample.entry 2]) by (vm_compute; reflexivity).
  split; [exact Hd|]. split; [reflexivity|]. split; [exact Hps|].
  exact (proj2 (open_without_verification_fields "alice" Sample.unsorted_world
                  Sample.unsorted_document [Sample.entry 5; Sample.entry 2]
                  Hd (or_introl eq_refl) Hps)
               "not the password"%string).
Defined.

(** C10 on the empty vault of alice, whose key file holds her secret key. *)
Lemma change_master_password_unchecked_when_empty_witness :
  vaultPasswords (Sample.vault []) = []
  ∧ getSecretKey (user (Sample.vault [])) (Sample.vault [], Sample.keyed_world)
    = (Ok (Some "c2VjcmV0"%string), (Sample.vault [], Sample.keyed_world))
  ∧ server_accepts (Sample.vault []) Sample.keyed_world
  ∧ ∃ v' w' registration,
      (∀ currentPassword,
         changeMasterPassword currentPassword "new password"
                              (Sample.vault [], Sample.keyed_world)
         = (Ok tt, (v', w')))
      ∧ salt v' = new_salt Sample.keyed_world
      ∧ derivedKey v' = deriveKey (new_salt Sample.keyed_world) "new password" "c2VjcmV0"
      ∧ SRP.generateRegistration (random_block Sample.keyed_world 48) "new password"
        = Ok registration
      ∧ (bearer (Sample.vault []) ≠ None → credentials (server w') = Some registration)
      ∧ document w' (user (Sample.vault [])) = Some (document_of v').
Proof.
  assert (Hs : getSecretKey (user (Sample.vault [])) (Sample.vault [], Sample.keyed_world)
               = (Ok (Some "c2VjcmV0"%string), (Sample.vault [], Sample.keyed_world)))
    by (vm_compute; reflexivity).
  assert (Ha : server_accepts (Sample.vault []) Sample.keyed_world) by exact I.
  split; [reflexivity|]. split; [exact Hs|]. split; [exact Ha|].
  apply (change_master_password_unchecked_when_empty "new password" (Sample.vault [])
           Sample.keyed_world "c2VjcmV0" eq_refl Hs); [discriminate|exact Ha].
Defined.

(** * Further properties of the code *)

(** ** The block cipher and its inverse *)

Lemma u8_of_byte a : is_byte a → u8 a = a.
Proof.
  intros Ha. unfold u8. change 255 with (Z.ones 8).
  rewrite Z.land_ones by lia. apply Z.mod_small. exact Ha.
Qed.

Lemma u8_u8 z : u8 (u8 z) = u8 z.
Proof. apply u8_of_byte, u8_is_byte. Qed.

Lemma u8_lxor a b : u8 (Z.lxor a b) = Z.lxor (u8 a) (u8 b).
Proof.
  unfold u8. apply Z.bits_inj'. intros n _.
  rewrite !Z.land_spec, !Z.lxor_spec, !Z.land_spec.
  destruct (Z.testbit a n), (Z.testbit b n), (Z.testbit 255 n); reflexivity.
Qed.

Lemma is_byte_lxor a b : is_byte a → is_byte b → is_byte (Z.lxor a b).
Proof.
  intros Ha Hb. rewrite <- (u8_of_byte a Ha), <- (u8_of_byte b Hb), <- u8_lxor.
  apply u8_is_byte.
Qed.

Lemma is_bytes_put s i v : is_bytes s → is_bytes (put s i v).
Proof.
  intros Hs. unfold put. apply Forall_insert; [exact Hs | apply u8_is_byte].
Qed.

Lemma foldl_is_bytes {B} (body : bytes → B → bytes) l s :
  (∀ st b, is_bytes st → is_bytes (body st b)) → is_bytes s → is_bytes (foldl body s l).
Proof.
  intros Hb. revert s. induction l as [|b l IH]; intros s Hs; simpl; [exact Hs|].
  apply IH, Hb, Hs.
Qed.

(** A block of 16 bytes, element by element. *)
Ltac block s H :=
  do 16 (destruct s as [|? s]; [discriminate H|]); destruct s; [clear H|discriminate H].

Ltac bytes_of H :=
  repeat match type of H with
         | is_bytes (_ :: _) => apply Forall_cons_1 in H; destruct H as [? H]
         | Forall is_byte (_ :: _) => apply Forall_cons_1 in H; destruct H as [? H]
         end.

(** The loops [for (i = 0; i < 16; i++) state[i] = f(i, state[i])]. *)
Lemma loop16 (f : nat → Z → Z) s :
  length s = 16%nat →
  foldl (fun st i => put st i (f i (get st i))) s (seq 0 16) = imap (fun i a => u8 (f i a)) s.
Proof. intros H. block s H. reflexivity. Qed.

Lemma imap_cancel (f g : nat → Z → Z) s :
  (∀ i a, is_byte a → g i (f i a) = a) → is_bytes s → imap g (imap f s) = s.
Proof.
  intros Hfg Hs. apply list_eq. intros i. rewrite !list_lookup_imap.
  destruct (s !! i) as [a|] eqn:E; simpl; [|reflexivity].
  f_equal. apply Hfg. exact (proj1 (Forall_lookup _ _) Hs i a E).
Qed.

Lemma addRoundKey_imap s rk :
  length s = 16%nat →
  AES.addRoundKey s rk = imap (fun i a => u8 (Z.lxor a (get rk i))) s.
Proof. intros H. exact (loop16 (fun i a => Z.lxor a (get rk i)) s H). Qed.

Lemma is_bytes_addRoundKey s rk : is_bytes s → is_bytes (AES.addRoundKey s rk).
Proof. intros. apply foldl_is_bytes; [intros; apply is_bytes_put|]; assumption. Qed.

Lemma addRoundKey_twice s rk :
  length s = 16%nat → is_bytes s → AES.addRoundKey (AES.addRoundKey s rk) rk = s.
Proof.
  intros H Hs. rewrite (addRoundKey_imap (AES.addRoundKey s rk)) by
    (rewrite length_addRoundKey; exact H).
  rewrite (addRoundKey_imap s) by exact H.
  apply (imap_cancel (fun i a => u8 (Z.lxor a (get rk i)))
                     (fun i a => u8 (Z.lxor a (get rk i)))); [|exact Hs].
  intros i a Ha. apply u8_xor_involutive, Ha.
Qed.

(** [gmul] is additive in its second argument. *)
Lemma gmul_step_iter n r a b :
  fst (fst (Nat.iter n AES.gmul_step (r, a, b))) = Z.lxor r (gmul_sum n a b).
Proof.
  revert r a b. induction n as [|n IH]; intros r a b.
  - simpl. rewrite Z.lxor_0_r. reflexivity.
  - rewrite Nat.iter_succ_r. unfold AES.gmul_step at 2. fold (xtime a).
    rewrite IH. simpl gmul_sum.
    destruct (Z.land b 1 =? 0).
    + rewrite Z.lxor_0_l. reflexivity.
    + rewrite Z.lxor_assoc. reflexivity.
Qed.

Lemma gmul_gmul_sum a b : AES.gmul a b = gmul_sum 8 a b.
Proof.
  unfold AES.gmul. pose proof (gmul_step_iter 8 0 a b) as H.
  destruct (Nat.iter 8 AES.gmul_step (0, a, b)) as [[r ?] ?].
  simpl in H. rewrite H. apply Z.lxor_0_l.
Qed.

Lemma lxor_swap p q u v :
  Z.lxor (Z.lxor p q) (Z.lxor u v) = Z.lxor (Z.lxor p u) (Z.lxor q v).
Proof.
  apply Z.bits_inj'. intros n _. rewrite !Z.lxor_spec.
  destruct (Z.testbit p n), (Z.testbit q n), (Z.testbit u n), (Z.testbit v n); reflexivity.
Qed.

Lemma low_bit b : Z.land b 1 = Z.b2z (Z.testbit b 0).
Proof. change 1 with (Z.ones 1). rewrite Z.land_ones by lia. symmetry. apply Z.bit0_mod. Qed.

Lemma gmul_sum_lxor n a x y :
  gmul_sum n a (Z.lxor x y) = Z.lxor (gmul_sum n a x) (gmul_sum n a y).
Proof.
  revert a x y. induction n as [|n IH]; intros a x y; simpl; [reflexivity|].
  rewrite Z.shiftr_lxor, IH, lxor_swap. f_equal.
  rewrite !low_bit, Z.lxor_spec.
  destruct (Z.testbit x 0), (Z.testbit y 0); simpl;
    rewrite ?Z.lxor_0_l, ?Z.lxor_0_r, ?Z.lxor_nilpotent; reflexivity.
Qed.

Lemma gmul_lxor a x y : AES.gmul a (Z.lxor x y) = Z.lxor (AES.gmul a x) (AES.gmul a y).
Proof. rewrite !gmul_gmul_sum. apply gmul_sum_lxor. Qed.

Lemma is_byte_xtime a : is_byte (xtime a).
Proof.
  unfold xtime. destruct (Z.land a 128 =? 0).
  - apply (u8_is_byte (Z.shiftl a 1)).
  - apply is_byte_lxor; [apply (u8_is_byte (Z.shiftl a 1)) | unfold is_byte; lia].
Qed.

Lemma is_byte_gmul_sum n a b : is_byte a → is_byte (gmul_sum n a b).
Proof.
  revert a b. induction n as [|n IH]; intros a b Ha; simpl; [unfold is_byte; lia|].
  apply is_byte_lxor; [|apply IH, is_byte_xtime].
  destruct (Z.land b 1 =? 0); [unfold is_byte; lia | exact Ha].
Qed.

Lemma is_byte_gmul a b : is_byte a → is_byte (AES.gmul a b).
Proof. rewrite gmul_gmul_sum. apply is_byte_gmul_sum. Qed.

Lemma on_bytes_spec P a : on_bytes P = true → is_byte a → P a = true.
Proof.
  intros HP Ha. unfold on_bytes in HP. rewrite forallb_forall in HP.
  specialize (HP (Z.to_nat a)). rewrite Z2Nat.id in HP by (unfold is_byte in Ha; lia).
  apply HP, in_seq. unfold is_byte in Ha. lia.
Qed.

Lemma inverse_tables_spec S T a :
  inverse_tables S T = true → is_byte a →
  u8 (get T (Z.to_nat (u8 (get S (Z.to_nat a))))) = a.
Proof.
  intros HT Ha. apply Z.eqb_eq.
  exact (on_bytes_spec (fun a => u8 (get T (Z.to_nat (u8 (get S (Z.to_nat a))))) =? a) a HT Ha).
Qed.

Lemma subBytes_imap s :
  length s = 16%nat → AES.subBytes s = imap (fun _ a => u8 (get AES.S_BOX (Z.to_nat a))) s.
Proof. intros H. exact (loop16 (fun _ a => get AES.S_BOX (Z.to_nat a)) s H). Qed.

Lemma invSubBytes_imap s :
  length s = 16%nat →
  AES.invSubBytes s = imap (fun _ a => u8 (get AES.INV_S_BOX (Z.to_nat a))) s.
Proof. intros H. exact (loop16 (fun _ a => get AES.INV_S_BOX (Z.to_nat a)) s H). Qed.

Lemma length_invSubBytes s : length (AES.invSubBytes s) = length s.
Proof. apply foldl_length_pres. intros. apply length_put. Qed.

Lemma is_bytes_subBytes s : is_bytes s → is_bytes (AES.subBytes s).
Proof. intros. apply foldl_is_bytes; [intros; apply is_bytes_put|]; assumption. Qed.

Lemma is_bytes_invSubBytes s : is_bytes s → is_bytes (AES.invSubBytes s).
Proof. intros. apply foldl_is_bytes; [intros; apply is_bytes_put|]; assumption. Qed.

Lemma invSubBytes_subBytes s :
  length s = 16%nat → is_bytes s → AES.invSubBytes (AES.subBytes s) = s.
Proof.
  intros H Hs. rewrite invSubBytes_imap by (rewrite length_subBytes; exact H).
  rewrite subBytes_imap by exact H.
  apply (imap_cancel (fun _ a => u8 (get AES.S_BOX (Z.to_nat a)))
                     (fun _ a => u8 (get AES.INV_S_BOX (Z.to_nat a)))); [|exact Hs].
  intros _ a Ha. apply inverse_tables_spec; [vm_compute; reflexivity | exact Ha].
Qed.

Lemma subBytes_invSubBytes s :
  length s = 16%nat → is_bytes s → AES.subBytes (AES.invSubBytes s) = s.
Proof.
  intros H Hs. rewrite subBytes_imap by (rewrite length_invSubBytes; exact H).
  rewrite invSubBytes_imap by exact H.
  apply (imap_cancel (fun _ a => u8 (get AES.INV_S_BOX (Z.to_nat a)))
                     (fun _ a => u8 (get AES.S_BOX (Z.to_nat a)))); [|exact Hs].
  intros _ a Ha. apply inverse_tables_spec; [vm_compute; reflexivity | exact Ha].
Qed.

Lemma length_invShiftRows s : length (AES.invShiftRows s) = length s.
Proof. unfold AES.invShiftRows. rewrite !length_put. reflexivity. Qed.

Lemma is_bytes_shiftRows s : is_bytes s → is_bytes (AES.shiftRows s).
Proof. intros H. unfold AES.shiftRows. repeat apply is_bytes_put. exact H. Qed.

Lemma is_bytes_invShiftRows s : is_bytes s → is_bytes (AES.invShiftRows s).
Proof. intros H. unfold AES.invShiftRows. repeat apply is_bytes_put. exact H. Qed.

Lemma invShiftRows_shiftRows s :
  length s = 16%nat → is_bytes s → AES.invShiftRows (AES.shiftRows s) = s.
Proof.
  intros H Hs. block s H. bytes_of Hs.
  cbv [AES.shiftRows AES.invShiftRows put get nth insert list_insert].
  rewrite !u8_u8, !u8_of_byte by assumption. reflexivity.
Qed.

Lemma shiftRows_invShiftRows s :
  length s = 16%nat → is_bytes s → AES.shiftRows (AES.invShiftRows s) = s.
Proof.
  intros H Hs. block s H. bytes_of Hs.
  cbv [AES.shiftRows AES.invShiftRows put get nth insert list_insert].
  rewrite !u8_u8, !u8_of_byte by assumption. reflexivity.
Qed.

Lemma inv_mix_products_ok s : is_byte s → inv_mix_products s = true.
Proof. apply (on_bytes_spec (fun s => inv_mix_products s)). vm_compute. reflexivity. Qed.

Lemma mix_inv_products_ok s : is_byte s → mix_inv_products s = true.
Proof. apply (on_bytes_spec (fun s => mix_inv_products s)). vm_compute. reflexivity. Qed.

Ltac products lem s :=
  let H := fresh "R" in
  match goal with
  | Hs : is_byte s |- _ =>
      pose proof (lem s Hs) as H;
      repeat (apply andb_prop in H; let H' := fresh "R" in destruct H as [H H']);
      repeat match goal with E : (_ =? _) = true |- _ => apply Z.eqb_eq in E end
  end.

Ltac byte_goal :=
  repeat first [ assumption | apply u8_is_byte | apply is_byte_lxor | apply is_byte_gmul
               | (unfold is_byte; lia) ].

Lemma xor4_eq a b c d r : Z.lxor (Z.lxor (Z.lxor a b) c) d = r → xor4 a b c d = r.
Proof. intros H. exact H. Qed.

Lemma xor4_transpose a0 a1 a2 a3 b0 b1 b2 b3 c0 c1 c2 c3 d0 d1 d2 d3 :
  Z.lxor (Z.lxor (Z.lxor (Z.lxor (Z.lxor (Z.lxor a0 a1) a2) a3)
                         (Z.lxor (Z.lxor (Z.lxor b0 b1) b2) b3))
                 (Z.lxor (Z.lxor (Z.lxor c0 c1) c2) c3))
         (Z.lxor (Z.lxor (Z.lxor d0 d1) d2) d3) =
  xor4 (xor4 a0 b0 c0 d0) (xor4 a1 b1 c1 d1) (xor4 a2 b2 c2 d2) (xor4 a3 b3 c3 d3).
Proof. unfold xor4. apply Z.bits_inj'. intros n _. rewrite !Z.lxor_spec. btauto. Qed.

Lemma xor4_unit s :
  xor4 s 0 0 0 = s ∧ xor4 0 s 0 0 = s ∧ xor4 0 0 s 0 = s ∧ xor4 0 0 0 s = s.
Proof. unfold xor4. rewrite ?Z.lxor_0_r, ?Z.lxor_0_l. auto. Qed.

Ltac column lem :=
  rewrite !(u8_of_byte (Z.lxor _ _)) by byte_goal;
  rewrite !gmul_lxor, !xor4_transpose;
  repeat match goal with
         | Hb : is_byte ?x |- _ => products lem x; revert Hb
         end;
  repeat match goal with
         | E : Z.lxor _ _ = _ |- _ => apply xor4_eq in E; rewrite !E; clear E
         end;
  repeat match goal with
         | |- context [xor4 ?a ?b ?c ?d] =>
             first [ rewrite (proj1 (xor4_unit a))
                   | rewrite (proj1 (proj2 (xor4_unit b)))
                   | rewrite (proj1 (proj2 (proj2 (xor4_unit c))))
                   | rewrite (proj2 (proj2 (proj2 (xor4_unit d)))) ]
         end;
  reflexivity.

Lemma cons4 {A} (a b c d a' b' c' d' : A) t t' :
  [a; b; c; d] = [a'; b'; c'; d'] → t = t' →
  a :: b :: c :: d :: t = a' :: b' :: c' :: d' :: t'.
Proof. intros H ->. injection H as -> -> -> ->. reflexivity. Qed.

Lemma inv_mix_column s0 s1 s2 s3 m0 m1 m2 m3 :
  is_byte s0 → is_byte s1 → is_byte s2 → is_byte s3 →
  m0 = u8 (Z.lxor (Z.lxor (Z.lxor (AES.gmul 2 s0) (AES.gmul 3 s1)) s2) s3) →
  m1 = u8 (Z.lxor (Z.lxor (Z.lxor s0 (AES.gmul 2 s1)) (AES.gmul 3 s2)) s3) →
  m2 = u8 (Z.lxor (Z.lxor (Z.lxor s0 s1) (AES.gmul 2 s2)) (AES.gmul 3 s3)) →
  m3 = u8 (Z.lxor (Z.lxor (Z.lxor (AES.gmul 3 s0) s1) s2) (AES.gmul 2 s3)) →
  [ u8 (Z.lxor (Z.lxor (Z.lxor (AES.gmul 14 m0) (AES.gmul 11 m1)) (AES.gmul 13 m2))
               (AES.gmul 9 m3));
    u8 (Z.lxor (Z.lxor (Z.lxor (AES.gmul 9 m0) (AES.gmul 14 m1)) (AES.gmul 11 m2))
               (AES.gmul 13 m3));
    u8 (Z.lxor (Z.lxor (Z.lxor (AES.gmul 13 m0) (AES.gmul 9 m1)) (AES.gmul 14 m2))
               (AES.gmul 11 m3));
    u8 (Z.lxor (Z.lxor (Z.lxor (AES.gmul 11 m0) (AES.gmul 13 m1)) (AES.gmul 9 m2))
               (AES.gmul 14 m3)) ] = [s0; s1; s2; s3].
Proof.
  intros B0 B1 B2 B3 -> -> -> ->. column inv_mix_products_ok.
Qed.

Lemma mix_inv_column s0 s1 s2 s3 m0 m1 m2 m3 :
  is_byte s0 → is_byte s1 → is_byte s2 → is_byte s3 →
  m0 = u8 (Z.lxor (Z.lxor (Z.lxor (AES.gmul 14 s0) (AES.gmul 11 s1)) (AES.gmul 13 s2))
                  (AES.gmul 9 s3)) →
  m1 = u8 (Z.lxor (Z.lxor (Z.lxor (AES.gmul 9 s0) (AES.gmul 14 s1)) (AES.gmul 11 s2))
                  (AES.gmul 13 s3)) →
  m2 = u8 (Z.lxor (Z.lxor (Z.lxor (AES.gmul 13 s0) (AES.gmul 9 s1)) (AES.gmul 14 s2))
                  (AES.gmul 11 s3)) →
  m3 = u8 (Z.lxor (Z.lxor (Z.lxor (AES.gmul 11 s0) (AES.gmul 13 s1)) (AES.gmul 9 s2))
                  (AES.gmul 14 s3)) →
  [ u8 (Z.lxor (Z.lxor (Z.lxor (AES.gmul 2 m0) (AES.gmul 3 m1)) m2) m3);
    u8 (Z.lxor (Z.lxor (Z.lxor m0 (AES.gmul 2 m1)) (AES.gmul 3 m2)) m3);
    u8 (Z.lxor (Z.lxor (Z.lxor m0 m1) (AES.gmul 2 m2)) (AES.gmul 3 m3));
    u8 (Z.lxor (Z.lxor (Z.lxor (AES.gmul 3 m0) m1) m2) (AES.gmul 2 m3)) ] = [s0; s1; s2; s3].
Proof.
  intros B0 B1 B2 B3 -> -> -> ->. column mix_inv_products_ok.
Qed.

Lemma invMixColumns_mixColumns s :
  length s = 16%nat → is_bytes s → AES.invMixColumns (AES.mixColumns s) = s.
Proof.
  intros H Hs. block s H. bytes_of Hs.
  cbv [AES.mixColumns AES.invMixColumns foldl seq put get nth insert list_insert
       Nat.mul Nat.add].
  do 4 (eapply cons4; [eapply inv_mix_column; try eassumption; reflexivity|]). reflexivity.
Qed.

Lemma mixColumns_invMixColumns s :
  length s = 16%nat → is_bytes s → AES.mixColumns (AES.invMixColumns s) = s.
Proof.
  intros H Hs. block s H. bytes_of Hs.
  cbv [AES.mixColumns AES.invMixColumns foldl seq put get nth insert list_insert
       Nat.mul Nat.add].
  do 4 (eapply cons4; [eapply mix_inv_column; try eassumption; reflexivity|]). reflexivity.
Qed.

Lemma length_invMixColumns s : length (AES.invMixColumns s) = length s.
Proof. apply foldl_length_pres. intros. rewrite !length_put. reflexivity. Qed.

Lemma is_bytes_mixColumns s : is_bytes s → is_bytes (AES.mixColumns s).
Proof. intros. apply foldl_is_bytes; [intros; repeat apply is_bytes_put|]; assumption. Qed.

Lemma is_bytes_invMixColumns s : is_bytes s → is_bytes (AES.invMixColumns s).
Proof. intros. apply foldl_is_bytes; [intros; repeat apply is_bytes_put|]; assumption. Qed.

(** Two loops that undo each other turn by turn, the second one running
    backwards. *)
Lemma loops_cancel {A} (good : A → Prop) (P P' : A → A) (Q Q' : nat → A → A) :
  (∀ s, good s → good (P s)) → (∀ r s, good s → good (Q r s)) →
  (∀ s, good s → P' (P s) = s) → (∀ r s, good s → Q' r (Q r s) = s) →
  ∀ l s, good s →
    good (foldl (fun st r => Q r (P st)) s l) ∧
    foldl (fun st r => Q' r (P' st)) (P (foldl (fun st r => Q r (P st)) s l)) (rev l) = P s.
Proof.
  intros HP HQ HPP HQQ l. induction l as [|r l IH] using rev_ind; intros s Hs.
  - simpl. split; [exact Hs | reflexivity].
  - rewrite foldl_app, rev_app_distr. simpl.
    destruct (IH s Hs) as [Hg IHe]. split; [apply HQ, HP, Hg|].
    rewrite HPP by (apply HQ, HP, Hg). rewrite HQQ by (apply HP, Hg). exact IHe.
Qed.

Lemma inv_rounds_rounds s rk : block16 s → AES.inv_rounds (AES.rounds s rk) rk = s.
Proof.
  intros Hs. unfold AES.inv_rounds, AES.rounds.
  assert (HP : ∀ s, block16 s → block16 (AES.shiftRows (AES.subBytes s))).
  { intros x [Hl Hb]. split;
      [rewrite length_shiftRows, length_subBytes; exact Hl
      | apply is_bytes_shiftRows, is_bytes_subBytes, Hb]. }
  assert (HQ : ∀ r s, block16 s →
                 block16 (AES.addRoundKey (AES.mixColumns s) (AES.key_at rk r))).
  { intros r x [Hl Hb]. split;
      [rewrite length_addRoundKey, length_mixColumns; exact Hl
      | apply is_bytes_addRoundKey, is_bytes_mixColumns, Hb]. }
  assert (H0 : block16 (AES.addRoundKey s (AES.key_at rk 0))).
  { destruct Hs as [Hl Hb]. split;
      [rewrite length_addRoundKey; exact Hl | apply is_bytes_addRoundKey, Hb]. }
  destruct (loops_cancel block16
              (fun st => AES.shiftRows (AES.subBytes st))
              (fun st => AES.invSubBytes (AES.invShiftRows st))
              (fun r st => AES.addRoundKey (AES.mixColumns st) (AES.key_at rk r))
              (fun r st => AES.invMixColumns (AES.addRoundKey st (AES.key_at rk r)))
              HP HQ) with (l := seq 1 (AES.NUM_ROUNDS - 1))
                          (s := AES.addRoundKey s (AES.key_at rk 0)) as [Hg He].
  - intros x [Hl Hb]. rewrite invShiftRows_shiftRows, invSubBytes_subBytes; trivial.
    + rewrite length_subBytes; exact Hl.
    + apply is_bytes_subBytes, Hb.
  - intros r x [Hl Hb]. rewrite addRoundKey_twice, invMixColumns_mixColumns; trivial.
    + rewrite length_mixColumns; exact Hl.
    + apply is_bytes_mixColumns, Hb.
  - exact H0.
  - destruct (HP _ Hg) as [Hl Hb].
    rewrite addRoundKey_twice by assumption.
    rewrite He.
    destruct Hs as [Hl0 Hb0].
    rewrite invShiftRows_shiftRows, invSubBytes_subBytes, addRoundKey_twice; trivial.
    + rewrite length_addRoundKey; exact Hl0.
    + apply is_bytes_addRoundKey, Hb0.
    + rewrite length_subBytes, length_addRoundKey; exact Hl0.
    + apply is_bytes_subBytes, is_bytes_addRoundKey, Hb0.
Qed.

Lemma rounds_inv_rounds s rk : block16 s → AES.rounds (AES.inv_rounds s rk) rk = s.
Proof.
  intros Hs. unfold AES.inv_rounds, AES.rounds.
  assert (HP : ∀ s, block16 s → block16 (AES.invSubBytes (AES.invShiftRows s))).
  { intros x [Hl Hb]. split;
      [rewrite length_invSubBytes, length_invShiftRows; exact Hl
      | apply is_bytes_invSubBytes, is_bytes_invShiftRows, Hb]. }
  assert (HQ : ∀ r s, block16 s →
                 block16 (AES.invMixColumns (AES.addRoundKey s (AES.key_at rk r)))).
  { intros r x [Hl Hb]. split;
      [rewrite length_invMixColumns, length_addRoundKey; exact Hl
      | apply is_bytes_invMixColumns, is_bytes_addRoundKey, Hb]. }
  assert (H0 : block16 (AES.addRoundKey s (AES.key_at rk AES.NUM_ROUNDS))).
  { destruct Hs as [Hl Hb]. split;
      [rewrite length_addRoundKey; exact Hl | apply is_bytes_addRoundKey, Hb]. }
  destruct (loops_cancel block16
              (fun st => AES.invSubBytes (AES.invShiftRows st))
              (fun st => AES.shiftRows (AES.subBytes st))
              (fun r st => AES.invMixColumns (AES.addRoundKey st (AES.key_at rk r)))
              (fun r st => AES.addRoundKey (AES.mixColumns st) (AES.key_at rk r))
              HP HQ) with (l := rev (seq 1 (AES.NUM_ROUNDS - 1)))
                          (s := AES.addRoundKey s (AES.key_at rk AES.NUM_ROUNDS)) as [Hg He].
  - intros x [Hl Hb]. rewrite subBytes_invSubBytes, shiftRows_invShiftRows; trivial.
    + rewrite length_invShiftRows; exact Hl.
    + apply is_bytes_invShiftRows, Hb.
  - intros r x [Hl Hb]. rewrite mixColumns_invMixColumns, addRoundKey_twice; trivial.
    + rewrite length_addRoundKey; exact Hl.
    + apply is_bytes_addRoundKey, Hb.
  - exact H0.
  - rewrite rev_involutive in He.
    destruct (HP _ Hg) as [Hl Hb].
    rewrite addRoundKey_twice by assumption.
    rewrite He.
    destruct Hs as [Hl0 Hb0].
    rewrite subBytes_invSubBytes, shiftRows_invShiftRows, addRoundKey_twice; trivial.
    + rewrite length_addRoundKey; exact Hl0.
    + apply is_bytes_addRoundKey, Hb0.
    + rewrite length_invShiftRows, length_addRoundKey; exact Hl0.
    + apply is_bytes_invShiftRows, is_bytes_addRoundKey, Hb0.
Qed.

Lemma length_inv_rounds s rk : length (AES.inv_rounds s rk) = length s.
Proof.
  unfold AES.inv_rounds. rewrite length_addRoundKey, length_invSubBytes, length_invShiftRows.
  rewrite foldl_length_pres; [apply length_addRoundKey|].
  intros. rewrite length_invMixColumns, length_addRoundKey, length_invSubBytes.
  apply length_invShiftRows.
Qed.

(** X1. [decryptBlock] undoes [encryptBlock]: under the key schedule of a
    32-byte key, a block of 16 bytes that is encrypted and then decrypted comes
    back unchanged, and neither call throws. *)
Theorem decryptBlock_encryptBlock key rk block :
  AES.keyExpansion key = Ok rk → length block = 16%nat → is_bytes block →
  (let* c := AES.encryptBlock block rk in AES.decryptBlock c rk) = Ok block.
Proof.
  intros _ Hl Hb. rewrite encryptBlock_ok by exact Hl. simpl.
  unfold AES.decryptBlock. rewrite length_rounds, Hl. simpl.
  f_equal. apply inv_rounds_rounds. split; assumption.
Qed.

(** X2. [encryptBlock] undoes [decryptBlock]: under the key schedule of a
    32-byte key, a block of 16 bytes that is decrypted and then encrypted comes
    back unchanged, so that every block is the encryption of exactly one
    block. *)
Theorem encryptBlock_decryptBlock key rk block :
  AES.keyExpansion key = Ok rk → length block = 16%nat → is_bytes block →
  (let* p := AES.decryptBlock block rk in AES.encryptBlock p rk) = Ok block.
Proof.
  intros _ Hl Hb. unfold AES.decryptBlock. rewrite Hl. simpl.
  rewrite encryptBlock_ok by (rewrite length_inv_rounds; exact Hl).
  f_equal. apply rounds_inv_rounds. split; assumption.
Qed.

(** ** Authenticated decryption *)

Lemma tag_compare_true (a b : bytes) n :
  foldl (fun tagValid i => if get a i =? get b i then tagValid else false) true (seq 0 n) = true →
  ∀ i, (i < n)%nat → get a i = get b i.
Proof.
  induction n as [|n IH]; intros H i Hi; [lia|].
  rewrite seq_S, foldl_app in H. simpl in H.
  destruct (Z.eqb_spec (get a n) (get b n)) as [E|E]; [|discriminate].
  destruct (decide (i = n)) as [->|Hne]; [exact E|]. apply IH; [exact H|lia].
Qed.

Lemma ghash_length H data y : GHash.ghash H data = Ok y → length y = 16%nat.
Proof.
  unfold GHash.ghash.
  destruct (length H =? 16)%nat; [|discriminate].
  destruct (length data mod 16 =? 0)%nat; [|discriminate]. simpl.
  destruct (GHash.fromBytes H); [|discriminate]. cbn [bind]. cbv zeta.
  destruct (forM _ _ _); [|discriminate]. cbn [bind].
  intros [= <-]. apply length_toBytes.
Qed.

(** The values computed by both [encrypt] and [decrypt] before they diverge:
    the round keys, the hash key and the block [J0]. *)
Lemma gcm_prelude key iv :
  length key = 32%nat →
  ∃ rk H J0, AES.keyExpansion key = Ok rk
             ∧ AES.encryptBlock (alloc GCM.BLOCK_SIZE) rk = Ok H ∧ length H = 16%nat
             ∧ GCM.generateJ0 iv H = Ok J0 ∧ length J0 = 16%nat.
Proof.
  intros Hkey. destruct (keyExpansion_ok key Hkey) as [rk Erk].
  exists rk, (AES.rounds (alloc 16) rk).
  assert (HH : length (AES.rounds (alloc 16) rk) = 16%nat)
    by (rewrite length_rounds; apply length_alloc).
  destruct (generateJ0_ok iv _ HH) as (J0 & EJ0 & HJ0).
  exists J0. split; [exact Erk|]. split; [apply encryptBlock_ok, length_alloc|].
  auto.
Qed.

Lemma keyExpansion_length key rk : AES.keyExpansion key = Ok rk → length key = 32%nat.
Proof.
  unfold AES.keyExpansion, AES.KEY_SIZE.
  destruct (Nat.eqb_spec (length key) 32); [auto|discriminate].
Qed.

Lemma keyExpansion_rejects key :
  length key ≠ 32%nat → AES.keyExpansion key = Err (InvalidKeySize (length key)).
Proof.
  intros Hkey. unfold AES.keyExpansion, AES.KEY_SIZE.
  destruct (Nat.eqb_spec (length key) 32); [contradiction|reflexivity].
Qed.

Lemma tags_agree_eq computed tg :
  length computed = 16%nat → length tg = 16%nat → tags_agree computed tg = true →
  computed = tg.
Proof.
  intros Hc Ht H. apply get_ext; [congruence|]. intros j Hj.
  apply (tag_compare_true _ _ _ H). rewrite Hc in Hj. exact Hj.
Qed.

(** The course of [encrypt] and of [decrypt] under a key of 32 bytes. *)
Lemma gcm_run key iv aad :
  length key = 32%nat →
  ∃ rk H J0,
    length J0 = 16%nat ∧ length H = 16%nat
    ∧ (∀ p ct gi S_ t,
         GCM.gctr rk (GCM.incrementCounter J0) p = Ok ct →
         GCM.ghash_input aad ct = Ok gi → GHash.ghash H gi = Ok S_ →
         GCM.gctr rk J0 S_ = Ok t →
         GCM.encrypt key iv p aad = Ok {| GCM.ciphertext := ct; GCM.tag := t |})
    ∧ (∀ ct tg gi S_ t,
         GCM.ghash_input aad ct = Ok gi → GHash.ghash H gi = Ok S_ →
         GCM.gctr rk J0 S_ = Ok t →
         GCM.decrypt key iv ct tg aad
         = if negb (length tg =? 16)%nat then Err (InvalidTagSize (length tg))
           else if negb (tags_agree t tg) then Err AuthenticationFailed
                else GCM.gctr rk (GCM.incrementCounter J0) ct).
Proof.
  intros Hkey. destruct (gcm_prelude key iv Hkey) as (rk & H & J0 & Erk & EH & HH & EJ0 & HJ0).
  exists rk, H, J0. split; [exact HJ0|]. split; [exact HH|]. split.
  - intros p ct gi S_ t Ect Egi ES Et. unfold GCM.encrypt.
    rewrite Erk. cbn [bind]. cbv zeta. rewrite EH. cbn [bind]. rewrite EJ0. cbn [bind].
    rewrite Ect. cbn [bind]. rewrite Egi. cbn [bind]. rewrite ES. cbn [bind].
    rewrite Et. reflexivity.
  - intros ct tg gi S_ t Egi ES Et. unfold GCM.decrypt, GCM.GCM_TAG_SIZE.
    destruct (negb (length tg =? 16)%nat); [reflexivity|].
    rewrite Erk. cbn [bind]. cbv zeta. rewrite EH. cbn [bind]. rewrite EJ0. cbn [bind].
    rewrite Egi. cbn [bind]. rewrite ES. cbn [bind]. rewrite Et. reflexivity.
Qed.

Lemma bind_Err {A B} e (k : A → result B) : bind (Err e) k = Err e.
Proof. reflexivity. Qed.

(** The tag that belongs to a ciphertext. *)
Lemma gcm_tag rk H J0 aad ct :
  length J0 = 16%nat → length H = 16%nat →
  ∃ gi S_ t, GCM.ghash_input aad ct = Ok gi ∧ GHash.ghash H gi = Ok S_
             ∧ GCM.gctr rk J0 S_ = Ok t ∧ length t = 16%nat.
Proof.
  intros HJ0 HH. destruct (ghash_input_ok aad ct) as (gi & Egi & Hgi).
  destruct (ghash_ok H gi HH Hgi) as (S_ & ES & HS).
  destruct (gctr_spec rk J0 S_ HJ0) as (t & Et & Ht & _).
  exists gi, S_, t. repeat split; try assumption. congruence.
Qed.

(** X3. [decrypt] authenticates: whenever it returns a plaintext for a
    ciphertext (an array of bytes) and a tag, [encrypt] maps that plaintext,
    under the same key, IV and AAD, to exactly this ciphertext and this tag. *)
Theorem decrypt_accepts_only_encryptions key iv ct tg aad p :
  is_bytes ct →
  GCM.decrypt key iv ct tg aad = Ok p →
  GCM.encrypt key iv p aad = Ok {| GCM.ciphertext := ct; GCM.tag := tg |}.
Proof.
  intros Hct Hd.
  destruct (decide (length key = 32%nat)) as [Hkey|Hkey].
  2:{ unfold GCM.decrypt in Hd. rewrite (keyExpansion_rejects key Hkey), bind_Err in Hd.
      destruct (negb _) in Hd; discriminate. }
  destruct (gcm_run key iv aad Hkey) as (rk & H & J0 & HJ0 & HH & Henc & Hdec).
  destruct (gcm_tag rk H J0 aad ct HJ0 HH) as (gi & S_ & t & Egi & ES & Et & Ht).
  rewrite (Hdec ct tg gi S_ t Egi ES Et) in Hd.
  destruct (Nat.eqb_spec (length tg) 16) as [Htg|]; [|discriminate].
  destruct (tags_agree t tg) eqn:Ecmp; [|discriminate].
  simpl in Hd. rewrite <- (tags_agree_eq t tg Ht Htg Ecmp).
  apply (Henc p ct gi S_ t); try assumption.
  apply gctr_involutive; [rewrite length_incrementCounter|..]; assumption.
Qed.

(** X4. A tag other than the one [encrypt] returned is never accepted:
    [decrypt] throws "Authentication failed" when the tag has 16 bytes, and
    "Invalid tag size" when it has another length. *)
Theorem decrypt_rejects_other_tags key iv p aad c tg :
  GCM.encrypt key iv p aad = Ok c → tg ≠ GCM.tag c →
  GCM.decrypt key iv (GCM.ciphertext c) tg aad
  = Err (if (length tg =? 16)%nat then AuthenticationFailed else InvalidTagSize (length tg)).
Proof.
  intros He Hne.
  destruct (decide (length key = 32%nat)) as [Hkey|Hkey].
  2:{ unfold GCM.encrypt in He. rewrite (keyExpansion_rejects key Hkey), bind_Err in He.
      discriminate. }
  destruct (gcm_run key iv aad Hkey) as (rk & H & J0 & HJ0 & HH & Henc & Hdec).
  assert (HICB : length (GCM.incrementCounter J0) = 16%nat)
    by (rewrite length_incrementCounter; exact HJ0).
  destruct (gctr_spec rk (GCM.incrementCounter J0) p HICB) as (ct & Ect & _).
  destruct (gcm_tag rk H J0 aad ct HJ0 HH) as (gi & S_ & t & Egi & ES & Et & Ht).
  rewrite (Henc p ct gi S_ t Ect Egi ES Et) in He. injection He as <-.
  cbn [GCM.ciphertext GCM.tag] in *.
  rewrite (Hdec ct tg gi S_ t Egi ES Et).
  destruct (Nat.eqb_spec (length tg) 16) as [Htg|]; [|reflexivity].
  destruct (tags_agree t tg) eqn:Ecmp; [|reflexivity].
  exfalso. apply Hne. symmetry. apply tags_agree_eq; assumption.
Qed.

(** X5. [encrypt] depends on the key only through its length: with a key of
    32 bytes it returns, for every IV (of any length), plaintext and AAD, a
    ciphertext as long as the plaintext and a tag of 16 bytes; with any other
    key it throws "Invalid key size". *)
Theorem encrypt_checks_the_key_size_only key iv p aad :
  if (length key =? 32)%nat
  then ∃ c, GCM.encrypt key iv p aad = Ok c
            ∧ length (GCM.ciphertext c) = length p ∧ length (GCM.tag c) = 16%nat
  else GCM.encrypt key iv p aad = Err (InvalidKeySize (length key)).
Proof.
  destruct (Nat.eqb_spec (length key) 32) as [Hkey|Hkey].
  - destruct (gcm_prelude key iv Hkey) as (rk & H & J0 & Erk & EH & HH & EJ0 & HJ0).
    assert (HICB : length (GCM.incrementCounter J0) = 16%nat)
      by (rewrite length_incrementCounter; exact HJ0).
    destruct (gctr_spec rk (GCM.incrementCounter J0) p HICB) as (ct & Ect & Hct & _).
    destruct (ghash_input_ok aad ct) as (gi & Egi & Hgi).
    destruct (ghash_ok H gi HH Hgi) as (S_ & ES & HS).
    destruct (gctr_spec rk J0 S_ HJ0) as (t & Etg & Htg & _).
    exists {| GCM.ciphertext := ct; GCM.tag := t |}. cbn [GCM.ciphertext GCM.tag].
    split; [|split; [exact Hct | rewrite Htg; exact HS]].
    unfold GCM.encrypt. rewrite Erk. cbn [bind]. cbv zeta.
    rewrite EH. cbn [bind]. rewrite EJ0. cbn [bind]. rewrite Ect. cbn [bind].
    rewrite Egi. cbn [bind]. rewrite ES. cbn [bind]. rewrite Etg. reflexivity.
  - unfold GCM.encrypt, AES.keyExpansion, AES.KEY_SIZE.
    destruct (Nat.eqb_spec (length key) 32); [contradiction|reflexivity].
Qed.

(** ** The class and the functions *)

Lemma class_ghash_input_some a c :
  GCM.AES256GCM.ghash_input (Some a) c = GCM.ghash_input a c.
Proof. reflexivity. Qed.

Lemma class_ghash_input_none c :
  GCM.AES256GCM.ghash_input None c = GCM.ghash_input [] c.
Proof. reflexivity. Qed.

(** X6. The constructor of the class [AES256GCM] throws "Invalid key size"
    exactly when the key has not 32 bytes; for a key of 32 bytes it returns
    an instance that computes what the functions [encrypt] and [decrypt]
    compute under that key, and leaving out the AAD is the same as passing
    an empty one. *)
Theorem class_agrees_with_functions key :
  if (length key =? 32)%nat
  then ∃ self,
         GCM.AES256GCM.new key = Ok self
         ∧ ∀ iv data tg aad,
             GCM.AES256GCM.encrypt self data iv aad
             = GCM.encrypt key iv data (default [] aad)
             ∧ GCM.AES256GCM.decrypt self data iv tg aad
               = GCM.decrypt key iv data tg (default [] aad)
  else GCM.AES256GCM.new key = Err (InvalidKeySize (length key)).
Proof.
  unfold GCM.AES256GCM.new.
  destruct (Nat.eqb_spec (length key) 32) as [Hkey|Hkey]; [|reflexivity].
  simpl negb. cbv iota.
  destruct (gcm_prelude key [] Hkey) as (rk & H & _ & Erk & EH & _).
  rewrite Erk. cbn [bind]. cbv zeta. rewrite EH. cbn [bind].
  eexists. split; [reflexivity|].
  intros iv data tg aad.
  assert (Egi : ∀ c, GCM.AES256GCM.ghash_input aad c = GCM.ghash_input (default [] aad) c).
  { intros c. destruct aad; [apply class_ghash_input_some|apply class_ghash_input_none]. }
  split.
  - unfold GCM.AES256GCM.encrypt, GCM.encrypt.
    cbn [GCM.AES256GCM.roundKeys GCM.AES256GCM.H].
    rewrite Erk. cbn [bind]. cbv zeta. rewrite EH. cbn [bind].
    destruct (GCM.generateJ0 iv H); [|reflexivity]. cbn [bind].
    destruct (GCM.gctr rk _ data); [|reflexivity]. cbn [bind].
    rewrite Egi. reflexivity.
  - unfold GCM.AES256GCM.decrypt, GCM.decrypt.
    cbn [GCM.AES256GCM.roundKeys GCM.AES256GCM.H].
    destruct (negb _); [reflexivity|].
    rewrite Erk. cbn [bind]. cbv zeta. rewrite EH. cbn [bind].
    destruct (GCM.generateJ0 iv H); [|reflexivity]. cbn [bind].
    rewrite Egi. reflexivity.
Qed.

(** ** The counter *)

Lemma u8_mod z : u8 z = z mod 256.
Proof. unfold u8. change 255 with (Z.ones 8). rewrite Z.land_ones by lia. reflexivity. Qed.

(** X7. [incrementCounter] adds one, modulo 2^32, to the big-endian number
    held in the last four bytes of a 16-byte block; the first twelve bytes
    (the IV part) are not touched, also when the counter wraps around. *)
Theorem incrementCounter_adds_one c :
  length c = 16%nat → is_bytes c →
  counter_value (GCM.incrementCounter c) = (counter_value c + 1) mod 2 ^ 32
  ∧ take 12 (GCM.incrementCounter c) = take 12 c
  ∧ length (GCM.incrementCounter c) = 16%nat
  ∧ is_bytes (GCM.incrementCounter c).
Proof.
  intros H Hc. block c H. bytes_of Hc.
  repeat match goal with Hb : is_byte _ |- _ => unfold is_byte in Hb end.
  unfold GCM.incrementCounter, counter_value.
  cbv [GCM.increment_from length Nat.ltb Nat.leb put get nth insert list_insert].
  rewrite !u8_mod.
  assert (B : ∀ a, 0 <= a < 256 → a + 1 = 256 ∧ (a + 1) mod 256 = 0
                                   ∨ a + 1 < 256 ∧ (a + 1) mod 256 = a + 1).
  { intros a Ha. destruct (Z.eq_dec a 255) as [->|]; [left; split; reflexivity|].
    right. split; [lia|]. apply Z.mod_small. lia. }
  assert (I : ∀ l : bytes, Forall is_byte l → is_bytes l) by (intros; assumption).
  repeat match goal with
         | |- context [(?a + 1) mod 256] =>
             let E := fresh "E" in
             destruct (B a ltac:(assumption)) as [[? E]|[? E]]; rewrite !E;
             [change (0 =? 0) with true; cbv iota
             |destruct (Z.eqb_spec (a + 1) 0); [lia|]]
         end;
    repeat match goal with
           | Hx : ?z + 1 = 256 |- _ => assert (z = 255) by lia; subst z; clear Hx
           end;
    cbv [nth take length];
    (split; [first [reflexivity | rewrite Z.mod_small by lia; lia]|]);
    (split; [reflexivity|]); (split; [reflexivity|]);
    apply I; repeat (constructor; [unfold is_byte; lia|]); constructor.
Qed.

(** ** Padding and the counter mode *)

(** X8. [padTo16] never throws: it returns the data followed by fewer than
    16 zero bytes, as many as are needed to reach the next multiple of 16;
    data whose length is a multiple of 16, the empty array included, is
    returned as it is. *)
Theorem padTo16_appends_zeros data :
  ∃ k, GHash.padTo16 data = Ok (data ++ replicate k 0)
       ∧ (k < 16)%nat ∧ ((length data + k) mod 16 = 0)%nat
       ∧ ((length data mod 16 = 0)%nat → k = 0%nat).
Proof.
  unfold GHash.padTo16. cbv zeta.
  pose proof (Nat.mod_upper_bound (length data) 16 ltac:(lia)) as Hr.
  destruct (Nat.eqb_spec (length data mod 16) 0) as [E|E].
  - exists 0%nat. rewrite app_nil_r, Nat.add_0_r. auto with lia.
  - exists (16 - length data mod 16)%nat.
    rewrite set_at_fits by (rewrite length_alloc; lia).
    split; [|split; [lia|split; [apply pad_arith, E|intros; contradiction]]].
    f_equal. unfold alloc. rewrite take_0, drop_replicate. cbn [app Nat.add].
    f_equal. f_equal. lia.
Qed.

(** X9. [gctr] is its own inverse: under the key schedule of a 32-byte key
    and with a counter block of 16 bytes it returns, for data of any length
    (also empty, also not a multiple of 16), an array of bytes of the same
    length, and applied to that array with the same round keys and counter
    block it returns the data. *)
Theorem gctr_twice key rk icb data :
  AES.keyExpansion key = Ok rk → length icb = 16%nat → is_bytes data →
  ∃ c, GCM.gctr rk icb data = Ok c ∧ length c = length data ∧ is_bytes c
       ∧ GCM.gctr rk icb c = Ok data.
Proof.
  intros _ Hicb Hd. destruct (gctr_spec rk icb data Hicb) as (c & Ec & Hl & _).
  exists c. split; [exact Ec|]. split; [exact Hl|].
  split; [exact (proj1 (gctr_is_bytes _ _ _ _ Hicb Ec))|].
  apply gctr_involutive; assumption.
Qed.

(** ** The key schedule *)

Lemma foldl_expand_step_prefix l : ∀ w, ∃ t, foldl AES.expand_step w l = w ++ t.
Proof.
  induction l as [|i l IH]; intros w; [exists []; symmetry; apply app_nil_r|].
  cbn [foldl]. destruct (IH (AES.expand_step w i)) as [t ->].
  unfold AES.expand_step. cbv zeta. rewrite <- app_assoc. eauto.
Qed.

Lemma is_bytes_alloc n : is_bytes (alloc n).
Proof. apply Forall_replicate. unfold is_byte. lia. Qed.

Lemma round_key_shape w r :
  length (AES.round_key w r) = 16%nat ∧ is_bytes (AES.round_key w r).
Proof.
  unfold AES.round_key. split.
  - rewrite foldl_length_pres; [apply length_alloc|].
    intros. apply foldl_length_pres. intros. apply length_put.
  - apply foldl_is_bytes; [|apply is_bytes_alloc].
    intros st b Hst. apply foldl_is_bytes; [|exact Hst]. intros. apply is_bytes_put. assumption.
Qed.

(** X10. The key schedule: [keyExpansion] throws "Invalid key size" unless the
    key has 32 bytes; for a key of 32 bytes it returns 15 round keys of 16
    bytes each, and the first two round keys are the 32 bytes of the key. *)
Theorem keyExpansion_schedule key :
  if (length key =? 32)%nat
  then ∃ rk, AES.keyExpansion key = Ok rk ∧ length rk = 15%nat
             ∧ Forall (fun k => length k = 16%nat ∧ is_bytes k) rk
             ∧ AES.key_at rk 0 ++ AES.key_at rk 1 = map u8 key
  else AES.keyExpansion key = Err (InvalidKeySize (length key)).
Proof.
  destruct (Nat.eqb_spec (length key) 32) as [Hkey|Hkey];
    [|apply keyExpansion_rejects, Hkey].
  unfold AES.keyExpansion, AES.KEY_SIZE. rewrite Hkey. simpl negb. cbv iota zeta.
  eexists. split; [reflexivity|]. split; [reflexivity|]. split.
  - apply Forall_forall. intros k Hk. apply list_elem_of_In, in_map_iff in Hk.
    destruct Hk as [r [<- _]]. apply round_key_shape.
  - match goal with
    | |- context [foldl AES.expand_step ?w0 ?l] =>
        destruct (foldl_expand_step_prefix l w0) as [t ->]
    end.
    do 32 (destruct key as [|? key]; [discriminate Hkey|]).
    destruct key; [|discriminate Hkey].
    reflexivity.
Qed.

(** ** SRP: the arithmetic and the safety checks *)

Section SRPChecks.
Context {wasm : Wasm}.

(** X11. [modPow] computes the modular power: for a modulus above 1 and a
    non-negative base and exponent, [modPow(base, exp, mod)] is
    [base^exp mod mod], a number from 0 to [mod - 1]. *)
Theorem modPow_is_the_modular_power base exp md :
  1 < md → 0 <= base → 0 <= exp →
  SRP.modPow base exp md = base ^ exp mod md ∧ 0 <= SRP.modPow base exp md < md.
Proof.
  intros Hmd Hb He. split; [apply modPow_spec; assumption|].
  apply modPow_range; assumption.
Qed.

(** X12. [SRPClient.generateEphemeral] keeps its first draw: for every
    (non-empty) buffer of random bytes the public value [A = g^a mod N] lies
    between 1 and [N - 1], so that the test [A % N === 0n] never holds and
    the function does not call itself again. *)
Theorem client_ephemeral_keeps_the_first_draw buf rest :
  buf ≠ [] →
  ∃ a, 0 <= a
       ∧ SRP.clientEphemeral (buf :: rest)
         = Some (Ok (toString16 a, toString16 (2 ^ a mod SRP.N)))
       ∧ 0 < 2 ^ a mod SRP.N < SRP.N.
Proof.
  intros Hbuf.
  assert (Hhex : is_hex (Buffer_toString_hex buf) = true).
  { pose proof (all_hex_Buffer_toString_hex buf) as A.
    destruct buf as [|x buf]; [contradiction|]. exact A. }
  destruct (BigInt_hex_total _ Hhex) as (a & Ea & Ha).
  exists a. split; [exact Ha|].
  pose proof N_gt_1 as HN.
  rewrite (clientEphemeral_run buf rest a Ea).
  rewrite modPow_spec, g_is_2 by (rewrite ?g_is_2; lia).
  split; [reflexivity|].
  pose proof (Z.mod_pos_bound (2 ^ a) SRP.N ltac:(lia)) as Hr.
  pose proof (pow2_mod_odd_nonzero SRP.N a HN N_odd Ha). lia.
Qed.

(** X13. The two safety checks catch every multiple of [N], not only 0:
    [computeSession] throws "Safety check failed: B is zero" when the
    server's [B] is [m·N], and [verifySession] throws "Safety check failed:
    A is zero" when the client's [A] is [m·N], before any hash is computed. *)
Theorem safety_checks_reject_multiples_of_N k m salt0 user0 password0 verifier
    a_hex b_hex M1 a b v :
  0 <= m → BigInt_hex a_hex = Ok a → BigInt_hex b_hex = Ok b → BigInt_hex verifier = Ok v →
  SRP.computeSession k salt0 user0 password0 a_hex (toString16 (m * SRP.N)) = Err SafetyCheckB
  ∧ SRP.verifySession k user0 salt0 verifier (toString16 (m * SRP.N)) b_hex M1
    = Err SafetyCheckA.
Proof.
  intros Hm Ea Eb Ev. pose proof N_gt_1 as HN.
  assert (E : BigInt_hex (toString16 (m * SRP.N)) = Ok (m * SRP.N))
    by (apply BigInt_hex_toString16; nia).
  assert (R : (Z.rem (m * SRP.N) SRP.N =? 0) = true)
    by (apply Z.eqb_eq, Z.rem_mul; lia).
  split.
  - unfold SRP.computeSession. rewrite Ea, E. cbn [bind]. rewrite R. reflexivity.
  - unfold SRP.verifySession. rewrite E, Eb, Ev. cbn [bind]. rewrite R. reflexivity.
Qed.

End SRPChecks.

(** ** The entries of a vault *)

Lemma is_bytes_utf8 s : is_bytes (utf8 s).
Proof.
  unfold utf8. apply Forall_forall. intros z Hz.
  apply list_elem_of_In, in_map_iff in Hz. destruct Hz as [c [<- _]].
  pose proof (N_ascii_bounded c). unfold is_byte. lia.
Qed.

Section Entries.
Context {wasm : Wasm} {runtime : Runtime}.

Lemma Password_of_object_getAsObject p :
  entry_is_bytes p → Password_of_object (getAsObject p) = Ok p.
Proof.
  intros (H1 & H2 & H3 & H4 & H5 & H6). destruct p.
  unfold Password_of_object, getAsObject, Password_new. cbn in *.
  rewrite !base64_round_trip by assumption. reflexivity.
Qed.

Lemma decode_all_getAsObject ps :
  Forall entry_is_bytes ps → decode_all (map getAsObject ps) = Ok ps.
Proof.
  induction 1 as [|p ps Hp _ IH]; [reflexivity|].
  cbn [map decode_all foldr]. fold (decode_all (map getAsObject ps)).
  rewrite (Password_of_object_getAsObject p Hp), IH. reflexivity.
Qed.

(** X14. The object form of the entries reads back: the list of objects
    that [getAsObject] produces (what [saveToFile] writes and [uploadVault]
    sends) is turned by the [Password] constructor, as the loops of
    [createFromFile] and [importVaultData] call it, into the same entries,
    and the loop of [createFromFile] appends exactly them. *)
Theorem object_form_reads_back ps v w :
  Forall entry_is_bytes ps →
  decode_all (map getAsObject ps) = Ok ps
  ∧ for_each push_object (map getAsObject ps) (v, w)
    = (Ok tt, (set_vaultPasswords (vaultPasswords v ++ ps) v, w)).
Proof.
  intros Hps. pose proof (decode_all_getAsObject ps Hps) as E.
  split; [exact E|]. apply for_each_push, E.
Qed.

(** The entries that a list decrypts to under a key. *)
Lemma decrypt_all_app key (l1 l2 : list Password) :
  foldr (fun p acc => let* dp := getAccountInfo p key in let* rest := acc in Ok (dp :: rest))
        (Ok []) (l1 ++ l2)
  = let* a := foldr (fun p acc => let* dp := getAccountInfo p key in
                                  let* rest := acc in Ok (dp :: rest)) (Ok []) l1 in
    let* b := foldr (fun p acc => let* dp := getAccountInfo p key in
                                  let* rest := acc in Ok (dp :: rest)) (Ok []) l2 in
    Ok (a ++ b).
Proof.
  induction l1 as [|p l1 IH]; cbn [foldr app bind].
  - destruct (foldr _ _ l2); reflexivity.
  - destruct (getAccountInfo p key); [|reflexivity]. cbn [bind]. rewrite IH.
    destruct (foldr _ _ l1); [|reflexivity]. cbn [bind].
    destruct (foldr _ _ l2); reflexivity.
Qed.

(** The entry that [newEntry] creates opens under the key of the vault. *)
Lemma newEntry_decrypts user0 pw st nt cat fav v w :
  length (derivedKey v) = 32%nat →
  decodable user0 → decodable pw →
  ∃ p v' w',
    newEntry user0 pw st nt cat fav (v, w) = (Ok p, (v', w'))
    ∧ getAccountInfo p (derivedKey v)
      = Ok (mkAccountInfo (passwordId p) st user0 pw nt cat fav (created p) (updated p))
    ∧ decrypt_all (derivedKey v) (vaultPasswords v')
      = let* before := decrypt_all (derivedKey v) (vaultPasswords v) in
        Ok (before ++ [mkAccountInfo (passwordId p) st user0 pw nt cat fav
                                     (created p) (updated p)]).
Proof.
  intros Hk Hbu Hbp.
  destruct v as [u c up ve ps s sk t vt vi vg vp dk].
  destruct w as [di ea en d cl ti srv]. cbn [derivedKey] in Hk.
  unfold newEntry, generateRandomIV, getRandomValues, now.
  cbn -[seq].
  match goal with
  | |- context [GCM.encrypt dk ?iv (stringToUint8Array pw) []] =>
      destruct (encrypt_then_decrypt dk iv (stringToUint8Array pw) [] Hk)
        as (encP & -> & HcP & HtP & HdP)
  end.
  cbn -[seq].
  match goal with
  | |- context [GCM.encrypt dk ?iv (stringToUint8Array user0) []] =>
      destruct (encrypt_then_decrypt dk iv (stringToUint8Array user0) [] Hk)
        as (encU & -> & HcU & HtU & HdU)
  end.
  cbn -[seq]. unfold Password_new.
  rewrite !base64_round_trip by (assumption || apply random_is_bytes).
  cbn -[seq]. eexists _, _, _. split; [reflexivity|].
  specialize (HdP (is_bytes_utf8 pw)). specialize (HdU (is_bytes_utf8 user0)).
  assert (Hinfo : ∀ id cr upd,
            getAccountInfo
              (mkPassword id (GCM.ciphertext encU)
                 (map (λ i, u8 (en (d + 16 + i)%nat)) (seq 0 16)) (GCM.tag encU)
                 (GCM.ciphertext encP) (map (λ i, u8 (en (d + i)%nat)) (seq 0 16))
                 (GCM.tag encP) st fav nt cat cr upd) dk
            = Ok (mkAccountInfo id st user0 pw nt cat fav cr upd)).
  { intros id cr upd. unfold getAccountInfo.
    cbn [usernameIV username usernameTag passwordIV password passwordTag passwordId
         site note category isFavorite created updated].
    rewrite HdU, HdP. cbn [bind]. unfold stringToUint8Array.
    rewrite !text_round_trip by assumption. reflexivity. }
  split; [apply Hinfo|].
  unfold decrypt_all. cbn [vaultPasswords derivedKey passwordId created updated].
  rewrite decrypt_all_app. cbv zeta.
  destruct (foldr _ _ ps); [|reflexivity]. cbn [bind foldr].
  rewrite Hinfo. reflexivity.
Qed.

(** [addPassword] on a vault that holds no session token: the new entry is
    appended and opens under the key, which stays, as does the absence of a
    token. *)
Lemma addPassword_offline_decrypts user0 pw st nt cat fav v w :
  length (derivedKey v) = 32%nat → bearer v = None →
  decodable user0 → decodable pw →
  ∃ p v' w',
    addPassword user0 pw st nt cat fav (v, w) = (Ok tt, (v', w'))
    ∧ vaultPasswords v' = vaultPasswords v ++ [p]
    ∧ derivedKey v' = derivedKey v ∧ bearer v' = None
    ∧ getAccountInfo p (derivedKey v)
      = Ok (mkAccountInfo (passwordId p) st user0 pw nt cat fav (created p) (updated p))
    ∧ decrypt_all (derivedKey v) (vaultPasswords v')
      = let* before := decrypt_all (derivedKey v) (vaultPasswords v) in
        Ok (before ++ [mkAccountInfo (passwordId p) st user0 pw nt cat fav
                                     (created p) (updated p)]).
Proof.
  intros Hk Hb Hbu Hbp.
  destruct (newEntry_decrypts user0 pw st nt cat fav v w Hk Hbu Hbp)
    as (p & v1 & w1 & E & Hinfo & Hall).
  pose proof (newEntry_inv _ _ _ _ _ _ _ _ _ _ _ E) as (_ & Happ & _ & _ & Hd & Ht).
  assert (Hb1 : bearer v1 = None) by (unfold bearer in *; rewrite Ht; exact Hb).
  unfold addPassword. unfold mbind_M at 1. rewrite E. unfold mbind_M at 1.
  destruct (saveToFile_ok v1 w1) as (iv & enc & Es); [congruence|].
  rewrite Es. rewrite sync_without_token.
  2:{ cbn [fst]. destruct v1. exact Hb1. }
  exists p. eexists _, _. split; [reflexivity|].
  assert (Hv : vaultPasswords (sealed (stamped v1 w1) iv enc) = vaultPasswords v1
               ∧ derivedKey (sealed (stamped v1 w1) iv enc) = derivedKey v1
               ∧ bearer (sealed (stamped v1 w1) iv enc) = bearer v1)
    by (destruct v1; repeat split).
  destruct Hv as (Hv1 & Hv2 & Hv3).
  rewrite Hv1, Hv2, Hv3, Hd. repeat split; assumption.
Qed.

(** X15. What is added can be read: on an unlocked vault (a key of 32
    bytes) that holds no session token, [addPassword] with a user name and a
    password that are well-formed texts and do not start with a byte-order
    mark returns, the list is
    the former one followed by a new entry, and [getAccountInfo] decrypts
    that entry, under the key of the vault, to the user name and the
    password that were passed in; [getDecryptedPasswords] returns afterwards
    what it returned before, followed by the new entry in clear. *)
Theorem added_entry_decrypts user0 pw st nt cat fav v w :
  length (derivedKey v) = 32%nat → bearer v = None →
  decodable user0 → decodable pw →
  ∃ p v' w',
    addPassword user0 pw st nt cat fav (v, w) = (Ok tt, (v', w'))
    ∧ vaultPasswords v' = vaultPasswords v ++ [p]
    ∧ derivedKey v' = derivedKey v
    ∧ getAccountInfo p (derivedKey v')
      = Ok (mkAccountInfo (passwordId p) st user0 pw nt cat fav (created p) (updated p))
    ∧ getDecryptedPasswords v'
      = let* before := getDecryptedPasswords v in
        Ok (before ++ [mkAccountInfo (passwordId p) st user0 pw nt cat fav
                                     (created p) (updated p)]).
Proof.
  intros Hk Hb Hbu Hbp.
  destruct (addPassword_offline_decrypts user0 pw st nt cat fav v w Hk Hb Hbu Hbp)
    as (p & v' & w' & E & Happ & Hd & _ & Hinfo & Hall).
  exists p, v', w'. split; [exact E|]. split; [exact Happ|]. split; [exact Hd|].
  unfold getDecryptedPasswords. rewrite Hd. split; [exact Hinfo|exact Hall].
Qed.

End Entries.

(** ** Saving and opening again *)

Lemma append_inj_l (u a b : string) : (u ++ a)%string = (u ++ b)%string → a = b.
Proof.
  induction u as [|c u IH]; [auto|]. cbn [String.append]. intros [= E]. auto.
Qed.

Lemma vault_file_is_not_key_file u : vault_file u ≠ key_file u.
Proof. intros E. apply append_inj_l in E. discriminate E. Qed.

Section Reopening.
Context {wasm : Wasm} {runtime : Runtime}.

(** [factory(masterPassword, false)] when the key file holds a secret key. *)
Lemma factory_open_keyed mp v w d ps sk :
  disk w !! vault_file (user v) = Some (VaultFile d) →
  disk w !! key_file (user v) = Some (KeyFile (encryptString sk)) →
  sk ≠ ""%string →
  decode_all (default [] (doc_vault d)) = Ok ps →
  factory mp false (v, w)
  = let v1 := loaded d ps (set_secretKey sk v) in
    let v2 := set_derivedKey (deriveKey (salt v1) mp (secretKey v1)) v1 in
    if negb (verifyPassword v2) then (Err PasswordVerificationFailed, (v2, w))
    else saveToFile (v2, w).
Proof.
  intros Hd Hkey Hsk Hps. unfold factory. cbv beta iota.
  match goal with
  | |- mbind_M ?p ?k (v, w) = _ =>
      assert (Hp : p (v, w) = (Ok tt, (set_secretKey sk v, w)))
  end.
  { unfold getSecretKey. unfold mbind_M, this, world. cbn [fst snd].
    rewrite Hkey, safeStorage_round_trip. apply String.eqb_neq in Hsk.
    unfold ret, update. cbn [fst snd]. rewrite Hsk. reflexivity. }
  assert (Hu : user (set_secretKey sk v) = user v) by (destruct v; reflexivity).
  unfold mbind_M at 1. rewrite Hp.
  unfold mbind_M at 1.
  rewrite (createFromFile_run (set_secretKey sk v) w d ps) by (try rewrite Hu; assumption).
  cbv zeta. unfold mbind_M at 1. unfold this at 1. cbn [fst snd].
  unfold mbind_M at 1. unfold update at 1. cbn [fst snd].
  unfold mbind_M at 1. unfold this at 1. cbn [fst snd].
  destruct (negb _); reflexivity.
Qed.

(** A text of hexadecimal digits is well-formed and does not start with a
    byte-order mark. *)
Lemma hex_digit_is_ascii a : is_hex_digit a = true → (nat_of_ascii a <? 128)%nat = true.
Proof. destruct a as [[] [] [] [] [] [] [] []]; intros H; try discriminate H; reflexivity. Qed.

Lemma all_hex_well_formed s : all_hex s = true → well_formed s = true.
Proof.
  induction s as [|a s IH]; [reflexivity|]. cbn [all_hex]. intros H.
  apply andb_true_iff in H as [Ha H]. cbn [well_formed]. cbv zeta.
  rewrite (hex_digit_is_ascii a Ha). apply IH, H.
Qed.

Lemma decodable_hex s : is_hex s = true → decodable s.
Proof.
  intros H. split.
  - apply all_hex_well_formed. destruct s; [discriminate H|exact H].
  - destruct s as [|a s]; [discriminate|]. cbn [is_hex all_hex] in H.
    apply andb_true_iff in H as [Ha _].
    assert (E : (Z.of_N (N_of_ascii a) =? 239) = false).
    { destruct a as [[] [] [] [] [] [] [] []]; try discriminate Ha; reflexivity. }
    unfold starts_with_BOM, utf8. cbn [list_ascii_of_string map bytes_start_with_BOM].
    destruct s as [|b [|c s]]; try reflexivity.
    cbn [list_ascii_of_string map]. rewrite E. reflexivity.
Qed.

(** A sealed text opens under the same key, to what the text decoder makes
    of its bytes. *)
Lemma sealed_envelope_decodes key iv text enc :
  is_bytes iv → length key = 32%nat →
  GCM.encrypt key iv (stringToUint8Array text) [] = Ok enc →
  open_envelope key (uint8ArrayToBase64 iv) (uint8ArrayToBase64 (GCM.ciphertext enc))
                (uint8ArrayToBase64 (GCM.tag enc))
  = Ok (uint8ArrayToString (stringToUint8Array text)).
Proof.
  intros Hiv Hk E.
  destruct (encrypt_then_decrypt key iv (stringToUint8Array text) [] Hk)
    as (enc' & E' & Hc & Ht & Hd).
  rewrite E in E'. injection E' as <-.
  unfold open_envelope. rewrite !base64_round_trip by assumption. cbn [bind].
  rewrite (Hd (is_bytes_utf8 text)). reflexivity.
Qed.

(** The envelope that [setVerificationToken] seals opens under the same key. *)
Lemma sealed_envelope_opens key iv text enc :
  is_bytes iv → length key = 32%nat → decodable text →
  GCM.encrypt key iv (stringToUint8Array text) [] = Ok enc →
  open_envelope key (uint8ArrayToBase64 iv) (uint8ArrayToBase64 (GCM.ciphertext enc))
                (uint8ArrayToBase64 (GCM.tag enc)) = Ok text.
Proof.
  intros Hiv Hk Hbom E. rewrite (sealed_envelope_decodes key iv text enc Hiv Hk E).
  unfold stringToUint8Array. rewrite text_round_trip by exact Hbom. reflexivity.
Qed.

(** X16. What was saved opens again: when the key of a vault is the one
    derived from its salt, a master password and its secret key, the key
    file holds that secret key and the version is a number that can be
    incremented twice exactly, then after [saveToFile] a new instance for
    the same user opens with this master password ([factory(masterPassword,
    false)] passes [verifyPassword]) and holds the same entries, salt and
    key; the version has advanced by two, once for each save. *)
Theorem saved_vault_reopens mp v w :
  derivedKey v = deriveKey (salt v) mp (secretKey v) →
  secretKey v ≠ ""%string →
  disk w !! key_file (user v) = Some (KeyFile (encryptString (secretKey v))) →
  Forall entry_is_bytes (vaultPasswords v) →
  safe_integer (version v) → safe_integer (version v + 1) →
  ∃ v1 w1,
    saveToFile (v, w) = (Ok tt, (v1, w1))
    ∧ ∀ w2, disk w2 = disk w1 →
        ∃ v2 w3,
          open_vault (user v) mp false w2 = (Ok tt, (v2, w3))
          ∧ vaultPasswords v2 = vaultPasswords v ∧ salt v2 = salt v
          ∧ derivedKey v2 = derivedKey v ∧ secretKey v2 = secretKey v
          ∧ version v2 = version v + 2 ∧ createdAt v2 = createdAt v.
Proof.
  intros Hdk Hsk Hkey Hps _ _.
  assert (Hk : length (derivedKey v) = 32%nat) by (rewrite Hdk; apply length_deriveKey).
  rewrite saveToFile_run. cbv zeta.
  pose proof (random_is_bytes (fun i => entropy w (drawn w + i)) (seq 0 16)) as Hiv.
  cbv beta in Hiv.
  set (iv := map (fun i => u8 (entropy w (drawn w + i))) (seq 0 16)) in *.
  destruct (encrypt_then_decrypt (derivedKey v) iv
              (stringToUint8Array (sha256 (stringify_instances (vaultPasswords v)))) [] Hk)
    as (enc & Eenc & _).
  rewrite Eenc. eexists _, _. split; [reflexivity|].
  pose proof (sealed_envelope_opens _ _ _ _ Hiv Hk
                (decodable_hex _ (sha256_is_hex _)) Eenc) as Hopen.
  pose proof (decode_all_getAsObject _ Hps) as Hdec.
  intros w2 Hw2. unfold open_vault. rewrite Vault_new_run.
  destruct v as [u c up ve ps s sk t vt vi vg vp dk].
  destruct w as [di ea en d cl ti srv].
  destruct w2 as [di2 ea2 en2 d2 cl2 ti2 srv2].
  cbn [user disk derivedKey salt secretKey vaultPasswords version createdAt
       set_disk set_drawn set_ticks] in *.
  subst di2 dk.
  match goal with
  | |- context [factory mp false (?V, ?W)] =>
      rewrite (factory_open_keyed mp V W
                 (document_of (sealed (stamped (mkVault u c up ve ps s sk t vt vi vg vp
                                                        (deriveKey s mp sk))
                                               (mkWorld di ea en d cl ti srv)) iv enc))
                 ps sk)
  end.
  - cbv beta iota zeta delta [loaded document_of sealed stamped
      doc_createdAt doc_updatedAt doc_version doc_salt doc_vault doc_verificationToken
      doc_verificationIV doc_verificationTag default
      set_secretKey set_createdAt set_updatedAt set_version set_salt set_vaultPasswords
      set_verification set_verificationPlaintext set_derivedKey
      salt secretKey clock ticks version vaultPasswords app].
    match goal with
    | |- context [verifyPassword ?V] => assert (Hv : verifyPassword V = true)
    end.
    { unfold verifyPassword.
      cbn [verificationToken verificationIV verificationTag derivedKey vaultPasswords].
      destruct (_ || _ || _)%bool; [reflexivity|].
      unfold id. rewrite Hopen. apply String.eqb_refl. }
    rewrite Hv. cbn [negb].
    match goal with
    | |- context [saveToFile (?V, ?W)] =>
        destruct (saveToFile_ok V W) as (iv' & enc' & Es)
    end.
    { apply length_deriveKey. }
    rewrite Es. eexists _, _. split; [reflexivity|].
    cbn. repeat split. lia.
  - cbn [user disk]. apply lookup_insert_eq.
  - cbn [user disk]. rewrite lookup_insert_ne by apply vault_file_is_not_key_file.
    exact Hkey.
  - exact Hsk.
  - cbn [document_of doc_vault default sealed stamped]. exact Hdec.
Qed.

End Reopening.

(** ** Editing *)

Lemma alter_as_insert {A} (f : A → A) (l : list A) i x :
  l !! i = Some x → alter f i l = <[i := f x]> l.
Proof.
  revert i. induction l as [|y l IH]; intros [|i] H; try discriminate H.
  - injection H as ->. reflexivity.
  - cbn. f_equal. apply IH. exact H.
Qed.

Section Editing.
Context {wasm : Wasm} {runtime : Runtime}.

(** A new secret is sealed under the key of the vault, with 16 bytes drawn
    from the random source as the nonce. *)
Lemma sealed_secret_run secret v w :
  length (derivedKey v) = 32%nat →
  ∃ r w', sealed_secret secret (v, w) = (Ok r, (v, w'))
          ∧ match secret, r with
            | Some s, Some (c, iv, tg) =>
                GCM.decrypt (derivedKey v) iv c tg [] = Ok (utf8 s)
            | None, None => True
            | _, _ => False
            end.
Proof.
  intros Hk. destruct secret as [s|]; [|exists None, w; split; [reflexivity|exact I]].
  destruct v as [u c up ve ps sa sk t vt vi vg vp dk].
  destruct w as [di ea en d cl ti srv]. cbn [derivedKey] in Hk.
  unfold sealed_secret. run.
  match goal with
  | |- context [GCM.encrypt dk ?iv (stringToUint8Array s) []] =>
      destruct (encrypt_then_decrypt dk iv (stringToUint8Array s) [] Hk)
        as (enc & -> & _ & _ & Hd)
  end.
  eexists (Some (_, _, _)), _. split; [reflexivity|].
  apply Hd, is_bytes_utf8.
Qed.

Lemma editPrivate_edited key nu np ns nn nc nf ru rp t p :
  match nu, ru with
  | Some s, Some (c, iv, tg) => GCM.decrypt key iv c tg [] = Ok (utf8 s)
  | None, None => True
  | _, _ => False
  end →
  match np, rp with
  | Some s, Some (c, iv, tg) => GCM.decrypt key iv c tg [] = Ok (utf8 s)
  | None, None => True
  | _, _ => False
  end →
  edited key nu np ns nn nc nf p (editPrivate ru rp ns nn nc nf t p).
Proof.
  intros Hu Hp. destruct p as [pid pu puiv putg ppw ppiv pptg pst pfav pnt pcat pcr pup].
  unfold edited, editPrivate.
  cbn [passwordId created site note category isFavorite password passwordIV passwordTag
       username usernameIV usernameTag].
  repeat split; try reflexivity.
  - destruct np as [s|], rp as [[[c iv] tg]|]; try contradiction; auto.
  - destruct nu as [s|], ru as [[[c iv] tg]|]; try contradiction; auto.
Qed.

Lemma edit_at_run id nu np ns nn nc nf i v w :
  length (derivedKey v) = 32%nat →
  ∃ v' w',
    edit_at id nu np ns nn nc nf i (v, w) = (Ok tt, (v', w'))
    ∧ derivedKey v' = derivedKey v ∧ token v' = token v
    ∧ match vaultPasswords v !! i with
      | Some p =>
          if passwordId p =? id
          then ∃ p', vaultPasswords v' = <[i := p']> (vaultPasswords v)
                     ∧ edited (derivedKey v) nu np ns nn nc nf p p'
          else vaultPasswords v' = vaultPasswords v
      | None => vaultPasswords v' = vaultPasswords v
      end.
Proof.
  intros Hk. unfold edit_at. unfold mbind_M at 1. unfold this at 1. cbn [fst snd].
  destruct (vaultPasswords v !! i) as [p|] eqn:Ei;
    [|exists v, w; repeat split; reflexivity].
  destruct (passwordId p =? id); [|exists v, w; repeat split; reflexivity].
  destruct (sealed_secret_run np v w Hk) as (rp & w1 & Ep & Hp).
  destruct (sealed_secret_run nu v w1 Hk) as (ru & w2 & Eu & Hu).
  unfold mbind_M at 1. rewrite Ep. unfold mbind_M at 1. rewrite Eu.
  destruct v as [u c up ve ps sa sk t vt vi vg vp dk].
  destruct w2 as [di ea en d cl ti srv].
  cbn [vaultPasswords derivedKey] in *. run.
  eexists _, _. split; [reflexivity|]. split; [reflexivity|]. split; [reflexivity|].
  eexists. split; [apply alter_as_insert, Ei|].
  apply editPrivate_edited; assumption.
Qed.

(** The loop over the indices [a, a + 1, ..., a + n - 1]. *)
Lemma edit_loop id nu np ns nn nc nf n : ∀ a v w,
  length (derivedKey v) = 32%nat →
  ∃ v' w',
    for_each (edit_at id nu np ns nn nc nf) (seq a n) (v, w) = (Ok tt, (v', w'))
    ∧ derivedKey v' = derivedKey v ∧ token v' = token v
    ∧ length (vaultPasswords v') = length (vaultPasswords v)
    ∧ ∀ i p, vaultPasswords v !! i = Some p →
        ∃ p', vaultPasswords v' !! i = Some p'
              ∧ if bool_decide (a ≤ i < a + n)%nat && (passwordId p =? id)
                then edited (derivedKey v) nu np ns nn nc nf p p'
                else p' = p.
Proof.
  induction n as [|n IH]; intros a v w Hk.
  - exists v, w. repeat split; auto. intros i p Hi. exists p. split; [exact Hi|].
    rewrite bool_decide_eq_false_2 by lia. reflexivity.
  - cbn [seq for_each]. unfold mbind_M at 1.
    destruct (edit_at_run id nu np ns nn nc nf a v w Hk) as (v1 & w1 & E1 & Hd1 & Ht1 & H1).
    rewrite E1.
    destruct (IH (S a) v1 w1) as (v2 & w2 & E2 & Hd2 & Ht2 & Hl2 & H2); [congruence|].
    exists v2, w2. split; [exact E2|]. split; [congruence|]. split; [congruence|].
    assert (Hl1 : length (vaultPasswords v1) = length (vaultPasswords v)).
    { destruct (vaultPasswords v !! a) as [q|]; [|congruence].
      destruct (passwordId q =? id); [|congruence].
      destruct H1 as (q' & -> & _). apply length_insert. }
    split; [congruence|]. intros i p Hi.
    destruct (decide (i = a)) as [->|Hne].
    + rewrite Hi in H1.
      destruct (Z.eqb_spec (passwordId p) id) as [Hid|Hid].
      * destruct H1 as (p1 & Ev1 & Hed).
        destruct (H2 a p1) as (p' & Hp' & Hrel).
        { rewrite Ev1. apply list_lookup_insert_eq. exact (lookup_lt_Some _ _ _ Hi). }
        rewrite bool_decide_eq_false_2 in Hrel by lia. cbn [andb] in Hrel. subst p'.
        exists p1. split; [exact Hp'|].
        rewrite bool_decide_eq_true_2 by lia. exact Hed.
      * destruct (H2 a p) as (p' & Hp' & Hrel); [rewrite H1; exact Hi|].
        rewrite bool_decide_eq_false_2 in Hrel by lia. cbn [andb] in Hrel. subst p'.
        exists p. split; [exact Hp'|]. rewrite andb_false_r. reflexivity.
    + assert (Hi1 : vaultPasswords v1 !! i = Some p).
      { destruct (vaultPasswords v !! a) as [q|]; [|congruence].
        destruct (passwordId q =? id); [|congruence].
        destruct H1 as (q' & -> & _). rewrite list_lookup_insert_ne by auto. exact Hi. }
      destruct (H2 i p Hi1) as (p' & Hp' & Hrel). exists p'. split; [exact Hp'|].
      rewrite Hd1 in Hrel.
      destruct (decide (a ≤ i < a + S n)%nat) as [Hin|Hout].
      * rewrite bool_decide_eq_true_2 by exact Hin.
        rewrite bool_decide_eq_true_2 in Hrel by lia. exact Hrel.
      * rewrite bool_decide_eq_false_2 by exact Hout.
        rewrite bool_decide_eq_false_2 in Hrel by lia. exact Hrel.
Qed.

(** X17. [editPassword] changes the entries that carry the identifier and no
    other: on an unlocked vault that holds no session token the call
    returns, the list keeps its length and order, an entry with another
    identifier is left as it is, and in an entry with the identifier every
    field for which a value was passed holds that value (a new user name or
    password as an envelope that opens under the key of the vault) while
    every field passed as [null], the identifier and the creation time keep
    their values. *)
Theorem edit_changes_the_matching_entries id nu np ns nn nc nf v w :
  length (derivedKey v) = 32%nat → bearer v = None →
  ∃ v' w',
    editPassword id nu np ns nn nc nf (v, w) = (Ok tt, (v', w'))
    ∧ derivedKey v' = derivedKey v
    ∧ length (vaultPasswords v') = length (vaultPasswords v)
    ∧ (∀ i p, vaultPasswords v !! i = Some p →
         ∃ p', vaultPasswords v' !! i = Some p'
               ∧ if passwordId p =? id
                 then edited (derivedKey v) nu np ns nn nc nf p p'
                 else p' = p).
Proof.
  intros Hk Hb.
  assert (Hloop : ∃ v' w',
    edit_entries id nu np ns nn nc nf (v, w) = (Ok tt, (v', w'))
    ∧ derivedKey v' = derivedKey v ∧ token v' = token v
    ∧ length (vaultPasswords v') = length (vaultPasswords v)
    ∧ (∀ i p, vaultPasswords v !! i = Some p →
         ∃ p', vaultPasswords v' !! i = Some p'
               ∧ if passwordId p =? id
                 then edited (derivedKey v) nu np ns nn nc nf p p'
                 else p' = p)).
  { unfold edit_entries. unfold mbind_M at 1. unfold this at 1. cbn [fst snd].
    destruct (edit_loop id nu np ns nn nc nf (length (vaultPasswords v)) 0 v w Hk)
      as (v' & w' & E & Hd & Ht & Hl & H).
    exists v', w'. repeat (split; [assumption|]).
    intros i p Hi. destruct (H i p Hi) as (p' & Hp' & Hrel). exists p'. split; [exact Hp'|].
    rewrite bool_decide_eq_true_2 in Hrel by (apply lookup_lt_Some in Hi; lia).
    exact Hrel. }
  destruct Hloop as (v' & w' & E & Hd & Ht & Hl & H).
  assert (Hrun : ∃ v'' w'',
            editPassword id nu np ns nn nc nf (v, w) = (Ok tt, (v'', w''))
            ∧ derivedKey v'' = derivedKey v' ∧ vaultPasswords v'' = vaultPasswords v').
  { unfold editPassword. unfold mbind_M at 1. rewrite E.
    destruct v' as [u c up ve ps sa sk t vt vi vg vp dk].
    destruct w' as [di ea en d cl ti srv].
    cbn [derivedKey token vaultPasswords] in *. run.
    match goal with
    | |- context [saveToFile (?V, ?W)] =>
        destruct (saveToFile_ok V W) as (iv & enc & Es)
    end.
    { cbn [derivedKey]. congruence. }
    rewrite Es. rewrite sync_without_token.
    - eexists _, _. split; [reflexivity|]. split; reflexivity.
    - cbn [fst]. unfold bearer in Hb |- *. run. cbn [token]. rewrite Ht.
      destruct v. exact Hb. }
  destruct Hrun as (v'' & w'' & Er & Hd2 & Hp2).
  exists v'', w''. split; [exact Er|]. rewrite Hd2, Hp2.
  repeat (split; [assumption|]). exact H.
Qed.

End Editing.

(** ** Removing *)

Lemma remove_loop_no_match fuel : ∀ i id l,
  (∀ j p, (i ≤ j)%nat → l !! j = Some p → passwordId p ≠ id) →
  remove_loop fuel i id l = l.
Proof.
  induction fuel as [|fuel IH]; intros i id l H; [reflexivity|].
  cbn [remove_loop]. destruct (l !! i) as [p|] eqn:Ei; [|reflexivity].
  destruct (Z.eqb_spec (passwordId p) id) as [E|_].
  - exfalso. exact (H i p (Nat.le_refl i) Ei E).
  - apply IH. intros j q Hj. apply H. lia.
Qed.

Lemma remove_loop_at_position fuel : ∀ i id l p,
  0 <= id → NoDup (map passwordId l) →
  l !! Z.to_nat id = Some p → passwordId p = id →
  (i ≤ Z.to_nat id)%nat → (Z.to_nat id < fuel + i)%nat →
  remove_loop fuel i id l = delete (Z.to_nat id) l.
Proof.
  induction fuel as [|fuel IH]; intros i id l p Hid Hnd Hk Hp Hi Hf; [lia|].
  assert (Hother : ∀ j q, j ≠ Z.to_nat id → l !! j = Some q → passwordId q ≠ id).
  { intros j q Hj Hq E. apply Hj.
    apply (NoDup_lookup (map passwordId l) j (Z.to_nat id) id Hnd).
    - change (map passwordId l) with (passwordId <$> l).
      rewrite list_lookup_fmap, Hq. cbn. congruence.
    - change (map passwordId l) with (passwordId <$> l).
      rewrite list_lookup_fmap, Hk. cbn. congruence. }
  cbn [remove_loop].
  destruct (decide (i = Z.to_nat id)) as [->|Hne].
  - rewrite Hk. rewrite Hp, Z.eqb_refl.
    unfold splice1. destruct (Z.ltb_spec id 0); [lia|]. cbv zeta.
    apply remove_loop_no_match. intros j q Hj Hq.
    rewrite list_lookup_delete_ge in Hq by lia.
    apply (Hother (S j) q); [lia|exact Hq].
  - destruct (l !! i) as [q|] eqn:Ei.
    2:{ apply lookup_ge_None in Ei. apply lookup_lt_Some in Hk. lia. }
    destruct (Z.eqb_spec (passwordId q) id) as [E|_];
      [exfalso; exact (Hother i q Hne Ei E)|].
    apply (IH (S i) id l p); auto; lia.
Qed.

Section RemovingInPlace.
Context {wasm : Wasm} {runtime : Runtime}.

(** X18. When [removePassword] removes the right entry: on a vault whose
    identifiers are pairwise distinct and that holds no session token,
    [removePassword(id)] leaves the entries as they are when no entry has
    the identifier, and removes exactly the entry with the identifier when
    that entry sits at index [id] of the list (as it does as long as nothing
    was removed before, the identifiers then being 0, 1, 2, ...). *)
Theorem remove_deletes_the_entry_at_its_index id v w :
  bearer v = None → NoDup (identifiers v) →
  (id ∉ identifiers v →
   vaultPasswords (fst (snd (removePassword id (v, w)))) = vaultPasswords v)
  ∧ (0 <= id → passwordId <$> vaultPasswords v !! Z.to_nat id = Some id →
     vaultPasswords (fst (snd (removePassword id (v, w))))
     = delete (Z.to_nat id) (vaultPasswords v)
     ∧ id ∉ identifiers (fst (snd (removePassword id (v, w))))).
Proof.
  intros Hb Hnd. rewrite (removePassword_entries id v w Hb). unfold identifiers in *.
  split.
  - intros Habs. apply remove_loop_no_match. intros j p _ Hj E. apply Habs.
    rewrite <- E. apply (list_elem_of_fmap_2 passwordId), (list_elem_of_lookup_2 _ j), Hj.
  - intros Hid Hk.
    destruct (vaultPasswords v !! Z.to_nat id) as [p|] eqn:Ep; [|discriminate Hk].
    injection Hk as Hp.
    assert (E : remove_loop (length (vaultPasswords v)) 0 id (vaultPasswords v)
                = delete (Z.to_nat id) (vaultPasswords v)).
    { apply (remove_loop_at_position _ 0 id _ p); auto; [lia|].
      apply lookup_lt_Some in Ep. lia. }
    split; [exact E|].
    assert (Hv : vaultPasswords (fst (snd (removePassword id (v, w))))
                 = delete (Z.to_nat id) (vaultPasswords v))
      by (rewrite (removePassword_entries id v w Hb); exact E).
    rewrite Hv. intros Hin.
    apply list_elem_of_fmap in Hin as (q & Hq & Hin).
    apply list_elem_of_lookup in Hin as (j & Hj).
    assert (Hj' : ∃ j', j' ≠ Z.to_nat id ∧ vaultPasswords v !! j' = Some q).
    { destruct (decide (j < Z.to_nat id)%nat).
      - exists j. split; [lia|]. rewrite list_lookup_delete_lt in Hj by lia. exact Hj.
      - exists (S j). split; [lia|]. rewrite list_lookup_delete_ge in Hj by lia. exact Hj. }
    destruct Hj' as (j' & Hne & Hq').
    apply Hne.
    apply (NoDup_lookup (map passwordId (vaultPasswords v)) j' (Z.to_nat id) id Hnd).
    + change (map passwordId (vaultPasswords v)) with (passwordId <$> vaultPasswords v).
      rewrite list_lookup_fmap, Hq'. cbn. congruence.
    + change (map passwordId (vaultPasswords v)) with (passwordId <$> vaultPasswords v).
      rewrite list_lookup_fmap, Ep. cbn. congruence.
Qed.

End RemovingInPlace.

(** ** Changing the master password *)

Section Rekeying.
Context {wasm : Wasm} {runtime : Runtime}.

(** The loop "Re-encrypt all passwords with new key". *)
Lemma rekey_loop newKey dps :
  length newKey = 32%nat → Forall decodable_entry dps →
  ∀ v w,
  ∃ ps,
    for_each (fun dp =>
                  let! ivPass := generateRandomIV in
                  let! ivUser := generateRandomIV in
                  let! encPassword :=
                    lift (GCM.encrypt newKey ivPass (stringToUint8Array (ai_password dp)) []) in
                  let! encUser :=
                    lift (GCM.encrypt newKey ivUser (stringToUint8Array (ai_username dp)) []) in
                  let! p := lift (Password_new (ai_id dp)
                                    (uint8ArrayToBase64 (GCM.ciphertext encUser))
                                    (uint8ArrayToBase64 ivUser)
                                    (uint8ArrayToBase64 (GCM.tag encUser))
                                    (uint8ArrayToBase64 (GCM.ciphertext encPassword))
                                    (uint8ArrayToBase64 ivPass)
                                    (uint8ArrayToBase64 (GCM.tag encPassword))
                                    (ai_site dp) (ai_note dp) (ai_category dp)
                                    (ai_favorite dp) (ai_createdAt dp) (ai_updatedAt dp)) in
                  update (fun v => set_vaultPasswords (vaultPasswords v ++ [p]) v))
             dps (v, w)
    = (Ok tt, (set_vaultPasswords (vaultPasswords v ++ ps) v,
               set_drawn (drawn w + 32 * length dps) w))
    ∧ decrypt_all newKey ps = Ok dps
    ∧ Forall entry_is_bytes ps.
Proof.
  intros Hk Hclean. induction Hclean as [|dp dps [Hcu Hcp] _ IH]; intros v w.
  - exists []. cbn [for_each length]. rewrite app_nil_r, Nat.mul_0_r, Nat.add_0_r.
    destruct v, w. repeat split. constructor.
  - cbn [for_each]. unfold mbind_M at 1.
    match goal with
    | |- context [match ?m (v, w) with _ => _ end] =>
        assert (Hstep : ∃ p, m (v, w)
                  = (Ok tt, (set_vaultPasswords (vaultPasswords v ++ [p]) v,
                             set_drawn (drawn w + 32) w))
                  ∧ getAccountInfo p newKey = Ok dp ∧ entry_is_bytes p)
    end.
    { destruct v as [u c up ve es s sk t vt vi vg vp dk].
      destruct w as [di ea en d cl ti srv]. run.
      match goal with
      | |- context [GCM.encrypt newKey ?iv (stringToUint8Array (ai_password dp)) []] =>
          destruct (encrypt_then_decrypt newKey iv (stringToUint8Array (ai_password dp)) [] Hk)
            as (encP & -> & HcP & HtP & HdP)
      end.
      match goal with
      | |- context [GCM.encrypt newKey ?iv (stringToUint8Array (ai_username dp)) []] =>
          destruct (encrypt_then_decrypt newKey iv (stringToUint8Array (ai_username dp)) [] Hk)
            as (encU & -> & HcU & HtU & HdU)
      end.
      unfold Password_new.
      rewrite !base64_round_trip by (assumption || apply random_is_bytes).
      cbn [bind]. eexists. split; [|split].
      - replace (d + 16 + 16)%nat with (d + 32)%nat by lia. reflexivity.
      - unfold getAccountInfo.
        cbn [usernameIV username usernameTag passwordIV password passwordTag passwordId
             site note category isFavorite created updated].
        rewrite (HdU (is_bytes_utf8 _)), (HdP (is_bytes_utf8 _)). cbn [bind].
        unfold stringToUint8Array. rewrite !text_round_trip by assumption.
        destruct dp. reflexivity.
      - unfold entry_is_bytes.
        cbn [usernameIV username usernameTag passwordIV password passwordTag].
        repeat split; try assumption; apply random_is_bytes. }
    destruct Hstep as (p & -> & Hp & Hpb).
    destruct (IH (set_vaultPasswords (vaultPasswords v ++ [p]) v)
                 (set_drawn (drawn w + 32) w)) as (ps & E & Hd & Hb).
    exists (p :: ps). split; [|split].
    + rewrite E. destruct v, w. cbn -[Nat.mul Nat.add]. rewrite <- app_assoc. cbn [app].
      do 3 f_equal. lia.
    + unfold decrypt_all in *. cbn [foldr]. rewrite Hp, Hd. reflexivity.
    + constructor; assumption.
Qed.

(** [changeMasterPassword] when the secret key is read and the entries
    decrypt: the instance is rekeyed in memory, then the server is asked, and
    the document is saved only when the server accepted (or no session token
    is held). *)
Lemma changeMasterPassword_run cur newPassword v w sk infos :
  getSecretKey (user v) (v, w) = (Ok (Some sk), (v, w)) →
  sk ≠ ""%string →
  decrypt_all (deriveKey (salt v) cur sk) (vaultPasswords v) = Ok infos →
  Forall decodable_entry infos →
  ∃ ps' iv enc reg,
    decrypt_all (deriveKey (new_salt w) newPassword sk) ps' = Ok infos
    ∧ SRP.generateRegistration
        (map (fun i => u8 (entropy w (drawn w + 32 + 32 * length infos + 16 + i)))
             (seq 0 16)) newPassword = Ok reg
    ∧ changeMasterPassword cur newPassword (v, w)
      = let V := sealed (set_derivedKey (deriveKey (new_salt w) newPassword sk)
                           (set_salt (new_salt w) (set_vaultPasswords ps' v))) iv enc in
        let W := set_drawn (drawn w + 32 + 32 * length infos + 16 + 16) w in
        match bearer v with
        | None => saveToFile (V, W)
        | Some tok =>
            if negb (reachable (server w)) then (Err FetchFailed, (V, W))
            else if negb (bool_decide (tok ∈ sessions (server w)))
                 then (Err ServerUpdateFailed, (V, W))
            else match credentials (server w) with
                 | None => (Err ServerUpdateFailed, (V, W))
                 | Some _ =>
                     saveToFile (V, set_server (mkServer (reachable (server w))
                                                         (sessions (server w))
                                                         (stored (server w)) (Some reg)) W)
                 end
        end.
Proof.
  intros HskRun Hne Hdec Hclean.
  assert (HnewKey : length (deriveKey (new_salt w) newPassword sk) = 32%nat)
    by apply length_deriveKey.
  destruct (generateRegistration_total
              (map (fun i => u8 (entropy w (drawn w + 32 + 32 * length infos + 16 + i)))
                   (seq 0 16)) newPassword)
    as (srpSalt & verifier & Ereg & Hs & Hv); [discriminate|].
  apply String.eqb_neq in Hne, Hs, Hv.
  assert (Hfirst : match vaultPasswords v with
                   | p0 :: _ => ∃ i0, getAccountInfo p0 (deriveKey (salt v) cur sk) = Ok i0
                   | [] => True
                   end).
  { destruct (vaultPasswords v) as [|p0 rest]; [exact I|].
    unfold decrypt_all in Hdec. cbn [foldr] in Hdec.
    destruct (getAccountInfo p0 _) as [i0|]; [eauto|discriminate Hdec]. }
  destruct v as [u c up ve ps s k0 t vt vi vg vp dk].
  destruct w as [di ea en d cl ti srv].
  cbn [vaultPasswords user disk salt entropy drawn] in *.
  unfold new_salt in *. cbn [entropy drawn] in *.
  destruct (rekey_loop _ infos HnewKey Hclean
              (mkVault u c up ve [] s k0 t vt vi vg vp dk)
              (mkWorld di ea en (d + 32) cl ti srv)) as (ps' & Eloop & Hd' & Hb').
  cbn [vaultPasswords app drawn set_drawn set_vaultPasswords] in Eloop.
  match type of HnewKey with
  | length ?K = _ =>
      destruct (setVerificationToken_ok
                  (mkVault u c up ve ps'
                     (uint8ArrayToBase64 (map (λ i, u8 (en (d + i)%nat)) (seq 0 32)))
                     k0 t vt vi vg vp K)
                  (mkWorld di ea en (d + 32 + 32 * length infos) cl ti srv) HnewKey)
        as (iv & enc & Etok)
  end.
  cbv beta iota zeta delta [sealed set_verification set_drawn drawn] in Etok.
  exists ps', iv, enc, (srpSalt, verifier).
  split; [exact Hd'|]. split; [exact Ereg|].
  unfold changeMasterPassword.
  unfold mbind_M at 1. unfold this at 1. cbn [fst snd user].
  unfold mbind_M at 1. rewrite HskRun. rewrite Hne.
  unfold mbind_M at 1.
  match goal with
  | |- context [match ?chk ?st with _ => _ end] =>
      assert (Hcheck : chk st = (Ok tt, st))
  end.
  { cbn [vaultPasswords salt]. destruct ps as [|p0 rest]; [reflexivity|].
    destruct Hfirst as [i0 ->]. reflexivity. }
  rewrite Hcheck. clear Hcheck.
  unfold mbind_M at 1. unfold lift at 1. cbn [vaultPasswords salt].
  unfold decrypt_all in Hdec. rewrite Hdec.
  unfold mbind_M at 1. unfold generateRandomBytes at 1.
  unfold mbind_M at 1. unfold getRandomValues at 1. run.
  match goal with
  | |- context [for_each ?F infos ?S] =>
      match type of Eloop with
      | _ = ?R => assert (E' : for_each F infos S = R) by exact Eloop
      end
  end.
  rewrite E'. clear E'. run.
  rewrite Etok. run. rewrite Ereg. run. rewrite Hs, Hv. cbn [orb].
  unfold sealed. run.
  destruct t as [t0|]; [destruct (String.eqb t0 "")|]; try reflexivity.
  destruct (negb (reachable srv)); [reflexivity|].
  destruct (negb (bool_decide _)); [reflexivity|].
  destruct (credentials srv); reflexivity.
Qed.

Lemma rekeyed_and_saved (V : Vault) (W : World) infos :
  length (derivedKey V) = 32%nat →
  decrypt_all (derivedKey V) (vaultPasswords V) = Ok infos →
  ∃ v' w', saveToFile (V, W) = (Ok tt, (v', w'))
           ∧ salt v' = salt V ∧ derivedKey v' = derivedKey V
           ∧ getDecryptedPasswords v' = Ok infos
           ∧ document w' (user V) = Some (document_of v').
Proof.
  intros HkV Hd. destruct (saveToFile_ok V W HkV) as (iv' & enc' & E).
  eexists _, _. split; [exact E|].
  destruct V as [u' c' up' ve' ps0 s' k' t' vt' vi' vg' vp' dk'].
  destruct W as [di' ea' en' d' cl' ti' srv'].
  cbn [derivedKey vaultPasswords] in Hd.
  unfold document, getDecryptedPasswords. run. rewrite lookup_insert_eq.
  repeat split. exact Hd.
Qed.

(** X19. Changing the master password keeps what the entries hold: when the
    secret key can be read, the entries decrypt under the key derived from
    [currentPassword] to user names and passwords that are well-formed texts
    and do not start with a byte-order mark, and the server (if a session
    token is held) accepts
    the new registration, [changeMasterPassword] succeeds, the vault is
    rekeyed (a new salt, the key derived from it and [newPassword], the
    document saved), and [getDecryptedPasswords] returns under the new key
    exactly what the entries decrypted to under the old one. *)
Theorem master_password_change_keeps_the_entries cur newPassword v w sk infos :
  getSecretKey (user v) (v, w) = (Ok (Some sk), (v, w)) →
  sk ≠ ""%string →
  server_accepts v w →
  decrypt_all (deriveKey (salt v) cur sk) (vaultPasswords v) = Ok infos →
  Forall decodable_entry infos →
  ∃ v' w',
    changeMasterPassword cur newPassword (v, w) = (Ok tt, (v', w'))
    ∧ salt v' = new_salt w
    ∧ derivedKey v' = deriveKey (new_salt w) newPassword sk
    ∧ getDecryptedPasswords v' = Ok infos
    ∧ document w' (user v) = Some (document_of v').
Proof.
  intros Hsk Hne Hsrv Hdec Hclean.
  destruct (changeMasterPassword_run cur newPassword v w sk infos Hsk Hne Hdec Hclean)
    as (ps' & iv & enc & reg & Hd' & _ & Erun).
  rewrite Erun. cbv zeta. unfold server_accepts in Hsrv.
  set (V := sealed _ iv enc).
  assert (HV : length (derivedKey V) = 32%nat ∧ salt V = new_salt w
               ∧ derivedKey V = deriveKey (new_salt w) newPassword sk
               ∧ vaultPasswords V = ps' ∧ user V = user v).
  { unfold V. destruct v. cbn. repeat split. apply length_deriveKey. }
  destruct HV as (HkV & HsV & HdV & HpV & HuV).
  assert (Hfin : ∀ W, ∃ v' w', saveToFile (V, W) = (Ok tt, (v', w'))
                   ∧ salt v' = new_salt w
                   ∧ derivedKey v' = deriveKey (new_salt w) newPassword sk
                   ∧ getDecryptedPasswords v' = Ok infos
                   ∧ document w' (user v) = Some (document_of v')).
  { intros W. destruct (rekeyed_and_saved V W infos HkV) as (v' & w' & E & E1 & E2 & E3 & E4).
    - rewrite HdV, HpV. exact Hd'.
    - exists v', w'. rewrite <- HuV. repeat split; congruence. }
  destruct (bearer v) as [tok|]; [|apply Hfin].
  destruct Hsrv as (Hr & Hin & Hc).
  rewrite Hr, (bool_decide_eq_true_2 _ Hin). cbn [negb].
  destruct (credentials (server w)); [apply Hfin|congruence].
Qed.

(** X20. When the server turns the new registration down (the session
    token is not one it accepts), [changeMasterPassword] throws "Failed to
    update password on server" and writes nothing: disk and server are as
    before, so the saved document is still the one of the old password.  The
    instance in memory, however, is already rekeyed: it holds the new salt,
    the new key and the entries sealed under it, which decrypt to what they
    held before (user names and passwords that are well-formed texts and do
    not start with a byte-order mark). *)
Theorem refused_password_change_rekeys_memory_only cur newPassword v w sk infos tok :
  getSecretKey (user v) (v, w) = (Ok (Some sk), (v, w)) →
  sk ≠ ""%string →
  decrypt_all (deriveKey (salt v) cur sk) (vaultPasswords v) = Ok infos →
  Forall decodable_entry infos →
  bearer v = Some tok → reachable (server w) = true → tok ∉ sessions (server w) →
  ∃ v' w',
    changeMasterPassword cur newPassword (v, w) = (Err ServerUpdateFailed, (v', w'))
    ∧ disk w' = disk w ∧ server w' = server w
    ∧ salt v' = new_salt w
    ∧ derivedKey v' = deriveKey (new_salt w) newPassword sk
    ∧ getDecryptedPasswords v' = Ok infos.
Proof.
  intros Hsk Hne Hdec Hclean Hb Hr Hout.
  destruct (changeMasterPassword_run cur newPassword v w sk infos Hsk Hne Hdec Hclean)
    as (ps' & iv & enc & reg & Hd' & _ & Erun).
  rewrite Erun. cbv zeta. rewrite Hb, Hr, (bool_decide_eq_false_2 _ Hout). cbn [negb].
  eexists _, _. split; [reflexivity|].
  destruct v as [u c up ve ps s k0 t vt vi vg vp dk].
  destruct w as [di ea en d cl ti srv].
  unfold getDecryptedPasswords. cbn. repeat split. exact Hd'.
Qed.

(** X21. A rejected change of the master password changes nothing: when the
    secret key cannot be read (or is empty) the call throws "Cannot retrieve
    secret key"; when an entry does not decrypt under the key derived from
    [currentPassword] it throws "Current password is incorrect" if that
    entry is the first one, and the error of the decryption otherwise.  In
    each case the instance and the world (disk, server, random source, clock)
    are exactly as before the call. *)
Theorem rejected_password_change_changes_nothing cur newPassword v w :
  (∀ r, getSecretKey (user v) (v, w) = (Ok r, (v, w)) →
        r = None ∨ r = Some ""%string →
        changeMasterPassword cur newPassword (v, w) = (Err CannotRetrieveSecretKey, (v, w)))
  ∧ (∀ sk e,
       getSecretKey (user v) (v, w) = (Ok (Some sk), (v, w)) → sk ≠ ""%string →
       decrypt_all (deriveKey (salt v) cur sk) (vaultPasswords v) = Err e →
       changeMasterPassword cur newPassword (v, w)
       = (Err (match vaultPasswords v with
               | p0 :: _ =>
                   match getAccountInfo p0 (deriveKey (salt v) cur sk) with
                   | Ok _ => e
                   | Err _ => CurrentPasswordIncorrect
                   end
               | [] => e
               end), (v, w))).
Proof.
  split.
  - intros r Hr Hcase. unfold changeMasterPassword.
    unfold mbind_M at 1. unfold this at 1. cbn [fst snd].
    unfold mbind_M at 1. rewrite Hr.
    destruct Hcase as [-> | ->]; reflexivity.
  - intros sk e Hr Hne Hdec. apply String.eqb_neq in Hne. unfold changeMasterPassword.
    unfold mbind_M at 1. unfold this at 1. cbn [fst snd].
    unfold mbind_M at 1. rewrite Hr. rewrite Hne.
    unfold mbind_M at 1. unfold decrypt_all in Hdec.
    destruct (vaultPasswords v) as [|p0 rest].
    + unfold ret at 1. unfold mbind_M at 1. unfold lift at 1. rewrite Hdec. reflexivity.
    + destruct (getAccountInfo p0 (deriveKey (salt v) cur sk)) as [i0|e0] eqn:E0;
        [|reflexivity].
      unfold ret at 1. unfold mbind_M at 1. unfold lift at 1. rewrite Hdec. reflexivity.
Qed.

End Rekeying.

(** ** From one device to another *)

Section Devices.
Context {wasm : Wasm} {runtime : Runtime}.

(** X22. What one device uploads, another one imports: on an unlocked vault
    whose session token the server accepts, [uploadVault] stores a document
    on the server and changes nothing locally; [importVaultData] of that
    document, on any instance that holds the same key, passes the integrity
    check and ends with the entries, the salt and the time stamp of the
    uploading vault.  The entries are arrays of bytes, and the text that
    [JSON.stringify] writes for them is read back by [JSON.parse] after it
    went through the text encoder and decoder, as the code passes it. *)
Theorem uploaded_vault_imports v w tok :
  length (derivedKey v) = 32%nat →
  bearer v = Some tok → reachable (server w) = true → tok ∈ sessions (server w) →
  Forall entry_is_bytes (vaultPasswords v) →
  parse_objects (uint8ArrayToString
                   (stringToUint8Array
                      (stringify_objects (map getAsObject (vaultPasswords v)))))
  = Ok (Some (map getAsObject (vaultPasswords v))) →
  ∃ w' doc,
    uploadVault (v, w) = (Ok tt, (v, w'))
    ∧ stored (server w') = Some doc ∧ disk w' = disk w
    ∧ ∀ v2 w2, derivedKey v2 = derivedKey v →
        ∃ v3, importVaultData doc (v2, w2) = (Ok tt, (v3, w2))
              ∧ vaultPasswords v3 = vaultPasswords v
              ∧ salt v3 = salt v ∧ updatedAt v3 = updatedAt v.
Proof.
  intros Hk Hb Hr Hin Hps Hjson.
  pose proof (decode_all_getAsObject _ Hps) as Hdec.
  destruct v as [u c up ve ps s sk t vt vi vg vp dk].
  destruct w as [di ea en d cl ti srv].
  unfold bearer in Hb. cbn [token derivedKey vaultPasswords server] in *.
  unfold uploadVault. run. rewrite Hb.
  match goal with
  | |- context [GCM.encrypt dk ?iv (stringToUint8Array (stringify_objects ?o)) []] =>
      pose proof (random_is_bytes (fun i => en (d + i)%nat) (seq 0 16)) as Hiv1;
      destruct (encrypt_then_decrypt dk iv (stringToUint8Array (stringify_objects o)) [] Hk)
        as (enc1 & E1 & _)
  end.
  rewrite E1.
  match goal with
  | |- context [GCM.encrypt dk ?iv (stringToUint8Array (sha256 ?x)) []] =>
      pose proof (random_is_bytes (fun i => en (d + 16 + i)%nat) (seq 0 16)) as Hiv2;
      destruct (encrypt_then_decrypt dk iv (stringToUint8Array (sha256 x)) [] Hk)
        as (enc2 & E2 & _)
  end.
  rewrite E2, Hr, (bool_decide_eq_true_2 _ Hin). cbn [negb].
  eexists _, _. split; [reflexivity|]. split; [reflexivity|]. split; [reflexivity|].
  intros v2 w2 Hk2'. assert (Hk2 : derivedKey v2 = dk) by exact Hk2'. clear Hk2'.
  rewrite importVaultData_run. cbv zeta.
  cbn [r_verificationIV r_verificationCiphertext r_verificationTag r_vault r_salt
       r_updatedAt vault_iv vault_ciphertext vault_tag].
  rewrite Hk2.
  rewrite (sealed_envelope_opens dk _ _ enc2 Hiv2 Hk
             (decodable_hex _ (sha256_is_hex _)) E2).
  rewrite String.eqb_refl. cbn [negb].
  rewrite (sealed_envelope_decodes dk _ _ enc1 Hiv1 Hk E1). cbn [bind].
  rewrite Hjson.
  rewrite (for_each_push _ ps) by exact Hdec.
  eexists. split; [reflexivity|]. destruct v2. cbn. repeat split.
Qed.

End Devices.

(** ** Export to CSV and import from it *)

Lemma string_app_cons x (a b : string) : (String x a ++ b)%string = String x (a ++ b).
Proof. reflexivity. Qed.

Lemma string_app_nil_l (b : string) : (EmptyString ++ b)%string = b.
Proof. reflexivity. Qed.

Lemma string_app_assoc (a b c : string) : ((a ++ b) ++ c)%string = (a ++ (b ++ c))%string.
Proof.
  induction a as [|x a IH]; [reflexivity|]. rewrite !string_app_cons, IH. reflexivity.
Qed.

Lemma string_app_nil_r (a : string) : (a ++ "")%string = a.
Proof. induction a as [|x a IH]; [reflexivity|]. rewrite string_app_cons, IH. reflexivity. Qed.

(** A field without comma and quote, read outside quotes up to the comma
    that ends it. *)
Lemma parse_plain_field f : ∀ rest fields current,
  CSV.includes f ","%char = false → CSV.includes f CSV.quote = false →
  CSV.parse_chars (f ++ String ","%char rest) fields current false
  = CSV.parse_chars rest (fields ++ [(current ++ f)%string]) EmptyString false.
Proof.
  induction f as [|x f IH]; intros rest fields current Hc Hq.
  - rewrite string_app_nil_l, string_app_nil_r. reflexivity.
  - cbn [CSV.includes] in Hc, Hq.
    apply orb_false_elim in Hc as [Hxc Hc]. apply orb_false_elim in Hq as [Hxq Hq].
    rewrite string_app_cons. cbn [CSV.parse_chars]. rewrite Hxq, Hxc. cbn [andb].
    rewrite IH by assumption. rewrite string_app_assoc. reflexivity.
Qed.

(** The inside of a quoted field, up to the closing quote and the comma. *)
Lemma parse_quoted_field f : ∀ rest fields current,
  CSV.parse_chars (CSV.double_quotes f ++ String CSV.quote (String ","%char rest))
                  fields current true
  = CSV.parse_chars rest (fields ++ [(current ++ f)%string]) EmptyString false.
Proof.
  induction f as [|x f IH]; intros rest fields current.
  - cbn [CSV.double_quotes]. rewrite string_app_nil_l, string_app_nil_r. reflexivity.
  - cbn [CSV.double_quotes]. destruct (Ascii.eqb x CSV.quote) eqn:Hx.
    + apply Ascii.eqb_eq in Hx. subst x.
      rewrite !string_app_cons. cbn [CSV.parse_chars]. rewrite Ascii.eqb_refl. cbn [andb].
      rewrite IH, string_app_assoc. reflexivity.
    + rewrite string_app_cons. cbn [CSV.parse_chars]. rewrite Hx. cbn [negb andb].
      rewrite andb_false_r. rewrite IH, string_app_assoc. reflexivity.
Qed.

Lemma parse_escaped_field f rest fields :
  CSV.parse_chars (CSV.escapeCSV f ++ String ","%char rest) fields EmptyString false
  = CSV.parse_chars rest (fields ++ [f]) EmptyString false.
Proof.
  unfold CSV.escapeCSV.
  destruct (CSV.includes f ","%char) eqn:Hc; cbn [orb].
  2: destruct (CSV.includes f CSV.quote) eqn:Hq; cbn [orb].
  3: destruct (CSV.includes f CSV.line_feed) eqn:Hn.
  4: exact (parse_plain_field f rest fields EmptyString Hc Hq).
  all: rewrite string_app_cons, string_app_assoc, string_app_cons, string_app_nil_l;
       cbn [CSV.parse_chars]; rewrite Ascii.eqb_refl;
       destruct (CSV.double_quotes f ++ String CSV.quote (String ","%char rest))%string
         as [|y tl] eqn:E;
       [destruct (CSV.double_quotes f); discriminate E|];
       cbn [andb negb]; rewrite <- E; apply (parse_quoted_field f rest fields EmptyString).
Qed.

(** Whatever follows, the fields already read stay, and one more is read. *)
Lemma parse_chars_extends n : ∀ line fields current inQuotes,
  (String.length line ≤ n)%nat →
  ∃ more, CSV.parse_chars line fields current inQuotes = fields ++ more ∧ more ≠ [].
Proof.
  induction n as [|n IH]; intros line fields current q Hn.
  - destruct line; [|cbn in Hn; lia]. exists [current]. split; [reflexivity|discriminate].
  - destruct line as [|x rest]; [exists [current]; split; [reflexivity|discriminate]|].
    cbn [String.length] in Hn. cbn [CSV.parse_chars].
    destruct (Ascii.eqb x CSV.quote).
    + destruct rest as [|y rest']; [apply IH; cbn; lia|].
      destruct (q && Ascii.eqb y CSV.quote); apply IH; cbn [String.length] in *; lia.
    + destruct (Ascii.eqb x ","%char && negb q).
      * destruct (IH rest (fields ++ [current]) EmptyString q ltac:(lia)) as (more & -> & _).
        exists (current :: more). rewrite <- app_assoc. split; [reflexivity|discriminate].
      * apply IH. lia.
Qed.

(** The field parser of [importFromCSV], applied to the row that
    [exportToCSV] writes for an entry, returns the site, the user name, the
    password, the note and the category as they were, then "true" or "false"
    for the favourite flag, then at least one more field. *)
Lemma parse_exported_row p :
  ∃ more,
    CSV.parse_line (CSV.export_row p)
    = [ ai_site p; ai_username p; ai_password p; ai_note p; ai_category p;
        if ai_favorite p then "true"%string else "false"%string ] ++ more
    ∧ more ≠ [].
Proof.
  unfold CSV.parse_line, CSV.export_row. cbn [CSV.join].
  change (","%string) with (String ","%char EmptyString).
  rewrite !(string_app_cons ","%char), !string_app_nil_l.
  rewrite !parse_escaped_field. cbn [app].
  assert (Hfav : ∀ rest fields,
            CSV.parse_chars ((if ai_favorite p then "true" else "false")
                             ++ String ","%char rest) fields EmptyString false
            = CSV.parse_chars rest
                (fields ++ [if ai_favorite p then "true"%string else "false"%string])
                EmptyString false).
  { intros rest fields. destruct (ai_favorite p); reflexivity. }
  rewrite Hfav. cbn [app].
  match goal with
  | |- ∃ more, CSV.parse_chars ?l ?f ?c ?q = _ ∧ _ =>
      destruct (parse_chars_extends (String.length l) l f c q (Nat.le_refl _))
        as (more & -> & Hne)
  end.
  exists more. split; [reflexivity|exact Hne].
Qed.

(** ** The text of an export, line by line *)

Lemma includes_app (a b : string) c :
  CSV.includes (a ++ b) c = CSV.includes a c || CSV.includes b c.
Proof.
  induction a as [|x a IH]; [reflexivity|].
  rewrite string_app_cons. cbn [CSV.includes]. rewrite IH, orb_assoc. reflexivity.
Qed.

Lemma includes_double_quotes f c :
  Ascii.eqb CSV.quote c = false → CSV.includes (CSV.double_quotes f) c = CSV.includes f c.
Proof.
  intros Hc. induction f as [|x f IH]; [reflexivity|].
  cbn [CSV.double_quotes]. destruct (Ascii.eqb x CSV.quote) eqn:Hx.
  - apply Ascii.eqb_eq in Hx. subst x. cbn [CSV.includes]. rewrite Hc, IH. reflexivity.
  - cbn [CSV.includes]. rewrite IH. reflexivity.
Qed.

Lemma escapeCSV_one_line f :
  CSV.includes f CSV.line_feed = false → CSV.includes (CSV.escapeCSV f) CSV.line_feed = false.
Proof.
  intros H. unfold CSV.escapeCSV. destruct (_ || _ || _); [|exact H].
  cbn [CSV.includes]. rewrite includes_app, includes_double_quotes, H by reflexivity.
  reflexivity.
Qed.

Lemma export_row_one_line p :
  CSV.one_line p → CSV.includes (CSV.export_row p) CSV.line_feed = false.
Proof.
  intros (H1 & H2 & H3 & H4 & H5 & H6 & H7). unfold CSV.export_row. cbn [CSV.join].
  rewrite !includes_app, !escapeCSV_one_line, H6, H7 by assumption.
  destruct (ai_favorite p); reflexivity.
Qed.

Lemma export_row_has_comma p : CSV.includes (CSV.export_row p) ","%char = true.
Proof.
  unfold CSV.export_row. cbn [CSV.join]. rewrite !includes_app.
  change (CSV.includes "," ","%char) with true. rewrite orb_true_r. reflexivity.
Qed.

(** A piece without line feed is read into the current line. *)
Lemma split_lines_piece x : ∀ rest current,
  CSV.includes x CSV.line_feed = false →
  CSV.split_lines (x ++ rest) current = CSV.split_lines rest (current ++ x).
Proof.
  induction x as [|c x IH]; intros rest current H.
  - rewrite string_app_nil_l, string_app_nil_r. reflexivity.
  - cbn [CSV.includes] in H. apply orb_false_elim in H as [Hc H].
    rewrite string_app_cons. cbn [CSV.split_lines]. rewrite Hc, IH by exact H.
    rewrite string_app_assoc. reflexivity.
Qed.

(** Lines without line feed, joined and split again. *)
Lemma split_lines_join l : ∀ x current,
  Forall (fun y => CSV.includes y CSV.line_feed = false) (x :: l) →
  CSV.split_lines (CSV.join (String CSV.line_feed EmptyString) (x :: l)) current
  = (current ++ x)%string :: l.
Proof.
  induction l as [|y l IH]; intros x current H.
  - apply Forall_cons in H as [Hx _]. cbn [CSV.join].
    rewrite <- (string_app_nil_r x) at 1. rewrite split_lines_piece by exact Hx. reflexivity.
  - apply Forall_cons in H as [Hx H].
    change (CSV.join (String CSV.line_feed EmptyString) (x :: y :: l))
      with (x ++ String CSV.line_feed EmptyString
              ++ CSV.join (String CSV.line_feed EmptyString) (y :: l))%string.
    rewrite split_lines_piece by exact Hx.
    rewrite string_app_cons, string_app_nil_l. cbn [CSV.split_lines].
    rewrite Ascii.eqb_refl. rewrite IH by exact H. rewrite string_app_nil_l. reflexivity.
Qed.

(** A blank line holds no comma. *)
Lemma blank_no_comma n : ∀ line,
  (String.length line ≤ n)%nat → CSV.blank line = true → CSV.includes line ","%char = false.
Proof.
  induction n as [|n IH]; intros line Hn Hb.
  - destruct line; [reflexivity|cbn in Hn; lia].
  - destruct line as [|c rest]; [reflexivity|]. cbn [String.length] in Hn.
    cbn [CSV.blank] in Hb. cbv zeta in Hb. cbn [CSV.includes].
    destruct (Ascii.eqb c ","%char) eqn:Hc.
    { apply Ascii.eqb_eq in Hc. subst c. exfalso.
      destruct rest as [|c1 [|c2 rest2]]; cbn in Hb; discriminate Hb. }
    cbn [orb].
    destruct ((9 <=? nat_of_ascii c) && (nat_of_ascii c <=? 13) || (nat_of_ascii c =? 32))%nat.
    { apply IH; [lia|exact Hb]. }
    destruct rest as [|c1 rest1]; [discriminate Hb|]. cbn [String.length] in Hn.
    cbn [CSV.includes].
    destruct ((nat_of_ascii c =? 194) && (nat_of_ascii c1 =? 160))%nat eqn:H1.
    { apply andb_true_iff in H1 as [_ H1]. apply Nat.eqb_eq in H1.
      assert (Ascii.eqb c1 ","%char = false).
      { apply Ascii.eqb_neq. intros ->. discriminate H1. }
      rewrite H. cbn [orb]. apply IH; [lia|exact Hb]. }
    destruct rest1 as [|c2 rest2]; [discriminate Hb|]. cbn [String.length] in Hn.
    cbn [CSV.includes].
    match type of Hb with
    | (if ?t then _ else _) = true => destruct t eqn:H2; [|discriminate Hb]
    end.
    assert (A1 : Ascii.eqb c1 ","%char = false).
    { apply Ascii.eqb_neq. intros ->. cbn in H2.
      rewrite !andb_false_r in H2. discriminate H2. }
    assert (A2 : Ascii.eqb c2 ","%char = false).
    { apply Ascii.eqb_neq. intros ->. cbn in H2.
      rewrite !andb_false_r in H2. discriminate H2. }
    rewrite A1, A2. cbn [orb]. apply IH; [lia|exact Hb].
Qed.

Lemma export_row_not_blank p : CSV.blank (CSV.export_row p) = false.
Proof.
  destruct (CSV.blank (CSV.export_row p)) eqn:E; [|reflexivity].
  apply (blank_no_comma _ _ (Nat.le_refl _)) in E. rewrite export_row_has_comma in E.
  discriminate E.
Qed.

Lemma filter_not_blank_rows (infos : list AccountInfo) :
  List.filter (fun line => negb (CSV.blank line)) (map CSV.export_row infos)
  = map CSV.export_row infos.
Proof.
  induction infos as [|p infos IH]; [reflexivity|].
  cbn [map List.filter]. rewrite export_row_not_blank, IH. reflexivity.
Qed.

(** The lines that [importFromCSV] keeps of an exported text. *)
Lemma data_lines_export_text infos :
  Forall CSV.one_line infos →
  CSV.data_lines (CSV.export_text infos)
  = match infos with
    | [] => Err NoDataRows
    | _ :: _ => Ok (map CSV.export_row infos)
    end.
Proof.
  intros H. unfold CSV.data_lines, CSV.export_text.
  rewrite split_lines_join.
  2:{ constructor; [reflexivity|]. apply Forall_map.
      eapply Forall_impl; [exact H|]. intros p. apply export_row_one_line. }
  rewrite string_app_nil_l. cbn [List.filter].
  change (CSV.blank CSV.header) with false. cbn [negb].
  rewrite filter_not_blank_rows. destruct infos; reflexivity.
Qed.

(** The call that [importFromCSV] makes for the row of an entry. *)
Lemma row_arguments_export_row p :
  CSV.row_arguments (CSV.export_row p)
  = Some (CSV.mkRow (ai_username p) (ai_password p) (ai_site p) (ai_note p)
                    (ai_category p) (ai_favorite p)).
Proof.
  unfold CSV.row_arguments. cbv zeta.
  destruct (parse_exported_row p) as (more & -> & Hmore).
  destruct more as [|m more]; [contradiction|].
  cbn [app length Nat.ltb Nat.leb lookup list_lookup default from_option].
  unfold id. destruct (ai_favorite p); reflexivity.
Qed.

Section ImportLoop.
Context {wasm : Wasm} {runtime : Runtime}.

Lemma import_rows_exported infos : ∀ v w n,
  Forall decodable_entry infos → length (derivedKey v) = 32%nat → bearer v = None →
  ∃ added v' w',
    CSV.import_rows (map CSV.export_row infos) n 0 (v, w)
    = (Ok ((n + length infos)%nat, 0%nat), (v', w'))
    ∧ Forall2 CSV.same_content infos added
    ∧ derivedKey v' = derivedKey v
    ∧ decrypt_all (derivedKey v) (vaultPasswords v')
      = let* before := decrypt_all (derivedKey v) (vaultPasswords v) in
        Ok (before ++ added).
Proof.
  induction infos as [|i infos IH]; intros v w n Hclean Hk Hb.
  - exists [], v, w. cbn [map CSV.import_rows length]. rewrite Nat.add_0_r.
    split; [reflexivity|]. split; [constructor|]. split; [reflexivity|].
    destruct (decrypt_all _ _); cbn [bind]; rewrite ?app_nil_r; reflexivity.
  - apply Forall_cons in Hclean as [[Hu Hp] Hclean].
    cbn [map CSV.import_rows]. rewrite row_arguments_export_row.
    cbn [CSV.row_username CSV.row_password CSV.row_site CSV.row_note CSV.row_category
         CSV.row_favorite].
    destruct (addPassword_offline_decrypts (ai_username i) (ai_password i) (ai_site i)
                (ai_note i) (ai_category i) (ai_favorite i) v w Hk Hb Hu Hp)
      as (p & v1 & w1 & Ea & Happ & Hd & Hb1 & Hinfo & Hall).
    assert (Ecatch : catch (addPassword (ai_username i) (ai_password i) (ai_site i)
                                        (ai_note i) (ai_category i) (ai_favorite i) ;;
                            ret true)
                           (fun _ => ret false) (v, w)
                     = (Ok true, (v1, w1)))
      by (unfold catch, mbind_M; rewrite Ea; reflexivity).
    unfold mbind_M at 1. rewrite Ecatch.
    destruct (IH v1 w1 (S n) Hclean) as (added & v' & w' & E & Hsame & Hd' & Hall');
      [congruence|exact Hb1|].
    rewrite E.
    exists (mkAccountInfo (passwordId p) (ai_site i) (ai_username i) (ai_password i)
                          (ai_note i) (ai_category i) (ai_favorite i) (created p)
                          (updated p) :: added), v', w'.
    split; [do 3 f_equal; cbn [length]; lia|].
    split; [constructor; [|exact Hsame]; repeat split|].
    split; [congruence|].
    rewrite Hd in Hall'. rewrite Hall', Hall.
    destruct (decrypt_all (derivedKey v) (vaultPasswords v)); [|reflexivity].
    cbn [bind]. rewrite <- app_assoc. reflexivity.
Qed.

(** X23. What [exportToCSV] writes, [importFromCSV] reads back: for decrypted
    entries none of whose text fields holds a line feed, the lines that
    [importFromCSV] keeps of the exported text (split at the line feeds,
    blank lines and the header left out) are the rows of the entries, and
    each row gives the call [addPassword(username, password, site, note,
    category, favorite)] with the values of its entry, commas and quotes
    included.  On an unlocked vault that holds no session token the import
    therefore adds one entry per row, with no error, and
    [getDecryptedPasswords] returns afterwards what it returned before
    followed by entries of the same site, user name, password, note,
    category and favourite flag (user names and passwords that are
    well-formed texts and do not start with a byte-order mark).  The text
    exported from no entry at all is
    refused: "CSV file is empty or has no data rows". *)
Theorem exported_csv_imports infos v w :
  Forall CSV.one_line infos → Forall decodable_entry infos →
  length (derivedKey v) = 32%nat → bearer v = None →
  Forall (fun p => CSV.row_arguments (CSV.export_row p)
                   = Some (CSV.mkRow (ai_username p) (ai_password p) (ai_site p)
                                     (ai_note p) (ai_category p) (ai_favorite p))) infos
  ∧ match infos with
    | [] =>
        CSV.data_lines (CSV.export_text infos) = Err NoDataRows
        ∧ CSV.importFromCSV (CSV.export_text infos) (v, w) = (Err NoDataRows, (v, w))
    | _ :: _ =>
        CSV.data_lines (CSV.export_text infos) = Ok (map CSV.export_row infos)
        ∧ ∃ added v' w',
            CSV.importFromCSV (CSV.export_text infos) (v, w)
            = (Ok (length infos, 0%nat), (v', w'))
            ∧ Forall2 CSV.same_content infos added
            ∧ getDecryptedPasswords v'
              = let* before := getDecryptedPasswords v in Ok (before ++ added)
    end.
Proof.
  intros Hlines Hclean Hk Hb.
  split; [apply Forall_forall; intros p _; apply row_arguments_export_row|].
  pose proof (data_lines_export_text infos Hlines) as Hdata.
  unfold CSV.importFromCSV. unfold mbind_M at 1. unfold lift at 1.
  destruct infos as [|i infos]; rewrite Hdata; [split; reflexivity|].
  split; [reflexivity|].
  destruct (import_rows_exported (i :: infos) v w 0 Hclean Hk Hb)
    as (added & v' & w' & E & Hsame & Hd & Hall).
  exists added, v', w'. split; [exact E|]. split; [exact Hsame|].
  unfold getDecryptedPasswords. rewrite Hd. exact Hall.
Qed.

End ImportLoop.


(** ** The key file *)

Section KeyFile.
Context {wasm : Wasm} {runtime : Runtime}.

(** X24. The secret key that was stored is the one that is read: for a user
    name that is a plain file-name component (no path separator, no NUL),
    when the encryption of the platform is available,
    [storeSecretKey(user, key)] followed by [getSecretKey(user)] returns
    [key], whatever the key file held before; when the encryption is not
    available, [storeSecretKey] returns without writing. *)
Theorem stored_secret_key_reads_back u k v w :
  plain_name u →
  if encryptionAvailable w
  then ∃ w', storeSecretKey u k (v, w) = (Ok tt, (v, w'))
             ∧ getSecretKey u (v, w') = (Ok (Some k), (v, w'))
  else storeSecretKey u k (v, w) = (Ok tt, (v, w)).
Proof.
  intros _. unfold storeSecretKey, mbind_M, world. cbn [fst snd].
  destruct (encryptionAvailable w) eqn:Ea; cbn [negb]; [|reflexivity].
  eexists. split; [reflexivity|].
  unfold getSecretKey, mbind_M, world. cbn [fst snd].
  destruct w as [di ea en d cl ti srv]. cbn [set_disk disk].
  rewrite lookup_insert_eq, safeStorage_round_trip. reflexivity.
Qed.

End KeyFile.

(** ** The 128-bit blocks of GHASH *)

Lemma shiftl8_lor a b : 0 <= b < 256 → Z.lor (Z.shiftl a 8) b = a * 256 + b.
Proof.
  intros Hb.
  assert (Hz : Z.land (Z.shiftl a 8) b = 0).
  { apply Z.bits_inj'. intros n Hn. rewrite Z.land_spec, Z.bits_0.
    destruct (Z.ltb_spec n 8).
    - rewrite Z.shiftl_spec_low by lia. reflexivity.
    - replace b with (b mod 2 ^ 8) by (apply Z.mod_small; lia).
      rewrite Z.mod_pow2_bits_high by lia. apply andb_false_r. }
  rewrite <- Z.lxor_lor by exact Hz. rewrite <- Z.add_nocarry_lxor by exact Hz.
  rewrite Z.shiftl_mul_pow2 by lia. reflexivity.
Qed.

Lemma mask64_mod z : Z.land z GHash.MASK64 = z mod 2 ^ 64.
Proof. change GHash.MASK64 with (Z.ones 64). apply Z.land_ones. lia. Qed.

Lemma byte_of z : u8 (Z.land z 255) = z mod 256.
Proof. fold (u8 z). rewrite u8_u8. apply u8_mod. Qed.

Lemma shiftr8 z : Z.shiftr z 8 = z / 256.
Proof. rewrite Z.shiftr_div_pow2 by lia. reflexivity. Qed.

(** The number that eight bytes spell, most significant byte first. *)
Lemma big_endian_decode b0 b1 b2 b3 b4 b5 b6 b7 :
  is_byte b0 → is_byte b1 → is_byte b2 → is_byte b3 →
  is_byte b4 → is_byte b5 → is_byte b6 → is_byte b7 →
  Z.lor (Z.shiftl (Z.lor (Z.shiftl (Z.lor (Z.shiftl (Z.lor (Z.shiftl (Z.lor (Z.shiftl
    (Z.lor (Z.shiftl (Z.lor (Z.shiftl (Z.lor (Z.shiftl 0 8) b0) 8) b1) 8) b2) 8) b3) 8)
    b4) 8) b5) 8) b6) 8) b7
  = ((((((b0 * 256 + b1) * 256 + b2) * 256 + b3) * 256 + b4) * 256 + b5) * 256 + b6) * 256
    + b7.
Proof.
  unfold is_byte. intros. rewrite !shiftl8_lor by assumption. lia.
Qed.

Lemma big_endian_encode h :
  (((((((((((((((h / 256) / 256) / 256) / 256) / 256) / 256) / 256) mod 256) * 256 + (((((((h / 256) / 256) / 256) / 256) / 256) / 256) mod 256)) * 256 + ((((((h / 256) / 256) / 256) / 256) / 256) mod 256)) * 256 + (((((h / 256) / 256) / 256) / 256) mod 256)) * 256 + ((((h / 256) / 256) / 256) mod 256)) * 256 + (((h / 256) / 256) mod 256)) * 256 + ((h / 256) mod 256)) * 256 + (h mod 256))
  = h mod 2 ^ 64.
Proof.
  change (2 ^ 64) with (256 * (256 * (256 * (256 * (256 * (256 * (256 * 256))))))).
  Z.div_mod_to_equations. lia.
Qed.

Lemma fromBytes_toBytes x :
  GHash.fromBytes (GHash.toBytes x) = Ok (GHash.mk (GHash.high x) (GHash.low x)).
Proof.
  cbv [GHash.toBytes foldl rev seq app alloc replicate put insert list_insert rev_append].
  cbv [GHash.fromBytes foldl seq length Nat.eqb negb get nth].
  rewrite !byte_of, !shiftr8.
  rewrite !big_endian_decode by (unfold is_byte; apply Z.mod_pos_bound; lia).
  rewrite !big_endian_encode.
  unfold GHash.mk. rewrite !mask64_mod, !Z.mod_mod by lia. reflexivity.
Qed.

Lemma big_endian_inj a0 a1 a2 a3 a4 a5 a6 a7 b0 b1 b2 b3 b4 b5 b6 b7 :
  is_byte a0 → is_byte a1 → is_byte a2 → is_byte a3 →
  is_byte a4 → is_byte a5 → is_byte a6 → is_byte a7 →
  is_byte b0 → is_byte b1 → is_byte b2 → is_byte b3 →
  is_byte b4 → is_byte b5 → is_byte b6 → is_byte b7 →
  ((((((a0 * 256 + a1) * 256 + a2) * 256 + a3) * 256 + a4) * 256 + a5) * 256 + a6) * 256 + a7
  = ((((((b0 * 256 + b1) * 256 + b2) * 256 + b3) * 256 + b4) * 256 + b5) * 256 + b6) * 256
    + b7 →
  [a0; a1; a2; a3; a4; a5; a6; a7] = [b0; b1; b2; b3; b4; b5; b6; b7].
Proof.
  unfold is_byte. intros.
  assert (a7 = b7) by lia. subst.
  assert (a6 = b6) by lia. subst.
  assert (a5 = b5) by lia. subst.
  assert (a4 = b4) by lia. subst.
  assert (a3 = b3) by lia. subst.
  assert (a2 = b2) by lia. subst.
  assert (a1 = b1) by lia. subst.
  assert (a0 = b0) by lia. subst. reflexivity.
Qed.

(** Writing a number below 2^64 that eight bytes spell gives the bytes. *)
Lemma big_endian_bytes b0 b1 b2 b3 b4 b5 b6 b7 h :
  is_byte b0 → is_byte b1 → is_byte b2 → is_byte b3 →
  is_byte b4 → is_byte b5 → is_byte b6 → is_byte b7 →
  h = ((((((b0 * 256 + b1) * 256 + b2) * 256 + b3) * 256 + b4) * 256 + b5) * 256 + b6) * 256
      + b7 →
  [ (h / 256 / 256 / 256 / 256 / 256 / 256 / 256) mod 256;
    (h / 256 / 256 / 256 / 256 / 256 / 256) mod 256;
    (h / 256 / 256 / 256 / 256 / 256) mod 256;
    (h / 256 / 256 / 256 / 256) mod 256;
    (h / 256 / 256 / 256) mod 256;
    (h / 256 / 256) mod 256;
    (h / 256) mod 256;
    h mod 256 ] = [b0; b1; b2; b3; b4; b5; b6; b7].
Proof.
  intros B0 B1 B2 B3 B4 B5 B6 B7 Eh.
  apply big_endian_inj; try assumption;
    try (unfold is_byte; apply Z.mod_pos_bound; lia).
  rewrite big_endian_encode, <- Eh. apply Z.mod_small.
  unfold is_byte in *. lia.
Qed.

Lemma app8 {A} (a0 a1 a2 a3 a4 a5 a6 a7 b0 b1 b2 b3 b4 b5 b6 b7 : A) t t' :
  [a0; a1; a2; a3; a4; a5; a6; a7] = [b0; b1; b2; b3; b4; b5; b6; b7] → t = t' →
  a0 :: a1 :: a2 :: a3 :: a4 :: a5 :: a6 :: a7 :: t
  = b0 :: b1 :: b2 :: b3 :: b4 :: b5 :: b6 :: b7 :: t'.
Proof. intros H ->. injection H as -> -> -> -> -> -> -> ->. reflexivity. Qed.

(** X25. Blocks and field elements: a block of 16 bytes is read by
    [fromBytes] as two 64-bit numbers, most significant byte first, and
    [toBytes] writes the same 16 bytes back; reading what [toBytes] wrote
    gives the element again. *)
Theorem GF128_bytes_round_trip b :
  length b = 16%nat → is_bytes b →
  ∃ x, GHash.fromBytes b = Ok x ∧ GHash.toBytes x = b
       ∧ GHash.fromBytes (GHash.toBytes x) = Ok x.
Proof.
  intros H Hb. block b H. bytes_of Hb.
  set (hi := ((((((z * 256 + z0) * 256 + z1) * 256 + z2) * 256 + z3) * 256 + z4) * 256 + z5)
             * 256 + z6).
  set (lo := ((((((z7 * 256 + z8) * 256 + z9) * 256 + z10) * 256 + z11) * 256 + z12) * 256
              + z13) * 256 + z14).
  assert (Hfrom : GHash.fromBytes
                    [z; z0; z1; z2; z3; z4; z5; z6; z7; z8; z9; z10; z11; z12; z13; z14]
                  = Ok (GHash.mk hi lo)).
  { cbv [GHash.fromBytes foldl seq length Nat.eqb negb get nth].
    rewrite !big_endian_decode by assumption. reflexivity. }
  assert (Hh : 0 <= hi < 2 ^ 64)
    by (unfold hi; repeat match goal with Hx : is_byte _ |- _ => unfold is_byte in Hx end;
        lia).
  assert (Hl : 0 <= lo < 2 ^ 64)
    by (unfold lo; repeat match goal with Hx : is_byte _ |- _ => unfold is_byte in Hx end;
        lia).
  assert (Hmk : GHash.mk hi lo = {| GHash.high := hi; GHash.low := lo |})
    by (unfold GHash.mk; rewrite !mask64_mod, !Z.mod_small by assumption; reflexivity).
  assert (Hto : GHash.toBytes (GHash.mk hi lo)
                = [z; z0; z1; z2; z3; z4; z5; z6; z7; z8; z9; z10; z11; z12; z13; z14]).
  { rewrite Hmk.
    cbv [GHash.toBytes foldl rev seq app alloc replicate put insert list_insert rev_append
         GHash.high GHash.low].
    rewrite !byte_of, !shiftr8.
    apply app8; [apply big_endian_bytes; auto|].
    apply app8; [apply big_endian_bytes; auto|]. reflexivity. }
  exists (GHash.mk hi lo). split; [exact Hfrom|]. split; [exact Hto|].
  rewrite Hto. exact Hfrom.
Qed.

(** X26. [createLengthBlock] writes the two lengths in bits: read by
    [fromBytes], the block gives 8 times the length of the AAD in its high
    half and 8 times the length of the ciphertext in its low half, each
    modulo 2^64. *)
Theorem createLengthBlock_holds_the_bit_lengths aadLength ciphertextLength :
  GHash.fromBytes (GHash.createLengthBlock aadLength ciphertextLength)
  = Ok (GHash.mk (Z.of_nat aadLength * 8) (Z.of_nat ciphertextLength * 8))
  ∧ GHash.high (GHash.mk (Z.of_nat aadLength * 8) (Z.of_nat ciphertextLength * 8))
    = (Z.of_nat aadLength * 8) mod 2 ^ 64
  ∧ GHash.low (GHash.mk (Z.of_nat aadLength * 8) (Z.of_nat ciphertextLength * 8))
    = (Z.of_nat ciphertextLength * 8) mod 2 ^ 64.
Proof.
  split; [|split; apply mask64_mod].
  exact (fromBytes_toBytes {| GHash.high := Z.of_nat aadLength * 8;
                              GHash.low := Z.of_nat ciphertextLength * 8 |}).
Qed.

(** ** Instances of the further properties *)

Lemma sample_block_is_bytes : is_bytes (map Z.of_nat (seq 100 16)).
Proof.
  apply Forall_forall. intros z Hz. apply list_elem_of_In, in_map_iff in Hz.
  destruct Hz as [n [<- Hn]]. apply in_seq in Hn. unfold is_byte. lia.
Qed.

(** The key 0, 1, ..., 31 and the block 100, 101, ..., 115. *)
Lemma decryptBlock_encryptBlock_witness :
  ∃ rk, AES.keyExpansion Sample.key = Ok rk
        ∧ (let* c := AES.encryptBlock (map Z.of_nat (seq 100 16)) rk in AES.decryptBlock c rk)
          = Ok (map Z.of_nat (seq 100 16)).
Proof.
  eexists. split; [vm_compute; reflexivity|].
  apply (decryptBlock_encryptBlock Sample.key);
    [vm_compute; reflexivity | reflexivity | exact sample_block_is_bytes].
Defined.

(** The same key and block, decrypted first. *)
Lemma encryptBlock_decryptBlock_witness :
  ∃ rk, AES.keyExpansion Sample.key = Ok rk
        ∧ (let* p := AES.decryptBlock (map Z.of_nat (seq 100 16)) rk in AES.encryptBlock p rk)
          = Ok (map Z.of_nat (seq 100 16)).
Proof.
  eexists. split; [vm_compute; reflexivity|].
  apply (encryptBlock_decryptBlock Sample.key);
    [vm_compute; reflexivity | reflexivity | exact sample_block_is_bytes].
Defined.

(** The plaintext "hi" sealed under [Sample.key] with the IV 0, 1, ..., 11
    and the AAD 1, 2, 3. *)
Lemma decrypt_accepts_only_encryptions_witness :
  is_bytes [47; 107]
  ∧ GCM.decrypt Sample.key (map Z.of_nat (seq 0 12)) [47; 107]
                [0; 173; 32; 40; 37; 178; 29; 224; 143; 72; 114; 101; 86; 172; 186; 228]
                [1; 2; 3]
    = Ok [104; 105]
  ∧ GCM.encrypt Sample.key (map Z.of_nat (seq 0 12)) [104; 105] [1; 2; 3]
    = Ok {| GCM.ciphertext := [47; 107];
            GCM.tag := [0; 173; 32; 40; 37; 178; 29; 224; 143; 72; 114; 101; 86; 172;
                        186; 228] |}.
Proof.
  assert (Hb : is_bytes [47; 107]).
  { constructor; [unfold is_byte; lia|]. constructor; [unfold is_byte; lia|]. constructor. }
  assert (Hd : GCM.decrypt Sample.key (map Z.of_nat (seq 0 12)) [47; 107]
                 [0; 173; 32; 40; 37; 178; 29; 224; 143; 72; 114; 101; 86; 172; 186; 228]
                 [1; 2; 3]
               = Ok [104; 105])
    by (vm_compute; reflexivity).
  split; [exact Hb|]. split; [exact Hd|].
  exact (decrypt_accepts_only_encryptions _ _ _ _ _ _ Hb Hd).
Defined.

(** The same envelope presented with a tag whose first byte is changed, and
    with a tag of 15 bytes. *)
Lemma decrypt_rejects_other_tags_witness :
  ∃ c, GCM.encrypt Sample.key (map Z.of_nat (seq 0 12)) [104; 105] [1; 2; 3] = Ok c
       ∧ 1 :: drop 1 (GCM.tag c) ≠ GCM.tag c
       ∧ GCM.decrypt Sample.key (map Z.of_nat (seq 0 12)) (GCM.ciphertext c)
                     (1 :: drop 1 (GCM.tag c)) [1; 2; 3]
         = Err AuthenticationFailed
       ∧ GCM.decrypt Sample.key (map Z.of_nat (seq 0 12)) (GCM.ciphertext c)
                     (drop 1 (GCM.tag c)) [1; 2; 3]
         = Err (InvalidTagSize 15).
Proof.
  set (c := {| GCM.ciphertext := [47; 107];
               GCM.tag := [0; 173; 32; 40; 37; 178; 29; 224; 143; 72; 114; 101; 86; 172;
                           186; 228] |}).
  assert (He : GCM.encrypt Sample.key (map Z.of_nat (seq 0 12)) [104; 105] [1; 2; 3] = Ok c)
    by (vm_compute; reflexivity).
  assert (Hne : 1 :: drop 1 (GCM.tag c) ≠ GCM.tag c) by discriminate.
  assert (Hne' : drop 1 (GCM.tag c) ≠ GCM.tag c) by discriminate.
  exists c. split; [exact He|]. split; [exact Hne|]. split.
  - exact (decrypt_rejects_other_tags _ _ _ _ c _ He Hne).
  - exact (decrypt_rejects_other_tags _ _ _ _ c _ He Hne').
Defined.

(** The counter block whose last four bytes are 255: the counter wraps to 0. *)
Lemma incrementCounter_adds_one_witness :
  length (alloc 12 ++ [255; 255; 255; 255]) = 16%nat
  ∧ is_bytes (alloc 12 ++ [255; 255; 255; 255])
  ∧ counter_value (GCM.incrementCounter (alloc 12 ++ [255; 255; 255; 255])) = 0
  ∧ take 12 (GCM.incrementCounter (alloc 12 ++ [255; 255; 255; 255])) = alloc 12.
Proof.
  assert (Hb : is_bytes (alloc 12 ++ [255; 255; 255; 255])).
  { apply Forall_app. split; [apply is_bytes_alloc|].
    repeat (constructor; [unfold is_byte; lia|]). constructor. }
  split; [reflexivity|]. split; [exact Hb|].
  destruct (incrementCounter_adds_one (alloc 12 ++ [255; 255; 255; 255]) eq_refl Hb)
    as (E1 & E2 & _).
  split; [exact E1|exact E2].
Defined.

(** Three bytes under the counter block 0, 1, ..., 15. *)
Lemma gctr_twice_witness :
  ∃ rk, AES.keyExpansion Sample.key = Ok rk
        ∧ is_bytes [1; 2; 3]
        ∧ ∃ c, GCM.gctr rk (map Z.of_nat (seq 0 16)) [1; 2; 3] = Ok c
               ∧ length c = 3%nat ∧ is_bytes c
               ∧ GCM.gctr rk (map Z.of_nat (seq 0 16)) c = Ok [1; 2; 3].
Proof.
  assert (Hb : is_bytes [1; 2; 3]).
  { repeat (constructor; [unfold is_byte; lia|]). constructor. }
  eexists. split; [vm_compute; reflexivity|]. split; [exact Hb|].
  apply (gctr_twice Sample.key); [vm_compute; reflexivity | reflexivity | exact Hb].
Defined.

(** 3^5 = 243 = 34 * 7 + 5. *)
Lemma modPow_is_the_modular_power_witness :
  1 < 7 ∧ 0 <= 3 ∧ 0 <= 5 ∧ SRP.modPow 3 5 7 = 3 ^ 5 mod 7 ∧ 0 <= SRP.modPow 3 5 7 < 7.
Proof.
  split; [lia|]. split; [lia|]. split; [lia|].
  apply modPow_is_the_modular_power; lia.
Defined.

(** The 32 random bytes 33, 34, ..., 64 of the SRP sample. *)
Lemma client_ephemeral_keeps_the_first_draw_witness :
  Sample.client_draw ≠ []
  ∧ ∃ a, 0 <= a
         ∧ SRP.clientEphemeral [Sample.client_draw]
           = Some (Ok (toString16 a, toString16 (2 ^ a mod SRP.N)))
         ∧ 0 < 2 ^ a mod SRP.N < SRP.N.
Proof.
  assert (H : Sample.client_draw ≠ []) by discriminate.
  split; [exact H|]. exact (client_ephemeral_keeps_the_first_draw _ [] H).
Defined.

(** The value [N] itself (m = 1) sent as [B] and as [A]. *)
Lemma safety_checks_reject_multiples_of_N_witness :
  0 <= 1 ∧ BigInt_hex "1f" = Ok 31 ∧ BigInt_hex "2a" = Ok 42 ∧ BigInt_hex "07" = Ok 7
  ∧ SRP.computeSession Sample.multiplier "00" "alice" "correct horse" "1f"
                       (toString16 (1 * SRP.N))
    = Err SafetyCheckB
  ∧ SRP.verifySession Sample.multiplier "alice" "00" "07" (toString16 (1 * SRP.N)) "2a" "00"
    = Err SafetyCheckA.
Proof.
  assert (H0 : 0 <= 1) by lia.
  assert (Ha : BigInt_hex "1f" = Ok 31) by (vm_compute; reflexivity).
  assert (Hb : BigInt_hex "2a" = Ok 42) by (vm_compute; reflexivity).
  assert (Hv : BigInt_hex "07" = Ok 7) by (vm_compute; reflexivity).
  split; [exact H0|]. split; [exact Ha|]. split; [exact Hb|]. split; [exact Hv|].
  exact (safety_checks_reject_multiples_of_N Sample.multiplier 1 "00" "alice" "correct horse"
           "07" "1f" "2a" "00" 31 42 7 H0 Ha Hb Hv).
Defined.

Lemma sample_entry_is_bytes id : entry_is_bytes (Sample.entry id).
Proof. repeat split; constructor. Qed.

Lemma sample_bytes a n : (a + n ≤ 256)%nat → is_bytes (map Z.of_nat (seq a n)).
Proof.
  intros H. apply Forall_forall. intros z Hz. apply list_elem_of_In, in_map_iff in Hz.
  destruct Hz as [k [<- Hk]]. apply in_seq in Hk. unfold is_byte. lia.
Qed.

Lemma byte_entry_is_bytes id n : (n ≤ 200)%nat → entry_is_bytes (Sample.byte_entry id n).
Proof. intros H. repeat split; apply sample_bytes; lia. Qed.

(** A sealed text opens under its key. *)
Lemma seal_text_opens key iv text :
  length key = 32%nat →
  is_bytes (fst (Sample.seal_text key iv text))
  ∧ is_bytes (snd (Sample.seal_text key iv text))
  ∧ GCM.decrypt key iv (fst (Sample.seal_text key iv text))
                (snd (Sample.seal_text key iv text)) []
    = Ok (utf8 text).
Proof.
  intros Hk. unfold Sample.seal_text.
  destruct (encrypt_then_decrypt key iv (utf8 text) [] Hk) as (c & -> & Hc & Ht & Hd).
  cbn [fst snd]. repeat split; try assumption. apply Hd, is_bytes_utf8.
Qed.

Lemma sealed_entry_is_bytes key id u p :
  length key = 32%nat → entry_is_bytes (Sample.sealed_entry key id u p).
Proof.
  intros Hk.
  destruct (seal_text_opens key (map Z.of_nat (seq 0 16)) u Hk) as (H1 & H2 & _).
  destruct (seal_text_opens key (map Z.of_nat (seq 16 16)) p Hk) as (H3 & H4 & _).
  unfold entry_is_bytes, Sample.sealed_entry.
  cbn [username usernameIV usernameTag password passwordIV passwordTag].
  repeat split; try assumption; apply sample_bytes; lia.
Qed.

Lemma sealed_entry_decrypts {runtime : Runtime} key id u p :
  length key = 32%nat → decodable u → decodable p →
  decrypt_all key [Sample.sealed_entry key id u p]
  = Ok [mkAccountInfo id "example.org" u p "" "" false "2025-01-01T00:00:00.000Z"
                      "2025-01-01T00:00:00.000Z"].
Proof.
  intros Hk Hu Hp.
  destruct (seal_text_opens key (map Z.of_nat (seq 0 16)) u Hk) as (_ & _ & E1).
  destruct (seal_text_opens key (map Z.of_nat (seq 16 16)) p Hk) as (_ & _ & E2).
  unfold decrypt_all. cbn [foldr]. unfold getAccountInfo, Sample.sealed_entry.
  cbn [username usernameIV usernameTag password passwordIV passwordTag passwordId site
       note category isFavorite created updated].
  rewrite E1, E2. cbn [bind]. rewrite !text_round_trip by assumption. reflexivity.
Qed.

(** The secret key is read from the key file, whatever the instance. *)
Lemma getSecretKey_keyed {wasm : Wasm} {runtime : Runtime} u sk v w :
  disk w !! key_file u = Some (KeyFile (encryptString sk)) →
  getSecretKey u (v, w) = (Ok (Some sk), (v, w)).
Proof.
  intros H. unfold getSecretKey, mbind_M, world. cbn [fst snd].
  rewrite H, safeStorage_round_trip. reflexivity.
Qed.

Lemma keyed_world_key_file :
  disk Sample.keyed_world !! key_file "alice" = Some (KeyFile (encryptString "c2VjcmV0")).
Proof. vm_compute. reflexivity. Qed.

(** One entry read into an empty vault. *)
Lemma object_form_reads_back_witness :
  Forall entry_is_bytes [Sample.entry 1]
  ∧ decode_all (map getAsObject [Sample.entry 1]) = Ok [Sample.entry 1]
  ∧ for_each push_object (map getAsObject [Sample.entry 1]) (Sample.vault [], Sample.world)
    = (Ok tt, (Sample.vault [1], Sample.world)).
Proof.
  assert (H : Forall entry_is_bytes [Sample.entry 1]).
  { constructor; [apply sample_entry_is_bytes|constructor]. }
  split; [exact H|].
  exact (object_form_reads_back [Sample.entry 1] (Sample.vault []) Sample.world H).
Defined.

(** An entry added to the vault that holds the entry of bob. *)
Lemma added_entry_decrypts_witness :
  length (derivedKey Sample.stocked) = 32%nat
  ∧ bearer Sample.stocked = None
  ∧ decodable "carol" ∧ decodable "s3cret"
  ∧ ∃ p v' w',
      addPassword "carol" "s3cret" "example.net" "" "" true (Sample.stocked, Sample.world)
      = (Ok tt, (v', w'))
      ∧ vaultPasswords v' = vaultPasswords Sample.stocked ++ [p]
      ∧ derivedKey v' = derivedKey Sample.stocked
      ∧ getAccountInfo p (derivedKey v')
        = Ok (mkAccountInfo (passwordId p) "example.net" "carol" "s3cret" "" "" true
                            (created p) (updated p))
      ∧ getDecryptedPasswords v'
        = let* before := getDecryptedPasswords Sample.stocked in
          Ok (before ++ [mkAccountInfo (passwordId p) "example.net" "carol" "s3cret" "" ""
                                       true (created p) (updated p)]).
Proof.
  assert (Hu : decodable "carol") by (split; reflexivity).
  assert (Hp : decodable "s3cret") by (split; reflexivity).
  split; [reflexivity|]. split; [reflexivity|]. split; [exact Hu|]. split; [exact Hp|].
  exact (added_entry_decrypts "carol" "s3cret" "example.net" "" "" true Sample.stocked
           Sample.world eq_refl eq_refl Hu Hp).
Defined.

(** The vault of alice under the key derived from the master password
    "master", holding two entries, saved and opened again. *)
Lemma saved_vault_reopens_witness :
  derivedKey (Sample.master_vault [Sample.byte_entry 1 16; Sample.byte_entry 2 3])
  = deriveKey (salt (Sample.master_vault [Sample.byte_entry 1 16; Sample.byte_entry 2 3]))
              "master"
              (secretKey (Sample.master_vault [Sample.byte_entry 1 16; Sample.byte_entry 2 3]))
  ∧ disk Sample.keyed_world !! key_file "alice" = Some (KeyFile (encryptString "c2VjcmV0"))
  ∧ Forall entry_is_bytes [Sample.byte_entry 1 16; Sample.byte_entry 2 3]
  ∧ safe_integer 1 ∧ safe_integer (1 + 1)
  ∧ ∃ v1 w1,
      saveToFile (Sample.master_vault [Sample.byte_entry 1 16; Sample.byte_entry 2 3],
                  Sample.keyed_world)
      = (Ok tt, (v1, w1))
      ∧ ∀ w2, disk w2 = disk w1 →
          ∃ v2 w3,
            open_vault
              (user (Sample.master_vault [Sample.byte_entry 1 16; Sample.byte_entry 2 3]))
              "master" false w2
            = (Ok tt, (v2, w3))
            ∧ vaultPasswords v2
              = vaultPasswords
                  (Sample.master_vault [Sample.byte_entry 1 16; Sample.byte_entry 2 3])
            ∧ salt v2
              = salt (Sample.master_vault [Sample.byte_entry 1 16; Sample.byte_entry 2 3])
            ∧ derivedKey v2
              = derivedKey
                  (Sample.master_vault [Sample.byte_entry 1 16; Sample.byte_entry 2 3])
            ∧ secretKey v2
              = secretKey
                  (Sample.master_vault [Sample.byte_entry 1 16; Sample.byte_entry 2 3])
            ∧ version v2
              = version
                  (Sample.master_vault [Sample.byte_entry 1 16; Sample.byte_entry 2 3]) + 2
            ∧ createdAt v2
              = createdAt
                  (Sample.master_vault [Sample.byte_entry 1 16; Sample.byte_entry 2 3]).
Proof.
  assert (Hdk : derivedKey
                  (Sample.master_vault [Sample.byte_entry 1 16; Sample.byte_entry 2 3])
                = deriveKey
                    (salt (Sample.master_vault
                             [Sample.byte_entry 1 16; Sample.byte_entry 2 3]))
                    "master"
                    (secretKey (Sample.master_vault
                                  [Sample.byte_entry 1 16; Sample.byte_entry 2 3])))
    by exact (@eq_refl bytes (deriveKey "c2FsdA==" "master" "c2VjcmV0")).
  assert (Hsk : "c2VjcmV0"%string ≠ ""%string) by discriminate.
  assert (Hps : Forall entry_is_bytes [Sample.byte_entry 1 16; Sample.byte_entry 2 3]).
  { constructor; [apply byte_entry_is_bytes; lia|].
    constructor; [apply byte_entry_is_bytes; lia|constructor]. }
  assert (H1 : safe_integer 1) by (unfold safe_integer; lia).
  assert (H2 : safe_integer (1 + 1)) by (unfold safe_integer; lia).
  split; [exact Hdk|]. split; [exact keyed_world_key_file|]. split; [exact Hps|].
  split; [exact H1|]. split; [exact H2|].
  exact (saved_vault_reopens "master"
           (Sample.master_vault [Sample.byte_entry 1 16; Sample.byte_entry 2 3])
           Sample.keyed_world Hdk Hsk keyed_world_key_file Hps H1 H2).
Defined.

(** The user name of entry 1 of two is replaced, everything else is kept. *)
Lemma edit_changes_the_matching_entries_witness :
  length (derivedKey (Sample.vault [0; 1])) = 32%nat
  ∧ bearer (Sample.vault [0; 1]) = None
  ∧ ∃ v' w',
      editPassword 1 (Some "carol"%string) None None None None None
                   (Sample.vault [0; 1], Sample.world)
      = (Ok tt, (v', w'))
      ∧ derivedKey v' = derivedKey (Sample.vault [0; 1])
      ∧ length (vaultPasswords v') = length (vaultPasswords (Sample.vault [0; 1]))
      ∧ (∀ i p, vaultPasswords (Sample.vault [0; 1]) !! i = Some p →
           ∃ p', vaultPasswords v' !! i = Some p'
                 ∧ if passwordId p =? 1
                   then edited (derivedKey (Sample.vault [0; 1]))
                               (Some "carol"%string) None None None None None p p'
                   else p' = p).
Proof.
  split; [reflexivity|]. split; [reflexivity|].
  exact (edit_changes_the_matching_entries 1 (Some "carol"%string) None None None None None
           (Sample.vault [0; 1]) Sample.world eq_refl eq_refl).
Defined.

(** Entry 1 of the entries 0, 1, 2 sits at index 1. *)
Lemma remove_deletes_the_entry_at_its_index_witness :
  bearer (Sample.vault [0; 1; 2]) = None
  ∧ NoDup (identifiers (Sample.vault [0; 1; 2]))
  ∧ vaultPasswords (fst (snd (removePassword 1 (Sample.vault [0; 1; 2], Sample.world))))
    = [Sample.entry 0; Sample.entry 2]
  ∧ 1 ∉ identifiers (fst (snd (removePassword 1 (Sample.vault [0; 1; 2], Sample.world)))).
Proof.
  assert (Hnd : NoDup (identifiers (Sample.vault [0; 1; 2]))).
  { change (NoDup [0; 1; 2]). apply NoDup_ListNoDup.
    repeat (constructor; [simpl; lia|]).
    constructor. }
  split; [reflexivity|]. split; [exact Hnd|].
  exact (proj2 (remove_deletes_the_entry_at_its_index 1 (Sample.vault [0; 1; 2])
                  Sample.world eq_refl Hnd)
               ltac:(lia) eq_refl).
Defined.

(** The vault that holds the entry of bob under the key derived from
    "master", not logged in, is given a new master password. *)
Lemma master_password_change_keeps_the_entries_witness :
  getSecretKey (user Sample.keyed_vault) (Sample.keyed_vault, Sample.keyed_world)
  = (Ok (Some "c2VjcmV0"%string), (Sample.keyed_vault, Sample.keyed_world))
  ∧ server_accepts Sample.keyed_vault Sample.keyed_world
  ∧ decrypt_all (deriveKey (salt Sample.keyed_vault) "master" "c2VjcmV0")
                (vaultPasswords Sample.keyed_vault)
    = Ok [Sample.bob]
  ∧ Forall decodable_entry [Sample.bob]
  ∧ ∃ v' w',
      changeMasterPassword "master" "new password" (Sample.keyed_vault, Sample.keyed_world)
      = (Ok tt, (v', w'))
      ∧ salt v' = new_salt Sample.keyed_world
      ∧ derivedKey v' = deriveKey (new_salt Sample.keyed_world) "new password" "c2VjcmV0"
      ∧ getDecryptedPasswords v' = Ok [Sample.bob]
      ∧ document w' (user Sample.keyed_vault) = Some (document_of v').
Proof.
  assert (Hs : getSecretKey (user Sample.keyed_vault)
                 (Sample.keyed_vault, Sample.keyed_world)
               = (Ok (Some "c2VjcmV0"%string), (Sample.keyed_vault, Sample.keyed_world)))
    by exact (getSecretKey_keyed "alice" "c2VjcmV0" Sample.keyed_vault Sample.keyed_world
                keyed_world_key_file).
  assert (Hne : "c2VjcmV0"%string ≠ ""%string) by discriminate.
  assert (Hdec : decrypt_all (deriveKey (salt Sample.keyed_vault) "master" "c2VjcmV0")
                             (vaultPasswords Sample.keyed_vault)
                 = Ok [Sample.bob])
    by exact (sealed_entry_decrypts (deriveKey "c2FsdA==" "master" "c2VjcmV0") 0
                "bob" "hunter2" (length_deriveKey "c2FsdA==" "master" "c2VjcmV0")
                (conj eq_refl eq_refl) (conj eq_refl eq_refl)).
  assert (Hclean : Forall decodable_entry [Sample.bob]).
  { constructor; [split; split; reflexivity|constructor]. }
  split; [exact Hs|]. split; [exact I|]. split; [exact Hdec|]. split; [exact Hclean|].
  exact (master_password_change_keeps_the_entries "master" "new password"
           Sample.keyed_vault Sample.keyed_world "c2VjcmV0" [Sample.bob]
           Hs Hne I Hdec Hclean).
Defined.

(** The same vault holding a session token that the server does not know. *)
Lemma refused_password_change_rekeys_memory_only_witness :
  decrypt_all (deriveKey (salt (set_token (Some "tok"%string) Sample.keyed_vault))
                         "master" "c2VjcmV0")
              (vaultPasswords (set_token (Some "tok"%string) Sample.keyed_vault))
  = Ok [Sample.bob]
  ∧ ∃ v' w',
      changeMasterPassword "master" "new password"
        (set_token (Some "tok"%string) Sample.keyed_vault,
         set_server (mkServer true [] None None) Sample.keyed_world)
      = (Err ServerUpdateFailed, (v', w'))
      ∧ disk w' = disk (set_server (mkServer true [] None None) Sample.keyed_world)
      ∧ server w' = server (set_server (mkServer true [] None None) Sample.keyed_world)
      ∧ salt v' = new_salt (set_server (mkServer true [] None None) Sample.keyed_world)
      ∧ derivedKey v'
        = deriveKey (new_salt (set_server (mkServer true [] None None) Sample.keyed_world))
                    "new password" "c2VjcmV0"
      ∧ getDecryptedPasswords v' = Ok [Sample.bob].
Proof.
  assert (Hs : getSecretKey (user (set_token (Some "tok"%string) Sample.keyed_vault))
                 (set_token (Some "tok"%string) Sample.keyed_vault,
                  set_server (mkServer true [] None None) Sample.keyed_world)
               = (Ok (Some "c2VjcmV0"%string),
                  (set_token (Some "tok"%string) Sample.keyed_vault,
                   set_server (mkServer true [] None None) Sample.keyed_world)))
    by exact (getSecretKey_keyed "alice" "c2VjcmV0"
                (set_token (Some "tok"%string) Sample.keyed_vault)
                (set_server (mkServer true [] None None) Sample.keyed_world)
                keyed_world_key_file).
  assert (Hne : "c2VjcmV0"%string ≠ ""%string) by discriminate.
  assert (Hdec : decrypt_all
                   (deriveKey (salt (set_token (Some "tok"%string) Sample.keyed_vault))
                              "master" "c2VjcmV0")
                   (vaultPasswords (set_token (Some "tok"%string) Sample.keyed_vault))
                 = Ok [Sample.bob])
    by exact (sealed_entry_decrypts (deriveKey "c2FsdA==" "master" "c2VjcmV0") 0
                "bob" "hunter2" (length_deriveKey "c2FsdA==" "master" "c2VjcmV0")
                (conj eq_refl eq_refl) (conj eq_refl eq_refl)).
  assert (Hclean : Forall decodable_entry [Sample.bob]).
  { constructor; [split; split; reflexivity|constructor]. }
  split; [exact Hdec|].
  exact (refused_password_change_rekeys_memory_only "master" "new password"
           (set_token (Some "tok"%string) Sample.keyed_vault)
           (set_server (mkServer true [] None None) Sample.keyed_world)
           "c2VjcmV0" [Sample.bob] "tok" Hs Hne Hdec Hclean eq_refl eq_refl
           (not_elem_of_nil _)).
Defined.

(** Without a key file the call stops at once; with the key file and one
    entry that does not decrypt it reports a wrong password. *)
Lemma rejected_password_change_changes_nothing_witness :
  changeMasterPassword "master" "new password" (Sample.vault [], Sample.world)
  = (Err CannotRetrieveSecretKey, (Sample.vault [], Sample.world))
  ∧ changeMasterPassword "master" "new password" (Sample.vault [7], Sample.keyed_world)
    = (Err CurrentPasswordIncorrect, (Sample.vault [7], Sample.keyed_world)).
Proof.
  assert (H0 : getSecretKey "alice" (Sample.vault [], Sample.world)
               = (Ok None, (Sample.vault [], Sample.world)))
    by (vm_compute; reflexivity).
  assert (Hs : getSecretKey "alice" (Sample.vault [7], Sample.keyed_world)
               = (Ok (Some "c2VjcmV0"%string), (Sample.vault [7], Sample.keyed_world)))
    by (vm_compute; reflexivity).
  assert (Hne : "c2VjcmV0"%string ≠ ""%string) by discriminate.
  split.
  - exact (proj1 (rejected_password_change_changes_nothing "master" "new password"
                    (Sample.vault []) Sample.world)
                 None H0 (or_introl eq_refl)).
  - exact (proj2 (rejected_password_change_changes_nothing "master" "new password"
                    (Sample.vault [7]) Sample.keyed_world)
                 "c2VjcmV0"%string (InvalidTagSize 0) Hs Hne eq_refl).
Defined.

(** A logged-in device whose vault holds two entries uploads it; another
    instance under the same key imports the document. *)
Lemma uploaded_vault_imports_witness :
  Forall entry_is_bytes (vaultPasswords Sample.device)
  ∧ parse_objects (uint8ArrayToString
                     (stringToUint8Array
                        (stringify_objects (map getAsObject (vaultPasswords Sample.device)))))
    = Ok (Some (map getAsObject (vaultPasswords Sample.device)))
  ∧ ∃ w' doc,
      uploadVault (Sample.device, Scenario.world0) = (Ok tt, (Sample.device, w'))
      ∧ stored (server w') = Some doc ∧ disk w' = disk Scenario.world0
      ∧ ∀ v2 w2, derivedKey v2 = derivedKey Sample.device →
          ∃ v3, importVaultData doc (v2, w2) = (Ok tt, (v3, w2))
                ∧ vaultPasswords v3 = vaultPasswords Sample.device
                ∧ salt v3 = salt Sample.device
                ∧ updatedAt v3 = updatedAt Sample.device.
Proof.
  assert (Hps : Forall entry_is_bytes (vaultPasswords Sample.device)).
  { constructor; [apply byte_entry_is_bytes; lia|].
    constructor; [apply byte_entry_is_bytes; lia|constructor]. }
  assert (Hj : parse_objects
                 (uint8ArrayToString
                    (stringToUint8Array
                       (stringify_objects (map getAsObject (vaultPasswords Sample.device)))))
               = Ok (Some (map getAsObject (vaultPasswords Sample.device))))
    by (vm_compute; reflexivity).
  split; [exact Hps|]. split; [exact Hj|].
  exact (uploaded_vault_imports Sample.device Scenario.world0 "tok" eq_refl eq_refl
           eq_refl (list_elem_of_here _ _) Hps Hj).
Defined.

(** Two entries exported, and imported into the vault that holds one. *)
Lemma exported_csv_imports_witness :
  Forall CSV.one_line [Sample.bob; Sample.quoted]
  ∧ Forall decodable_entry [Sample.bob; Sample.quoted]
  ∧ length (derivedKey Sample.stocked) = 32%nat ∧ bearer Sample.stocked = None
  ∧ CSV.data_lines (CSV.export_text [Sample.bob; Sample.quoted])
    = Ok (map CSV.export_row [Sample.bob; Sample.quoted])
  ∧ ∃ added v' w',
      CSV.importFromCSV (CSV.export_text [Sample.bob; Sample.quoted])
                        (Sample.stocked, Sample.world)
      = (Ok (2%nat, 0%nat), (v', w'))
      ∧ Forall2 CSV.same_content [Sample.bob; Sample.quoted] added
      ∧ getDecryptedPasswords v'
        = let* before := getDecryptedPasswords Sample.stocked in Ok (before ++ added).
Proof.
  assert (H1 : Forall CSV.one_line [Sample.bob; Sample.quoted]).
  { constructor; [repeat split|]. constructor; [repeat split|constructor]. }
  assert (H2 : Forall decodable_entry [Sample.bob; Sample.quoted]).
  { constructor; [split; split; reflexivity|].
    constructor; [split; split; reflexivity|constructor]. }
  split; [exact H1|]. split; [exact H2|]. split; [reflexivity|]. split; [reflexivity|].
  exact (proj2 (exported_csv_imports [Sample.bob; Sample.quoted] Sample.stocked
                  Sample.world H1 H2 eq_refl eq_refl)).
Defined.

(** The secret key of alice stored in a world without files. *)
Lemma stored_secret_key_reads_back_witness :
  plain_name "alice"
  ∧ ∃ w', storeSecretKey "alice" "c2VjcmV0" (Sample.vault [], Sample.world)
          = (Ok tt, (Sample.vault [], w'))
          ∧ getSecretKey "alice" (Sample.vault [], w')
            = (Ok (Some "c2VjcmV0"%string), (Sample.vault [], w')).
Proof.
  split; [reflexivity|].
  exact (stored_secret_key_reads_back "alice" "c2VjcmV0" (Sample.vault []) Sample.world
           eq_refl).
Defined.

(** The block 100, 101, ..., 115. *)
Lemma GF128_bytes_round_trip_witness :
  ∃ x, GHash.fromBytes (map Z.of_nat (seq 100 16)) = Ok x
       ∧ GHash.toBytes x = map Z.of_nat (seq 100 16)
       ∧ GHash.fromBytes (GHash.toBytes x) = Ok x.
Proof.
  exact (GF128_bytes_round_trip (map Z.of_nat (seq 100 16)) eq_refl sample_block_is_bytes).
Defined.
